(* ===== verification/_CoqProject ===== *)
-Q . S2P
Prelude.v
Interleave.v
Mutex.v
LruInterface.v
SimpleLru.v
Arc.v
CacheProps.v
GoValues.v
Bytes.v
GoFmt.v
Metrics.v
InMemory.v
InMemoryProps.v
InMemoryConc.v
Janitor.v
Pkcs.v
Aes.v
Crypto.v
Sha256.v
Sha1.v
Strconv.v
Generic.v
GenericProps.v
MapStore.v
FacadeSpec.v
RobfigCache.v
RobfigProps.v
RobfigConc.v
RobfigUse.v
TestStore.v
TestProps.v
GinCache.v
GinProps.v
PageFacade.v
PageAtomic.v
GinRender.v
Example.v
ExampleMemory.v
GobRegistry.v
RedisPool.v
RedisProps.v
RedisCommands.v
RedisServer.v
RedisRefine.v
RedisStoreProps.v
RedisSuite.v
ExampleInit.v
PageRedis.v
