(* ===== verification/Prelude.v ===== *)
(** * go-cache: a verification library

    go-cache is a Go library of caches: an in-memory store with expiry over an
    adaptive replacement cache, a facade that signs keys and encrypts entries over
    any store, pools and initialisers for Redis, and a page cache middleware for
    gin.  This library translates that code into executable definitions and proves
    what it guarantees, and where it does not guarantee what its comments say.

    ** The program and the files

    Code without effects is a function.  Code with effects is a [prog E]: a tree of
    atomic calls [E], clock readings, log lines and panics, whose continuations are
    functions of the answers.  [run] executes such a program alone on a [world] (a
    state, the number of clock readings so far, the log); [Interleave.v] executes
    many of them action by action in any order.  The clock is a function from the
    index of a reading to nanoseconds; where a theorem needs it, the hypothesis is
    that it never goes back ([monotone]).

    - [Prelude.v] (this file): machine integers, list and map lemmas, strings,
      programs and their runs, [defer] and recovery of panics.
    - [Interleave.v]: schedules of several programs over one state, and contracts
      for atomic calls that keep an invariant under every schedule.
    - [Mutex.v]: sync.Mutex: goroutines that run a body under one mutex are
      serializable and never deadlock.
    - [LruInterface.v]: recency lists and the class [LRUCache], which is what
      simplelru's Go interface promises.
    - [SimpleLru.v]: simplelru/lru.go (element heap, map and eviction list), an
      instance of [LRUCache].
    - [Arc.v]: golang-lru/arc.go, [ARCCache], over any [LRUCache].
    - [CacheProps.v]: theorems on both caches over histories of calls.
    - [GoValues.v]: the values of [interface{}], [%T], type assertions, errors, and
      persistence.CacheStore as the class [CacheStore].
    - [Metrics.v]: metrics.go over the registry and the collectors of prometheus.
    - [InMemory.v]: inmemory.go, every method of [InMemoryStore], the gauge of
      metrics.go, [DeleteExpired]; the abstract map specification and the
      simulation; the [CacheStore] instance.
    - [InMemoryProps.v], [InMemoryConc.v]: what the store guarantees to one
      goroutine, and to many.
    - [Janitor.v]: the janitor goroutine and its finalizer as a step relation.
    - [Bytes.v], [Pkcs.v]: bytes; pkcs.go.
    - [Aes.v], [Crypto.v]: AES-128 and CBC; keyAndIV, encryptByteArray and
      decryptByteArray of generic.go over the class [BlockCipher].
    - [Sha256.v], [Sha1.v], [GoFmt.v]: SHA-256, HMAC and entrySignature; SHA-1 and
      url.QueryEscape; the fmt verbs of the messages.
    - [Generic.v], [GenericProps.v]: every method of [GenericCache] over any
      [CacheStore]; the classes [ReadYourWrite] (what the facade asks of a store) and
      [PageStore] (what the page cache asks), and the theorems proved against them;
      [InMemoryStore] implements both.
    - [MapStore.v]: the class [MapStore], a store that behaves as a map with deadlines;
      [InMemoryStore] is one, and so is a [GenericCache] in front of one.
    - [FacadeSpec.v]: what every call of [GenericCache] does in front of such a store,
      encryption included, and that the facade refines it.
    - [RobfigCache.v]: persistence.InMemoryStore and the cache of robfig/go-cache under
      it: a map of items behind one mutex.  [RobfigProps.v]: the map whose entries vanish
      at their deadlines, which the store refines.  [RobfigConc.v]: its methods as
      critical sections, and concurrent callers.  [RobfigUse.v]: the store as a
      [ReadYourWrite], behind a [GenericCache], and its construction.
    - [TestStore.v], [TestProps.v]: the suites of generic_test_store.go as programs
      over any store, and that every [MapStore] passes them.
    - [GinCache.v], [GinProps.v]: galapagos_gin/cache/cache.go: gin's response
      writer, the cached writer, [Cache], [SiteCache] and [CachePage], over any store
      whose calls act on the store's part of the state, or (class [StoreHandler]) on the
      header maps and buffers too.
    - [PageFacade.v]: the page cache over a [GenericCache].
    - [PageAtomic.v]: [CachePageAtomic] and the requests that run it concurrently.
    - [GinRender.v]: pages rendered with gin's [Context.String] behind the page cache.
    - [Example.v], [ExampleMemory.v]: the routes of example/example.go; the cache its
      [init] makes over persistence.InMemoryStore.
    - [GobRegistry.v]: the registrations with encoding/gob.
    - [RedisPool.v], [RedisProps.v]: redispool.go over an arbitrary network.
    - [Strconv.v], [RedisCommands.v]: ParseInt and ParseUint; the methods of
      persistence.RedisStore and the serialization of values.
    - [RedisServer.v], [RedisRefine.v], [RedisStoreProps.v]: the documented commands
      of a Redis server (the class [RedisServer]), the refinement of the store's
      methods to operations on its database, and the store's theorems.
    - [RedisSuite.v]: test suites on RedisStore and on a [GenericCache] in front of it.
    - [ExampleInit.v]: the Redis part of the example's [init].
    - [PageRedis.v]: pages kept in Redis: the store's methods on values that refer to the
      heap of the page cache, and the page cache in front of a [GenericCache] in front of
      Redis.

    ** What the theorems show

    - Replacement caches.  In every history from its constructor the linked-list
      LRU answers as a plain recency list; the ARC keeps its four segments well
      formed and disjoint, its hits are the last values added, and it holds at most
      one entry more than its size, which does happen ([arc_size_exceeded]).
    - In-memory store.  Each method answers what an abstract map with deadlines
      specifies, up to evictions of other keys; hits are truthful, and values of any
      type live as long as they were set for, to two seconds; sweeps are exact; counters are exact modulo 2^64.  Under any interleaving the
      store stays well formed and no assertion panics, but increments, additions and
      fresh values can be lost.
    - persistence.InMemoryStore.  Each method answers what a map with deadlines
      specifies; expired items and sweeps cannot be observed; concurrent calls and
      sweeps are linearizable and end, and no increment is lost.  A [GenericCache] in
      front of it refines the same specification.  Its constructor leaves the
      finalizer of the janitor on an object nothing refers to.
    - Janitor.  A pending tick leads to a complete sweep; a stop reaches a running
      janitor, and is lost before the janitor has made its channel.
    - Encryption.  Padding, CBC and the entry encryption round trip, with the exact
      cases that are refused or panic; the initialisation vector is the key.
    - Facade.  Set then Get gives the data back, encrypted or not; the error and log
      behaviour on every branch of the guards; which pool is read; what identifies a
      key; the deadline AddExistingEntry gives to its copy.  In front of an in-memory
      store every call, of any value and destination, encrypting or not, does to the
      store's map what an abstract facade specifies ([facade_refines_spec]).
    - Page cache.  What is sent and what is replayed, spans, keys, and the buffers
      and header maps that stay shared with the handler; a page without
      x-okay-to-cache is stored but computed again.  Concurrent requests through
      CachePageAtomic are served as if one at a time, never deadlock, and compute a
      page once.  A page rendered by gin loses its status in the cache, and a page kept
      in an encrypting [GenericCache] is stored in the clear.  [page_over_redis] follows
      a page through all the layers: page cache, facade, RedisStore and server, and back.
    - Suites.  Each suite of generic_test_store.go, as a program, reports no error on
      any store that behaves as a map; testAdd and testReplace need a janitor, and
      testAdd fails without one ([suite_testAdd_without_janitor]).  Four of them on
      Redis too; the one with absolute deadlines needs the clocks of program and server
      to be related ([suite_incrAtomic_redis]).
    - Metrics and example.  Counters are exact and exported exactly when registered;
      the example's routes store what they answered and answer from the cache then; its
      [init] gives the read pool a default of 30 minutes and ignores REDIS_ADDRESS.
    - Redis.  The exact history of a dial, whatever the network answers: a connection
      is returned only if it accepted AUTH and SELECT, and is closed otherwise; the address New chooses.  Every method of RedisStore acts on the
      server's database as specified, reads back what it wrote for as long as its
      duration says, and gives its connection back whatever happens; IncrementCheckSet
      loses updates, Increment discards the deadline of a counter, and a server that
      cannot be reached reads as an empty cache.

    ** Bounds, parameters and hypotheses

    No definition runs on arbitrary fuel: loops are structural, over the keys of a
    cache, the blocks of a message (counted from its length) or the cases of a size.
    Go's [int], [int64], [uint64] and [time.Duration] wrap around at 64 bits; the
    lengths of caches and slices are plain integers, since memory keeps them far
    below 2^63.  time.Unix is taken without the wrap-around of deadlines beyond
    2^63 - 62135596800 seconds, and a server takes any EXPIREAT of 64 bits.

    Programs are inductive, so what they run of their callers (the handlers of pages,
    the bodies under a mutex) is finite: that a schedule ends means that it ends if
    they do, and nothing is said of a handler that never returns.

    Parameters: encoding/gob ([gob_encode], [gob_decode], with the hypothesis
    [gob_faithful] that decoding gives back what was encoded; for pages in Redis
    [gob_enc] and [gob_dec] on their contents, with the same hypothesis [gob_pages] for
    pages that have a header and a body), the printing of a
    local time, strconv.Quote (for Redis), what other goroutines do while a test suite
    sleeps, the order in which a header map is ranged over (a
    permutation of its bindings) and the items of a swept map, url.Parse, the network with the sentinel, Redis and
    Kubernetes clients, the Redis server (with the hypothesis that it answers as its
    commands are documented), the environment, and the clocks.

    [RobfigConc.v] uses functional extensionality, to identify programs whose
    continuations agree.

    ** What is not modelled

    - MSetNX and Mget of persistence.RedisStore, and IncrementFloat, Save, Load and the
      sharded cache of robfig/go-cache, which nothing calls; the pools and connections
      of redigo and the sentinel client, which appear as atomic calls.
    - Of the example server, the set-up of gin and prometheus in [main].
    - The tags of the tracing spans (kind, number of goroutines).
    - gin's renderers other than text; the gathering of metrics.
    - For the suites expiration, testAdd, testReplace and typicalGetSet there are theorems
      on stores in memory, not on Redis.
    - AES with 24 or 32 bytes of key, which keyAndIV never yields; the eviction
      callback of simplelru, which is nil in every use; a ReadCache chain that leads
      back to itself. *)

From stdpp Require Export base gmap strings list fin_maps.
From Stdlib Require Export ZArith Lia.

(** ** Machine integers

    Go's integers are kept at their width: a signed [w]-bit value is a [Z] in
    [[-2^(w-1), 2^(w-1))], an unsigned one a [Z] in [[0, 2^w)].  Arithmetic and
    conversions wrap around.  [int] is 64 bits wide. *)
Section machine_integers.
Local Open Scope Z_scope.

Definition wrapU (w z : Z) : Z := z mod 2 ^ w.
Definition wrapS (w z : Z) : Z := (z + 2 ^ (w - 1)) mod 2 ^ w - 2 ^ (w - 1).

(** [int64(x)], also [int(x)] and [time.Duration(x)]; [uint64(x)]; [int32(x)]. *)
Definition int64 (z : Z) : Z := wrapS 64 z.
Definition uint64 (z : Z) : Z := wrapU 64 z.
Definition int32 (z : Z) : Z := wrapS 32 z.

Definition in_int64 (z : Z) : Prop := - 2 ^ 63 <= z < 2 ^ 63.
Definition in_uint64 (z : Z) : Prop := 0 <= z < 2 ^ 64.

Lemma int64_range z : in_int64 (int64 z).
Proof.
  unfold int64, wrapS, in_int64.
  pose proof (Z.mod_pos_bound (z + 2 ^ (64 - 1)) (2 ^ 64) eq_refl).
  change (2 ^ (64 - 1)) with (2 ^ 63) in *. change (2 ^ 64) with (2 * 2 ^ 63) in *. lia.
Qed.

Lemma uint64_range z : in_uint64 (uint64 z).
Proof. apply Z.mod_pos_bound. reflexivity. Qed.

Lemma int64_id z : in_int64 z -> int64 z = z.
Proof.
  unfold int64, wrapS, in_int64. intros H.
  rewrite Z.mod_small; [lia|].
  change (2 ^ (64 - 1)) with (2 ^ 63). change (2 ^ 64) with (2 * 2 ^ 63). lia.
Qed.

Lemma uint64_id z : in_uint64 z -> uint64 z = z.
Proof. apply Z.mod_small. Qed.

Lemma uint64_nonneg_int64 z : 0 <= z -> in_int64 z -> uint64 z = z.
Proof. unfold in_int64. intros. apply uint64_id. unfold in_uint64. lia. Qed.

(** [uint64(int64(x))] keeps the value modulo [2^64]. *)
Lemma uint64_int64 z : uint64 (int64 z) = uint64 z.
Proof.
  unfold uint64, int64, wrapU, wrapS.
  rewrite Zminus_mod_idemp_l. f_equal. lia.
Qed.

Lemma uint64_add_congr a b n : uint64 a = uint64 b -> uint64 (a + n) = uint64 (b + n).
Proof.
  unfold uint64, wrapU. intros Hab. by rewrite <- (Zplus_mod_idemp_l a), Hab, Zplus_mod_idemp_l.
Qed.

Lemma int64_add_mod a b : int64 (a + int64 b) = int64 (a + b).
Proof.
  unfold int64, wrapS.
  replace (a + ((b + 2 ^ (64 - 1)) mod 2 ^ 64 - 2 ^ (64 - 1)) + 2 ^ (64 - 1))
    with (a + (b + 2 ^ (64 - 1)) mod 2 ^ 64) by lia.
  rewrite Zplus_mod_idemp_r. f_equal. f_equal. lia.
Qed.

Lemma int64_add_2_64 z : int64 (z + 2 ^ 64) = int64 z.
Proof.
  unfold int64, wrapS. replace (z + 2 ^ 64 + 2 ^ (64 - 1)) with (z + 2 ^ (64 - 1) + 1 * 2 ^ 64) by lia.
  by rewrite Z.mod_add.
Qed.

Lemma int64_sub_mod a b : int64 (a - int64 b) = int64 (a - b).
Proof.
  unfold int64, wrapS. f_equal.
  replace (a - ((b + 2 ^ (64 - 1)) mod 2 ^ 64 - 2 ^ (64 - 1)) + 2 ^ (64 - 1))
    with (a + 2 ^ 64 - (b + 2 ^ (64 - 1)) mod 2 ^ 64) by lia.
  rewrite Zminus_mod_idemp_r.
  replace (a + 2 ^ 64 - (b + 2 ^ (64 - 1))) with (a - b + 2 ^ (64 - 1)) by lia. done.
Qed.

(** Adding values that were cut to a width. *)
Lemma wrapU_add w a b : wrapU w (wrapU w a + wrapU w b) = wrapU w (a + b).
Proof. unfold wrapU. by rewrite Zplus_mod_idemp_l, Zplus_mod_idemp_r. Qed.

Lemma wrapS_add w a b : wrapS w (wrapS w a + wrapS w b) = wrapS w (a + b).
Proof.
  unfold wrapS. f_equal. set (h := 2 ^ (w - 1)).
  replace ((a + h) mod 2 ^ w - h + ((b + h) mod 2 ^ w - h) + h) with ((a + h) mod 2 ^ w + ((b + h) mod 2 ^ w - h)) by lia.
  rewrite Zplus_mod_idemp_l. replace (a + h + ((b + h) mod 2 ^ w - h)) with ((b + h) mod 2 ^ w + a) by lia.
  rewrite Zplus_mod_idemp_l. f_equal. lia.
Qed.

Lemma int64_add_both a b : int64 (int64 a + int64 b) = int64 (a + b).
Proof. apply wrapS_add. Qed.

Lemma uint64_add_both a b : uint64 (uint64 a + uint64 b) = uint64 (a + b).
Proof. apply wrapU_add. Qed.

Lemma int32_in_int64 z : in_int64 (int32 z).
Proof.
  unfold int32, wrapS, in_int64. pose proof (Z.mod_pos_bound (z + 2 ^ (32 - 1)) (2 ^ 32) eq_refl).
  change (2 ^ (32 - 1)) with (2 ^ 31) in *. assert (2 ^ 32 < 2 ^ 63 /\ 2 ^ 31 < 2 ^ 63) by done. lia.
Qed.
End machine_integers.
Global Opaque int64 uint64 int32.

(** ** Time

    A reading of [time.Now()] is a [Z] of nanoseconds since the Unix epoch, a
    [time.Duration] a signed 64-bit number of nanoseconds. *)
Section time.
Local Open Scope Z_scope.

Definition Nanosecond : Z := 1.
Definition Millisecond : Z := 1000000.
Definition Second : Z := 1000000000.
Definition Minute : Z := 60 * Second.

(** [t.Unix()]: whole seconds, rounded towards minus infinity. *)
Definition Unix (t : Z) : Z := int64 (t / Second).

(** [time.Unix(sec, 0).Before(now)]. *)
Definition unix_before (sec now : Z) : bool := sec * Second <? now.

(** [int64(d / time.Second)]: Go's integer division truncates towards zero. *)
Definition seconds (d : Z) : Z := Z.quot d Second.

Lemma seconds_nonneg d : 0 <= d -> 0 <= seconds d /\ seconds d * Second <= d.
Proof.
  intros H. unfold seconds, Second.
  pose proof (Z.quot_pos d 1000000000 H ltac:(lia)).
  pose proof (Z.quot_rem' d 1000000000).
  pose proof (Z.rem_bound_pos d 1000000000 H ltac:(lia)). lia.
Qed.

Lemma seconds_exact n : seconds (n * Second) = n.
Proof. apply Z.quot_mul. discriminate. Qed.
End time.

(** ** Lists *)
Lemma filter_all_id {A} (P : A -> Prop) `{forall x, Decision (P x)} (l : list A) :
  (forall x, x ∈ l -> P x) -> filter P l = l.
Proof.
  induction l as [|x l IH]; intros Hl; [done|].
  rewrite filter_cons_True by (apply Hl; left). f_equal. apply IH. intros y Hy. apply Hl. by right.
Qed.

(** Restricting a map to the keys of a partial function. *)
Lemma map_restrict {K A B} `{Countable K} (f : K -> option B) (m : gmap K A) :
  exists m', m' ⊆ m /\ forall k, m' !! k = match f k with Some _ => m !! k | None => None end.
Proof.
  exists (filter (fun ke => is_Some (f ke.1)) m). split; [apply map_filter_subseteq|].
  intros k. apply option_eq. intros a. rewrite map_lookup_filter_Some. simpl.
  destruct (f k); split; try done; [naive_solver|by intros [_ []]].
Qed.

(** ** Strings *)
Lemma string_length_app (a b : string) : String.length (a +:+ b) = (String.length a + String.length b)%nat.
Proof. induction a as [|x a IH]; simpl; [done|]. by rewrite IH. Qed.

Lemma string_app_split (p q a b : string) : String.length a = String.length b ->
  p +:+ a = q +:+ b -> p = q /\ a = b.
Proof.
  intros Hl. revert q. induction p as [|x p IH]; intros [|y q] Heq; simpl in *.
  - done.
  - apply (f_equal String.length) in Heq. rewrite !string_length_app in Heq. simpl in Heq. lia.
  - apply (f_equal String.length) in Heq. rewrite !string_length_app in Heq. simpl in Heq. lia.
  - injection Heq as -> Heq. destruct (IH q Heq) as [-> ->]. done.
Qed.

(** ** Programs

    The code under verification calls the clock, writes log lines, panics, and
    acts on shared objects through calls that are atomic (each method of
    [lru.ARCCache] runs under its mutex).  A method is translated to a [prog E A]:
    a tree of those actions ending in a result.  [E] is the type of the atomic
    calls; [Vis e k] performs the call [e] and continues with its answer.

    A sequential execution is [run]; the interleaved executions of several
    programs are the step relation of [Interleave]. *)
Inductive log_level := LDebug | LInfo | LError.

(** Where a log line goes: a [logrus.Entry] (identified by a name), the standard
    error stream, or the standard logger of package [log]. *)
Inductive log_sink := SinkLogger (name : string) | SinkStderr | SinkStdLog.

Record log_line := LogLine { ll_sink : log_sink; ll_level : log_level; ll_msg : string }.

Inductive prog (E : Type -> Type) (A : Type) : Type :=
| Ret (a : A)
| Panic (msg : string)
| Now (k : Z -> prog E A)
| Log (l : log_line) (k : prog E A)
| Vis (X : Type) (e : E X) (k : X -> prog E A).
Arguments Ret {E A} a.
Arguments Panic {E A} msg.
Arguments Now {E A} k.
Arguments Log {E A} l k.
Arguments Vis {E A X} e k.

Fixpoint prog_bind {E A B} (f : A -> prog E B) (p : prog E A) : prog E B :=
  match p with
  | Ret a => f a
  | Panic msg => Panic msg
  | Now k => Now (fun t => prog_bind f (k t))
  | Log l k => Log l (prog_bind f k)
  | Vis e k => Vis e (fun x => prog_bind f (k x))
  end.

#[global] Instance prog_mret E : MRet (prog E) := fun A => Ret.
#[global] Instance prog_mbind E : MBind (prog E) := fun A B => prog_bind.

(** [time.Now()], one log line, one atomic call. *)
Definition time_Now {E} : prog E Z := Now Ret.
Definition log {E} (l : log_line) : prog E unit := Log l (Ret tt).
Definition call {E X} (e : E X) : prog E X := Vis e Ret.

(** A failed type assertion, an index out of range and the like. *)
Definition assert_some {E A} (o : option A) (msg : string) : prog E A :=
  match o with Some a => Ret a | None => Panic msg end.

(** [defer fin] around [p]: [fin] runs when [p] returns and when it panics. *)
Fixpoint defer {E A} (fin : prog E unit) (p : prog E A) : prog E A :=
  match p with
  | Ret a => prog_bind (fun _ => Ret a) fin
  | Panic msg => prog_bind (fun _ => Panic msg) fin
  | Now k => Now (fun t => defer fin (k t))
  | Log l k => Log l (defer fin k)
  | Vis e k => Vis e (fun x => defer fin (k x))
  end.

(** Translate the atomic calls of a program. *)
Fixpoint embed {E F A} (f : forall X, E X -> F X) (p : prog E A) : prog F A :=
  match p with
  | Ret a => Ret a
  | Panic msg => Panic msg
  | Now k => Now (fun t => embed f (k t))
  | Log l k => Log l (embed f k)
  | Vis e k => Vis (f _ e) (fun x => embed f (k x))
  end.

(** Sequencing re-associates over the primitive actions. *)
Section bind_lemmas.
Context {E : Type -> Type} {A B C : Type}.

Lemma bind_call {X} (e : E X) (f : X -> prog E B) (g : B -> prog E C) :
  ((call e ≫= f) ≫= g) = (call e ≫= fun x => f x ≫= g).
Proof. done. Qed.

Lemma bind_Now (f : Z -> prog E B) (g : B -> prog E C) :
  ((time_Now ≫= f) ≫= g) = (time_Now ≫= fun t => f t ≫= g).
Proof. done. Qed.

Lemma bind_log l (f : unit -> prog E B) (g : B -> prog E C) :
  ((log l ≫= f) ≫= g) = (log l ≫= fun x => f x ≫= g).
Proof. done. Qed.

Lemma bind_mret (a : A) (f : A -> prog E B) : (mret a ≫= f) = f a.
Proof. done. Qed.

Lemma bind_assert_Some (a : A) msg (f : A -> prog E B) : (assert_some (Some a) msg ≫= f) = f a.
Proof. done. Qed.

Lemma bind_assert_None msg (f : A -> prog E B) : (assert_some None msg ≫= f) = Panic msg.
Proof. done. Qed.
End bind_lemmas.

(** The state a program runs in: the shared objects, the number of clock readings
    taken so far, and the log.  [clock n] is the [n]-th reading of [time.Now()]. *)
Record world (S : Type) := World { w_state : S; w_tick : nat; w_log : list log_line }.
Arguments World {S} w_state w_tick w_log.
Arguments w_state {S} w.
Arguments w_tick {S} w.
Arguments w_log {S} w.

Inductive outcome (A : Type) := Done (a : A) | Crash (msg : string).
Arguments Done {A} a.
Arguments Crash {A} msg.

(** The effect of an atomic call on the shared state. *)
Class Handler (E : Type -> Type) (S : Type) := handle : forall X, E X -> S -> X * S.
Arguments handle {E S _ X} e s.

Definition set_state {S} (w : world S) (s : S) : world S := World s (w_tick w) (w_log w).
Lemma set_state_id {S} (w : world S) : set_state w (w_state w) = w.
Proof. by destruct w. Qed.
Definition tick {S} (w : world S) : world S := World (w_state w) (Datatypes.S (w_tick w)) (w_log w).
Definition add_log {S} (w : world S) (l : log_line) : world S :=
  World (w_state w) (w_tick w) (w_log w ++ [l]).

(** Sequential execution. A panic keeps the state reached when it was raised. *)
Fixpoint run {E S A} `{Handler E S} (clock : nat -> Z) (p : prog E A) (w : world S)
    : outcome A * world S :=
  match p with
  | Ret a => (Done a, w)
  | Panic msg => (Crash msg, w)
  | Now k => run clock (k (clock (w_tick w))) (tick w)
  | Log l k => run clock k (add_log w l)
  | Vis e k => let '(x, s) := handle e (w_state w) in run clock (k x) (set_state w s)
  end.

(** A clock that never runs backwards. *)
Definition monotone (clock : nat -> Z) : Prop :=
  forall i j, (i <= j)%nat -> (clock i <= clock j)%Z.

Section run_lemmas.
Context {E : Type -> Type} {S : Type} `{Handler E S} (clock : nat -> Z).

Lemma run_bind {A B} (p : prog E A) (f : A -> prog E B) (w : world S) :
  run clock (p ≫= f) w =
    match run clock p w with
    | (Done a, w') => run clock (f a) w'
    | (Crash msg, w') => (Crash msg, w')
    end.
Proof.
  revert w. induction p as [a|msg|k IH|l k IH|X e k IH]; intros w; simpl.
  - done.
  - done.
  - apply IH.
  - apply IH.
  - destruct (handle e (w_state w)) as [x s]. apply IH.
Qed.

Lemma run_bind_done {A B} (p : prog E A) (f : A -> prog E B) (w w' : world S) a :
  run clock p w = (Done a, w') -> run clock (p ≫= f) w = run clock (f a) w'.
Proof. intros Hp. by rewrite run_bind, Hp. Qed.

(** The primitive actions in head position. *)
Lemma run_call {X B} (e : E X) (f : X -> prog E B) (w : world S) :
  run clock (call e ≫= f) w =
    let '(x, s) := handle e (w_state w) in run clock (f x) (set_state w s).
Proof. done. Qed.

Lemma run_call_eq {X B} (e : E X) (f : X -> prog E B) (w : world S) x s :
  handle e (w_state w) = (x, s) -> run clock (call e ≫= f) w = run clock (f x) (set_state w s).
Proof. intros He. by rewrite run_call, He. Qed.

Lemma run_call_last {X} (e : E X) (w : world S) x s :
  handle e (w_state w) = (x, s) -> run clock (call e) w = (Done x, set_state w s).
Proof. intros He. unfold call. simpl. by rewrite He. Qed.

Lemma run_time_Now {B} (f : Z -> prog E B) (w : world S) :
  run clock (time_Now ≫= f) w = run clock (f (clock (w_tick w))) (tick w).
Proof. done. Qed.

Lemma run_log {B} (l : log_line) (f : unit -> prog E B) (w : world S) :
  run clock (log l ≫= f) w = run clock (f tt) (add_log w l).
Proof. done. Qed.

Lemma run_mret {A} (a : A) (w : world S) : run clock (mret a) w = (Done a, w).
Proof. done. Qed.

Lemma run_mret_bind {A B} (a : A) (f : A -> prog E B) (w : world S) :
  run clock (mret a ≫= f) w = run clock (f a) w.
Proof. done. Qed.

Lemma run_assert {A B} (a : A) msg (f : A -> prog E B) (w : world S) :
  run clock (assert_some (Some a) msg ≫= f) w = run clock (f a) w.
Proof. done. Qed.

Lemma run_assert_None {A B} msg (f : A -> prog E B) (w : world S) :
  run clock (assert_some None msg ≫= f) w = (Crash msg, w).
Proof. done. Qed.

(** Running a program never loses clock readings or log lines. *)
Lemma run_tick {A} (p : prog E A) (w : world S) : (w_tick w <= w_tick (run clock p w).2)%nat.
Proof.
  revert w. induction p as [a|msg|k IH|l k IH|X e k IH]; intros w; simpl; try lia.
  - specialize (IH (clock (w_tick w)) (tick w)). simpl in IH. lia.
  - apply (IH (add_log w l)).
  - destruct (handle e (w_state w)) as [x s]. apply (IH x (set_state w s)).
Qed.

Lemma run_log_prefix {A} (p : prog E A) (w : world S) : w_log w `prefix_of` w_log (run clock p w).2.
Proof.
  revert w. induction p as [a|msg|k IH|l k IH|X e k IH]; intros w; simpl; try done.
  - apply (IH _ (tick w)).
  - etrans; [|apply (IH (add_log w l))]. simpl. by apply prefix_app_r.
  - destruct (handle e (w_state w)) as [x s]. apply (IH x (set_state w s)).
Qed.

(** The deferred program runs in the world the body leaves. *)
Lemma run_defer {A} (fin : prog E unit) (p : prog E A) (w : world S) :
  run clock (defer fin p) w =
    let '(o, w1) := run clock p w in
    let '(f, w2) := run clock fin w1 in
    (match f with Done _ => o | Crash msg => Crash msg end, w2).
Proof.
  revert w. induction p as [a|msg|k IH|l k IH|X e k IH]; intros w; simpl.
  - change (prog_bind _ fin) with (fin ≫= fun _ => Ret a). rewrite run_bind.
    by destruct (run clock fin w) as [[]].
  - change (prog_bind _ fin) with (fin ≫= fun _ => Panic (A := A) msg). rewrite run_bind.
    by destruct (run clock fin w) as [[]].
  - apply IH.
  - apply IH.
  - destruct (handle e (w_state w)) as [x s]. apply IH.
Qed.

(** A state invariant every atomic call preserves is preserved by every program. *)
Lemma run_invariant {A} (I : S -> Prop) (p : prog E A) (w : world S) :
  (forall X (e : E X) s, I s -> I (handle e s).2) ->
  I (w_state w) -> I (w_state (run clock p w).2).
Proof.
  intros Hstep. revert w. induction p as [a|msg|k IH|l k IH|X e k IH]; intros w Hw; simpl; try done.
  - by apply IH.
  - by apply IH.
  - pose proof (Hstep X e (w_state w) Hw) as He.
    destruct (handle e (w_state w)) as [x s]. by apply IH.
Qed.
End run_lemmas.
(** A program on a part of the state: [get] and [put] give access to the part, and
    [f] makes its calls there. *)
Section run_embed.
Context {E F : Type -> Type} {S U : Type} `{Handler E S, Handler F U} (clock : nat -> Z).
Context (f : forall X, E X -> F X) (get : U -> S) (put : U -> S -> U).
Context (get_put : forall u s, get (put u s) = s) (put_put : forall u s s', put (put u s) s' = put u s').
Context (f_handle : forall X (e : E X) u, handle (f X e) u = let '(x, s) := handle e (get u) in (x, put u s)).

Lemma run_embed {A} (p : prog E A) (w : world U) : put (w_state w) (get (w_state w)) = w_state w ->
  run clock (embed f p) w =
    let '(o, w1) := run clock p (World (get (w_state w)) (w_tick w) (w_log w)) in
    (o, World (put (w_state w) (w_state w1)) (w_tick w1) (w_log w1)).
Proof.
  revert w. induction p as [a|msg|k IH|l k IH|X e k IH]; intros w Hw; cbn [embed run w_state w_tick w_log].
  - rewrite Hw. by destruct w.
  - rewrite Hw. by destruct w.
  - by rewrite IH.
  - by rewrite IH.
  - rewrite f_handle. destruct (handle e (get (w_state w))) as [x s].
    rewrite IH by (cbn [w_state set_state]; by rewrite get_put, put_put).
    cbn [w_state set_state w_tick w_log]. rewrite get_put.
    change (World s (w_tick w) (w_log w)) with (set_state (World (get (w_state w)) (w_tick w) (w_log w)) s).
    destruct (run clock (k x) _) as [o w1]. by rewrite put_put.
Qed.
End run_embed.

Create Rewrite HintDb go_run.
#[export] Hint Rewrite @run_time_Now @run_log @run_mret @run_mret_bind @run_assert
  @run_assert_None : go_run.
Global Arguments handle : simpl never.
