(* ===== verification/Interleave.v ===== *)
(** * Interleaved execution of programs, and contracts that survive it

    Goroutines share the state and run their programs action by action in any
    order.  A contract gives, for every atomic call, what the caller owes and what
    the answer promises; programs that conform to it keep the shared invariant in
    every interleaving. *)

From S2P Require Import Prelude.

Section interleaving.
Context {E : Type -> Type} {S A : Type} `{Handler E S} (clock : nat -> Z).
Implicit Types (p : prog E A) (w : world S) (ps : list (prog E A)).

(** One action of one goroutine. *)
Inductive thread_step : prog E A -> world S -> prog E A -> world S -> Prop :=
  | step_now k w : thread_step (Now k) w (k (clock (w_tick w))) (tick w)
  | step_log l p w : thread_step (Log l p) w p (add_log w l)
  | step_vis X (e : E X) k w x s :
      handle e (w_state w) = (x, s) -> thread_step (Vis e k) w (k x) (set_state w s).

(** A pool of goroutines: any one of them may act. *)
Inductive pool_step : world S * list (prog E A) -> world S * list (prog E A) -> Prop :=
  | step_at i p p' w w' ps :
      ps !! i = Some p -> thread_step p w p' w' -> pool_step (w, ps) (w', <[i := p']> ps).

Definition reaches := rtc pool_step.

(** One call, or one reading of the clock, of goroutine [i]. *)
Lemma reaches_call i {X} (e : E X) (f : X -> prog E A) w ps x s b :
  ps !! i = Some (call e ≫= f) -> handle e (w_state w) = (x, s) ->
  reaches (set_state w s, <[i := f x]> ps) b -> reaches (w, ps) b.
Proof. intros Hi He. apply rtc_l. eapply step_at; [done|]. by constructor. Qed.

Lemma reaches_now i (f : Z -> prog E A) w ps b :
  ps !! i = Some (time_Now ≫= f) ->
  reaches (tick w, <[i := f (clock (w_tick w))]> ps) b -> reaches (w, ps) b.
Proof. intros Hi. apply rtc_l. eapply step_at; [done|]. constructor. Qed.

(** What a program that has nothing left to do answers. *)
Definition finished (o : outcome A) : prog E A :=
  match o with Done a => Ret a | Crash msg => Panic msg end.

(** Running one goroutine alone is one of the interleavings. *)
Lemma run_reaches p w i ps : ps !! i = Some p ->
  reaches (w, ps) ((run clock p w).2, <[i := finished (run clock p w).1]> ps).
Proof.
  revert w ps. induction p as [a|msg|k IH|l k IH|X e k IH]; intros w ps Hi; simpl.
  - rewrite list_insert_id by done. apply rtc_refl.
  - rewrite list_insert_id by done. apply rtc_refl.
  - eapply rtc_l; [by eapply step_at, step_now|].
    assert (<[i := k (clock (w_tick w))]> ps !! i = Some (k (clock (w_tick w)))) as Hi'.
    { apply list_lookup_insert_eq. by eapply lookup_lt_Some. }
    specialize (IH _ (tick w) _ Hi'). by rewrite list_insert_insert_eq in IH.
  - eapply rtc_l; [by eapply step_at, step_log|].
    assert (<[i := k]> ps !! i = Some k) as Hi'.
    { apply list_lookup_insert_eq. by eapply lookup_lt_Some. }
    specialize (IH (add_log w l) _ Hi'). by rewrite list_insert_insert_eq in IH.
  - destruct (handle e (w_state w)) as [x s] eqn:He.
    eapply rtc_l; [by eapply step_at, step_vis|].
    assert (<[i := k x]> ps !! i = Some (k x)) as Hi'.
    { apply list_lookup_insert_eq. by eapply lookup_lt_Some. }
    specialize (IH x (set_state w s) _ Hi'). by rewrite list_insert_insert_eq in IH.
Qed.

(** An executable scheduler: let goroutine [i] act, for each [i] of the schedule. *)
Lemma reaches_run i p w ps o w1 b : ps !! i = Some p -> run clock p w = (o, w1) ->
  reaches (w1, <[i := finished o]> ps) b -> reaches (w, ps) b.
Proof.
  intros Hi Hrun. pose proof (run_reaches p w i ps Hi) as Hr. rewrite Hrun in Hr. unfold reaches in *. by etransitivity.
Qed.

Definition act p w : option (prog E A * world S) :=
  match p with
  | Ret _ | Panic _ => None
  | Now k => Some (k (clock (w_tick w)), tick w)
  | Log l k => Some (k, add_log w l)
  | Vis e k => let '(x, s) := handle e (w_state w) in Some (k x, set_state w s)
  end.

Fixpoint sched (sch : list nat) (w : world S) ps : world S * list (prog E A) :=
  match sch with
  | [] => (w, ps)
  | i :: sch =>
      match ps !! i ≫= fun p => act p w with
      | Some (p', w') => sched sch w' (<[i := p']> ps)
      | None => sched sch w ps
      end
  end.

Lemma act_step p w p' w' : act p w = Some (p', w') -> thread_step p w p' w'.
Proof.
  destruct p as [| |k|l k|X e k]; simpl; intros; simplify_eq; try constructor.
  destruct (handle e (w_state w)) as [x s] eqn:He. simplify_eq. by constructor.
Qed.

Lemma step_act p w p' w' : thread_step p w p' w' -> act p w = Some (p', w').
Proof. intros [| |X e k w1 x s He]; simpl; [done|done|]. by rewrite He. Qed.

Lemma sched_reaches sch w ps : reaches (w, ps) (sched sch w ps).
Proof.
  revert w ps. induction sch as [|i sch IH]; intros w ps; simpl; [apply rtc_refl|].
  destruct (ps !! i) as [p|] eqn:Hi; simpl; [|apply IH].
  destruct (act p w) as [[p' w']|] eqn:Ha; [|apply IH].
  eapply rtc_l; [|apply IH]. by eapply step_at, act_step.
Qed.
End interleaving.

(** ** Termination

    Every schedule comes to an end: an action leaves a strictly smaller program. *)
Section termination.
Context {E : Type -> Type} {S A : Type} `{Handler E S} (clock : nat -> Z).
Implicit Types (p : prog E A) (w : world S) (ps : list (prog E A)).

Definition shrinks p' p : Prop := exists w w', thread_step clock p w p' w'.

Lemma prog_acc p : Acc shrinks p.
Proof.
  induction p as [a|msg|k IH|l k IH|X e k IH]; constructor; intros p' (w & w' & Hstep%step_act); simpl in Hstep;
    simplify_eq; auto.
  destruct (handle e (w_state w)) as [x s]. simplify_eq. auto.
Qed.

(** One element of a list decreases. *)
Definition one_less {B} (R : B -> B -> Prop) (l' l : list B) : Prop :=
  exists i x y, l !! i = Some x /\ R y x /\ l' = <[i := y]> l.

Lemma one_less_acc {B} (R : B -> B -> Prop) l : Forall (Acc R) l -> Acc (one_less R) l.
Proof.
  induction 1 as [|x l Hx _ IHl]; [constructor; by intros l' (i & x & y & ? & _)|].
  revert l IHl. induction Hx as [x Hx IHx]. intros l IHl. induction IHl as [l Hl IHl].
  constructor. intros l' ([|i] & x' & y & Hi & HR & ->); simpl in *; simplify_eq.
  - apply IHx; [done|]. by constructor.
  - apply IHl. by exists i, x', y.
Qed.

Lemma pool_acc (R : world S * list (prog E A) -> world S * list (prog E A) -> Prop) :
  (forall w ps w' ps', R (w', ps') (w, ps) -> one_less shrinks ps' ps) -> forall c, Acc R c.
Proof.
  intros HR [w ps]. assert (Acc (one_less shrinks) ps) as Hacc.
  { apply one_less_acc, Forall_forall. intros p _. apply prog_acc. }
  revert w. induction Hacc as [ps _ IH]. intros w. constructor. intros [w' ps'] Hstep. by eapply IH, HR.
Qed.
End termination.

(** ** Contracts *)
Record contract (E : Type -> Type) (S : Type) := Contract {
  inv : S -> Prop;
  pre : forall X, E X -> Prop;
  post : forall X, E X -> X -> Prop }.
Arguments inv {E S} _ _.
Arguments pre {E S} _ {X} _.
Arguments post {E S} _ {X} _ _.

Section contracts.
Context {E : Type -> Type} {S : Type} `{Handler E S} (C : contract E S).

(** The handler honours the contract. *)
Definition honoured : Prop := forall X (e : E X) s,
  inv C s -> pre C e -> inv C (handle e s).2 /\ post C e (handle e s).1.

(** Program [p] meets its obligations whatever the answers, and ends in [Q]. *)
Fixpoint conforms {A} (Q : outcome A -> Prop) (p : prog E A) : Prop :=
  match p with
  | Ret a => Q (Done a)
  | Panic msg => Q (Crash msg)
  | Now k => forall t, conforms Q (k t)
  | Log _ k => conforms Q k
  | Vis e k => pre C e /\ forall x, post C e x -> conforms Q (k x)
  end.

Lemma conforms_mono {A} (Q Q' : outcome A -> Prop) (p : prog E A) :
  (forall o, Q o -> Q' o) -> conforms Q p -> conforms Q' p.
Proof. intros HQ. induction p; simpl; naive_solver. Qed.

Lemma conforms_bind {A B} (Q : outcome B -> Prop) (p : prog E A) (f : A -> prog E B) :
  conforms (fun o => match o with Done a => conforms Q (f a) | Crash msg => Q (Crash msg) end) p ->
  conforms Q (p ≫= f).
Proof. induction p; simpl; naive_solver. Qed.

Lemma conforms_call {X B} (Q : outcome B -> Prop) (e : E X) (f : X -> prog E B) :
  pre C e -> (forall x, post C e x -> conforms Q (f x)) -> conforms Q (call e ≫= f).
Proof. by split. Qed.

Context (clock : nat -> Z) (Hhon : honoured).

Lemma run_conforms {A} (Q : outcome A -> Prop) (p : prog E A) w :
  conforms Q p -> inv C (w_state w) ->
  inv C (w_state (run clock p w).2) /\ Q (run clock p w).1.
Proof.
  revert w. induction p as [a|msg|k IH|l k IH|X e k IH]; intros w Hp Hw; simpl in *; try done.
  - by apply IH.
  - by apply IH.
  - destruct Hp as [Hpre Hk]. destruct (Hhon X e (w_state w) Hw Hpre) as [Hinv Hpost].
    destruct (handle e (w_state w)) as [x s]. by apply IH; [apply Hk|].
Qed.

Lemma thread_step_conforms {A} (Q : outcome A -> Prop) (p p' : prog E A) w w' :
  thread_step clock p w p' w' -> conforms Q p -> inv C (w_state w) ->
  inv C (w_state w') /\ conforms Q p'.
Proof.
  intros Hstep Hp Hw. destruct Hstep as [k w|l k w|X e k w x s He]; simpl in *; try done.
  destruct Hp as [Hpre Hk]. destruct (Hhon X e (w_state w) Hw Hpre) as [Hinv Hpost].
  rewrite He in Hinv, Hpost. split; [done|]. by apply Hk.
Qed.

(** Conforming goroutines keep the invariant in every interleaving. *)
Lemma reaches_conforms {A} (Q : outcome A -> Prop) w (ps : list (prog E A)) w' ps' :
  reaches clock (w, ps) (w', ps') -> Forall (conforms Q) ps -> inv C (w_state w) ->
  inv C (w_state w') /\ Forall (conforms Q) ps'.
Proof.
  intros Hr. remember (w, ps) as a eqn:Ha. remember (w', ps') as b eqn:Hb.
  revert w ps Ha w' ps' Hb. induction Hr as [a|a b c Hstep Hr IH]; intros w ps -> w' ps' Hb.
  - by simplify_eq.
  - intros Hps Hw. inversion Hstep as [i p p' ? w1 ? Hi Ht]; subst.
    destruct (thread_step_conforms Q p p' w w1) as [Hw1 Hp1]; [done| |done|].
    { by eapply Forall_lookup_1. }
    eapply IH; [done|done| |done]. by apply Forall_insert.
Qed.
End contracts.
