(* ===== verification/Mutex.v ===== *)
(** * [sync.Mutex]: programs that run under a lock

    [lockE E] adds to the atomic calls [E] the two operations of one mutex.  A
    goroutine that finds the mutex locked does not move: [lock_step] is the
    interleaving of [Interleave.v] without such steps.  The theorems: the programs
    that take the lock, work and release it by [defer] exclude each other, never
    deadlock, and have the effect of running one after another; since programs are
    finite, every schedule of them ends. *)

From stdpp Require Import gmap strings.
From S2P Require Import Prelude Interleave.

Inductive lockE (E : Type -> Type) : Type -> Type :=
  | Lock : lockE E unit
  | Unlock : lockE E unit
  | Inside X (e : E X) : lockE E X.
Arguments Lock {E}.
Arguments Unlock {E}.
Arguments Inside {E X} e.

(** The mutex and the state it guards. *)
Record guarded (S : Type) := mkGuarded { locked : bool; guards : S }.
Arguments mkGuarded {S} _ _.
Arguments locked {S} _.
Arguments guards {S} _.

#[global] Instance lockE_handler {E S} `{Handler E S} : Handler (lockE E) (guarded S) := fun X e s =>
  match e in lockE _ X return X * guarded S with
  | Lock => (tt, mkGuarded true (guards s))
  | Unlock => (tt, mkGuarded false (guards s))
  | Inside e => let '(x, t) := handle e (guards s) in (x, mkGuarded (locked s) t)
  end.

(** [m.Lock(); defer m.Unlock(); p] *)
Definition atomically {E A} (p : prog E A) : prog (lockE E) A :=
  _ ← call Lock;
  defer (call Unlock) (embed (fun X e => Inside e) p).

Section mutex.
Context {E : Type -> Type} {S A : Type} `{Handler E S} (clock : nat -> Z).
Implicit Types (p q : prog E A) (ps : list (prog (lockE E) A)).

(** The next action is [Lock] and the mutex is not free. *)
Definition waits {X} (p : prog (lockE E) X) (w : world (guarded S)) : bool :=
  match p with Vis Lock _ => locked (w_state w) | _ => false end.

Inductive lock_step : world (guarded S) * list (prog (lockE E) A) -> world (guarded S) * list (prog (lockE E) A) -> Prop :=
  | lock_step_at i (r r' : prog (lockE E) A) w w' ps :
      ps !! i = Some r -> waits r w = false -> thread_step clock r w r' w' ->
      lock_step (w, ps) (w', <[i := r']> ps).

(** An executable scheduler: goroutine [i] acts unless it waits or is over. *)
Fixpoint lock_sched (sch : list nat) (w : world (guarded S)) ps : world (guarded S) * list (prog (lockE E) A) :=
  match sch with
  | [] => (w, ps)
  | i :: sch =>
      match ps !! i with
      | Some r => if waits r w then lock_sched sch w ps else
          match act clock r w with
          | Some (r', w') => lock_sched sch w' (<[i := r']> ps)
          | None => lock_sched sch w ps
          end
      | None => lock_sched sch w ps
      end
  end.

Lemma lock_sched_reaches sch w ps : rtc lock_step (w, ps) (lock_sched sch w ps).
Proof.
  revert w ps. induction sch as [|i sch IH]; intros w ps; simpl; [apply rtc_refl|].
  destruct (ps !! i) as [r|] eqn:Hi; [|apply IH]. destruct (waits r w) eqn:Hw; [apply IH|].
  destruct (act clock r w) as [[r' w']|] eqn:Ha; [|apply IH].
  eapply rtc_l; [|apply IH]. eapply lock_step_at; [done|done|]. by apply act_step.
Qed.

Lemma lock_sched_end sch w ps : rtc lock_step (w, ps) ((lock_sched sch w ps).1, (lock_sched sch w ps).2).
Proof. rewrite <- surjective_pairing. apply lock_sched_reaches. Qed.

(** Without the mutex. *)
Definition unguarded (w : world (guarded S)) : world S := World (guards (w_state w)) (w_tick w) (w_log w).
Definition relock (b : bool) (w : world S) : world (guarded S) :=
  World (mkGuarded b (w_state w)) (w_tick w) (w_log w).

(** A goroutine inside, with [q] still to do. *)
Definition inside q : prog (lockE E) A := defer (call Unlock) (embed (fun X e => Inside e) q).

(** One action inside is one action of the program itself, or the release. *)
Lemma act_inside q w :
  act clock (inside q) w =
    match q with
    | Ret a => Some (Ret a, relock false (unguarded w))
    | Panic msg => Some (Panic msg, relock false (unguarded w))
    | _ => (fun '(q', w') => (inside q', relock (locked (w_state w)) w')) <$> act clock q (unguarded w)
    end.
Proof.
  destruct w as [[b s] t l]. destruct q as [a|msg|k|l' k|X e k]; unfold inside; simpl; try done.
  unfold handle at 1. simpl. by destruct (handle e s) as [x s'].
Qed.

Lemma act_run q (w : world S) q' (w' : world S) : act clock q w = Some (q', w') -> run clock q w = run clock q' w'.
Proof.
  destruct q as [a|msg|k|l k|X e k]; simpl; try done; intros; simplify_eq; try done.
  destruct (handle e (w_state w)). by simplify_eq.
Qed.

(** ** Serial execution

    [serve order w] runs the programs of [order] one after another. *)
Context (bodies : list (prog E A)).

Fixpoint serve (order : list nat) (w : world S) : list (nat * outcome A) * world S :=
  match order with
  | [] => ([], w)
  | i :: order =>
      match bodies !! i with
      | Some p => let '(o, w1) := run clock p w in let '(os, w2) := serve order w1 in ((i, o) :: os, w2)
      | None => serve order w
      end
  end.

Lemma serve_snoc order i p (w : world S) : bodies !! i = Some p ->
  serve (order ++ [i]) w =
    let '(os, w1) := serve order w in let '(o, w2) := run clock p w1 in (os ++ [(i, o)], w2).
Proof.
  intros Hp. revert w. induction order as [|j order IH]; intros w; simpl.
  - rewrite Hp. by destruct (run clock p w).
  - destruct (bodies !! j) as [q|]; [|apply IH]. destruct (run clock q w) as [o w1]. rewrite IH.
    destruct (serve order w1) as [os w2]. by destruct (run clock p w2).
Qed.

Lemma serve_fst order (w : world S) : Forall (fun i => is_Some (bodies !! i)) order ->
  (serve order w).1.*1 = order.
Proof.
  intros Ho. revert w. induction Ho as [|i order [p Hp] _ IH]; intros w; simpl; [done|]. rewrite Hp.
  destruct (run clock p w) as [o w1]. specialize (IH w1). destruct (serve order w1). by f_equal/=.
Qed.

(** What a reachable configuration looks like: some goroutines have finished, in
    the order [order]; at most one is inside, and what it still has to do leads to
    what its whole program would have led to. *)
Definition thread_of (os : list (nat * outcome A)) (holder : option (nat * prog E A)) (i : nat) p : prog (lockE E) A :=
  match (list_to_map os : gmap nat (outcome A)) !! i, holder with
  | Some o, _ => finished o
  | None, Some (j, q) => if decide (j = i) then inside q else atomically p
  | None, None => atomically p
  end.

Record serialized (w0 : world S) w ps (order : list nat) (holder : option (nat * prog E A)) : Prop := {
  ser_nodup : NoDup order;
  ser_valid : Forall (fun i => is_Some (bodies !! i)) order;
  ser_threads : ps = imap (thread_of (serve order w0).1 holder) bodies;
  ser_state : match holder with
    | None => w = relock false (serve order w0).2
    | Some (i, q) => (i ∉ order) /\ exists p (w1 : world S), bodies !! i = Some p /\ w = relock true w1 /\
        run clock q w1 = run clock p (serve order w0).2
    end }.

Lemma serialized_init (w0 : world S) : serialized w0 (relock false w0) (atomically <$> bodies) [] None.
Proof.
  split; [constructor|constructor| |done]. simpl. apply list_eq. intros i.
  rewrite list_lookup_fmap, list_lookup_imap. destruct (bodies !! i); simpl; [|done]. unfold thread_of.
  by rewrite list_to_map_nil, lookup_empty.
Qed.

Lemma lookup_served order (w0 : world S) i : Forall (fun i => is_Some (bodies !! i)) order ->
  (i ∉ order) <-> (list_to_map (serve order w0).1 : gmap nat (outcome A)) !! i = None.
Proof.
  intros Ho. rewrite <- (serve_fst order w0 Ho) at 1. split; [apply not_elem_of_list_to_map_1|apply not_elem_of_list_to_map_2].
Qed.

(** Replacing one goroutine of a configuration. *)
Lemma imap_insert {B C} (f g : nat -> B -> C) (l : list B) i x : l !! i = Some x ->
  (forall j y, j <> i -> g j y = f j y) -> imap g l = <[i := g i x]> (imap f l).
Proof.
  intros Hi Hfg. apply list_eq. intros j. rewrite list_lookup_imap.
  destruct (decide (j = i)) as [->|Hne].
  - rewrite list_lookup_insert_eq by (rewrite length_imap; by eapply lookup_lt_Some). by rewrite Hi.
  - rewrite list_lookup_insert_ne by done. rewrite list_lookup_imap. destruct (l !! j); simpl; [|done].
    by rewrite Hfg.
Qed.

Lemma thread_of_holder order (w0 : world S) i q p : Forall (fun i => is_Some (bodies !! i)) order -> i ∉ order ->
  thread_of (serve order w0).1 (Some (i, q)) i p = inside q.
Proof. intros Hv Hi. unfold thread_of. rewrite (proj1 (lookup_served order w0 i Hv) Hi). by rewrite decide_True. Qed.

Lemma thread_of_snoc os i o p : i ∉ os.*1 -> thread_of (os ++ [(i, o)]) None i p = finished o.
Proof.
  intros Hi. unfold thread_of. rewrite list_to_map_app, list_to_map_cons, list_to_map_nil.
  rewrite lookup_union_r by (by apply not_elem_of_list_to_map_1). by rewrite lookup_insert_eq.
Qed.

Lemma thread_finished o w : act clock (finished o : prog (lockE E) A) w = None.
Proof. by destruct o. Qed.

Lemma serialized_enter (w0 : world S) w ps order i p : serialized w0 w ps order None -> bodies !! i = Some p -> i ∉ order ->
  serialized w0 (relock true (unguarded w)) (<[i := inside p]> ps) order (Some (i, p)).
Proof.
  intros [Hnd Hv -> Hw] Hp Hi. split; [done|done| |].
  - rewrite (imap_insert (thread_of (serve order w0).1 None) (thread_of (serve order w0).1 (Some (i, p))) bodies i p Hp).
    + by rewrite thread_of_holder.
    + intros j y Hj. unfold thread_of. by rewrite decide_False by congruence.
  - split; [done|]. exists p, (unguarded w). subst w. by destruct (serve order w0) as [os [s t l]].
Qed.

Lemma serialized_inside (w0 : world S) w1 ps order i q q' w1' :
  serialized w0 (relock true w1) ps order (Some (i, q)) -> run clock q w1 = run clock q' w1' ->
  serialized w0 (relock true w1') (<[i := inside q']> ps) order (Some (i, q')).
Proof.
  intros [Hnd Hv -> (Hi & p & w2 & Hp & Hw & Hr)] Hrun. split; [done|done| |].
  - rewrite (imap_insert (thread_of (serve order w0).1 (Some (i, q))) (thread_of (serve order w0).1 (Some (i, q'))) bodies i p Hp).
    + by rewrite thread_of_holder.
    + intros j y Hj. unfold thread_of. by rewrite !decide_False by congruence.
  - split; [done|]. exists p, w1'. split; [done|]. split; [done|]. rewrite <- Hrun, <- Hr.
    unfold relock in Hw. destruct w1, w2. by simplify_eq/=.
Qed.

Lemma serialized_leave (w0 : world S) w1 ps order i q o :
  serialized w0 (relock true w1) ps order (Some (i, q)) -> run clock q w1 = (o, w1) ->
  serialized w0 (relock false w1) (<[i := finished o]> ps) (order ++ [i]) None.
Proof.
  intros [Hnd Hv -> (Hi & p & w2 & Hp & Hw & Hr)] Hrun.
  assert (w2 = w1) as ->. { unfold relock in Hw. destruct w1, w2. by simplify_eq/=. }
  rewrite Hrun in Hr. pose proof (serve_snoc order i p w0 Hp) as Hs.
  assert (Forall (fun i => is_Some (bodies !! i)) (order ++ [i])) as Hv'.
  { apply Forall_app. split; [done|]. apply Forall_singleton. by exists p. }
  split; [|done| |].
  - apply NoDup_app. split; [done|]. split; [|apply NoDup_singleton]. intros j Hj ->%list_elem_of_singleton. done.
  - pose proof (serve_fst order w0 Hv) as Hf. destruct (serve order w0) as [os wd]. simpl in *. rewrite <- Hr in Hs. rewrite Hs. simpl.
    assert (i ∉ os.*1) as Hios by by rewrite Hf.
    rewrite (imap_insert (thread_of os (Some (i, q))) (thread_of (os ++ [(i, o)]) None) bodies i p Hp).
    + by rewrite thread_of_snoc.
    + intros j y Hj. unfold thread_of. rewrite list_to_map_app, list_to_map_cons, list_to_map_nil.
      rewrite lookup_union, lookup_insert_ne, lookup_empty, (right_id_L None (union)) by done.
      by rewrite decide_False by congruence.
  - rewrite Hs. destruct (serve order w0) as [os wd]. simpl in *. by rewrite <- Hr.
Qed.

Lemma serialized_step w0 w ps order holder w' ps' :
  serialized w0 w ps order holder -> lock_step (w, ps) (w', ps') ->
  exists order' holder', serialized w0 w' ps' order' holder'.
Proof.
  intros Hser Hstep. inversion Hstep as [i r r' ? ? ? Hi Hwait Hact%step_act]; subst.
  pose proof Hser as [Hnd Hv Hps Hw]. rewrite Hps, list_lookup_imap in Hi.
  destruct (bodies !! i) as [p|] eqn:Hp; [|done]. simpl in Hi. injection Hi as Hi. unfold thread_of in Hi.
  destruct (list_to_map _ !! i) as [o|] eqn:Hos; [by rewrite <- Hi, thread_finished in Hact|].
  apply (proj2 (lookup_served order w0 i Hv)) in Hos.
  assert (holder = None \/ (exists q, holder = Some (i, q)) \/ exists j q, holder = Some (j, q) /\ j <> i) as Hcase.
  { destruct holder as [[j q]|]; [|by left]. right. destruct (decide (j = i)) as [->|]; eauto. }
  destruct Hcase as [->|[[q ->]|(j & q & -> & Hne)]].
  - subst r. simpl in Hact. simplify_eq. exists order, (Some (i, p)). by apply serialized_enter.
  - rewrite decide_True in Hi by done. subst r. destruct Hw as (_ & p' & w1 & Hp' & -> & Hr).
    rewrite act_inside in Hact.
    change (unguarded (relock true w1)) with (World (w_state w1) (w_tick w1) (w_log w1)) in Hact.
    replace (World (w_state w1) (w_tick w1) (w_log w1)) with w1 in Hact by by destruct w1.
    destruct q as [a|msg|k|l k|X e k].
    + simplify_eq. exists (order ++ [i]), None. by eapply (serialized_leave w0 w1 _ order i (Ret a) (Done a)).
    + simplify_eq. exists (order ++ [i]), None. by eapply (serialized_leave w0 w1 _ order i (Panic msg) (Crash msg)).
    + destruct (act clock (Now k) w1) as [[q' w1']|] eqn:Ha; [|done]. simpl in Hact. simplify_eq.
      exists order, (Some (i, q')). eapply serialized_inside; [done|]. by apply act_run.
    + destruct (act clock (Log l k) w1) as [[q' w1']|] eqn:Ha; [|done]. simpl in Hact. simplify_eq.
      exists order, (Some (i, q')). eapply serialized_inside; [done|]. by apply act_run.
    + destruct (act clock (Vis e k) w1) as [[q' w1']|] eqn:Ha; [|done]. simpl in Hact. simplify_eq.
      exists order, (Some (i, q')). eapply serialized_inside; [done|]. by apply act_run.
  - rewrite decide_False in Hi by done. subst r. destruct Hw as (_ & p' & w1 & _ & -> & _). done.
Qed.

(** ** The guarantees *)
Definition start (w : world S) : world (guarded S) * list (prog (lockE E) A) := (relock false w, atomically <$> bodies).

Definition over (r : prog (lockE E) A) : bool := match r with Ret _ | Panic _ => true | _ => false end.

Lemma all_over ps : forallb over ps = true -> Forall (fun r => over r = true) ps.
Proof. induction ps as [|r ps IH]; simpl; [done|]. intros [Hr Hps]%andb_prop. constructor; auto. Qed.

(** Goroutines that are over do not move. *)
Lemma over_nf w ps : Forall (fun r => over r = true) ps -> nf (lock_step) (w, ps).
Proof.
  intros Hov [c Hstep]. inversion Hstep as [i r r' ? ? ? Hi _ Hact%step_act]; subst.
  rewrite Forall_lookup in Hov. specialize (Hov i r Hi). by destruct r.
Qed.

Lemma over_atomically p : over (atomically p) = false.
Proof. done. Qed.

Lemma over_inside q : over (inside q) = false.
Proof. by destruct q. Qed.

Lemma over_finished o : over (finished o) = true.
Proof. by destruct o. Qed.

Lemma reach_serialized (w0 : world S) c : rtc lock_step (start w0) c ->
  exists order holder, serialized w0 c.1 c.2 order holder.
Proof.
  revert c. apply (rtc_ind_r (fun c => exists order holder, serialized w0 c.1 c.2 order holder)).
  - exists [], None. apply serialized_init.
  - intros [w1 ps1] [w2 ps2] _ Hstep (order & holder & Hser). by eapply serialized_step.
Qed.

(** At most one goroutine is between its [Lock] and its [Unlock], and the mutex is
    locked exactly when there is one. *)
Lemma serialized_exclusive (w0 : world S) w ps order holder : serialized w0 w ps order holder ->
  locked (w_state w) = bool_decide (is_Some holder) /\
  forall i r, ps !! i = Some r -> over r = false -> r <> atomically (default (Panic EmptyString) (bodies !! i)) ->
    exists q, holder = Some (i, q) /\ r = inside q.
Proof.
  intros [Hnd Hv -> Hw]. split.
  - destruct holder as [[i q]|]; [|by subst]. by destruct Hw as (_ & p & w1 & _ & -> & _).
  - intros i r Hi Hov Hat. rewrite list_lookup_imap in Hi. destruct (bodies !! i) as [p|]; [|done]. simpl in *.
    injection Hi as <-. unfold thread_of in *. destruct (_ !! i) as [o|]; [by rewrite over_finished in Hov|].
    destruct holder as [[j q]|]; [|done]. destruct (decide (j = i)) as [->|]; [|done]. by exists q.
Qed.

(** No deadlock: a goroutine that has something left to do is not the only kind;
    some goroutine can act. *)
Lemma serialized_progress (w0 : world S) w ps order holder : serialized w0 w ps order holder ->
  Forall (fun r => over r = true) ps \/ exists c, lock_step (w, ps) c.
Proof.
  intros Hser. pose proof Hser as [Hnd Hv Hps Hw].
  assert (forall i r r' w', ps !! i = Some r -> waits r w = false -> act clock r w = Some (r', w') ->
    exists c, lock_step (w, ps) c) as Hgo.
  { intros i r r' w' Hi Hwait Hact. eexists. eapply lock_step_at; [done|done|]. by apply act_step. }
  destruct holder as [[i q]|].
  - right. destruct Hw as (Hi & p & w1 & Hp & Hw & _).
    assert (ps !! i = Some (inside q)) as Hpsi.
    { rewrite Hps, list_lookup_imap, Hp. simpl. by rewrite thread_of_holder. }
    destruct (act clock (inside q) w) as [[r' w']|] eqn:Ha.
    + eapply Hgo; [done| |done]. by destruct q.
    + rewrite act_inside in Ha. destruct q as [| | | |X e k]; try done. simpl in Ha.
      by destruct (handle e _).
  - destruct (decide (Forall (fun r => over r = true) ps)) as [|Hno]; [by left|right].
    apply not_Forall_Exists in Hno; [|apply _]. apply Exists_exists in Hno as (r & (i & Hi)%list_elem_of_lookup & Hov).
    pose proof Hi as Hi2. rewrite Hps, list_lookup_imap in Hi2. destruct (bodies !! i) as [p|] eqn:Hp; [|done].
    simpl in Hi2. injection Hi2 as Hr. unfold thread_of in Hr.
    destruct (list_to_map (serve order w0).1 !! i) as [o|].
    + subst r. destruct Hov. by apply over_finished.
    + subst r. eapply Hgo; [done| |done]. by subst w.
Qed.

(** Goroutine [i] has a next action and does not wait for the mutex. *)
Definition can_move w ps (i : nat) : Prop :=
  exists r r' w', ps !! i = Some r /\ waits r w = false /\ thread_step clock r w r' w'.

(** Nobody is blocked but by a goroutine that can go on: while the mutex is taken, its
    holder can move and every other goroutine is over or waits for it; while it is free,
    every goroutine that is not over can move. *)
Definition unblocked w ps : Prop :=
  if locked (w_state w) then
    exists i, can_move w ps i /\ forall j r, ps !! j = Some r -> j <> i -> over r = true \/ waits r w = true
  else forall i r, ps !! i = Some r -> over r = true \/ can_move w ps i.

Lemma serialized_unblocked (w0 : world S) w ps order holder : serialized w0 w ps order holder -> unblocked w ps.
Proof.
  intros [Hnd Hv Hps Hw].
  assert (forall i r, ps !! i = Some r -> exists p, bodies !! i = Some p /\ r = thread_of (serve order w0).1 holder i p) as Hth.
  { intros i r Hi. rewrite Hps, list_lookup_imap in Hi. destruct (bodies !! i) as [p|]; [|done]. simpl in Hi. exists p. by simplify_eq. }
  unfold unblocked. destruct holder as [[i q]|].
  - destruct Hw as (Hi & p & w1 & Hp & -> & _). cbn [locked w_state relock]. exists i. split.
    + exists (inside q). destruct (act clock (inside q) (relock true w1)) as [[r' w']|] eqn:Ha.
      * exists r', w'. split; [rewrite Hps, list_lookup_imap, Hp; simpl; by rewrite thread_of_holder|].
        split; [by destruct q|by apply act_step].
      * rewrite act_inside in Ha. destruct q as [| | | |X e k]; try done. simpl in Ha. by destruct (handle e _).
    + intros j r (p' & _ & ->)%Hth Hne. unfold thread_of. destruct (list_to_map _ !! j) as [o|].
      * left. apply over_finished.
      * right. rewrite decide_False by congruence. done.
  - subst w. cbn [locked w_state relock]. intros i r Hi. destruct (Hth i r Hi) as (p & Hp & Hr). unfold thread_of in Hr.
    destruct (list_to_map _ !! i) as [o|]; [left; subst r; apply over_finished|].
    right. exists r, (inside p), (relock true (unguarded (relock false (serve order w0).2))). split; [done|].
    subst r. split; [done|]. by apply act_step.
Qed.

(** When all have finished: they have run one after another. *)
Lemma serialized_all_over (w0 : world S) w ps order holder : serialized w0 w ps order holder ->
  Forall (fun r => over r = true) ps ->
  order ≡ₚ seq 0 (length bodies) /\ w = relock false (serve order w0).2 /\
  Forall (fun '(i, o) => ps !! i = Some (finished o)) (serve order w0).1.
Proof.
  intros [Hnd Hv Hps Hw] Hov.
  assert (holder = None) as ->.
  { destruct holder as [[i q]|]; [|done]. destruct Hw as (Hi & p & w1 & Hp & _).
    rewrite Forall_lookup in Hov. specialize (Hov i (inside q)). rewrite over_inside in Hov.
    rewrite Hps, list_lookup_imap, Hp in Hov. simpl in Hov. rewrite thread_of_holder in Hov by done.
    by specialize (Hov eq_refl). }
  split; [|split; [done|]].
  - apply NoDup_Permutation; [done|apply NoDup_seq|]. intros i. rewrite elem_of_seq. split.
    + intros Hi. rewrite Forall_forall in Hv. apply Hv in Hi as [p Hp]. apply lookup_lt_Some in Hp. lia.
    + intros [_ Hlt]. destruct (lookup_lt_is_Some_2 bodies i) as [p Hp]; [lia|].
      destruct (decide (i ∈ order)) as [|Hi]; [done|exfalso].
      rewrite Forall_lookup in Hov. specialize (Hov i (atomically p)). rewrite over_atomically in Hov.
      rewrite Hps, list_lookup_imap, Hp in Hov. simpl in Hov. unfold thread_of in Hov.
      rewrite (proj1 (lookup_served order w0 i Hv) Hi) in Hov. by specialize (Hov eq_refl).
  - apply Forall_forall. intros [i o] Hio. rewrite Hps, list_lookup_imap.
    assert ((list_to_map (serve order w0).1 : gmap nat (outcome A)) !! i = Some o) as Hm.
    { apply elem_of_list_to_map_1; [|done]. by rewrite serve_fst. }
    assert (i ∈ order) as Hi.
    { rewrite <- (serve_fst order w0 Hv). apply list_elem_of_fmap. by exists (i, o). }
    rewrite Forall_forall in Hv. destruct (Hv i Hi) as [p Hp]. rewrite Hp. simpl. unfold thread_of. by rewrite Hm.
Qed.

(** The three guarantees, of every configuration that can be reached. *)
Lemma lock_serializable (w0 : world S) w ps : rtc lock_step (start w0) (w, ps) -> Forall (fun r => over r = true) ps ->
  exists order, order ≡ₚ seq 0 (length bodies) /\ w = relock false (serve order w0).2 /\
    Forall (fun '(i, o) => ps !! i = Some (finished o)) (serve order w0).1.
Proof.
  intros (order & holder & Hser)%reach_serialized Hov. exists order. by eapply serialized_all_over.
Qed.

Lemma lock_progress (w0 : world S) w ps : rtc lock_step (start w0) (w, ps) ->
  Forall (fun r => over r = true) ps \/ exists c, lock_step (w, ps) c.
Proof. intros (order & holder & Hser)%reach_serialized. by eapply serialized_progress. Qed.

Lemma lock_unblocked (w0 : world S) w ps : rtc lock_step (start w0) (w, ps) -> unblocked w ps.
Proof. intros (order & holder & Hser)%reach_serialized. by eapply serialized_unblocked. Qed.

Lemma lock_step_acc c : Acc (flip lock_step) c.
Proof.
  apply (pool_acc clock). intros w ps w' ps' Hstep. inversion Hstep as [i r r' ? ? ? Hi _ Ht]; subst.
  exists i, r, r'. split; [done|]. split; [|done]. by exists w, w'.
Qed.
End mutex.
