(* ===== verification/LruInterface.v ===== *)
(** * Recency lists and the [simplelru.LRUCache] interface

    [lru.ARCCache] keeps its four segments behind the Go interface
    [simplelru.LRUCache].  This file states what that interface promises: an
    abstract cache is a recency list (most recently used first, no key twice, at
    most [cap] long), and every method acts on that list.  [Arc.v] is proved
    against this class, [SimpleLru.v] discharges it. *)

From S2P Require Import Prelude.

(** The zero value of Go's [interface{}]. *)
Class Nil (V : Type) := nilv : V.

Section recency_list.
Context {K V : Type} `{EqDecision K}.
Implicit Types (l : list (K * V)) (k : K) (v : V).

Fixpoint rl_lookup k l : option V :=
  match l with
  | [] => None
  | (k', v) :: l => if decide (k = k') then Some v else rl_lookup k l
  end.

Definition rl_remove k l : list (K * V) := filter (fun kv => kv.1 <> k) l.

(** Store at the front, drop what no longer fits. *)
Definition rl_add (cap : Z) k v l : list (K * V) := take (Z.to_nat cap) ((k, v) :: rl_remove k l).

(** Move to the front. *)
Definition rl_touch k l : list (K * V) :=
  match rl_lookup k l with
  | Some v => (k, v) :: rl_remove k l
  | None => l
  end.

Definition rl_drop_oldest l : list (K * V) := take (length l - 1) l.

Definition rl_ok (cap : Z) l : Prop := NoDup l.*1 /\ (Z.of_nat (length l) <= cap)%Z.

Lemma rl_lookup_Some k v l : rl_lookup k l = Some v -> (k, v) ∈ l.
Proof.
  induction l as [|[k' v'] l IH]; simpl; [done|].
  case_decide; intros; simplify_eq; [left|right; auto].
Qed.

Lemma rl_lookup_is_Some k l : is_Some (rl_lookup k l) <-> k ∈ l.*1.
Proof.
  induction l as [|[k' v'] l IH]; simpl.
  - split; [by intros []|]. by intros ?%not_elem_of_nil.
  - rewrite elem_of_cons. case_decide; [naive_solver|]. rewrite IH. naive_solver.
Qed.

Lemma rl_lookup_None k l : rl_lookup k l = None <-> k ∉ l.*1.
Proof. rewrite <- rl_lookup_is_Some, <- eq_None_not_Some. done. Qed.

Lemma rl_elem_lookup k v l : NoDup l.*1 -> (k, v) ∈ l -> rl_lookup k l = Some v.
Proof.
  induction l as [|[k' v'] l IH]; simpl; [by intros _ ?%not_elem_of_nil|].
  rewrite NoDup_cons, elem_of_cons. intros [Hk Hl] [?|Hin]; simplify_eq; [by rewrite decide_True|].
  rewrite decide_False; [auto|]. intros ->. apply Hk. apply list_elem_of_fmap. by exists (k', v).
Qed.

Lemma rl_remove_keys k l x : x ∈ (rl_remove k l).*1 <-> x <> k /\ x ∈ l.*1.
Proof.
  unfold rl_remove. rewrite !list_elem_of_fmap. split.
  - intros ([x' v] & -> & [??]%list_elem_of_filter). split; [done|]. by exists (x', v).
  - intros (? & [x' v] & -> & ?). exists (x', v). split; [done|]. by apply list_elem_of_filter.
Qed.

Lemma rl_remove_id k l : k ∉ l.*1 -> rl_remove k l = l.
Proof.
  unfold rl_remove. induction l as [|[k' v] l IH]; [done|].
  cbn [fmap list_fmap fst]. rewrite not_elem_of_cons. intros [??].
  rewrite filter_cons_True by (simpl; congruence). by rewrite IH.
Qed.

Lemma rl_remove_NoDup k l : NoDup l.*1 -> NoDup (rl_remove k l).*1.
Proof.
  unfold rl_remove. induction l as [|[k' v] l IH]; [done|].
  cbn [fmap list_fmap fst]. rewrite NoDup_cons. intros [Hk Hl].
  destruct (decide (k' = k)) as [->|Hne].
  - rewrite filter_cons_False by naive_solver. auto.
  - rewrite filter_cons_True by (simpl; congruence). cbn [fmap list_fmap fst].
    apply NoDup_cons. split; [|auto]. fold (rl_remove k l).
    rewrite rl_remove_keys. naive_solver.
Qed.

Lemma rl_remove_length_le k l : (length (rl_remove k l) <= length l)%nat.
Proof. apply length_filter. Qed.

Lemma rl_remove_length k l :
  NoDup l.*1 -> k ∈ l.*1 -> length l = S (length (rl_remove k l)).
Proof.
  unfold rl_remove. induction l as [|[k' v] l IH]; [by intros _ ?%not_elem_of_nil|].
  cbn [fmap list_fmap fst]. rewrite NoDup_cons, elem_of_cons. intros [Hk Hl] Hin.
  destruct (decide (k' = k)) as [->|Hne].
  - rewrite filter_cons_False by naive_solver. fold (rl_remove k l).
    by rewrite rl_remove_id.
  - rewrite filter_cons_True by (simpl; congruence). simpl. f_equal. apply IH; naive_solver.
Qed.

Lemma rl_lookup_remove_eq k l : rl_lookup k (rl_remove k l) = None.
Proof. apply rl_lookup_None. rewrite rl_remove_keys. naive_solver. Qed.

Lemma rl_lookup_remove_ne k k' l : k <> k' -> rl_lookup k (rl_remove k' l) = rl_lookup k l.
Proof.
  intros Hne. unfold rl_remove. induction l as [|[x v] l IH]; [done|].
  destruct (decide (x = k')) as [->|Hx].
  - rewrite filter_cons_False by naive_solver. simpl. by rewrite decide_False.
  - rewrite filter_cons_True by (simpl; congruence). simpl. by rewrite IH.
Qed.

Lemma rl_take_NoDup n l : NoDup l.*1 -> NoDup (take n l).*1.
Proof.
  intros H. rewrite fmap_take. rewrite <- (take_drop n l.*1) in H.
  by apply NoDup_app in H as [??].
Qed.

Lemma rl_take_keys n l x : x ∈ (take n l).*1 -> x ∈ l.*1.
Proof. rewrite fmap_take. intros (?&?&?)%elem_of_take. by eapply list_elem_of_lookup_2. Qed.

(** A prefix of a recency list answers as the list does for the keys it keeps. *)
Lemma rl_lookup_take k n l : NoDup l.*1 ->
  rl_lookup k (take n l) = rl_lookup k l \/ rl_lookup k (take n l) = None.
Proof.
  intros Hnd. destruct (rl_lookup k (take n l)) as [v|] eqn:Hv; [left|by right].
  symmetry. apply rl_elem_lookup; [done|].
  apply rl_lookup_Some, elem_of_take in Hv as (i&Hi&_). by eapply list_elem_of_lookup_2.
Qed.
End recency_list.

Section recency_ok.
Context {K V : Type} `{EqDecision K}.
Implicit Types (l : list (K * V)) (k : K) (v : V).

Lemma rl_ok_nil cap : (0 <= cap)%Z -> rl_ok cap ([] : list (K * V)).
Proof. split; [constructor|simpl; lia]. Qed.

Lemma rl_add_ok cap k v l : (0 < cap)%Z -> rl_ok cap l -> rl_ok cap (rl_add cap k v l).
Proof.
  intros Hc [Hnd Hlen]. split.
  - apply rl_take_NoDup. cbn [fmap list_fmap fst]. apply NoDup_cons. split.
    + rewrite rl_remove_keys. naive_solver.
    + by apply rl_remove_NoDup.
  - unfold rl_add. rewrite length_take. lia.
Qed.

(** An addition evicts nothing when the key is present or there is room. *)
Lemma rl_add_room cap k v l :
  (Z.of_nat (length (rl_remove k l)) < cap)%Z -> rl_add cap k v l = (k, v) :: rl_remove k l.
Proof. intros H. unfold rl_add. apply take_ge. simpl. lia. Qed.

Lemma rl_remove_ok cap k l : rl_ok cap l -> rl_ok cap (rl_remove k l).
Proof.
  intros [??]. split; [by apply rl_remove_NoDup|]. pose proof (rl_remove_length_le k l). lia.
Qed.

Lemma rl_touch_ok cap k l : rl_ok cap l -> rl_ok cap (rl_touch k l).
Proof.
  intros [Hnd Hl]. unfold rl_touch. destruct (rl_lookup k l) eqn:Hk; [|done].
  assert (k ∈ l.*1) as Hin by (apply rl_lookup_is_Some; eauto).
  split.
  - cbn [fmap list_fmap fst]. apply NoDup_cons. rewrite rl_remove_keys.
    split; [naive_solver|by apply rl_remove_NoDup].
  - rewrite (rl_remove_length k l) in Hl by done. simpl. lia.
Qed.

Lemma rl_drop_oldest_ok cap l : rl_ok cap l -> rl_ok cap (rl_drop_oldest l).
Proof.
  intros [??]. split; [by apply rl_take_NoDup|]. unfold rl_drop_oldest. rewrite length_take. lia.
Qed.

Lemma rl_drop_oldest_keys l x : x ∈ (rl_drop_oldest l).*1 -> x ∈ l.*1.
Proof. apply rl_take_keys. Qed.

Lemma rl_touch_keys k l x : x ∈ (rl_touch k l).*1 <-> x ∈ l.*1.
Proof.
  unfold rl_touch. destruct (rl_lookup k l) eqn:Hk; [|done].
  assert (k ∈ l.*1) as Hin by (apply rl_lookup_is_Some; eauto).
  cbn [fmap list_fmap fst]. rewrite elem_of_cons, rl_remove_keys.
  destruct (decide (x = k)); naive_solver.
Qed.

Lemma rl_touch_length k l : NoDup l.*1 -> length (rl_touch k l) = length l.
Proof.
  intros Hnd. unfold rl_touch. destruct (rl_lookup k l) eqn:Hk; [|done].
  rewrite (rl_remove_length k l); [done|done|]. apply rl_lookup_is_Some; eauto.
Qed.

Lemma rl_lookup_touch k x l : rl_lookup x (rl_touch k l) = rl_lookup x l.
Proof.
  unfold rl_touch. destruct (rl_lookup k l) as [v|] eqn:Hk; [|done]. simpl.
  case_decide; [by subst|]. by apply rl_lookup_remove_ne.
Qed.

Lemma rl_add_keys cap k v l x : x ∈ (rl_add cap k v l).*1 -> x = k \/ x ∈ l.*1.
Proof.
  intros Hx%rl_take_keys. revert Hx. cbn [fmap list_fmap fst].
  rewrite elem_of_cons, rl_remove_keys. naive_solver.
Qed.

Lemma rl_lookup_add_eq cap k v l : (0 < cap)%Z -> rl_lookup k (rl_add cap k v l) = Some v.
Proof.
  intros H. unfold rl_add. destruct (Z.to_nat cap) eqn:?; [lia|]. simpl. by rewrite decide_True.
Qed.

Lemma rl_lookup_add_ne cap k v l x : rl_ok cap l -> x <> k ->
  rl_lookup x (rl_add cap k v l) = rl_lookup x l \/ rl_lookup x (rl_add cap k v l) = None.
Proof.
  intros [Hnd _] Hne. unfold rl_add.
  destruct (rl_lookup_take x (Z.to_nat cap) ((k, v) :: rl_remove k l)) as [->| ->].
  - cbn [fmap list_fmap fst]. apply NoDup_cons. rewrite rl_remove_keys.
    split; [naive_solver|by apply rl_remove_NoDup].
  - left. simpl. rewrite decide_False by done. by apply rl_lookup_remove_ne.
  - by right.
Qed.

Lemma rl_lookup_drop_oldest x l : NoDup l.*1 ->
  rl_lookup x (rl_drop_oldest l) = rl_lookup x l \/ rl_lookup x (rl_drop_oldest l) = None.
Proof. apply rl_lookup_take. Qed.

(** Dropping the oldest of a non-empty list removes exactly its last key. *)
Lemma rl_drop_oldest_snoc l k v : rl_drop_oldest (l ++ [(k, v)]) = l.
Proof.
  unfold rl_drop_oldest. rewrite length_app. simpl.
  replace (length l + 1 - 1)%nat with (length l) by lia. apply take_app_length.
Qed.
End recency_ok.

(** What [simplelru.LRUCache] offers and promises.  [lru_view] is the recency
    list an instance stands for, [lru_ok] its representation invariant. *)
Class LRUCache (L K V : Type) `{EqDecision K, Nil V} := {
  lru_ok : L -> Prop;
  lru_view : L -> list (K * V);
  lru_cap : L -> Z;
  lru_Add : L -> K -> V -> bool * L;
  lru_Get : L -> K -> (V * bool) * L;
  lru_Contains : L -> K -> bool;
  lru_Peek : L -> K -> V * bool;
  lru_Remove : L -> K -> bool * L;
  lru_RemoveOldest : L -> option (K * V) * L;
  lru_Keys : L -> list K;
  lru_Len : L -> Z;
  lru_Purge : L -> L;
  lru_view_ok l : lru_ok l -> (0 < lru_cap l)%Z /\ rl_ok (lru_cap l) (lru_view l);
  lru_Add_ok l k v : lru_ok l ->
    let '(_, l') := lru_Add l k v in
    lru_ok l' /\ lru_cap l' = lru_cap l /\ lru_view l' = rl_add (lru_cap l) k v (lru_view l);
  lru_Get_ok l k : lru_ok l ->
    let '(vb, l') := lru_Get l k in
    lru_ok l' /\ lru_cap l' = lru_cap l /\ lru_view l' = rl_touch k (lru_view l) /\
    vb = match rl_lookup k (lru_view l) with Some v => (v, true) | None => (nilv, false) end;
  lru_Contains_ok l k : lru_ok l -> lru_Contains l k = bool_decide (k ∈ (lru_view l).*1);
  lru_Peek_ok l k : lru_ok l ->
    lru_Peek l k = match rl_lookup k (lru_view l) with Some v => (v, true) | None => (nilv, false) end;
  lru_Remove_ok l k : lru_ok l ->
    let '(b, l') := lru_Remove l k in
    lru_ok l' /\ lru_cap l' = lru_cap l /\ lru_view l' = rl_remove k (lru_view l) /\
    b = bool_decide (k ∈ (lru_view l).*1);
  lru_RemoveOldest_ok l : lru_ok l ->
    let '(o, l') := lru_RemoveOldest l in
    lru_ok l' /\ lru_cap l' = lru_cap l /\ lru_view l' = rl_drop_oldest (lru_view l) /\
    o = last (lru_view l);
  lru_Keys_ok l : lru_ok l -> lru_Keys l = reverse (lru_view l).*1;
  lru_Len_ok l : lru_ok l -> lru_Len l = Z.of_nat (length (lru_view l));
  lru_Purge_ok l : lru_ok l ->
    lru_ok (lru_Purge l) /\ lru_cap (lru_Purge l) = lru_cap l /\ lru_view (lru_Purge l) = []
}.
