(* ===== verification/SimpleLru.v ===== *)
(** * [simplelru.LRU]: a map of list elements and an eviction list

    Translation of vendor/github.com/hashicorp/golang-lru/simplelru/lru.go.  The
    Go type keeps a doubly linked [list.List] of elements, each pointing to an
    [entry], and a map from keys to elements.  Elements are modelled by their
    identity (a [nat]); [elems] is the heap that gives the [entry] an element
    points to, [evictList] the order of the elements (front first), [items] the
    map.  The representation invariant ties the three together; the refinement
    theorems show that every method acts on the recency list [view].

    The callback [onEvict] is [nil] in every use ([lru.NewARC]), so the branches
    [if c.onEvict != nil] are not taken and do not appear. *)

From S2P Require Import Prelude LruInterface.

Section simplelru.
Context {K V : Type} `{Countable K, Nil V}.

Record entry := Entry { key : K; value : V }.

Record LRU := mkLRU {
  lsize : Z;
  evictList : list nat;
  elems : gmap nat entry;
  items : gmap K nat;
  next : nat }.

(** The operations of [container/list] the code uses. *)
Definition list_Remove (e : nat) (l : list nat) : list nat := filter (fun x => x <> e) l.
Definition list_MoveToFront (e : nat) (l : list nat) : list nat := e :: list_Remove e l.
Definition list_Back (l : list nat) : option nat := last l.

Definition NewLRU (n : Z) : string + LRU :=
  if (n <=? 0)%Z then inl "Must provide a positive size"
  else inr (mkLRU n [] ∅ ∅ 0).

Definition Purge (c : LRU) : LRU := mkLRU (lsize c) [] (elems c) ∅ (next c).

Definition removeElement (c : LRU) (e : nat) : LRU :=
  mkLRU (lsize c) (list_Remove e (evictList c)) (elems c)
    (match elems c !! e with Some kv => delete (key kv) (items c) | None => items c end) (next c).

Definition removeOldest (c : LRU) : LRU :=
  match list_Back (evictList c) with
  | Some ent => removeElement c ent
  | None => c
  end.

Definition Add (c : LRU) (k : K) (v : V) : bool * LRU :=
  match items c !! k with
  | Some ent =>
      (false, mkLRU (lsize c) (list_MoveToFront ent (evictList c))
        (alter (fun kv => Entry (key kv) v) ent (elems c)) (items c) (next c))
  | None =>
      let ent := next c in
      let c := mkLRU (lsize c) (ent :: evictList c) (<[ent := Entry k v]> (elems c))
        (<[k := ent]> (items c)) (S ent) in
      let evict := (lsize c <? Z.of_nat (length (evictList c)))%Z in
      (evict, if evict then removeOldest c else c)
  end.

Definition Get (c : LRU) (k : K) : (V * bool) * LRU :=
  match items c !! k with
  | Some ent =>
      let c := mkLRU (lsize c) (list_MoveToFront ent (evictList c)) (elems c) (items c) (next c) in
      match elems c !! ent with
      | None => ((nilv, false), c)
      | Some kv => ((value kv, true), c)
      end
  | None => ((nilv, false), c)
  end.

Definition Contains (c : LRU) (k : K) : bool :=
  match items c !! k with Some _ => true | None => false end.

Definition Peek (c : LRU) (k : K) : V * bool :=
  match items c !! k with
  | Some ent => match elems c !! ent with Some kv => (value kv, true) | None => (nilv, true) end
  | None => (nilv, false)
  end.

Definition Remove (c : LRU) (k : K) : bool * LRU :=
  match items c !! k with
  | Some ent => (true, removeElement c ent)
  | None => (false, c)
  end.

(** [ok = false] is [None]. *)
Definition GetOldest (c : LRU) : option (K * V) :=
  match list_Back (evictList c) with
  | Some ent => (fun kv => (key kv, value kv)) <$> elems c !! ent
  | None => None
  end.

Definition RemoveOldest (c : LRU) : option (K * V) * LRU :=
  match list_Back (evictList c) with
  | Some ent => ((fun kv => (key kv, value kv)) <$> elems c !! ent, removeElement c ent)
  | None => (None, c)
  end.

(** From the back of the list to its front. *)
Definition Keys (c : LRU) : list K :=
  omap (fun e => key <$> elems c !! e) (reverse (evictList c)).

Definition Len (c : LRU) : Z := Z.of_nat (length (evictList c)).

Definition Resize (c : LRU) (n : Z) : Z * LRU :=
  let diff := (Len c - n)%Z in
  let diff := if (diff <? 0)%Z then 0%Z else diff in
  let c := Nat.iter (Z.to_nat diff) removeOldest c in
  (diff, mkLRU n (evictList c) (elems c) (items c) (next c)).

(** ** Representation invariant and abstraction *)
Record LRU_inv (c : LRU) : Prop := {
  inv_nodup : NoDup (evictList c);
  inv_elems : forall e, e ∈ evictList c -> is_Some (elems c !! e);
  inv_items : forall k e, items c !! k = Some e <->
    e ∈ evictList c /\ exists v, elems c !! e = Some (Entry k v);
  inv_fresh : forall e, is_Some (elems c !! e) -> (e < next c)%nat }.

Definition LRU_ok (c : LRU) : Prop := LRU_inv c /\ (0 < lsize c)%Z /\ (Len c <= lsize c)%Z.

Definition view_of (h : gmap nat entry) (l : list nat) : list (K * V) :=
  omap (fun e => (fun kv => (key kv, value kv)) <$> h !! e) l.
Definition view (c : LRU) : list (K * V) := view_of (elems c) (evictList c).

Lemma view_of_cons h e l kv : h !! e = Some kv -> view_of h (e :: l) = (key kv, value kv) :: view_of h l.
Proof. intros He. unfold view_of. simpl. by rewrite He. Qed.

Lemma view_of_app h l1 l2 : view_of h (l1 ++ l2) = view_of h l1 ++ view_of h l2.
Proof. unfold view_of. apply omap_app. Qed.

Lemma view_of_length h l : (forall e, e ∈ l -> is_Some (h !! e)) -> length (view_of h l) = length l.
Proof.
  induction l as [|e l IH]; intros Hl; [done|].
  destruct (Hl e) as [kv Hkv]; [left|]. rewrite (view_of_cons _ _ _ kv) by done.
  simpl. rewrite IH; [done|]. intros e' ?. apply Hl. by right.
Qed.

Lemma view_of_ext h h' l : (forall e, e ∈ l -> h !! e = h' !! e) -> view_of h l = view_of h' l.
Proof.
  unfold view_of. induction l as [|e l IH]; intros Hl; [done|]. csimpl.
  rewrite (Hl e) by left. rewrite IH; [done|]. intros e' ?. apply Hl. by right.
Qed.

Lemma elem_of_view h l k v : (k, v) ∈ view_of h l <-> exists e, e ∈ l /\ h !! e = Some (Entry k v).
Proof.
  unfold view_of. rewrite list_elem_of_omap. split.
  - intros (e & He & (kv & Hkv & Hs)%fmap_Some). exists e. destruct kv. naive_solver.
  - intros (e & He & Hkv). exists e. by rewrite Hkv.
Qed.

(** Taking an element out of the list takes its key out of the view. *)
Lemma view_of_remove h l e k :
  (forall e', e' ∈ l -> exists kv, h !! e' = Some kv /\ (key kv = k <-> e' = e)) ->
  view_of h (list_Remove e l) = rl_remove k (view_of h l).
Proof.
  unfold list_Remove, rl_remove. induction l as [|x l IH]; intros Hl; [done|].
  destruct (Hl x) as (kv & Hx & Hk); [left|].
  assert (forall e', e' ∈ l -> exists kv, h !! e' = Some kv /\ (key kv = k <-> e' = e)) as Hl'.
  { intros e' ?. apply Hl. by right. }
  rewrite (view_of_cons h x l kv) by done.
  destruct (decide (x = e)) as [->|Hne].
  - rewrite filter_cons_False by naive_solver.
    rewrite filter_cons_False by (simpl; naive_solver). by apply IH.
  - rewrite filter_cons_True by done. rewrite filter_cons_True by (simpl; naive_solver).
    rewrite (view_of_cons _ _ _ kv) by done. by rewrite IH.
Qed.
End simplelru.

(** ** Consequences of the invariant *)
Section invariant.
Context {K V : Type} `{Countable K, Nil V}.
Implicit Types (c : LRU (K := K) (V := V)) (k : K) (v : V).

Lemma inv_unique c k e e' v v' : LRU_inv c ->
  e ∈ evictList c -> e' ∈ evictList c ->
  elems c !! e = Some (Entry k v) -> elems c !! e' = Some (Entry k v') -> e = e'.
Proof.
  intros Hc He He' Hk Hk'.
  assert (items c !! k = Some e) as Hi by (apply (inv_items c Hc); eauto).
  assert (items c !! k = Some e') as Hi' by (apply (inv_items c Hc); eauto).
  congruence.
Qed.

Lemma view_of_NoDup (h : gmap nat (entry (K := K) (V := V))) l : NoDup l ->
  (forall e e' k v v', e ∈ l -> e' ∈ l ->
     h !! e = Some (Entry k v) -> h !! e' = Some (Entry k v') -> e = e') ->
  NoDup (view_of h l).*1.
Proof.
  induction l as [|e l IH]; intros Hnd Hu; [constructor|].
  apply NoDup_cons in Hnd as [He Hl].
  assert (NoDup (view_of h l).*1) as IH'.
  { apply IH; [done|]. intros ???????. eapply Hu; by right. }
  destruct (h !! e) as [[k v]|] eqn:Hkv; [|by unfold view_of; csimpl; rewrite Hkv].
  rewrite (view_of_cons _ _ _ _ Hkv). cbn [fmap list_fmap fst key value].
  apply NoDup_cons. split; [|done].
  rewrite list_elem_of_fmap. intros ([k' v'] & Hk & (e' & He' & Hkv')%elem_of_view). simpl in Hk. subst k'.
  apply He. rewrite (Hu e e' k v v'); [done|left|by right|done|done].
Qed.

Lemma view_NoDup c : LRU_inv c -> NoDup (view c).*1.
Proof.
  intros Hc. apply view_of_NoDup; [apply (inv_nodup c Hc)|].
  intros. by eapply inv_unique.
Qed.

Lemma view_length c : LRU_inv c -> length (view c) = length (evictList c).
Proof. intros Hc. apply view_of_length, (inv_elems c Hc). Qed.

Lemma items_elem c k e : LRU_inv c -> items c !! k = Some e ->
  e ∈ evictList c /\ exists v, elems c !! e = Some (Entry k v).
Proof. intros Hc Hk. by apply (inv_items c Hc). Qed.

Lemma view_lookup c k : LRU_inv c ->
  rl_lookup k (view c) = items c !! k ≫= fun e => value <$> elems c !! e.
Proof.
  intros Hc. destruct (items c !! k) as [e|] eqn:Hk; simpl.
  - destruct (items_elem c k e Hc Hk) as (He & v & Hv). rewrite Hv. simpl.
    apply rl_elem_lookup; [by apply view_NoDup|]. apply elem_of_view. eauto.
  - apply rl_lookup_None. rewrite list_elem_of_fmap. intros ([k' v] & Hk' & (e & He & Hv)%elem_of_view).
    simpl in Hk'. subst k'. assert (items c !! k = Some e) by (apply (inv_items c Hc); eauto). congruence.
Qed.

Lemma view_keys c k : LRU_inv c -> k ∈ (view c).*1 <-> is_Some (items c !! k).
Proof.
  intros Hc. rewrite <- rl_lookup_is_Some, view_lookup by done.
  destruct (items c !! k) as [e|] eqn:Hk; simpl; [|done].
  destruct (items_elem c k e Hc Hk) as (He & v & ->). simpl. split; eauto.
Qed.

(** In an element list the key of [e] occurs only at [e]. *)
Lemma inv_key_iff c e k v : LRU_inv c -> e ∈ evictList c -> elems c !! e = Some (Entry k v) ->
  forall e', e' ∈ evictList c -> exists kv, elems c !! e' = Some kv /\ (key kv = k <-> e' = e).
Proof.
  intros Hc He Hk e' He'. destruct (inv_elems c Hc e' He') as [[k' v'] Hk'].
  exists (Entry k' v'). split; [done|]. simpl. split.
  - intros ->. by apply (inv_unique c k e' e v' v).
  - intros ->. congruence.
Qed.

Lemma removeElement_inv c e k v :
  LRU_inv c -> e ∈ evictList c -> elems c !! e = Some (Entry k v) ->
  LRU_inv (removeElement c e) /\ view (removeElement c e) = rl_remove k (view c) /\
  lsize (removeElement c e) = lsize c.
Proof.
  intros Hc He Hk. unfold removeElement. rewrite Hk. simpl. split; [|split; [|done]].
  - split; simpl; unfold list_Remove.
    + apply NoDup_filter, (inv_nodup c Hc).
    + intros e' [_ ?]%list_elem_of_filter. by apply (inv_elems c Hc).
    + intros k' e'. rewrite lookup_delete_Some, list_elem_of_filter.
      rewrite (inv_items c Hc k' e'). split.
      * intros (Hne & ? & v' & ?). split; [|eauto]. split; [|done]. intros ->. congruence.
      * intros ((Hne & ?) & v' & ?). split; [|eauto]. intros ->. by eapply Hne, inv_unique.
    + intros e' He'. by apply (inv_fresh c Hc).
  - unfold view. simpl. apply view_of_remove. by apply (inv_key_iff c e k v).
Qed.

Lemma list_Remove_last (l : list nat) e : NoDup (l ++ [e]) -> list_Remove e (l ++ [e]) = l.
Proof.
  intros (Hl & He & _)%NoDup_app. unfold list_Remove. rewrite filter_app.
  rewrite filter_cons_False by naive_solver. rewrite filter_nil, app_nil_r.
  apply filter_all_id. intros x Hx ->.
  by apply (He e Hx), list_elem_of_singleton.
Qed.

(** The eviction list of a non-empty cache ends in the oldest entry. *)
Lemma inv_back c : LRU_inv c ->
  (evictList c = [] /\ view c = []) \/
  exists l e k v, evictList c = l ++ [e] /\ elems c !! e = Some (Entry k v) /\
    view c = view_of (elems c) l ++ [(k, v)].
Proof.
  intros Hc. destruct (evictList c) as [|e l] eqn:Hl using rev_ind.
  - left. unfold view. by rewrite Hl.
  - right. clear IHl. destruct (inv_elems c Hc e) as [[k v] Hk].
    { rewrite Hl. apply elem_of_app. right. left. }
    exists l, e, k, v. split; [done|]. split; [done|].
    unfold view. rewrite Hl, view_of_app. f_equal. by rewrite (view_of_cons _ _ _ _ Hk).
Qed.

Lemma removeOldest_inv c : LRU_inv c ->
  LRU_inv (removeOldest c) /\ view (removeOldest c) = rl_drop_oldest (view c) /\
  lsize (removeOldest c) = lsize c.
Proof.
  intros Hc. unfold removeOldest, list_Back.
  destruct (inv_back c Hc) as [[Hl Hv]|(l & e & k & v & Hl & Hk & Hv)].
  - rewrite Hl, Hv. done.
  - rewrite Hl, last_snoc.
    destruct (removeElement_inv c e k v) as (Hi & _ & Hs); [done| |done|].
    { rewrite Hl. apply elem_of_app. right. left. }
    split; [done|]. split; [|done].
    rewrite Hv, rl_drop_oldest_snoc. unfold view, removeElement. simpl. rewrite Hl.
    f_equal. apply list_Remove_last. rewrite <- Hl. apply (inv_nodup c Hc).
Qed.
End invariant.

(** ** Refinement: each method acts on the recency list *)
Section refinement.
Context {K V : Type} `{Countable K, Nil V}.
Implicit Types (c : LRU (K := K) (V := V)) (k : K) (v : V).

Lemma LRU_ok_intro c : LRU_inv c -> (0 < lsize c)%Z ->
  (Z.of_nat (length (view c)) <= lsize c)%Z -> LRU_ok c.
Proof. intros Hc Hs Hl. split; [done|]. split; [done|]. unfold Len. by rewrite <- view_length. Qed.

Lemma LRU_ok_view c : LRU_ok c -> (0 < lsize c)%Z /\ rl_ok (lsize c) (view c).
Proof.
  intros (Hc & Hs & Hl). split; [done|]. split; [by apply view_NoDup|].
  unfold Len in Hl. by rewrite view_length.
Qed.

Lemma NewLRU_ok n c : NewLRU n = inr c -> LRU_ok c /\ lsize c = n /\ view c = [].
Proof.
  unfold NewLRU. destruct (Z.leb_spec n 0); [done|]. intros [= <-].
  split; [|done]. apply LRU_ok_intro; simpl; try lia. split; simpl.
  - constructor.
  - by intros e ?%not_elem_of_nil.
  - intros k e. rewrite lookup_empty. split; [done|]. intros [?%not_elem_of_nil _]. done.
  - intros e. rewrite lookup_empty. by intros [].
Qed.

Lemma MoveToFront_elem (e : nat) l x : e ∈ l -> x ∈ list_MoveToFront e l <-> x ∈ l.
Proof.
  intros He. unfold list_MoveToFront, list_Remove. rewrite elem_of_cons, list_elem_of_filter.
  destruct (decide (x = e)); naive_solver.
Qed.

Lemma MoveToFront_NoDup (e : nat) l : NoDup l -> NoDup (list_MoveToFront e l).
Proof.
  intros. apply NoDup_cons. unfold list_Remove. split; [|by apply NoDup_filter].
  rewrite list_elem_of_filter. naive_solver.
Qed.

(** Moving an element to the front, giving it the value [v]. *)
Lemma promote_inv c k e v0 v :
  LRU_inv c -> e ∈ evictList c -> elems c !! e = Some (Entry k v0) ->
  let c' := mkLRU (lsize c) (list_MoveToFront e (evictList c)) (<[e := Entry k v]> (elems c))
              (items c) (next c) in
  LRU_inv c' /\ view c' = (k, v) :: rl_remove k (view c).
Proof.
  intros Hc He Hk c'. split.
  - split; subst c'; simpl.
    + apply MoveToFront_NoDup, (inv_nodup c Hc).
    + intros e'. rewrite MoveToFront_elem by done. intros He'%(inv_elems c Hc).
      rewrite lookup_insert. case_decide; eauto.
    + intros k' e'. rewrite (inv_items c Hc), MoveToFront_elem, lookup_insert by done.
      case_decide; [subst|done]. naive_solver.
    + intros e'. rewrite lookup_insert. case_decide; [subst|]; intros; apply (inv_fresh c Hc); eauto.
  - unfold view, c', list_MoveToFront. cbn [evictList elems].
    rewrite (view_of_cons _ _ _ (Entry k v)) by apply lookup_insert_eq. cbn [key value]. f_equal.
    erewrite view_of_ext; [by apply view_of_remove, (inv_key_iff c e k v0)|].
    intros e' [? _]%list_elem_of_filter. by rewrite lookup_insert_ne.
Qed.

(** Pushing a new element for an absent key. *)
Lemma push_inv c k v :
  LRU_inv c -> items c !! k = None ->
  let c' := mkLRU (lsize c) (next c :: evictList c) (<[next c := Entry k v]> (elems c))
              (<[k := next c]> (items c)) (S (next c)) in
  LRU_inv c' /\ view c' = (k, v) :: view c.
Proof.
  intros Hc Hk c'.
  assert (forall e, e ∈ evictList c -> e <> next c) as Hne.
  { intros e He ->. apply (inv_elems c Hc), (inv_fresh c Hc) in He. lia. }
  split.
  - split; subst c'; simpl.
    + apply NoDup_cons. split; [|apply (inv_nodup c Hc)]. intros ?. by eapply Hne.
    + intros e. rewrite elem_of_cons, lookup_insert. intros [->|He].
      * rewrite decide_True by done. eauto.
      * rewrite decide_False by (by apply not_eq_sym, Hne). by apply (inv_elems c Hc).
    + intros k' e. rewrite elem_of_cons, !lookup_insert.
      destruct (decide (k = k')) as [<-|Hkk].
      * split; [intros [= <-]; rewrite decide_True by done; eauto|].
        intros (He & v' & Hv). case_decide; [congruence|].
        destruct He as [|He]; [done|]. assert (items c !! k = Some e) by (apply (inv_items c Hc); eauto).
        congruence.
      * rewrite (inv_items c Hc). split.
        -- intros (He & v' & Hv). split; [by right|]. exists v'.
           by rewrite decide_False by (by apply not_eq_sym, Hne).
        -- intros (He & v' & Hv). case_decide; [congruence|]. naive_solver.
    + intros e. rewrite lookup_insert. case_decide; [lia|]. intros He%(inv_fresh c Hc). lia.
  - unfold view, c'. cbn [evictList elems].
    rewrite (view_of_cons _ _ _ (Entry k v)) by apply lookup_insert_eq.
    cbn [key value]. f_equal. apply view_of_ext. intros e He. rewrite lookup_insert_ne; [done|].
    by apply not_eq_sym, Hne.
Qed.

Lemma Add_refines c k v : LRU_ok c ->
  let '(evicted, c') := Add c k v in
  LRU_ok c' /\ lsize c' = lsize c /\ view c' = rl_add (lsize c) k v (view c).
Proof.
  intros Hok. destruct (LRU_ok_view c Hok) as [Hs Hrl]. pose proof Hok as (Hc & _ & Hlen).
  unfold Add. destruct (items c !! k) as [e|] eqn:Hk.
  - destruct (items_elem c k e Hc Hk) as (He & v0 & Hv0).
    assert (alter (fun kv => Entry (key kv) v) e (elems c) = <[e := Entry k v]> (elems c)) as ->.
    { apply map_eq. intros i. rewrite lookup_alter, lookup_insert.
      case_decide; [subst; by rewrite Hv0|done]. }
    destruct (promote_inv c k e v0 v Hc He Hv0) as [Hi Hv].
    assert (k ∈ (view c).*1) as Hkin by (apply view_keys; eauto).
    assert (length (view c) = S (length (rl_remove k (view c)))) as Hrm.
    { apply rl_remove_length; [by apply view_NoDup|done]. }
    destruct Hrl as [_ Hrl].
    split; [|split; [done|]].
    + apply LRU_ok_intro; [done|done|]. rewrite Hv. cbn [lsize length]. lia.
    + rewrite Hv, rl_add_room; [done|]. lia.
  - destruct (push_inv c k v Hc Hk) as [Hi Hv].
    assert (rl_remove k (view c) = view c) as Hrm.
    { apply rl_remove_id. rewrite view_keys, Hk by done. by intros []. }
    cbn zeta. set (c1 := mkLRU _ _ _ _ _) in *.
    change (lsize c1) with (lsize c). rewrite <- (view_length c1), Hv by done. cbn [length].
    destruct Hrl as [Hnd Hrl]. destruct (Z.ltb_spec (lsize c) (Z.of_nat (S (length (view c))))).
    + destruct (removeOldest_inv c1 Hi) as (Hi' & Hv' & Hs').
      assert (view (removeOldest c1) = rl_add (lsize c) k v (view c)) as Hview.
      { rewrite Hv', Hv. unfold rl_drop_oldest, rl_add. rewrite Hrm. f_equal. cbn [length]. lia. }
      split; [|split; done].
      apply LRU_ok_intro; [done|by rewrite Hs'|]. rewrite Hview, Hs'. by apply rl_add_ok.
    + split; [|split; [done|]].
      * apply LRU_ok_intro; [done|done|]. rewrite Hv. cbn [length]. done.
      * rewrite Hv, rl_add_room, Hrm; [done|]. rewrite Hrm. lia.
Qed.

(** [Add] reports an eviction exactly when a new key meets a full cache. *)
Lemma Add_evicted c k v : LRU_ok c ->
  (Add c k v).1 = bool_decide ((k ∉ (view c).*1) /\ (lsize c <= Z.of_nat (length (view c)))%Z).
Proof.
  intros (Hc & _). unfold Add. pose proof (view_keys c k Hc) as Hk.
  destruct (items c !! k) as [e|]; cbn [fst].
  - rewrite bool_decide_false; [done|]. intros [Hn _]. apply Hn, Hk. eauto.
  - cbn [lsize evictList length]. rewrite <- (view_length c Hc).
    destruct (Z.ltb_spec (lsize c) (Z.of_nat (S (length (view c))))).
    + rewrite bool_decide_true; [done|]. split; [|lia]. rewrite Hk. by intros [].
    + rewrite bool_decide_false; [done|]. lia.
Qed.

Lemma Get_refines c k : LRU_ok c ->
  let '(vb, c') := Get c k in
  LRU_ok c' /\ lsize c' = lsize c /\ view c' = rl_touch k (view c) /\
  vb = match rl_lookup k (view c) with Some v => (v, true) | None => (nilv, false) end.
Proof.
  intros Hok. destruct (LRU_ok_view c Hok) as [Hs Hrl]. pose proof Hok as (Hc & _ & _).
  unfold rl_touch. rewrite view_lookup by done. unfold Get.
  destruct (items c !! k) as [e|] eqn:Hk; simpl; [|done].
  destruct (items_elem c k e Hc Hk) as (He & v & Hv). rewrite Hv. simpl.
  destruct (promote_inv c k e v v Hc He Hv) as [Hi Hview].
  rewrite insert_id in Hi, Hview by done.
  split; [|done]. apply LRU_ok_intro; [done|done|]. rewrite Hview. cbn [lsize length].
  destruct Hrl as [Hnd Hrl]. rewrite (rl_remove_length k) in Hrl; [lia|done|].
  apply view_keys; eauto.
Qed.

Lemma Contains_refines c k : LRU_ok c -> Contains c k = bool_decide (k ∈ (view c).*1).
Proof.
  intros (Hc & _). unfold Contains. rewrite (bool_decide_ext _ _ (view_keys c k Hc)).
  by destruct (items c !! k).
Qed.

Lemma Peek_refines c k : LRU_ok c ->
  Peek c k = match rl_lookup k (view c) with Some v => (v, true) | None => (nilv, false) end.
Proof.
  intros (Hc & _). rewrite view_lookup by done. unfold Peek.
  destruct (items c !! k) as [e|] eqn:Hk; simpl; [|done].
  destruct (items_elem c k e Hc Hk) as (He & v & ->). done.
Qed.

Lemma Remove_refines c k : LRU_ok c ->
  let '(b, c') := Remove c k in
  LRU_ok c' /\ lsize c' = lsize c /\ view c' = rl_remove k (view c) /\
  b = bool_decide (k ∈ (view c).*1).
Proof.
  intros Hok. destruct (LRU_ok_view c Hok) as [Hs Hrl]. pose proof Hok as (Hc & _ & _).
  rewrite (bool_decide_ext _ _ (view_keys c k Hc)). unfold Remove.
  destruct (items c !! k) as [e|] eqn:Hk; simpl.
  - destruct (items_elem c k e Hc Hk) as (He & v & Hv).
    destruct (removeElement_inv c e k v) as (Hi & Hview & Hsz); [done..|].
    split; [|done]. apply LRU_ok_intro; [done|by rewrite Hsz|].
    rewrite Hview, Hsz. by apply rl_remove_ok.
  - split; [done|]. split; [done|]. split; [|done]. symmetry. apply rl_remove_id.
    rewrite view_keys, Hk by done. by intros [].
Qed.

Lemma GetOldest_refines c : LRU_ok c -> GetOldest c = last (view c).
Proof.
  intros (Hc & _). unfold GetOldest, list_Back.
  destruct (inv_back c Hc) as [[Hl Hv]|(l & e & k & v & Hl & Hk & Hv)]; rewrite Hl, Hv; [done|].
  rewrite !last_snoc, Hk. done.
Qed.

Lemma removeOldest_ok c : LRU_ok c -> LRU_ok (removeOldest c).
Proof.
  intros Hok. destruct (LRU_ok_view c Hok) as [Hs Hrl]. destruct Hok as (Hc & _ & _).
  destruct (removeOldest_inv c Hc) as (Hi & Hv & Hsz).
  apply LRU_ok_intro; [done|by rewrite Hsz|]. rewrite Hv, Hsz. by apply rl_drop_oldest_ok.
Qed.

Lemma RemoveOldest_removeOldest c : RemoveOldest c = (GetOldest c, removeOldest c).
Proof. unfold RemoveOldest, GetOldest, removeOldest. by destruct (list_Back (evictList c)). Qed.

Lemma RemoveOldest_refines c : LRU_ok c ->
  let '(o, c') := RemoveOldest c in
  LRU_ok c' /\ lsize c' = lsize c /\ view c' = rl_drop_oldest (view c) /\ o = last (view c).
Proof.
  intros Hok. rewrite RemoveOldest_removeOldest.
  destruct (removeOldest_inv c) as (_ & Hv & Hs); [apply Hok|].
  auto using removeOldest_ok, GetOldest_refines.
Qed.

Lemma Keys_refines c : LRU_ok c -> Keys c = reverse (view c).*1.
Proof.
  intros (Hc & _). unfold Keys, view. pose proof (inv_elems c Hc) as Hel.
  revert Hel. generalize (evictList c). intros l. induction l as [|e l IH] using rev_ind; [done|].
  intros Hel. rewrite reverse_snoc. csimpl.
  destruct (Hel e) as [[k v] Hk]; [apply elem_of_app; right; left|]. rewrite Hk. csimpl.
  rewrite view_of_app, fmap_app, reverse_app, (view_of_cons _ _ _ _ Hk). csimpl. f_equal.
  apply IH. intros e' ?. apply Hel, elem_of_app. by left.
Qed.

Lemma Len_refines c : LRU_ok c -> Len c = Z.of_nat (length (view c)).
Proof. intros (Hc & _). unfold Len. by rewrite view_length. Qed.

Lemma Purge_refines c : LRU_ok c ->
  LRU_ok (Purge c) /\ lsize (Purge c) = lsize c /\ view (Purge c) = [].
Proof.
  intros (Hc & Hs & Hl). split; [|done]. apply LRU_ok_intro; simpl; [|done|lia]. split; simpl.
  - constructor.
  - by intros e ?%not_elem_of_nil.
  - intros k e. rewrite lookup_empty. split; [done|]. by intros [?%not_elem_of_nil _].
  - intros e. apply (inv_fresh c Hc).
Qed.

(** [Resize] keeps the newest entries that fit and reports how many it dropped. *)
Lemma iter_removeOldest c n : LRU_inv c ->
  let c' := Nat.iter n removeOldest c in
  LRU_inv c' /\ view c' = take (length (view c) - n) (view c) /\ lsize c' = lsize c.
Proof.
  intros Hc. induction n as [|n IH]; simpl.
  - split; [done|]. rewrite Nat.sub_0_r, take_ge by done. done.
  - destruct IH as (Hi & Hv & Hs). destruct (removeOldest_inv _ Hi) as (Hi' & Hv' & Hs').
    split; [done|]. split; [|by rewrite Hs'].
    rewrite Hv', Hv. unfold rl_drop_oldest. rewrite length_take, take_take. f_equal. lia.
Qed.

Lemma Resize_refines c n : LRU_ok c -> (0 < n)%Z ->
  let '(d, c') := Resize c n in
  LRU_ok c' /\ lsize c' = n /\ view c' = take (Z.to_nat n) (view c) /\
  d = Z.max 0 (Z.of_nat (length (view c)) - n).
Proof.
  intros Hok Hn. unfold Resize. rewrite Len_refines by done.
  set (d := (if (Z.of_nat (length (view c)) - n <? 0)%Z then 0%Z
             else (Z.of_nat (length (view c)) - n)%Z)). cbn zeta.
  assert (d = Z.max 0 (Z.of_nat (length (view c)) - n)) as Hd.
  { subst d. destruct (Z.ltb_spec (Z.of_nat (length (view c)) - n) 0); lia. }
  destruct (iter_removeOldest c (Z.to_nat d)) as ([????] & Hv & _); [apply Hok|].
  assert (view (Nat.iter (Z.to_nat d) removeOldest c) = take (Z.to_nat n) (view c)) as Hview.
  { rewrite Hv. destruct (decide (Z.of_nat (length (view c)) <= n)%Z).
    - rewrite !take_ge by lia. done.
    - f_equal. lia. }
  split; [|split; [done|split; [apply Hview|done]]].
  apply LRU_ok_intro; simpl; [by split|done|].
  enough (Z.of_nat (length (view (Nat.iter (Z.to_nat d) removeOldest c))) <= n)%Z by done.
  rewrite Hview, length_take. lia.
Qed.
End refinement.

(** [simplelru.LRU] implements [simplelru.LRUCache]. *)
#[global] Program Instance LRU_LRUCache {K V} `{Countable K, Nil V} :
    LRUCache (LRU (K := K) (V := V)) K V := {|
  lru_ok := LRU_ok; lru_view := view; lru_cap := lsize;
  lru_Add := Add; lru_Get := Get; lru_Contains := Contains; lru_Peek := Peek;
  lru_Remove := Remove; lru_RemoveOldest := RemoveOldest; lru_Keys := Keys;
  lru_Len := Len; lru_Purge := Purge;
  lru_view_ok := LRU_ok_view; lru_Add_ok := Add_refines; lru_Get_ok := Get_refines;
  lru_Contains_ok := Contains_refines; lru_Peek_ok := Peek_refines;
  lru_Remove_ok := Remove_refines; lru_RemoveOldest_ok := RemoveOldest_refines;
  lru_Keys_ok := Keys_refines; lru_Len_ok := Len_refines; lru_Purge_ok := Purge_refines |}.
