(* ===== verification/Arc.v ===== *)
(** * [lru.ARCCache]: the adaptive replacement cache

    Translation of vendor/github.com/hashicorp/golang-lru/arc.go.  The cache is
    proved against the interface [LRUCache] of its four segments.  Every exported
    method takes the cache's mutex for its whole body, so each definition here is
    one atomic step.  Segment lengths and [p] are Go [int]s bounded by the number
    of cached entries, which memory keeps far below [2^63]; they are plain [Z]. *)

From S2P Require Import Prelude LruInterface SimpleLru.

Section arc.
Context {L K V : Type} `{Countable K, Nil V, !LRUCache L K V}.

Record ARCCache := mkARC { asize : Z; p : Z; t1 : L; b1 : L; t2 : L; b2 : L }.

Definition set_p (c : ARCCache) (x : Z) : ARCCache := mkARC (asize c) x (t1 c) (b1 c) (t2 c) (b2 c).
Definition set_t1 (c : ARCCache) (l : L) : ARCCache := mkARC (asize c) (p c) l (b1 c) (t2 c) (b2 c).
Definition set_b1 (c : ARCCache) (l : L) : ARCCache := mkARC (asize c) (p c) (t1 c) l (t2 c) (b2 c).
Definition set_t2 (c : ARCCache) (l : L) : ARCCache := mkARC (asize c) (p c) (t1 c) (b1 c) l (b2 c).
Definition set_b2 (c : ARCCache) (l : L) : ARCCache := mkARC (asize c) (p c) (t1 c) (b1 c) (t2 c) l.

Definition arc_Get (c : ARCCache) (k : K) : (V * bool) * ARCCache :=
  let '(val, ok) := lru_Peek (t1 c) k in
  if ok then
    let c := set_t1 c (lru_Remove (t1 c) k).2 in
    let c := set_t2 c (lru_Add (t2 c) k val).2 in
    ((val, ok), c)
  else
    let '((val, ok), t2') := lru_Get (t2 c) k in
    let c := set_t2 c t2' in
    if ok then ((val, ok), c) else ((nilv, false), c).

Definition replace (c : ARCCache) (b2ContainsKey : bool) : ARCCache :=
  let t1Len := lru_Len (t1 c) in
  if ((0 <? t1Len) && ((p c <? t1Len) || ((t1Len =? p c) && b2ContainsKey)))%Z then
    let '(o, t1') := lru_RemoveOldest (t1 c) in
    let c := set_t1 c t1' in
    match o with Some (k, _) => set_b1 c (lru_Add (b1 c) k nilv).2 | None => c end
  else
    let '(o, t2') := lru_RemoveOldest (t2 c) in
    let c := set_t2 c t2' in
    match o with Some (k, _) => set_b2 c (lru_Add (b2 c) k nilv).2 | None => c end.

(** "Potentially need to make room in the cache". *)
Definition make_room (c : ARCCache) (b2ContainsKey : bool) : ARCCache :=
  if (asize c <=? lru_Len (t1 c) + lru_Len (t2 c))%Z then replace c b2ContainsKey else c.

(** The new value of [p] on a hit in [b1], and on a hit in [b2]. *)
Definition grow_p (c : ARCCache) : Z :=
  (let b1Len := lru_Len (b1 c) in
   let b2Len := lru_Len (b2 c) in
   let delta := if b1Len <? b2Len then Z.quot b2Len b1Len else 1 in
   if asize c <=? p c + delta then asize c else p c + delta)%Z.

Definition shrink_p (c : ARCCache) : Z :=
  (let b1Len := lru_Len (b1 c) in
   let b2Len := lru_Len (b2 c) in
   let delta := if b2Len <? b1Len then Z.quot b1Len b2Len else 1 in
   if p c <=? delta then 0 else p c - delta)%Z.

(** "Keep the size of the ghost buffers trim". *)
Definition trim_b1 (c : ARCCache) : ARCCache :=
  if (asize c - p c <? lru_Len (b1 c))%Z then set_b1 c (lru_RemoveOldest (b1 c)).2 else c.
Definition trim_b2 (c : ARCCache) : ARCCache :=
  if (p c <? lru_Len (b2 c))%Z then set_b2 c (lru_RemoveOldest (b2 c)).2 else c.

Definition arc_Add (c : ARCCache) (k : K) (v : V) : ARCCache :=
  if lru_Contains (t1 c) k then
    let c := set_t1 c (lru_Remove (t1 c) k).2 in
    set_t2 c (lru_Add (t2 c) k v).2
  else if lru_Contains (t2 c) k then
    set_t2 c (lru_Add (t2 c) k v).2
  else if lru_Contains (b1 c) k then
    let c := set_p c (grow_p c) in
    let c := make_room c false in
    let c := set_b1 c (lru_Remove (b1 c) k).2 in
    set_t2 c (lru_Add (t2 c) k v).2
  else if lru_Contains (b2 c) k then
    let c := set_p c (shrink_p c) in
    let c := make_room c true in
    let c := set_b2 c (lru_Remove (b2 c) k).2 in
    set_t2 c (lru_Add (t2 c) k v).2
  else
    let c := make_room c false in
    let c := trim_b1 c in
    let c := trim_b2 c in
    set_t1 c (lru_Add (t1 c) k v).2.

Definition arc_Len (c : ARCCache) : Z := (lru_Len (t1 c) + lru_Len (t2 c))%Z.

Definition arc_Keys (c : ARCCache) : list K := lru_Keys (t1 c) ++ lru_Keys (t2 c).

Definition arc_Remove (c : ARCCache) (k : K) : ARCCache :=
  let '(r, l) := lru_Remove (t1 c) k in if r : bool then set_t1 c l else
  let '(r, l) := lru_Remove (t2 c) k in if r : bool then set_t2 c l else
  let '(r, l) := lru_Remove (b1 c) k in if r : bool then set_b1 c l else
  let '(r, l) := lru_Remove (b2 c) k in if r : bool then set_b2 c l else c.

Definition arc_Purge (c : ARCCache) : ARCCache :=
  mkARC (asize c) (p c) (lru_Purge (t1 c)) (lru_Purge (b1 c)) (lru_Purge (t2 c)) (lru_Purge (b2 c)).

Definition arc_Contains (c : ARCCache) (k : K) : bool :=
  lru_Contains (t1 c) k || lru_Contains (t2 c) k.

Definition arc_Peek (c : ARCCache) (k : K) : V * bool :=
  let '(val, ok) := lru_Peek (t1 c) k in
  if ok then (val, ok) else lru_Peek (t2 c) k.
End arc.
Arguments ARCCache L : clear implicits.

(** [NewARC] builds the four segments with [simplelru.NewLRU]. *)
Definition NewARC {K V} `{Countable K, Nil V} (n : Z) : string + ARCCache (LRU (K := K) (V := V)) :=
  match NewLRU n with
  | inl err => inl err
  | inr b1 =>
    match NewLRU n with
    | inl err => inl err
    | inr b2 =>
      match NewLRU n with
      | inl err => inl err
      | inr t1 =>
        match NewLRU n with
        | inl err => inl err
        | inr t2 => inr (mkARC n 0 t1 b1 t2 b2)
        end
      end
    end
  end.

(** ** The invariant *)
Section arc_invariant.
Context {L K V : Type} `{Countable K, Nil V, !LRUCache L K V}.
Implicit Types (c : ARCCache L) (k x : K) (v : V) (l : L).

Definition keys l : list K := (lru_view l).*1.
Definition seg_ok (n : Z) l : Prop := lru_ok l /\ lru_cap l = n.

(** What the cache holds under key [k]. *)
Definition content c k : option V :=
  match rl_lookup k (lru_view (t1 c)) with
  | Some v => Some v
  | None => rl_lookup k (lru_view (t2 c))
  end.

(** Number of cached entries. *)
Definition held c : Z := Z.of_nat (length (lru_view (t1 c)) + length (lru_view (t2 c))).

Record ARC_ok c : Prop := {
  ok_size : (0 < asize c)%Z;
  ok_p : (0 <= p c <= asize c)%Z;
  ok_t1 : seg_ok (asize c) (t1 c);
  ok_b1 : seg_ok (asize c) (b1 c);
  ok_t2 : seg_ok (asize c) (t2 c);
  ok_b2 : seg_ok (asize c) (b2 c);
  ok_t1_t2 : keys (t1 c) ## keys (t2 c);
  ok_t1_b1 : keys (t1 c) ## keys (b1 c);
  ok_t1_b2 : keys (t1 c) ## keys (b2 c);
  ok_t2_b1 : keys (t2 c) ## keys (b1 c);
  ok_t2_b2 : keys (t2 c) ## keys (b2 c);
  ok_b1_b2 : keys (b1 c) ## keys (b2 c);
  ok_held : (held c <= asize c + 1)%Z }.
End arc_invariant.

Create HintDb arc.

(** ** The interface, in the form the proofs use *)
Section segments.
Context {L K V : Type} `{Countable K, Nil V, !LRUCache L K V}.
Implicit Types (n : Z) (k x : K) (v : V) (l : L).

Lemma seg_view n l : seg_ok n l -> (0 < n)%Z /\ rl_ok n (lru_view l).
Proof. intros [Hl <-]. by apply lru_view_ok. Qed.

Lemma seg_NoDup n l : seg_ok n l -> NoDup (keys l).
Proof. intros Hl. apply (seg_view n l Hl). Qed.

Lemma seg_length n l : seg_ok n l -> (Z.of_nat (length (lru_view l)) <= n)%Z.
Proof. intros Hl. apply (seg_view n l Hl). Qed.

Lemma seg_Add n l k v : seg_ok n l -> seg_ok n (lru_Add l k v).2.
Proof.
  intros [Hl <-]. pose proof (lru_Add_ok l k v Hl) as Ha.
  destruct (lru_Add l k v) as [b l']. split; apply Ha.
Qed.

Lemma view_Add n l k v : seg_ok n l -> lru_view (lru_Add l k v).2 = rl_add n k v (lru_view l).
Proof.
  intros [Hl <-]. pose proof (lru_Add_ok l k v Hl) as Ha.
  destruct (lru_Add l k v) as [b l']. apply Ha.
Qed.

Lemma seg_Remove n l k : seg_ok n l -> seg_ok n (lru_Remove l k).2.
Proof.
  intros [Hl <-]. pose proof (lru_Remove_ok l k Hl) as Ha.
  destruct (lru_Remove l k) as [b l']. split; apply Ha.
Qed.

Lemma view_Remove n l k : seg_ok n l -> lru_view (lru_Remove l k).2 = rl_remove k (lru_view l).
Proof.
  intros [Hl <-]. pose proof (lru_Remove_ok l k Hl) as Ha.
  destruct (lru_Remove l k) as [b l']. apply Ha.
Qed.

Lemma Remove_found n l k : seg_ok n l -> (lru_Remove l k).1 = bool_decide (k ∈ keys l).
Proof.
  intros [Hl <-]. pose proof (lru_Remove_ok l k Hl) as Ha.
  destruct (lru_Remove l k) as [b l']. apply Ha.
Qed.

Lemma seg_RemoveOldest n l : seg_ok n l -> seg_ok n (lru_RemoveOldest l).2.
Proof.
  intros [Hl <-]. pose proof (lru_RemoveOldest_ok l Hl) as Ha.
  destruct (lru_RemoveOldest l) as [b l']. split; apply Ha.
Qed.

Lemma view_RemoveOldest n l : seg_ok n l -> lru_view (lru_RemoveOldest l).2 = rl_drop_oldest (lru_view l).
Proof.
  intros [Hl <-]. pose proof (lru_RemoveOldest_ok l Hl) as Ha.
  destruct (lru_RemoveOldest l) as [b l']. apply Ha.
Qed.

Lemma RemoveOldest_oldest n l : seg_ok n l -> (lru_RemoveOldest l).1 = last (lru_view l).
Proof.
  intros [Hl <-]. pose proof (lru_RemoveOldest_ok l Hl) as Ha.
  destruct (lru_RemoveOldest l) as [b l']. apply Ha.
Qed.

Lemma seg_Get n l k : seg_ok n l -> seg_ok n (lru_Get l k).2.
Proof.
  intros [Hl <-]. pose proof (lru_Get_ok l k Hl) as Ha.
  destruct (lru_Get l k) as [b l']. split; apply Ha.
Qed.

Lemma view_Get n l k : seg_ok n l -> lru_view (lru_Get l k).2 = rl_touch k (lru_view l).
Proof.
  intros [Hl <-]. pose proof (lru_Get_ok l k Hl) as Ha.
  destruct (lru_Get l k) as [b l']. apply Ha.
Qed.

Lemma Get_value n l k : seg_ok n l -> (lru_Get l k).1 =
  match rl_lookup k (lru_view l) with Some v => (v, true) | None => (nilv, false) end.
Proof.
  intros [Hl <-]. pose proof (lru_Get_ok l k Hl) as Ha.
  destruct (lru_Get l k) as [b l']. apply Ha.
Qed.

Lemma seg_Purge n l : seg_ok n l -> seg_ok n (lru_Purge l) /\ lru_view (lru_Purge l) = [].
Proof. intros [Hl <-]. destruct (lru_Purge_ok l Hl) as (?&?&?). done. Qed.

Lemma seg_Contains n l k : seg_ok n l -> lru_Contains l k = bool_decide (k ∈ keys l).
Proof. intros [Hl _]. by apply lru_Contains_ok. Qed.

Lemma seg_Len n l : seg_ok n l -> lru_Len l = Z.of_nat (length (lru_view l)).
Proof. intros [Hl _]. by apply lru_Len_ok. Qed.

Lemma seg_Peek n l k : seg_ok n l -> lru_Peek l k =
  match rl_lookup k (lru_view l) with Some v => (v, true) | None => (nilv, false) end.
Proof. intros [Hl _]. by apply lru_Peek_ok. Qed.

(** Membership after each operation. *)
Lemma keys_Add n l k v x : seg_ok n l -> x ∈ keys (lru_Add l k v).2 -> x = k \/ x ∈ keys l.
Proof. intros Hl. unfold keys. rewrite (view_Add n) by done. apply rl_add_keys. Qed.

Lemma keys_Remove n l k x : seg_ok n l -> x ∈ keys (lru_Remove l k).2 <-> x <> k /\ x ∈ keys l.
Proof. intros Hl. unfold keys. rewrite (view_Remove n) by done. apply rl_remove_keys. Qed.

Lemma keys_RemoveOldest n l x : seg_ok n l -> x ∈ keys (lru_RemoveOldest l).2 -> x ∈ keys l.
Proof. intros Hl. unfold keys. rewrite (view_RemoveOldest n) by done. apply rl_drop_oldest_keys. Qed.

Lemma keys_Get n l k x : seg_ok n l -> x ∈ keys (lru_Get l k).2 <-> x ∈ keys l.
Proof. intros Hl. unfold keys. rewrite (view_Get n) by done. apply rl_touch_keys. Qed.

Lemma length_Add n l k v : seg_ok n l ->
  (length (lru_view (lru_Add l k v).2) <= S (length (lru_view l)))%nat.
Proof.
  intros Hl. rewrite (view_Add n) by done. unfold rl_add. rewrite length_take. simpl.
  pose proof (rl_remove_length_le k (lru_view l)). lia.
Qed.

Lemma length_Add_present n l k v : seg_ok n l -> k ∈ keys l ->
  length (lru_view (lru_Add l k v).2) = length (lru_view l).
Proof.
  intros Hl Hk. rewrite (view_Add n) by done. destruct (seg_view n l Hl) as [Hn [Hnd Hlen]].
  pose proof (rl_remove_length k _ Hnd Hk) as Hrm.
  rewrite rl_add_room by lia. simpl. lia.
Qed.

(** The oldest entry of a non-empty segment. *)
Lemma RemoveOldest_cases n l : seg_ok n l ->
  (lru_view l = [] /\ (lru_RemoveOldest l).1 = None) \/
  exists (l0 : list (K * V)) k v, lru_view l = l0 ++ [(k, v)] /\ (lru_RemoveOldest l).1 = Some (k, v) /\
    lru_view (lru_RemoveOldest l).2 = l0 /\ k ∉ l0.*1.
Proof.
  intros Hl. rewrite (RemoveOldest_oldest n), (view_RemoveOldest n) by done.
  pose proof (seg_NoDup n l Hl) as Hnd. unfold keys in Hnd.
  destruct (lru_view l) as [|[k v] l0 _] using rev_ind; [by left|right].
  exists l0, k, v. rewrite last_snoc, rl_drop_oldest_snoc. split; [done|]. split; [done|]. split; [done|].
  rewrite fmap_app in Hnd. apply NoDup_app in Hnd as (_ & Hd & _).
  intros Hk. by apply (Hd k Hk), list_elem_of_singleton.
Qed.
End segments.

#[export] Hint Resolve seg_Add seg_Remove seg_RemoveOldest seg_Get : arc.
#[export] Hint Resolve ok_size ok_t1 ok_t2 ok_b1 ok_b2 : arc.

(** ** Evictions

    [lessened l' l]: segment [l'] holds the entries of [l] except some that were
    dropped. *)
Section evictions.
Context {L K V : Type} `{Countable K, Nil V, !LRUCache L K V}.
Implicit Types (c : ARCCache L) (k x : K) (v : V) (l : L) (n : Z).

Definition lessened l' l : Prop := forall x,
  rl_lookup x (lru_view l') = rl_lookup x (lru_view l) \/ rl_lookup x (lru_view l') = None.

Lemma lessened_refl l : lessened l l.
Proof. by left. Qed.

Lemma lessened_keys l' l x : lessened l' l -> x ∈ keys l' -> x ∈ keys l.
Proof.
  unfold keys. intros Hl. rewrite <- !rl_lookup_is_Some.
  destruct (Hl x) as [->| ->]; [done|]. by intros [].
Qed.

Lemma lessened_RemoveOldest n l : seg_ok n l -> lessened (lru_RemoveOldest l).2 l.
Proof.
  intros Hl x. rewrite (view_RemoveOldest n) by done.
  apply rl_lookup_drop_oldest, (seg_NoDup n l Hl).
Qed.

Lemma lessened_Remove n l k : seg_ok n l -> lessened (lru_Remove l k).2 l.
Proof.
  intros Hl x. rewrite (view_Remove n) by done. destruct (decide (x = k)) as [->|].
  - right. apply rl_lookup_remove_eq.
  - left. by apply rl_lookup_remove_ne.
Qed.

Lemma content_keys c k : is_Some (content c k) <-> k ∈ keys (t1 c) \/ k ∈ keys (t2 c).
Proof.
  unfold content, keys. rewrite <- !rl_lookup_is_Some.
  destruct (rl_lookup k (lru_view (t1 c))); [naive_solver|].
  split; [by right|]. by intros [[]|].
Qed.

Lemma content_lessened c c' x : keys (t1 c) ## keys (t2 c) ->
  lessened (t1 c') (t1 c) -> lessened (t2 c') (t2 c) ->
  content c' x = content c x \/ content c' x = None.
Proof.
  intros Hd H1 H2. unfold content. destruct (H1 x) as [->| ->].
  - destruct (rl_lookup x (lru_view (t1 c))); [by left|apply H2].
  - destruct (rl_lookup x (lru_view (t1 c))) eqn:Hx; [|apply H2].
    right. apply rl_lookup_None. intros Hin%(lessened_keys _ _ _ H2).
    eapply Hd; [|done]. apply rl_lookup_is_Some; eauto.
Qed.

(** [c'] is [c] after at most one eviction into a ghost list. *)
Record evicted c' c : Prop := {
  ev_ok : ARC_ok c';
  ev_size : asize c' = asize c;
  ev_p : p c' = p c;
  ev_t1 : lessened (t1 c') (t1 c);
  ev_t2 : lessened (t2 c') (t2 c);
  ev_b1 : forall x, x ∈ keys (b1 c') -> x ∈ keys (b1 c) \/ x ∈ keys (t1 c);
  ev_b2 : forall x, x ∈ keys (b2 c') -> x ∈ keys (b2 c) \/ x ∈ keys (t2 c) }.

Lemma evicted_refl c : ARC_ok c -> evicted c c.
Proof. intros Hc. split; auto using lessened_refl. Qed.

Lemma evicted_content c c' x : ARC_ok c -> evicted c' c ->
  content c' x = content c x \/ content c' x = None.
Proof. intros Hc He. apply content_lessened; [apply Hc|apply He|apply He]. Qed.

Lemma replace_t1 c (l0 : list (K * V)) k v :
  ARC_ok c -> lru_view (t1 c) = l0 ++ [(k, v)] ->
  lru_view (lru_RemoveOldest (t1 c)).2 = l0 -> k ∉ l0.*1 ->
  evicted (set_b1 (set_t1 c (lru_RemoveOldest (t1 c)).2) (lru_Add (b1 c) k nilv).2) c.
Proof.
  intros Hc Hv Hv' Hk. pose proof Hc as [Hs Hp H1 Hb1 H2 Hb2 D12 D1b1 D1b2 D2b1 D2b2 Dbb Hh].
  assert (k ∈ keys (t1 c)) as Hk1.
  { unfold keys. rewrite Hv, fmap_app. apply elem_of_app. right. left. }
  pose proof (lessened_RemoveOldest _ _ H1) as Hless.
  assert (forall x, x ∈ keys (lru_RemoveOldest (t1 c)).2 -> x ∈ keys (t1 c)) as Hsub.
  { intros x. by apply lessened_keys. }
  assert (k ∉ keys (lru_RemoveOldest (t1 c)).2) as Hk0 by (unfold keys; by rewrite Hv').
  assert (forall x, x ∈ keys (lru_Add (b1 c) k nilv).2 -> x = k \/ x ∈ keys (b1 c)) as Hadd.
  { intros x. by apply (keys_Add (asize c)). }
  split; simpl; auto using lessened_refl.
  - split; simpl; auto with arc; try (intros x Hx Hy); try (naive_solver; fail).
    unfold held in *. simpl. rewrite Hv'. rewrite Hv, length_app in Hh. simpl in Hh. lia.
  - naive_solver.
Qed.

Lemma replace_t2 c (l0 : list (K * V)) k v :
  ARC_ok c -> lru_view (t2 c) = l0 ++ [(k, v)] ->
  lru_view (lru_RemoveOldest (t2 c)).2 = l0 -> k ∉ l0.*1 ->
  evicted (set_b2 (set_t2 c (lru_RemoveOldest (t2 c)).2) (lru_Add (b2 c) k nilv).2) c.
Proof.
  intros Hc Hv Hv' Hk. pose proof Hc as [Hs Hp H1 Hb1 H2 Hb2 D12 D1b1 D1b2 D2b1 D2b2 Dbb Hh].
  assert (k ∈ keys (t2 c)) as Hk1.
  { unfold keys. rewrite Hv, fmap_app. apply elem_of_app. right. left. }
  pose proof (lessened_RemoveOldest _ _ H2) as Hless.
  assert (forall x, x ∈ keys (lru_RemoveOldest (t2 c)).2 -> x ∈ keys (t2 c)) as Hsub.
  { intros x. by apply lessened_keys. }
  assert (k ∉ keys (lru_RemoveOldest (t2 c)).2) as Hk0 by (unfold keys; by rewrite Hv').
  assert (forall x, x ∈ keys (lru_Add (b2 c) k nilv).2 -> x = k \/ x ∈ keys (b2 c)) as Hadd.
  { intros x. by apply (keys_Add (asize c)). }
  split; simpl; auto using lessened_refl.
  - split; simpl; auto with arc; try (intros x Hx Hy); try (naive_solver; fail).
    unfold held in *. simpl. rewrite Hv'. rewrite Hv, length_app in Hh. simpl in Hh. lia.
  - naive_solver.
Qed.
End evictions.

Section make_room.
Context {L K V : Type} `{Countable K, Nil V, !LRUCache L K V}.
Implicit Types (c : ARCCache L) (k x : K) (v : V) (l : L) (n : Z).

Lemma held_Len c : ARC_ok c -> arc_Len c = held c.
Proof.
  intros Hc. unfold arc_Len, held. rewrite !(seg_Len (asize c)) by auto with arc. lia.
Qed.

Lemma replace_noop c : ARC_ok c -> lru_view (t2 c) = [] ->
  evicted (set_t2 c (lru_RemoveOldest (t2 c)).2) c /\ held (set_t2 c (lru_RemoveOldest (t2 c)).2) = held c.
Proof.
  intros Hc Hv. pose proof Hc as [Hs Hp H1 Hb1 H2 Hb2 D12 D1b1 D1b2 D2b1 D2b2 Dbb Hh].
  pose proof (lessened_RemoveOldest _ _ H2) as Hless.
  assert (forall x, x ∈ keys (lru_RemoveOldest (t2 c)).2 -> x ∈ keys (t2 c)) as Hsub.
  { intros x. by apply lessened_keys. }
  assert (held (set_t2 c (lru_RemoveOldest (t2 c)).2) = held c) as Heq.
  { unfold held. simpl. rewrite (view_RemoveOldest (asize c)), Hv by done. done. }
  split; [|done]. split; simpl; auto using lessened_refl.
  split; simpl; auto with arc; try (intros x Hx Hy); try (naive_solver; fail). by rewrite Heq.
Qed.

(** [replace] evicts one entry, unless [t2] is empty and [t1] is within its
    target size [p]: then it evicts nothing. *)
Lemma replace_spec c b : ARC_ok c ->
  evicted (replace c b) c /\
  (held (replace c b) = held c - 1 \/
   lru_view (t2 c) = [] /\ Z.of_nat (length (lru_view (t1 c))) <= p c /\
   held (replace c b) = held c)%Z.
Proof.
  intros Hc. pose proof (ok_t1 c Hc) as H1. pose proof (ok_t2 c Hc) as H2.
  unfold replace. rewrite (seg_Len (asize c)) by done.
  destruct (_ && _)%Z eqn:Hcond.
  - destruct (RemoveOldest_cases _ _ H1) as [[Hv _]|(l0 & k & v & Hv & Ho & Hv' & Hk)].
    { rewrite Hv in Hcond. done. }
    pose proof (replace_t1 c l0 k v Hc Hv Hv' Hk) as He.
    destruct (lru_RemoveOldest (t1 c)) as [o t1']. simpl in *. subst o. split; [done|]. left.
    unfold held. simpl. rewrite Hv, Hv', length_app. simpl. lia.
  - destruct (RemoveOldest_cases _ _ H2) as [[Hv Ho]|(l0 & k & v & Hv & Ho & Hv' & Hk)].
    + destruct (replace_noop c Hc Hv) as [He Hh].
      destruct (lru_RemoveOldest (t2 c)) as [o t2']. simpl in *. subst o. split; [done|]. right.
      split; [done|]. split; [|done]. pose proof (ok_p c Hc). lia.
    + pose proof (replace_t2 c l0 k v Hc Hv Hv' Hk) as He.
      destruct (lru_RemoveOldest (t2 c)) as [o t2']. simpl in *. subst o. split; [done|]. left.
      unfold held. simpl. rewrite Hv, Hv', length_app. simpl. lia.
Qed.

(** After [make_room] there is room for one more entry, but for one corner: [t2]
    empty and [t1] holding [size] entries with [p = size]. *)
Lemma make_room_spec c b : ARC_ok c ->
  evicted (make_room c b) c /\
  (held (make_room c b) <= asize c /\
   (held c <= asize c -> held (make_room c b) < asize c \/
      lru_view (t2 c) = [] /\ Z.of_nat (length (lru_view (t1 c))) = asize c /\ p c = asize c))%Z.
Proof.
  intros Hc. pose proof (ok_held c Hc). pose proof (ok_p c Hc).
  pose proof (seg_length _ _ (ok_t1 c Hc)).
  unfold make_room. rewrite !(seg_Len (asize c)) by auto with arc.
  assert (held c = Z.of_nat (length (lru_view (t1 c))) + Z.of_nat (length (lru_view (t2 c))))%Z as Hh.
  { unfold held. lia. }
  rewrite <- Hh. destruct (Z.leb_spec (asize c) (held c)).
  - destruct (replace_spec c b Hc) as [He [Hr|(Hv & Hl & Hr)]]; (split; [done|]).
    + lia.
    + rewrite Hv in Hh. simpl in Hh. split; [lia|]. intros _. right. split; [done|]. lia.
  - split; [by apply evicted_refl|]. lia.
Qed.

(** Storing [k] in [t2], once [k] is in none of the other segments. *)
Lemma store_t2_ok c k v : ARC_ok c ->
  k ∉ keys (t1 c) -> k ∉ keys (b1 c) -> k ∉ keys (b2 c) ->
  (held c <= asize c)%Z \/ k ∈ keys (t2 c) ->
  ARC_ok (set_t2 c (lru_Add (t2 c) k v).2) /\
  (held (set_t2 c (lru_Add (t2 c) k v).2) <= held c + 1)%Z.
Proof.
  intros Hc K1 K2 K3 Hroom. pose proof Hc as [Hs Hp H1 Hb1 H2 Hb2 D12 D1b1 D1b2 D2b1 D2b2 Dbb Hh].
  assert (forall x, x ∈ keys (lru_Add (t2 c) k v).2 -> x = k \/ x ∈ keys (t2 c)) as Hadd.
  { intros x. by apply (keys_Add (asize c)). }
  pose proof (length_Add _ _ k v H2) as Hlen.
  split; [|unfold held; simpl; lia].
  split; simpl; auto with arc; try (intros x Hx Hy); try (naive_solver; fail).
  unfold held in *. simpl. destruct Hroom as [|Hin]; [lia|].
  rewrite (length_Add_present (asize c)) by done. lia.
Qed.

Lemma store_t1_ok c k v : ARC_ok c ->
  k ∉ keys (t2 c) -> k ∉ keys (b1 c) -> k ∉ keys (b2 c) -> (held c <= asize c)%Z ->
  ARC_ok (set_t1 c (lru_Add (t1 c) k v).2) /\
  (held (set_t1 c (lru_Add (t1 c) k v).2) <= held c + 1)%Z.
Proof.
  intros Hc K1 K2 K3 Hroom. pose proof Hc as [Hs Hp H1 Hb1 H2 Hb2 D12 D1b1 D1b2 D2b1 D2b2 Dbb Hh].
  assert (forall x, x ∈ keys (lru_Add (t1 c) k v).2 -> x = k \/ x ∈ keys (t1 c)) as Hadd.
  { intros x. by apply (keys_Add (asize c)). }
  pose proof (length_Add _ _ k v H1) as Hlen.
  split; [|unfold held; simpl; lia].
  split; simpl; auto with arc; try (intros x Hx Hy); try (naive_solver; fail).
  unfold held in *. simpl. lia.
Qed.

(** Removing a key from a segment. *)
Lemma remove_t1_ok c k : ARC_ok c -> ARC_ok (set_t1 c (lru_Remove (t1 c) k).2).
Proof.
  intros Hc. pose proof Hc as [Hs Hp H1 Hb1 H2 Hb2 D12 D1b1 D1b2 D2b1 D2b2 Dbb Hh].
  pose proof (fun x => keys_Remove (asize c) _ k x H1) as Hrm.
  split; simpl; auto with arc; try (intros x Hx Hy); try (naive_solver; fail).
  unfold held in *. simpl. rewrite (view_Remove (asize c)) by done.
  pose proof (rl_remove_length_le k (lru_view (t1 c))). lia.
Qed.

Lemma remove_t2_ok c k : ARC_ok c -> ARC_ok (set_t2 c (lru_Remove (t2 c) k).2).
Proof.
  intros Hc. pose proof Hc as [Hs Hp H1 Hb1 H2 Hb2 D12 D1b1 D1b2 D2b1 D2b2 Dbb Hh].
  pose proof (fun x => keys_Remove (asize c) _ k x H2) as Hrm.
  split; simpl; auto with arc; try (intros x Hx Hy); try (naive_solver; fail).
  unfold held in *. simpl. rewrite (view_Remove (asize c)) by done.
  pose proof (rl_remove_length_le k (lru_view (t2 c))). lia.
Qed.

(** Replacing a ghost segment by one with fewer keys. *)
Lemma ghost_b1_ok c l : ARC_ok c -> seg_ok (asize c) l ->
  (forall x, x ∈ keys l -> x ∈ keys (b1 c)) -> ARC_ok (set_b1 c l).
Proof.
  intros [Hs Hp H1 Hb1 H2 Hb2 D12 D1b1 D1b2 D2b1 D2b2 Dbb Hh] Hl Hsub.
  split; simpl; auto with arc; intros x Hx Hy; naive_solver.
Qed.

Lemma ghost_b2_ok c l : ARC_ok c -> seg_ok (asize c) l ->
  (forall x, x ∈ keys l -> x ∈ keys (b2 c)) -> ARC_ok (set_b2 c l).
Proof.
  intros [Hs Hp H1 Hb1 H2 Hb2 D12 D1b1 D1b2 D2b1 D2b2 Dbb Hh] Hl Hsub.
  split; simpl; auto with arc; intros x Hx Hy; naive_solver.
Qed.

Lemma trim_ok c : ARC_ok c -> ARC_ok (trim_b2 (trim_b1 c)).
Proof.
  intros Hc. assert (ARC_ok (trim_b1 c)) as Hc1.
  { unfold trim_b1. destruct (_ <? _)%Z; [|done].
    apply ghost_b1_ok; auto with arc. intros x. apply (keys_RemoveOldest (asize c)). auto with arc. }
  unfold trim_b2. destruct (_ <? _)%Z; [|done].
  apply ghost_b2_ok; auto with arc. intros x. apply (keys_RemoveOldest (asize (trim_b1 c))). auto with arc.
Qed.
End make_room.

#[export] Hint Resolve remove_t1_ok remove_t2_ok trim_ok : arc.

Section arc_operations.
Context {L K V : Type} `{Countable K, Nil V, !LRUCache L K V}.
Implicit Types (c : ARCCache L) (k x : K) (v : V) (l : L) (n : Z).

Lemma set_p_ok c q : ARC_ok c -> (0 <= q <= asize c)%Z -> ARC_ok (set_p c q).
Proof. intros [] Hq. split; auto. Qed.

Lemma keys_length l k : k ∈ keys l -> (0 < length (lru_view l))%nat.
Proof. unfold keys. destruct (lru_view l); simpl; [by intros ?%not_elem_of_nil|lia]. Qed.

(** The division in a ghost hit is never by zero, and [p] stays in range. *)
Lemma grow_p_range c k : ARC_ok c -> k ∈ keys (b1 c) ->
  (0 < lru_Len (b1 c) /\ 0 <= grow_p c <= asize c)%Z.
Proof.
  intros Hc Hk%keys_length. pose proof (ok_p c Hc). unfold grow_p.
  rewrite !(seg_Len (asize c)) by auto with arc.
  set (x := Z.of_nat (length (lru_view (b1 c)))). set (y := Z.of_nat (length (lru_view (b2 c)))).
  assert (0 < x)%Z by lia. split; [done|].
  pose proof (Z.quot_pos y x ltac:(lia) ltac:(lia)).
  destruct (Z.ltb_spec x y), (Z.leb_spec (asize c) (p c + Z.quot y x)),
    (Z.leb_spec (asize c) (p c + 1)); lia.
Qed.

Lemma shrink_p_range c k : ARC_ok c -> k ∈ keys (b2 c) ->
  (0 < lru_Len (b2 c) /\ 0 <= shrink_p c < asize c)%Z.
Proof.
  intros Hc Hk%keys_length. pose proof (ok_p c Hc). pose proof (ok_size c Hc). unfold shrink_p.
  rewrite !(seg_Len (asize c)) by auto with arc.
  set (x := Z.of_nat (length (lru_view (b2 c)))). set (y := Z.of_nat (length (lru_view (b1 c)))).
  assert (0 < x)%Z by lia. split; [done|].
  destruct (Z.ltb_spec x y).
  - assert (1 <= Z.quot y x)%Z by (apply Z.quot_le_lower_bound; lia).
    destruct (Z.leb_spec (p c) (Z.quot y x)); lia.
  - destruct (Z.leb_spec (p c) 1); lia.
Qed.

Lemma content_store_t2 c k v x : ARC_ok c -> k ∉ keys (t1 c) ->
  content (set_t2 c (lru_Add (t2 c) k v).2) k = Some v /\
  (x <> k -> content (set_t2 c (lru_Add (t2 c) k v).2) x = content c x \/
             content (set_t2 c (lru_Add (t2 c) k v).2) x = None).
Proof.
  intros Hc Hk. unfold content. simpl.
  rewrite (view_Add (asize c)) by auto with arc. split.
  - apply rl_lookup_None in Hk as ->. apply rl_lookup_add_eq, (ok_size c Hc).
  - intros Hx. destruct (rl_lookup x (lru_view (t1 c))); [by left|].
    apply rl_lookup_add_ne; [|done]. apply seg_view. auto with arc.
Qed.

Lemma content_store_t1 c k v x : ARC_ok c -> k ∉ keys (t2 c) ->
  content (set_t1 c (lru_Add (t1 c) k v).2) k = Some v /\
  (x <> k -> content (set_t1 c (lru_Add (t1 c) k v).2) x = content c x \/
             content (set_t1 c (lru_Add (t1 c) k v).2) x = None).
Proof.
  intros Hc Hk. unfold content. simpl.
  rewrite (view_Add (asize c)) by auto with arc. split.
  - by rewrite rl_lookup_add_eq by apply (ok_size c Hc).
  - intros Hx. destruct (seg_view (asize c) (t1 c)) as [_ Hok]; [auto with arc|].
    destruct (rl_lookup_add_ne (asize c) k v _ x Hok Hx) as [->| ->]; [by left|].
    destruct (rl_lookup x (lru_view (t1 c))) eqn:Hl; [|by left]. right.
    apply rl_lookup_None. intros ?. eapply (ok_t1_t2 c Hc); [|done].
    apply rl_lookup_is_Some; eauto.
Qed.

Lemma content_remove_t1 c k x : ARC_ok c -> x <> k ->
  content (set_t1 c (lru_Remove (t1 c) k).2) x = content c x.
Proof.
  intros Hc Hx. unfold content. simpl. rewrite (view_Remove (asize c)) by auto with arc.
  by rewrite rl_lookup_remove_ne.
Qed.

Lemma content_remove_t2 c k x : ARC_ok c -> x <> k ->
  content (set_t2 c (lru_Remove (t2 c) k).2) x = content c x.
Proof.
  intros Hc Hx. unfold content. simpl. rewrite (view_Remove (asize c)) by auto with arc.
  by rewrite rl_lookup_remove_ne.
Qed.

(** The part [Add], [Get] share: moving a key held by [t1] to [t2]. *)
Lemma promote_ok c k v : ARC_ok c -> k ∈ keys (t1 c) ->
  let c' := set_t2 (set_t1 c (lru_Remove (t1 c) k).2) (lru_Add (t2 c) k v).2 in
  ARC_ok c' /\ (held c' <= held c)%Z /\ content c' k = Some v /\
  (forall x, x <> k -> content c' x = content c x \/ content c' x = None).
Proof.
  intros Hc Hk. pose proof (remove_t1_ok c k Hc) as Hc1.
  set (c1 := set_t1 c (lru_Remove (t1 c) k).2) in *.
  assert (k ∉ keys (t1 c1)) as Hk1.
  { subst c1. simpl. rewrite (keys_Remove (asize c)) by auto with arc. naive_solver. }
  assert (held c1 + 1 = held c)%Z as Hh.
  { subst c1. unfold held. cbn [t1 t2 set_t1]. rewrite (view_Remove (asize c)) by auto with arc.
    pose proof (rl_remove_length k (lru_view (t1 c)) (seg_NoDup _ _ (ok_t1 c Hc)) Hk). lia. }
  assert (k ∉ keys (b1 c)) by (intros ?; by eapply (ok_t1_b1 c Hc)).
  assert (k ∉ keys (b2 c)) by (intros ?; by eapply (ok_t1_b2 c Hc)).
  pose proof (ok_held c Hc).
  destruct (store_t2_ok c1 k v Hc1 Hk1) as [Hok Hle]; [done|done|left; simpl; lia|].
  destruct (content_store_t2 c1 k v k Hc1 Hk1) as [Hget _].
  intros c'. split; [done|]. split; [subst c'; simpl in *; lia|]. split; [done|].
  intros x Hx. destruct (content_store_t2 c1 k v x Hc1 Hk1) as [_ Hother].
  rewrite <- (content_remove_t1 c k x Hc Hx). by apply Hother.
Qed.

Lemma contains_spec c l k : ARC_ok c -> seg_ok (asize c) l -> lru_Contains l k = bool_decide (k ∈ keys l).
Proof. intros. by apply (seg_Contains (asize c)). Qed.
End arc_operations.

Section arc_specs.
Context {L K V : Type} `{Countable K, Nil V, !LRUCache L K V}.
Implicit Types (c : ARCCache L) (k x : K) (v : V) (l : L) (n : Z).

(** What an addition promises: the key is bound to the value, other bindings are
    kept or dropped, never altered. *)
Definition added c c' k v : Prop :=
  ARC_ok c' /\ asize c' = asize c /\ content c' k = Some v /\
  forall x, x <> k -> content c' x = content c x \/ content c' x = None.

Lemma added_trans c c0 c' k v :
  asize c0 = asize c -> (forall x, x <> k -> content c0 x = content c x \/ content c0 x = None) ->
  added c0 c' k v -> added c c' k v.
Proof.
  intros Hs Hx (Hok & Hs' & Hk & Hx'). split; [done|]. split; [congruence|]. split; [done|].
  intros x Hne. destruct (Hx' x Hne) as [->| ->]; [by apply Hx|by right].
Qed.

Lemma store_t2_added c k v : ARC_ok c ->
  k ∉ keys (t1 c) -> k ∉ keys (b1 c) -> k ∉ keys (b2 c) ->
  (held c <= asize c)%Z \/ k ∈ keys (t2 c) ->
  added c (set_t2 c (lru_Add (t2 c) k v).2) k v.
Proof.
  intros Hc K1 K2 K3 Hroom. split; [by apply store_t2_ok|]. split; [done|].
  split; [by apply content_store_t2|]. intros x Hx. by apply content_store_t2.
Qed.

Lemma store_t1_added c k v : ARC_ok c ->
  k ∉ keys (t2 c) -> k ∉ keys (b1 c) -> k ∉ keys (b2 c) -> (held c <= asize c)%Z ->
  added c (set_t1 c (lru_Add (t1 c) k v).2) k v.
Proof.
  intros Hc K1 K2 K3 Hroom. split; [by apply store_t1_ok|]. split; [done|].
  split; [by apply content_store_t1|]. intros x Hx. by apply content_store_t1.
Qed.

(** A hit in the ghost list [b1]. *)
Lemma Add_b1_added c k v : ARC_ok c ->
  k ∉ keys (t1 c) -> k ∉ keys (t2 c) -> k ∈ keys (b1 c) ->
  let c1 := make_room (set_p c (grow_p c)) false in
  let c2 := set_b1 c1 (lru_Remove (b1 c1) k).2 in
  added c (set_t2 c2 (lru_Add (t2 c2) k v).2) k v.
Proof.
  intros Hc K1 K2 K3 c1 c2.
  assert (ARC_ok (set_p c (grow_p c))) as Hc0 by (by apply set_p_ok, (grow_p_range c k)).
  destruct (make_room_spec _ false Hc0) as (He & Hheld & _). fold c1 in He, Hheld.
  pose proof (ev_ok _ _ He) as Hc1.
  assert (k ∉ keys (t1 c1)) as Hk1.
  { intros ?. by apply K1, (lessened_keys _ _ _ (ev_t1 _ _ He)). }
  assert (k ∉ keys (b2 c1)) as Hk2.
  { intros [?|?]%(ev_b2 _ _ He); [by eapply (ok_b1_b2 c Hc)|done]. }
  assert (ARC_ok c2) as Hc2.
  { apply ghost_b1_ok; auto with arc. intros x. rewrite (keys_Remove (asize c1)) by auto with arc. naive_solver. }
  apply (added_trans c c2).
  - apply (ev_size _ _ He).
  - intros x _. apply (evicted_content (set_p c (grow_p c)) c1 x Hc0 He).
  - apply store_t2_added; simpl; auto.
    + rewrite (keys_Remove (asize c1)) by auto with arc. naive_solver.
    + left. rewrite (ev_size _ _ He). apply Hheld.
Qed.

(** A hit in the ghost list [b2]. *)
Lemma Add_b2_added c k v : ARC_ok c ->
  k ∉ keys (t1 c) -> k ∉ keys (t2 c) -> k ∈ keys (b2 c) ->
  let c1 := make_room (set_p c (shrink_p c)) true in
  let c2 := set_b2 c1 (lru_Remove (b2 c1) k).2 in
  added c (set_t2 c2 (lru_Add (t2 c2) k v).2) k v /\
  (held c <= asize c -> held (set_t2 c2 (lru_Add (t2 c2) k v).2) <= asize c)%Z.
Proof.
  intros Hc K1 K2 K3 c1 c2.
  destruct (shrink_p_range c k Hc K3) as [_ Hp].
  assert (ARC_ok (set_p c (shrink_p c))) as Hc0 by (apply set_p_ok; [done|lia]).
  destruct (make_room_spec _ true Hc0) as (He & Hheld & Hroom). fold c1 in He, Hheld, Hroom.
  pose proof (ev_ok _ _ He) as Hc1.
  assert (k ∉ keys (t1 c1)) as Hk1.
  { intros ?. by apply K1, (lessened_keys _ _ _ (ev_t1 _ _ He)). }
  assert (k ∉ keys (b1 c1)) as Hk2.
  { intros [?|?]%(ev_b1 _ _ He); [by eapply (ok_b1_b2 c Hc)|done]. }
  assert (ARC_ok c2) as Hc2.
  { apply ghost_b2_ok; auto with arc. intros x. rewrite (keys_Remove (asize c1)) by auto with arc. naive_solver. }
  assert (k ∉ keys (b2 c2)) as Hk3.
  { simpl. rewrite (keys_Remove (asize c1)) by auto with arc. naive_solver. }
  assert (held c2 <= asize c2)%Z as Hh2 by (simpl; rewrite (ev_size _ _ He); apply Hheld).
  split.
  - apply (added_trans c c2); [apply (ev_size _ _ He)| |by apply store_t2_added; auto].
    intros x _. apply (evicted_content (set_p c (shrink_p c)) c1 x Hc0 He).
  - intros Hle. destruct (store_t2_ok c2 k v) as [_ Hadd]; auto.
    simpl in Hroom, Hadd. destruct (Hroom Hle) as [?|(_ & _ & ?)]; [|lia].
    change (held c2) with (held c1) in Hadd. simpl in *. lia.
Qed.

(** A key in no segment. *)
Lemma trim_same c : held (trim_b2 (trim_b1 c)) = held c /\ asize (trim_b2 (trim_b1 c)) = asize c /\
  t1 (trim_b2 (trim_b1 c)) = t1 c /\ t2 (trim_b2 (trim_b1 c)) = t2 c.
Proof. unfold trim_b2. destruct (_ <? _)%Z; unfold trim_b1; destruct (_ <? _)%Z; done. Qed.

Lemma trim_keys c k : ARC_ok c -> k ∉ keys (b1 c) -> k ∉ keys (b2 c) ->
  (k ∉ keys (b1 (trim_b2 (trim_b1 c)))) /\ (k ∉ keys (b2 (trim_b2 (trim_b1 c)))).
Proof.
  intros Hc K1 K2. pose proof (keys_RemoveOldest (asize c) (b1 c) k (ok_b1 c Hc)).
  pose proof (keys_RemoveOldest (asize c) (b2 c) k (ok_b2 c Hc)).
  unfold trim_b2. destruct (_ <? _)%Z; unfold trim_b1; destruct (_ <? _)%Z; simpl; naive_solver.
Qed.

Lemma Add_new_added c k v : ARC_ok c ->
  k ∉ keys (t1 c) -> k ∉ keys (t2 c) -> k ∉ keys (b1 c) -> k ∉ keys (b2 c) ->
  let c1 := trim_b2 (trim_b1 (make_room c false)) in
  added c (set_t1 c1 (lru_Add (t1 c1) k v).2) k v /\
  (held c <= asize c -> held (set_t1 c1 (lru_Add (t1 c1) k v).2) <= asize c)%Z.
Proof.
  intros Hc K1 K2 K3 K4 c1.
  destruct (make_room_spec c false Hc) as (He & Hheld & Hroom). pose proof (ev_ok _ _ He) as Hc0.
  set (c0 := make_room c false) in *.
  destruct (trim_same c0) as (Hsh & Hss & Ht1 & Ht2). fold c1 in Hsh, Hss, Ht1, Ht2.
  destruct (trim_keys c0 k Hc0) as [Hkb1 Hkb2].
  { by intros [?|?]%(ev_b1 _ _ He). }
  { by intros [?|?]%(ev_b2 _ _ He). }
  assert (k ∉ keys (t2 c1)) as Hkt2.
  { rewrite Ht2. intros ?. by apply K2, (lessened_keys _ _ _ (ev_t2 _ _ He)). }
  assert (ARC_ok c1) as Hc1 by (by apply trim_ok).
  assert (asize c1 = asize c) as Hsz by (rewrite Hss; apply (ev_size _ _ He)).
  split.
  - apply (added_trans c c1); [done| |].
    + intros x _. unfold content. rewrite Ht1, Ht2. apply (evicted_content c c0 x Hc He).
    + apply store_t1_added; auto. rewrite Hsh, Hsz. done.
  - intros Hle. destruct (store_t1_ok c1 k v) as [_ Hadd]; auto.
    { by rewrite Hsh, Hsz. }
    destruct (Hroom Hle) as [?|(Hv2 & Hl1 & _)]; [rewrite Hsh in Hadd; lia|].
    pose proof (seg_length _ _ (seg_Add _ _ k v (ok_t1 c1 Hc1))) as Hlen. rewrite Hsz in Hlen.
    assert (lru_view (t2 c1) = []) as Hnil.
    { rewrite Ht2. destruct (lru_view (t2 c0)) as [|[x w] r] eqn:E; [done|]. exfalso.
      assert (x ∈ keys (t2 c)) as Hx.
      { apply (lessened_keys _ _ _ (ev_t2 _ _ He)). unfold keys. rewrite E. left. }
      unfold keys in Hx. rewrite Hv2 in Hx. by apply not_elem_of_nil in Hx. }
    unfold held. simpl. rewrite Hnil. simpl. lia.
Qed.

Ltac contains_cases :=
  repeat match goal with
  | |- context [lru_Contains ?l ?k] =>
      rewrite (seg_Contains _ l k) by eauto with arc; case_bool_decide
  end.

Lemma arc_Add_added c k v : ARC_ok c -> added c (arc_Add c k v) k v.
Proof.
  intros Hc. unfold arc_Add. contains_cases.
  - destruct (promote_ok c k v) as (? & _ & ? & ?); done.
  - apply store_t2_added; auto; intros ?.
    + by eapply (ok_t2_b1 c Hc).
    + by eapply (ok_t2_b2 c Hc).
  - by apply Add_b1_added.
  - by apply Add_b2_added.
  - by apply Add_new_added.
Qed.

(** An addition that starts within capacity stays within it, but for one corner:
    a hit in [b1] that raises [p] to [size] while [t2] is empty and [t1] full. *)
Lemma arc_Add_held c k v : ARC_ok c -> (held c <= asize c)%Z ->
  (held (arc_Add c k v) <= asize c)%Z \/
  k ∈ keys (b1 c) /\ lru_view (t2 c) = [] /\
  Z.of_nat (length (lru_view (t1 c))) = asize c /\ grow_p c = asize c.
Proof.
  intros Hc Hle. unfold arc_Add. contains_cases.
  - left. destruct (promote_ok c k v) as (_ & ? & _); [done|done|]. simpl in *. lia.
  - left. unfold held in *. simpl. rewrite (length_Add_present (asize c)) by auto with arc. lia.
  - assert (ARC_ok (set_p c (grow_p c))) as Hc0 by (by apply set_p_ok, (grow_p_range c k)).
    destruct (make_room_spec _ false Hc0) as (He & Hheld & Hroom).
    destruct (Hroom Hle) as [Hlt|(?&?&?)]; [left|by right].
    cbn zeta. set (c1 := make_room _ false) in *. pose proof (ev_ok _ _ He) as Hc1.
    pose proof (length_Add (asize c1) (t2 c1) k v (ok_t2 c1 Hc1)).
    unfold held in *. simpl in *. lia.
  - left. by apply Add_b2_added.
  - left. by apply Add_new_added.
Qed.

(** [Get] answers with the content and, within capacity, changes no binding. *)
Lemma arc_Get_spec c k : ARC_ok c ->
  let '(vb, c') := arc_Get c k in
  vb = match content c k with Some v => (v, true) | None => (nilv, false) end /\
  ARC_ok c' /\ asize c' = asize c /\ (held c' <= held c)%Z /\
  content c' k = content c k /\
  (forall x, content c' x = content c x \/ content c' x = None) /\
  (held c <= asize c -> forall x, content c' x = content c x)%Z.
Proof.
  intros Hc. unfold arc_Get. rewrite (seg_Peek (asize c)) by auto with arc.
  destruct (rl_lookup k (lru_view (t1 c))) as [v|] eqn:Hv.
  - assert (k ∈ keys (t1 c)) as Hk by (apply rl_lookup_is_Some; eauto).
    destruct (promote_ok c k v Hc Hk) as (Hok & Hh & Hget & Hother).
    assert (content c k = Some v) as Hck by (unfold content; by rewrite Hv).
    rewrite Hck. split; [done|]. split; [done|]. split; [done|]. split; [done|]. split; [done|].
    split; [intros x; destruct (decide (x = k)) as [->|]; [left; by rewrite Hck|by apply Hother]|].
    intros Hle x. destruct (decide (x = k)) as [->|Hx]; [by rewrite Hck|].
    assert (0 < length (lru_view (t1 c)))%nat by (by apply (keys_length _ k)).
    unfold content. simpl. rewrite (view_Remove (asize c)), rl_lookup_remove_ne by auto with arc.
    destruct (rl_lookup x (lru_view (t1 c))); [done|].
    rewrite (view_Add (asize c)) by auto with arc. unfold held in Hle.
    pose proof (rl_remove_length_le k (lru_view (t2 c))).
    rewrite rl_add_room by lia. simpl. rewrite decide_False by done. by apply rl_lookup_remove_ne.
  - pose proof (view_Get (asize c) (t2 c) k (ok_t2 c Hc)) as Hview.
    pose proof (Get_value (asize c) (t2 c) k (ok_t2 c Hc)) as Hval.
    pose proof (seg_Get (asize c) (t2 c) k (ok_t2 c Hc)) as Hseg.
    assert (forall x, x ∈ keys (lru_Get (t2 c) k).2 <-> x ∈ keys (t2 c)) as Hkeys.
    { intros x. by apply (keys_Get (asize c)), (ok_t2 c Hc). }
    destruct (lru_Get (t2 c) k) as [[val ok] t2']. simpl in *.
    assert (forall x, content (set_t2 c t2') x = content c x) as Hcont.
    { intros x. unfold content. simpl. by rewrite Hview, rl_lookup_touch. }
    assert (held (set_t2 c t2') = held c) as Hheld.
    { unfold held. simpl. rewrite Hview, rl_touch_length; [done|]. by apply (seg_NoDup (asize c)), (ok_t2 c Hc). }
    assert (ARC_ok (set_t2 c t2')) as Hok.
    { destruct Hc. split; simpl; auto; try (intros x Hx Hy; naive_solver). by rewrite Hheld. }
    assert (content c k = rl_lookup k (lru_view (t2 c))) as Hck by (unfold content; by rewrite Hv).
    rewrite Hck. destruct (rl_lookup k (lru_view (t2 c))); simplify_eq; simpl;
      rewrite Hheld, ?Hcont; repeat (split; [done|]); (split; [by left|done]).
Qed.

Lemma arc_Remove_spec c k : ARC_ok c ->
  ARC_ok (arc_Remove c k) /\ asize (arc_Remove c k) = asize c /\
  (held (arc_Remove c k) <= held c)%Z /\
  content (arc_Remove c k) k = None /\
  forall x, x <> k -> content (arc_Remove c k) x = content c x.
Proof.
  intros Hc.
  assert (forall l, seg_ok (asize c) l -> (lru_Remove l k).1 = false -> k ∉ keys l) as Hno.
  { intros l Hl. rewrite (Remove_found (asize c)) by done. by case_bool_decide. }
  assert (forall l, seg_ok (asize c) l -> (lru_Remove l k).1 = true -> k ∈ keys l) as Hyes.
  { intros l Hl. rewrite (Remove_found (asize c)) by done. by case_bool_decide. }
  pose proof (Hno _ (ok_t1 c Hc)) as N1. pose proof (Hyes _ (ok_t1 c Hc)) as Y1.
  pose proof (Hno _ (ok_t2 c Hc)) as N2. pose proof (Hyes _ (ok_t2 c Hc)) as Y2.
  pose proof (remove_t1_ok c k Hc) as R1. pose proof (remove_t2_ok c k Hc) as R2.
  pose proof (fun x => content_remove_t1 c k x Hc) as C1.
  pose proof (fun x => content_remove_t2 c k x Hc) as C2.
  pose proof (view_Remove _ _ k (ok_t1 c Hc)) as V1. pose proof (view_Remove _ _ k (ok_t2 c Hc)) as V2.
  pose proof (rl_remove_length_le k (lru_view (t1 c))) as L1.
  pose proof (rl_remove_length_le k (lru_view (t2 c))) as L2.
  assert (ARC_ok (set_b1 c (lru_Remove (b1 c) k).2)) as R3.
  { apply ghost_b1_ok; auto with arc. intros x. rewrite (keys_Remove (asize c)) by auto with arc. naive_solver. }
  assert (ARC_ok (set_b2 c (lru_Remove (b2 c) k).2)) as R4.
  { apply ghost_b2_ok; auto with arc. intros x. rewrite (keys_Remove (asize c)) by auto with arc. naive_solver. }
  assert (k ∉ keys (t1 c) -> k ∉ keys (t2 c) -> content c k = None) as Hnone.
  { intros ??. apply eq_None_not_Some. rewrite content_keys. naive_solver. }
  unfold arc_Remove.
  destruct (lru_Remove (t1 c) k) as [[] l1]; simpl in *.
  { split; [done|]. split; [done|]. split; [unfold held; simpl; rewrite V1; lia|]. split; [|done].
    apply eq_None_not_Some. rewrite content_keys. simpl. unfold keys at 1. rewrite V1, rl_remove_keys.
    intros [[? _]|?]; [done|]. eapply (ok_t1_t2 c Hc); [by apply Y1|done]. }
  destruct (lru_Remove (t2 c) k) as [[] l2]; simpl in *.
  { split; [done|]. split; [done|]. split; [unfold held; simpl; rewrite V2; lia|]. split; [|done].
    apply eq_None_not_Some. rewrite content_keys. simpl. unfold keys at 2. rewrite V2, rl_remove_keys.
    naive_solver. }
  specialize (N1 eq_refl). specialize (N2 eq_refl).
  destruct (lru_Remove (b1 c) k) as [[] l3]; simpl in *; [by split; [|split; [|split; [|split]]]; auto|].
  destruct (lru_Remove (b2 c) k) as [[] l4]; simpl in *; by split; [|split; [|split; [|split]]]; auto.
Qed.

Lemma arc_Purge_spec c : ARC_ok c ->
  ARC_ok (arc_Purge c) /\ asize (arc_Purge c) = asize c /\ held (arc_Purge c) = 0%Z /\
  forall x, content (arc_Purge c) x = None.
Proof.
  intros Hc. pose proof Hc as [Hs Hp H1 Hb1 H2 Hb2 D12 D1b1 D1b2 D2b1 D2b2 Dbb Hh].
  apply seg_Purge in H1 as [? V1]. apply seg_Purge in H2 as [? V2].
  apply seg_Purge in Hb1 as [? V3]. apply seg_Purge in Hb2 as [? V4].
  assert (held (arc_Purge c) = 0%Z) as H0' by (unfold held; simpl; rewrite V1, V2; done).
  split; [|split; [done|split; [done|]]].
  - split; simpl; auto; try lia; unfold keys; rewrite ?V1, ?V2, ?V3, ?V4;
      intros x Hx; by apply not_elem_of_nil in Hx.
  - intros x. unfold content. simpl. by rewrite V1, V2.
Qed.

Lemma arc_Keys_spec c k : ARC_ok c -> k ∈ arc_Keys c <-> is_Some (content c k).
Proof.
  intros Hc. rewrite content_keys. unfold arc_Keys.
  rewrite !lru_Keys_ok by apply Hc. rewrite elem_of_app, !elem_of_reverse. done.
Qed.

Lemma arc_Keys_NoDup c : ARC_ok c -> NoDup (arc_Keys c) /\ Z.of_nat (length (arc_Keys c)) = held c.
Proof.
  intros Hc. unfold arc_Keys, held. rewrite !lru_Keys_ok by apply Hc. split.
  - rewrite !reverse_Permutation. apply NoDup_app.
    split; [apply (seg_NoDup _ _ (ok_t1 c Hc))|].
    split; [|apply (seg_NoDup _ _ (ok_t2 c Hc))].
    intros x Hx Hy. by eapply (ok_t1_t2 c Hc).
  - rewrite length_app, !length_reverse, !length_fmap. done.
Qed.

Lemma arc_Peek_spec c k : ARC_ok c ->
  arc_Peek c k = match content c k with Some v => (v, true) | None => (nilv, false) end.
Proof.
  intros Hc. unfold arc_Peek, content. rewrite !(seg_Peek (asize c)) by auto with arc.
  by destruct (rl_lookup k (lru_view (t1 c))).
Qed.

Lemma arc_Contains_spec c k : ARC_ok c -> arc_Contains c k = true <-> is_Some (content c k).
Proof.
  intros Hc. rewrite content_keys. unfold arc_Contains.
  rewrite !(seg_Contains (asize c)) by auto with arc. rewrite orb_true_iff, !bool_decide_eq_true. done.
Qed.
End arc_specs.

Lemma NewARC_spec {K V} `{Countable K, Nil V} n (c : ARCCache (LRU (K := K) (V := V))) :
  NewARC n = inr c -> ARC_ok c /\ asize c = n /\ held c = 0%Z /\ forall k, content c k = None.
Proof.
  unfold NewARC. destruct (NewLRU n) as [|l] eqn:Hl; [done|]. intros [= <-].
  destruct (NewLRU_ok n l Hl) as (Hok & Hs & Hv). pose proof (LRU_ok_view l Hok) as [Hpos _].
  assert (held (mkARC n 0 l l l l) = 0%Z) as Hh by (unfold held; simpl; rewrite Hv; done).
  split; [|split; [done|split; [done|]]].
  - split; simpl; auto; try lia; try (by split); unfold keys; simpl; rewrite Hv;
      intros x Hx; by apply not_elem_of_nil in Hx.
  - intros k. unfold content. simpl. by rewrite Hv.
Qed.
