(* ===== verification/CacheProps.v ===== *)
(** * What the replacement caches guarantee

    The theorems about [simplelru.LRU] and [lru.ARCCache] taken alone, over whole
    histories of calls from their constructors, each with a concrete instance. *)

From S2P Require Import Prelude LruInterface SimpleLru Arc.
Local Open Scope Z_scope.

(** ** simplelru.LRU against a plain recency list *)
Section lru_histories.
Context {K V : Type} `{Countable K, Nil V}.

Inductive lru_call :=
  | CAdd (k : K) (v : V) | CGet (k : K) | CContains (k : K) | CPeek (k : K) | CRemove (k : K)
  | CRemoveOldest | CGetOldest | CKeys | CLen | CPurge | CResize (n : Z).

Inductive lru_answer :=
  | RBool (b : bool) | RVal (v : V) (ok : bool) | ROldest (o : option (K * V)) | RKeys (ks : list K)
  | RInt (n : Z) | RUnit.

Definition lru_do (c : LRU (K := K) (V := V)) (x : lru_call) : lru_answer * LRU :=
  match x with
  | CAdd k v => let '(b, c) := Add c k v in (RBool b, c)
  | CGet k => let '((v, ok), c) := Get c k in (RVal v ok, c)
  | CContains k => (RBool (Contains c k), c)
  | CPeek k => let '(v, ok) := Peek c k in (RVal v ok, c)
  | CRemove k => let '(b, c) := Remove c k in (RBool b, c)
  | CRemoveOldest => let '(o, c) := RemoveOldest c in (ROldest o, c)
  | CGetOldest => (ROldest (GetOldest c), c)
  | CKeys => (RKeys (Keys c), c)
  | CLen => (RInt (Len c), c)
  | CPurge => (RUnit, Purge c)
  | CResize n => let '(d, c) := Resize c n in (RInt d, c)
  end.

(** The reference: a capacity and a list of bindings, most recently used first. *)
Definition found (o : option V) : lru_answer :=
  match o with Some v => RVal v true | None => RVal nilv false end.

Definition ref_do (s : Z * list (K * V)) (x : lru_call) : lru_answer * (Z * list (K * V)) :=
  let '(cap, l) := s in
  match x with
  | CAdd k v => (RBool (bool_decide ((k ∉ l.*1) /\ cap <= Z.of_nat (length l))), (cap, rl_add cap k v l))
  | CGet k => (found (rl_lookup k l), (cap, rl_touch k l))
  | CContains k => (RBool (bool_decide (k ∈ l.*1)), (cap, l))
  | CPeek k => (found (rl_lookup k l), (cap, l))
  | CRemove k => (RBool (bool_decide (k ∈ l.*1)), (cap, rl_remove k l))
  | CRemoveOldest => (ROldest (last l), (cap, rl_drop_oldest l))
  | CGetOldest => (ROldest (last l), (cap, l))
  | CKeys => (RKeys (reverse l.*1), (cap, l))
  | CLen => (RInt (Z.of_nat (length l)), (cap, l))
  | CPurge => (RUnit, (cap, []))
  | CResize n => (RInt (Z.max 0 (Z.of_nat (length l) - n)), (n, take (Z.to_nat n) l))
  end.

(** The answers of a sequence of calls. *)
Fixpoint answers {S} (do : S -> lru_call -> lru_answer * S) (s : S) (xs : list lru_call) : list lru_answer :=
  match xs with [] => [] | x :: xs => let '(a, s) := do s x in a :: answers do s xs end.

Definition resize_ok (x : lru_call) : Prop := match x with CResize n => 0 < n | _ => True end.

Lemma lru_do_refines c x : LRU_ok c -> resize_ok x ->
  LRU_ok (lru_do c x).2 /\
  ref_do (lsize c, view c) x = ((lru_do c x).1, (lsize (lru_do c x).2, view (lru_do c x).2)).
Proof.
  intros Hc Hx. destruct x as [k v|k|k|k|k| | | | | |n]; cbn [lru_do ref_do resize_ok fst snd] in *.
  - pose proof (Add_refines c k v Hc) as Hr. pose proof (Add_evicted c k v Hc) as Hb.
    destruct (Add c k v) as [b c']. cbn [fst snd] in *. destruct Hr as (? & -> & ->). by rewrite Hb.
  - pose proof (Get_refines c k Hc) as Hr. destruct (Get c k) as [[v ok] c']. cbn [fst snd] in *.
    destruct Hr as (? & -> & -> & Hv). split; [done|]. destruct (rl_lookup k (view c)); by simplify_eq.
  - split; [done|]. by rewrite Contains_refines.
  - rewrite Peek_refines by done. by destruct (rl_lookup k (view c)).
  - pose proof (Remove_refines c k Hc) as Hr. destruct (Remove c k) as [b c']. cbn [fst snd] in *.
    by destruct Hr as (? & -> & -> & ->).
  - pose proof (RemoveOldest_refines c Hc) as Hr. destruct (RemoveOldest c) as [o c']. cbn [fst snd] in *.
    by destruct Hr as (? & -> & -> & ->).
  - split; [done|]. by rewrite GetOldest_refines.
  - split; [done|]. by rewrite Keys_refines.
  - split; [done|]. by rewrite Len_refines.
  - destruct (Purge_refines c Hc) as (? & -> & ->). done.
  - pose proof (Resize_refines c n Hc Hx) as Hr. destruct (Resize c n) as [d c']. cbn [fst snd] in *.
    by destruct Hr as (? & -> & -> & ->).
Qed.

Lemma answers_refine c xs : LRU_ok c -> Forall resize_ok xs ->
  answers lru_do c xs = answers ref_do (lsize c, view c) xs.
Proof.
  intros Hc Hxs. revert c Hc. induction Hxs as [|x xs Hx _ IH]; intros c Hc; [done|].
  cbn [answers]. destruct (lru_do_refines c x Hc Hx) as [Hok Href]. rewrite Href.
  destruct (lru_do c x) as [a c']. f_equal. by apply IH.
Qed.

(** C8. The map-and-linked-list implementation is observationally a recency list:
    in every history from [NewLRU n] (all methods, positive resizes), every answer
    is that of a plain list of bindings kept in order of use and cut to size. *)
Theorem lru_history_equiv n c xs : NewLRU n = inr c -> Forall resize_ok xs ->
  answers lru_do c xs = answers ref_do (n, []) xs.
Proof.
  intros Hn Hxs. destruct (NewLRU_ok n c Hn) as (Hok & <- & <-). by apply answers_refine.
Qed.
End lru_histories.

(** ** lru.ARCCache over histories *)
Section arc_histories.
Context {K V : Type} `{Countable K, Nil V}.
Abbreviation arc := (ARCCache (LRU (K := K) (V := V))).

(** Caches reached from [NewARC n], with the ledger of what was written and not
    removed since. *)
Inductive arc_reached (n : Z) : arc -> gmap K V -> Prop :=
  | reached_new c : NewARC n = inr c -> arc_reached n c ∅
  | reached_get c M k : arc_reached n c M -> arc_reached n (arc_Get c k).2 M
  | reached_add c M k v : arc_reached n c M -> arc_reached n (arc_Add c k v) (<[k := v]> M)
  | reached_remove c M k : arc_reached n c M -> arc_reached n (arc_Remove c k) (delete k M)
  | reached_purge c M : arc_reached n c M -> arc_reached n (arc_Purge c) ∅.

Lemma arc_reached_ok n c M : arc_reached n c M ->
  ARC_ok c /\ asize c = n /\ forall k v, content c k = Some v -> M !! k = Some v.
Proof.
  induction 1 as [c Hn|c M k _ (Hc & Hs & Hm)|c M k v _ (Hc & Hs & Hm)|c M k _ (Hc & Hs & Hm)|c M _ (Hc & Hs & Hm)].
  - destruct (NewARC_spec n c Hn) as (? & ? & _ & Hc). split; [done|]. split; [done|]. intros k v. by rewrite Hc.
  - pose proof (arc_Get_spec c k Hc) as Hg. destruct (arc_Get c k) as [vb c'].
    destruct Hg as (_ & ? & Hs' & _ & _ & Hx & _). cbn [snd]. split; [done|]. split; [by rewrite Hs'|].
    intros x v Hv. apply Hm. destruct (Hx x); congruence.
  - destruct (arc_Add_added c k v Hc) as (? & Hs' & Hk & Hx). split; [done|]. split; [by rewrite Hs'|].
    intros x v' Hv. destruct (decide (x = k)) as [->|Hne].
    + rewrite lookup_insert_eq. congruence.
    + rewrite lookup_insert_ne by done. apply Hm. destruct (Hx x Hne); congruence.
  - destruct (arc_Remove_spec c k Hc) as (? & Hs' & _ & Hk & Hx). split; [done|]. split; [by rewrite Hs'|].
    intros x v' Hv. destruct (decide (x = k)) as [->|Hne]; [congruence|].
    rewrite lookup_delete_ne by done. apply Hm. by rewrite <- Hx.
  - destruct (arc_Purge_spec c Hc) as (? & Hs' & _ & Hx). split; [done|]. split; [by rewrite Hs'|].
    intros x v. by rewrite Hx.
Qed.

(** C9. ARC over any history from [NewARC n]: the target [p] stays within the
    size, the four segments stay well formed and disjoint ([ARC_ok]); a hit returns
    the value last added under that key and not removed since; [Len] is the number
    of distinct keys listed by [Keys] and is at most [n + 1]. *)
Theorem arc_history_sound n c M : arc_reached n c M ->
  ARC_ok c /\ asize c = n /\
  (forall k v, (arc_Get c k).1 = (v, true) -> M !! k = Some v) /\
  NoDup (arc_Keys c) /\ arc_Len c = Z.of_nat (length (arc_Keys c)) /\ arc_Len c <= n + 1.
Proof.
  intros Hr. destruct (arc_reached_ok n c M Hr) as (Hc & Hs & Hm).
  destruct (arc_Keys_NoDup c Hc) as [Hnd Hlen]. split; [done|]. split; [done|]. split; [|split; [done|]].
  - intros k v Hg. pose proof (arc_Get_spec c k Hc) as Hspec. destruct (arc_Get c k) as [vb c'].
    destruct Hspec as [Hvb _]. simpl in Hg. rewrite Hvb in Hg. apply Hm. destruct (content c k); by simplify_eq.
  - rewrite held_Len by done. split; [done|]. rewrite <- Hs. apply (ok_held c Hc).
Qed.

(** Read your write, at once: after [Add k v], [Get], [Peek] and [Contains]
    see [v] under [k], and no other key's value is changed (it may be evicted). *)
Theorem arc_add_visible n c M k v : arc_reached n c M ->
  (arc_Get (arc_Add c k v) k).1 = (v, true) /\ arc_Peek (arc_Add c k v) k = (v, true) /\
  arc_Contains (arc_Add c k v) k = true /\
  forall x, x <> k -> arc_Peek (arc_Add c k v) x = arc_Peek c x \/ arc_Contains (arc_Add c k v) x = false.
Proof.
  intros Hr. destruct (arc_reached_ok n c M Hr) as (Hc & _).
  destruct (arc_Add_added c k v Hc) as (Hc' & _ & Hk & Hx).
  pose proof (arc_Get_spec _ k Hc') as Hg. destruct (arc_Get _ k) as [vb c'].
  destruct Hg as [-> _]. simpl. rewrite arc_Peek_spec, Hk by done.
  split; [done|]. split; [done|]. split; [apply arc_Contains_spec; eauto|].
  intros x Hne. destruct (Hx x Hne) as [E|E].
  - left. by rewrite !arc_Peek_spec, E.
  - right. apply not_true_iff_false. rewrite arc_Contains_spec, E by done. by intros [].
Qed.

(** When the size is exceeded: starting within the size, [Add] exceeds it only
    for a key in [b1] that raises [p] to the size while [t2] is empty and [t1] is
    full; then [replace] evicts nothing. *)
Theorem arc_add_within n c M k v : arc_reached n c M -> arc_Len c <= n ->
  arc_Len (arc_Add c k v) <= n \/
  lru_Contains (b1 c) k = true /\ lru_Len (t2 c) = 0 /\ lru_Len (t1 c) = n /\ grow_p c = n.
Proof.
  intros Hr Hle. destruct (arc_reached_ok n c M Hr) as (Hc & Hs & _).
  destruct (arc_Add_added c k v Hc) as (Hc' & _). rewrite held_Len in * by done.
  destruct (arc_Add_held c k v Hc) as [?|(Hk & H2 & H1 & Hp)]; [lia|left; lia|right].
  rewrite (seg_Contains (asize c)), !(seg_Len (asize c)) by auto with arc.
  rewrite H2, H1, bool_decide_true by done. rewrite <- Hs. done.
Qed.
End arc_histories.

#[local] Instance nat_nil : Nil nat := 0%nat.

(** The size is exceeded in three calls: an [ARCCache] of size 1 holds two
    entries after [Add 1], [Add 2], [Add 1]. *)
Theorem arc_size_exceeded : match NewARC (K := nat) (V := nat) 1 with
  | inr c => arc_Len (arc_Add (arc_Add (arc_Add c 1%nat 10%nat) 2%nat 20%nat) 1%nat 11%nat) = 2
  | inl _ => False
  end.
Proof. vm_compute. reflexivity. Qed.

(** ** Instances *)
Section witnesses.
Definition lru2 : LRU (K := nat) (V := nat) := mkLRU 2 [] ∅ ∅ 0.
Definition calls : list (lru_call (K := nat) (V := nat)) :=
  [CAdd 1 10; CAdd 2 20; CGet 1; CAdd 3 30; CKeys; CResize 1; CGetOldest; CGet 2]%nat.

Lemma lru_history_equiv_witness :
  answers lru_do lru2 calls =
    [RBool false; RBool false; RVal 10%nat true; RBool true; RKeys [1; 3]%nat; RInt 1;
     ROldest (Some (3, 30)%nat); RVal 0%nat false].
Proof.
  rewrite (lru_history_equiv 2 lru2 calls); [vm_compute; reflexivity|reflexivity|repeat constructor].
Defined.

Definition arc1 : ARCCache (LRU (K := nat) (V := nat)) :=
  match NewARC 1 with inr c => c | inl _ => mkARC 1 0 lru2 lru2 lru2 lru2 end.
Definition arc1_12 : ARCCache (LRU (K := nat) (V := nat)) := arc_Add (arc_Add arc1 1%nat 10%nat) 2%nat 20%nat.

Definition ledger12 : gmap nat nat := <[2%nat := 20%nat]> (<[1%nat := 10%nat]> ∅).

Lemma arc1_12_reached : arc_reached 1 arc1_12 ledger12.
Proof. apply reached_add, reached_add, reached_new. reflexivity. Qed.

Lemma arc_history_sound_witness :
  ARC_ok arc1_12 /\ asize arc1_12 = 1 /\
  (forall k v, (arc_Get arc1_12 k).1 = (v, true) -> ledger12 !! k = Some v) /\
  NoDup (arc_Keys arc1_12) /\ arc_Len arc1_12 = Z.of_nat (length (arc_Keys arc1_12)) /\ arc_Len arc1_12 <= 1 + 1.
Proof. apply (arc_history_sound 1 arc1_12 ledger12 arc1_12_reached). Defined.

Lemma arc_add_visible_witness : (arc_Get (arc_Add arc1_12 3%nat 30%nat) 3%nat).1 = (30%nat, true).
Proof. apply (arc_add_visible 1 arc1_12 _ 3%nat 30%nat arc1_12_reached). Defined.

(** Key 1 is the corner case, key 3 is not. *)
Lemma arc_add_within_witness :
  arc_Len (arc_Add arc1_12 1%nat 11%nat) <= 1 \/
  lru_Contains (b1 arc1_12) 1%nat = true /\ lru_Len (t2 arc1_12) = 0 /\ lru_Len (t1 arc1_12) = 1 /\ grow_p arc1_12 = 1.
Proof. apply (arc_add_within 1 arc1_12 _ 1%nat 11%nat arc1_12_reached). vm_compute. discriminate. Defined.
End witnesses.
