(* ===== verification/GoValues.v ===== *)
(** * Go values, their printed types, errors, and the [CacheStore] interface

    The caches store values of Go's [interface{}].  [goval] is the set of values
    the code distinguishes: it dispatches on the string [fmt.Sprintf("%T", v)]
    ([typeof]) and then asserts a type ([as_entry] and the like), so a foreign
    type that prints like one of the package's own takes the branch and then
    fails the assertion. *)

From stdpp Require Import gmap strings.
From Stdlib Require Import Strings.Byte.
From S2P Require Import Prelude LruInterface.

#[global] Instance byte_eq_dec : EqDecision byte := Byte.byte_eq_dec.

(** Go's integer types. *)
Inductive inttype :=
  | Int | Int8 | Int16 | Int32 | Int64 | Uint | Uint8 | Uint16 | Uint32 | Uint64 | Uintptr.
#[global] Instance inttype_eq_dec : EqDecision inttype.
Proof. solve_decision. Defined.

Definition int_name (t : inttype) : string :=
  match t with
  | Int => "int" | Int8 => "int8" | Int16 => "int16" | Int32 => "int32" | Int64 => "int64"
  | Uint => "uint" | Uint8 => "uint8" | Uint16 => "uint16" | Uint32 => "uint32"
  | Uint64 => "uint64" | Uintptr => "uintptr"
  end.

(** The conversion [T(x)] to an integer type keeps the low bits. *)
Definition int_of_width (t : inttype) (z : Z) : Z :=
  match t with
  | Int | Int64 => int64 z
  | Int8 => wrapS 8 z | Int16 => wrapS 16 z | Int32 => wrapS 32 z
  | Uint | Uint64 | Uintptr => uint64 z
  | Uint8 => wrapU 8 z | Uint16 => wrapU 16 z | Uint32 => wrapU 32 z
  end.

(** galapagos_gin/cache: [ResponseCache].  [Header] is a map and [Data] a slice, both
    references: their locations, [None] for nil. *)
Record ResponseCache := mkResponse { Status : Z; Header : option nat; RData : option nat }.
#[global] Instance ResponseCache_eq_dec : EqDecision ResponseCache.
Proof. solve_decision. Defined.

(** Values of [interface{}].  [VPtr v] is a pointer to a variable holding [v];
    [VIfacePtr v] a pointer to a variable of type [interface{}]; [VOther t r] a
    value of any other type, [t] being what [%T] prints. *)
Inductive goval :=
  | VNil
  | VString (s : string)
  | VInt (t : inttype) (n : Z)
  | VFloat64 (bits : Z)
  | VBytes (b : list byte)
  | VEntry (data : goval) (added expires : Z)
  | VResponse (r : ResponseCache)
  | VOther (tname repr : string)
  | VPtr (v : goval)
  | VIfacePtr (v : goval).
#[global] Instance goval_eq_dec : EqDecision goval.
Proof. solve_decision. Defined.
#[global] Instance goval_nil : Nil goval := VNil.

(** generic.go: [GenericCacheEntry], a struct passed by value. *)
Record GenericCacheEntry := mkEntry { Data : goval; TimeAdded : Z; ExpiresAt : Z }.
Definition of_entry (e : GenericCacheEntry) : goval := VEntry (Data e) (TimeAdded e) (ExpiresAt e).

(** [fmt.Sprintf("%T", v)]. *)
Fixpoint typeof (v : goval) : string :=
  match v with
  | VNil => "<nil>"
  | VString _ => "string"
  | VInt t _ => int_name t
  | VFloat64 _ => "float64"
  | VBytes _ => "[]uint8"
  | VEntry _ _ _ => "cache.GenericCacheEntry"
  | VResponse _ => "cache.ResponseCache"
  | VOther t _ => t
  | VPtr v => "*" +:+ typeof v
  | VIfacePtr _ => "*interface {}"
  end.

(** Type assertions [v.(T)]; [None] is a panic. *)
Definition as_entry (v : goval) : option GenericCacheEntry :=
  match v with VEntry d a e => Some (mkEntry d a e) | _ => None end.
Definition as_string (v : goval) : option string :=
  match v with VString s => Some s | _ => None end.
Definition as_int (v : goval) : option Z :=
  match v with VInt Int n => Some n | _ => None end.
Definition as_response (v : goval) : option ResponseCache :=
  match v with VResponse r => Some r | _ => None end.
Definition as_bytes (v : goval) : option (list byte) :=
  match v with VBytes b => Some b | _ => None end.
(** [v.( *T )], where [f] asserts [T]: the variable pointed to. *)
Definition as_ptr {A} (f : goval -> option A) (v : goval) : option A :=
  match v with VPtr v => f v | _ => None end.

Lemma as_entry_of_entry e : as_entry (of_entry e) = Some e.
Proof. by destruct e. Qed.

Lemma as_entry_Some v e : as_entry v = Some e -> v = of_entry e.
Proof. destruct v; try done. simpl. by intros [= <-]. Qed.

(** ** Errors

    An [error] is one of the package's sentinels or a formatted message. The code
    compares errors by the strings they print. *)
Inductive error :=
  | ErrCacheMiss | ErrNotStored | ErrNotSupport | ErrPaddingSize | ErrMsg (msg : string).
#[global] Instance error_eq_dec : EqDecision error.
Proof. solve_decision. Defined.

Definition Error (e : error) : string :=
  match e with
  | ErrCacheMiss => "cache: key not found."
  | ErrNotStored => "cache: not stored."
  | ErrNotSupport => "cache: not support."
  | ErrPaddingSize => "padding size error"
  | ErrMsg s => s
  end.

(** persistence: [DEFAULT] and [FOREVER]. *)
Definition DEFAULT : Z := 0.
Definition FOREVER : Z := -1.

(** ** [persistence.CacheStore]

    [T] is the type of the receivers.  [cs_Get] takes the destination [value] and
    returns what it holds after the call. *)
Class CacheStore (E : Type -> Type) (T : Type) := {
  cs_Get : T -> string -> goval -> prog E (option error * goval);
  cs_Set : T -> string -> goval -> Z -> prog E (option error);
  cs_Add : T -> string -> goval -> Z -> prog E (option error);
  cs_Replace : T -> string -> goval -> Z -> prog E (option error);
  cs_Delete : T -> string -> prog E (option error);
  cs_Increment : T -> string -> Z -> prog E (Z * option error);
  cs_Decrement : T -> string -> Z -> prog E (Z * option error);
  cs_Flush : T -> prog E (option error) }.
