(* ===== verification/Bytes.v ===== *)
(** * Bytes

    Go's [byte] is [Byte.byte]; exclusive or and doubling are defined on the bits,
    so that their laws are those of [xorb]. *)

From stdpp Require Import list strings.
From Stdlib Require Import Strings.Byte Strings.Ascii Strings.String.
From S2P Require Import Prelude GoValues.
Local Open Scope Z_scope.

Abbreviation byte := Byte.byte.

Definition byte_to_Z (b : byte) : Z := Z.of_N (Byte.to_N b).

(** [byte(z)]: the low 8 bits. *)
Definition byte_of_Z (z : Z) : byte :=
  match Byte.of_N (Z.to_N (z mod 256)) with Some b => b | None => x00 end.

Lemma byte_to_Z_range b : 0 <= byte_to_Z b < 256.
Proof. unfold byte_to_Z. pose proof (Byte.to_N_bounded b). lia. Qed.

Lemma byte_to_of_Z z : 0 <= z < 256 -> byte_to_Z (byte_of_Z z) = z.
Proof.
  intros Hz. unfold byte_of_Z, byte_to_Z. rewrite Z.mod_small by done.
  destruct (Byte.of_N (Z.to_N z)) as [b|] eqn:Hb.
  - apply Byte.to_of_N in Hb. lia.
  - apply Byte.of_N_None_iff in Hb. lia.
Qed.

(** ** Exclusive or *)
Definition bxor (a b : byte) : byte :=
  let '(a0, (a1, (a2, (a3, (a4, (a5, (a6, a7))))))) := Byte.to_bits a in
  let '(b0, (b1, (b2, (b3, (b4, (b5, (b6, b7))))))) := Byte.to_bits b in
  Byte.of_bits (xorb a0 b0, (xorb a1 b1, (xorb a2 b2, (xorb a3 b3,
    (xorb a4 b4, (xorb a5 b5, (xorb a6 b6, xorb a7 b7))))))).

Ltac byte_bits :=
  repeat match goal with
  | |- context [Byte.to_bits (Byte.of_bits _)] => rewrite Byte.to_bits_of_bits
  end.

Lemma bxor_comm a b : bxor a b = bxor b a.
Proof.
  unfold bxor. destruct (Byte.to_bits a) as (a0&a1&a2&a3&a4&a5&a6&a7), (Byte.to_bits b) as (b0&b1&b2&b3&b4&b5&b6&b7).
  by rewrite (xorb_comm a0), (xorb_comm a1), (xorb_comm a2), (xorb_comm a3),
    (xorb_comm a4), (xorb_comm a5), (xorb_comm a6), (xorb_comm a7).
Qed.

Lemma bxor_assoc a b c : bxor (bxor a b) c = bxor a (bxor b c).
Proof.
  unfold bxor. destruct (Byte.to_bits a) as (a0&a1&a2&a3&a4&a5&a6&a7), (Byte.to_bits b) as (b0&b1&b2&b3&b4&b5&b6&b7).
  byte_bits. destruct (Byte.to_bits c) as (c0&c1&c2&c3&c4&c5&c6&c7). byte_bits. by rewrite !xorb_assoc.
Qed.

Lemma bxor_nilp a : bxor a a = x00.
Proof.
  unfold bxor. destruct (Byte.to_bits a) as (a0&a1&a2&a3&a4&a5&a6&a7). by rewrite !xorb_nilpotent.
Qed.

Lemma bxor_0_l a : bxor x00 a = a.
Proof.
  unfold bxor. pose proof (Byte.of_bits_to_bits a) as Ha.
  destruct (Byte.to_bits a) as (a0&a1&a2&a3&a4&a5&a6&a7). simpl. rewrite <- Ha.
  by destruct a0, a1, a2, a3, a4, a5, a6, a7.
Qed.

Lemma bxor_0_r a : bxor a x00 = a.
Proof. by rewrite bxor_comm, bxor_0_l. Qed.

Lemma bxor_cancel a b : bxor (bxor a b) b = a.
Proof. by rewrite bxor_assoc, bxor_nilp, bxor_0_r. Qed.

(** [a xor b], byte by byte over the shorter length. *)
Definition xor_bytes (a b : list byte) : list byte := zip_with bxor a b.

Lemma xor_bytes_length a b : length a = length b -> length (xor_bytes a b) = length a.
Proof. intros Hl. unfold xor_bytes. rewrite length_zip_with. lia. Qed.

Lemma xor_bytes_cancel a b : length a = length b -> xor_bytes (xor_bytes a b) b = a.
Proof.
  revert b. induction a as [|x a IH]; intros [|y b] Hl; try done. simpl in *.
  f_equal; [apply bxor_cancel|]. apply IH. lia.
Qed.

(** [lo <= c <= hi], for characters. *)
Definition between (lo hi c : Ascii.ascii) : bool :=
  ((N_of_ascii lo <=? N_of_ascii c) && (N_of_ascii c <=? N_of_ascii hi))%N.

(** ** Hexadecimal: [hex.EncodeToString] *)
Definition hextable : list Ascii.ascii := String.list_ascii_of_string "0123456789abcdef".
Definition hex_digit (n : nat) : Ascii.ascii := nth n hextable Ascii.zero.

Fixpoint EncodeToString (src : list byte) : string :=
  match src with
  | [] => EmptyString
  | v :: src =>
      String (hex_digit (Z.to_nat (Z.shiftr (byte_to_Z v) 4)))
        (String (hex_digit (Z.to_nat (Z.land (byte_to_Z v) 15))) (EncodeToString src))
  end.

Lemma EncodeToString_length src : String.length (EncodeToString src) = (2 * length src)%nat.
Proof. induction src as [|v src IH]; simpl; [done|]. rewrite IH. lia. Qed.

(** Distinct byte strings have distinct encodings. *)
Definition hex_pair (b : byte) : Ascii.ascii * Ascii.ascii :=
  (hex_digit (Z.to_nat (Z.shiftr (byte_to_Z b) 4)), hex_digit (Z.to_nat (Z.land (byte_to_Z b) 15))).

Definition hex_value (a : Ascii.ascii) : Z :=
  let n := Z.of_N (Ascii.N_of_ascii a) in if n <? 97 then n - 48 else n - 87.

Lemma hex_pair_value b :
  byte_of_Z (16 * hex_value (hex_pair b).1 + hex_value (hex_pair b).2) = b.
Proof. destruct b; reflexivity. Qed.

Lemma EncodeToString_inj s t : EncodeToString s = EncodeToString t -> s = t.
Proof.
  revert t. induction s as [|b s IH]; intros [|b' t]; [done|done|done|].
  intros Heq. simpl in Heq. injection Heq as H1 H2 Ht. f_equal; [|by apply IH].
  assert (hex_pair b = hex_pair b') as Hp by (unfold hex_pair; congruence).
  by rewrite <- (hex_pair_value b), Hp, hex_pair_value.
Qed.

(** [[]byte(s)] and [string(b)]: Go strings are byte strings. *)
Definition bytes_of_string (s : string) : list byte := String.list_byte_of_string s.
Definition string_of_bytes (b : list byte) : string := String.string_of_list_byte b.

Lemma bytes_string_bytes b : bytes_of_string (string_of_bytes b) = b.
Proof. apply String.list_byte_of_string_of_list_byte. Qed.

Lemma string_bytes_string s : string_of_bytes (bytes_of_string s) = s.
Proof. apply String.string_of_list_byte_of_string. Qed.
