(* ===== verification/GoFmt.v ===== *)
(** * Formatting: the verbs of [fmt] the messages use

    [%v] and [%d] of integers and booleans, and [time.Duration.String]. *)

From stdpp Require Import list strings pretty.
From S2P Require Import Prelude.
Local Open Scope Z_scope.

Definition fmt_int (z : Z) : string := pretty z.
Definition fmt_bool (b : bool) : string := if b then "true" else "false".

(** [fmtFrac]: the digits after the point, low digit first in the source; trailing
    zeros are omitted, and the point with them.  Returns the text and [v / 10^prec]. *)
Fixpoint fmtFrac (prec : nat) (v : Z) (printing : bool) (acc : string) : string * Z :=
  match prec with
  | O => ((if printing then "." +:+ acc else acc), v)
  | S prec =>
      let digit := v mod 10 in
      let printing := printing || negb (digit =? 0) in
      fmtFrac prec (v / 10) printing (if printing then fmt_int digit +:+ acc else acc)
  end.

(** [Duration.String] *)
Definition duration_String (d : Z) : string :=
  let u := Z.abs d in
  let body :=
    if u <? Second then
      if u =? 0 then "0s"
      else if u <? 1000 then fmt_int u +:+ "ns"
      else if u <? 1000000 then
        let '(f, v) := fmtFrac 3 u false "µs" in fmt_int v +:+ f
      else
        let '(f, v) := fmtFrac 6 u false "ms" in fmt_int v +:+ f
    else
      let '(f, v) := fmtFrac 9 u false "s" in
      let secs := fmt_int (v mod 60) +:+ f in
      let v := v / 60 in
      if 0 <? v then
        let mins := fmt_int (v mod 60) +:+ "m" in
        let v := v / 60 in
        if 0 <? v then fmt_int v +:+ "h" +:+ mins +:+ secs else mins +:+ secs
      else secs in
  if d <? 0 then "-" +:+ body else body.

Example duration_hours : duration_String (3600 * Second) = "1h0m0s".
Proof. reflexivity. Qed.
Example duration_frac : duration_String (90 * Second + 500 * Millisecond) = "1m30.5s".
Proof. reflexivity. Qed.
Example duration_ms : duration_String (2 * Millisecond + 50000) = "2.05ms".
Proof. reflexivity. Qed.
Example duration_forever : duration_String (-1) = "-1ns".
Proof. reflexivity. Qed.
