(* ===== verification/Metrics.v ===== *)
(** * metrics.go: prometheus counters, summaries and gauges

    The registry of client_golang as far as the package uses it: a descriptor is
    refused when its name is not a metric name or is taken.  [promE] are the atomic
    calls on collectors; the helpers of metrics.go are programs over them (the gauge
    of the in-memory store, [initGaugeWithFunc], is with its caller in [InMemory.v]).

    Descriptors are compared by name, help and labels, where the registry compares
    64-bit hashes of them. *)

From stdpp Require Import gmap strings pretty.
From Stdlib Require Import Strings.Byte Strings.Ascii Floats.SpecFloat.
From S2P Require Import Prelude GoValues Bytes GoFmt.
Local Open Scope Z_scope.

(** ** Text *)

(** [strconv.Quote] (bytes of UTF-8 sequences are kept as they are). *)
Definition quote_char (c : ascii) : string :=
  let n := nat_of_ascii c in
  if Nat.eqb n 34 then String "\" (String c EmptyString)
  else if Nat.eqb n 92 then "\\"
  else if Nat.eqb n 7 then "\a" else if Nat.eqb n 8 then "\b" else if Nat.eqb n 12 then "\f"
  else if Nat.eqb n 10 then "\n" else if Nat.eqb n 13 then "\r" else if Nat.eqb n 9 then "\t"
  else if Nat.eqb n 11 then "\v"
  else if (Nat.ltb n 32 || Nat.eqb n 127)%bool then "\x" +:+ String (hex_digit (n / 16)) (String (hex_digit (n mod 16)) EmptyString)
  else String c EmptyString.

Definition Quote (s : string) : string :=
  let q := String "034" EmptyString in
  q +:+ String.concat EmptyString (quote_char <$> String.list_ascii_of_string s) +:+ q.

(** [fmt.Sprintf(format)] without operands, for verbs without flags or width. *)
Fixpoint Sprintf0 (format : string) : string :=
  match format with
  | EmptyString => EmptyString
  | String "%" (String "%" rest) => String "%" (Sprintf0 rest)
  | String "%" (String c rest) => "%!" +:+ String c ("(MISSING)" +:+ Sprintf0 rest)
  | String "%" EmptyString => "%!(NOVERB)"
  | String c rest => String c (Sprintf0 rest)
  end.

(** ** The registry *)
Record Desc := mkDesc { fqName : string; d_help : string; variableLabels : list string }.
#[global] Instance Desc_eq_dec : EqDecision Desc.
Proof. solve_decision. Defined.

(** [prometheus.BuildFQName] without a namespace. *)
Definition BuildFQName (subsystem name : string) : string :=
  if String.eqb name EmptyString then EmptyString
  else if negb (String.eqb subsystem EmptyString) then subsystem +:+ "_" +:+ name else name.

Definition name_char (first : bool) (c : ascii) : bool :=
  between "a" "z" c || between "A" "Z" c || Ascii.eqb c "_" || Ascii.eqb c ":" || (negb first && between "0" "9" c).

Definition IsValidMetricName (n : string) : bool :=
  match n with
  | EmptyString => false
  | String c rest => name_char true c && forallb (name_char false) (String.list_ascii_of_string rest)
  end.

Definition Desc_String (d : Desc) : string :=
  "Desc{fqName: " +:+ Quote (fqName d) +:+ ", help: " +:+ Quote (d_help d) +:+
  ", constLabels: {}, variableLabels: [" +:+ String.concat " " (variableLabels d) +:+ "]}".

(** [Registry.Register] for a collector with one descriptor, [ds] being those
    already registered. *)
Definition reg_check (ds : list Desc) (d : Desc) : option error :=
  if negb (IsValidMetricName (fqName d)) then
    Some (ErrMsg ("descriptor " +:+ Desc_String d +:+ " is invalid: " +:+ Quote (fqName d) +:+ " is not a valid metric name"))
  else
    match find (fun d' => String.eqb (fqName d') (fqName d)) ds with
    | Some d' =>
        if bool_decide (d_help d' = d_help d /\ variableLabels d' = variableLabels d) then
          Some (ErrMsg "duplicate metrics collector registration attempted")
        else Some (ErrMsg ("a previously registered descriptor with the same fully-qualified name as " +:+
          Desc_String d +:+ " has different label names or a different help string"))
    | None => None
    end.

(** ** Collectors *)
Record CounterVec := mkCV { cv_desc : Desc; cv_counts : gmap string Z }.
Record Summary := mkSum { sm_desc : Desc; sm_count : Z; sm_sum : spec_float }.
Inductive collector := CCounterVec (l : nat) | CSummary (l : nat).

Record prom := mkProm {
  counters : gmap nat CounterVec;
  summaries : gmap nat Summary;
  registry : list (Desc * collector) }.

Inductive promE : Type -> Type :=
  | NewCounterVec (d : Desc) : promE nat
  | CounterInc (l : nat) (label : string) : promE unit
  | NewSummary (d : Desc) : promE nat
  | SummaryObserve (l : nat) (v : spec_float) : promE unit
  | RegisterCollector (d : Desc) (c : collector) : promE (option error).

Definition float64_add : spec_float -> spec_float -> spec_float := SFadd 53 1024.
Definition float64_div : spec_float -> spec_float -> spec_float := SFdiv 53 1024.
Definition float64 (z : Z) : spec_float := binary_normalize 53 1024 z 0 false.

Definition counter_inc (cv : CounterVec) (label : string) : CounterVec :=
  mkCV (cv_desc cv) (<[label := uint64 (default 0 (cv_counts cv !! label) + 1)]> (cv_counts cv)).
Definition summary_observe (v : spec_float) (s : Summary) : Summary :=
  mkSum (sm_desc s) (uint64 (sm_count s + 1)) (float64_add (sm_sum s) v).

#[global] Instance promE_handler : Handler promE prom := fun X e s =>
  match e in promE X return X * prom with
  | NewCounterVec d =>
      let l := fresh (dom (counters s)) in
      (l, mkProm (<[l := mkCV d ∅]> (counters s)) (summaries s) (registry s))
  | CounterInc l label =>
      (tt, mkProm (alter (fun cv => counter_inc cv label) l (counters s)) (summaries s) (registry s))
  | NewSummary d =>
      let l := fresh (dom (summaries s)) in
      (l, mkProm (counters s) (<[l := mkSum d 0 (S754_zero false)]> (summaries s)) (registry s))
  | SummaryObserve l v => (tt, mkProm (counters s) (alter (summary_observe v) l (summaries s)) (registry s))
  | RegisterCollector d c =>
      match reg_check (registry s).*1 d with
      | Some err => (Some err, s)
      | None => (None, mkProm (counters s) (summaries s) (registry s ++ [(d, c)]))
      end
  end.

(** ** metrics.go *)
Definition subsystem : string := "go_cache".

Definition Infof {E} (msg : string) : prog E unit := log (LogLine (SinkLogger "logrus") LInfo msg).

Definition incrementCounterVec (c : option nat) (statusCode : Z) : prog promE unit :=
  match c with
  | Some c => call (CounterInc c (fmt_int statusCode))
  | None => mret tt
  end.

(** The two messages after a registration; the format of the first has a verb and
    no operand. *)
Definition report (name : string) (err : option error) : prog promE unit :=
  match err with
  | Some err => Infof (Sprintf0 ("%s could not be registered: " +:+ name +:+ Error err))
  | None => Infof (name +:+ " registered.")
  end.

Definition initCounterVec (m : option nat) (name help : string) : prog promE (option nat) :=
  match m with
  | None =>
      let d := mkDesc (BuildFQName subsystem name) help ["status_code"] in
      m ← call (NewCounterVec d);
      err ← call (RegisterCollector d (CCounterVec m));
      _ ← report name err;
      mret (Some m)
  | Some m => mret (Some m)
  end.

Definition initSummary (m : option nat) (name help : string) : prog promE (option nat) :=
  match m with
  | None =>
      let d := mkDesc (BuildFQName subsystem name) help [] in
      m ← call (NewSummary d);
      err ← call (RegisterCollector d (CSummary m));
      _ ← report name err;
      mret (Some m)
  | Some m => mret (Some m)
  end.

(** [time.Since], which saturates. *)
Definition time_Since (now start : Z) : Z := Z.max (- 2 ^ 63) (Z.min (2 ^ 63 - 1) (now - start)).

Definition observeSummary (s : option nat) (start : Z) : prog promE unit :=
  now ← time_Now;
  let elapsed := float64_div (float64 (time_Since now start)) (float64 1000000000) in
  match s with
  | Some s => call (SummaryObserve s elapsed)
  | None => Panic "runtime error: invalid memory address or nil pointer dereference"
  end.

Example half_second : float64_div (float64 500000000) (float64 1000000000) = S754_finite false 4503599627370496 (-53).
Proof. reflexivity. Qed.

(** ** What they guarantee *)
Section props.
Context (clock : nat -> Z).
Implicit Types (w : world prom) (cs : list Z).

Fixpoint increments (c : option nat) (codes : list Z) : prog promE unit :=
  match codes with
  | [] => mret tt
  | code :: codes => _ ← incrementCounterVec c code; increments c codes
  end.

Definition occurrences (code : Z) (codes : list Z) : Z := Z.of_nat (length (filter (fun c => c = code) codes)).

Lemma handle_CounterInc l label s : handle (CounterInc l label) s =
  (tt, mkProm (alter (fun cv => counter_inc cv label) l (counters s)) (summaries s) (registry s)).
Proof. done. Qed.

Lemma uint64_add a b : uint64 (uint64 a + b) = uint64 (a + b).
Proof. apply uint64_add_congr, uint64_id, uint64_range. Qed.

(** The count of a status code, and that counts fit their width. *)
Definition count (cv : CounterVec) (code : Z) : Z := default 0 (cv_counts cv !! fmt_int code).

Lemma count_inc cv code code' :
  count (counter_inc cv (fmt_int code)) code' = if decide (code = code') then uint64 (count cv code' + 1) else count cv code'.
Proof.
  unfold count, counter_inc. simpl. case_decide as Hc; [subst; by rewrite lookup_insert_eq|].
  rewrite lookup_insert_ne; [done|]. intros Heq. apply Hc. by apply (inj (pretty : Z -> string)).
Qed.

Lemma occurrences_cons code c cs : occurrences code (c :: cs) = (if decide (c = code) then 1 else 0) + occurrences code cs.
Proof. unfold occurrences. rewrite filter_cons. case_decide; simpl length; lia. Qed.

(** Increments change the counts of one vector and nothing else. *)
Lemma run_increments l cs w cv : counters (w_state w) !! l = Some cv ->
  (forall code, in_uint64 (count cv code)) ->
  exists cv', run clock (increments (Some l) cs) w = (Done tt, set_state w
      (mkProm (<[l := cv']> (counters (w_state w))) (summaries (w_state w)) (registry (w_state w)))) /\
    cv_desc cv' = cv_desc cv /\ forall code, count cv' code = uint64 (count cv code + occurrences code cs).
Proof.
  revert w cv. induction cs as [|c cs IH]; intros w cv Hl Hcv; cbn [increments].
  - exists cv. rewrite insert_id by done. split; [by destruct w as [[]]|]. split; [done|].
    intros code. unfold occurrences. simpl. rewrite Z.add_0_r. symmetry. by apply uint64_id.
  - unfold incrementCounterVec. rewrite run_call, handle_CounterInc. set (w1 := set_state w _).
    assert (counters (w_state w1) = <[l := counter_inc cv (fmt_int c)]> (counters (w_state w))) as Hw1.
    { apply map_eq. intros l'. simpl. rewrite lookup_alter, lookup_insert. case_decide; [subst; by rewrite Hl|done]. }
    destruct (IH w1 (counter_inc cv (fmt_int c))) as (cv' & Hrun & Hd & Hcount).
    + rewrite Hw1. apply lookup_insert_eq.
    + intros code. rewrite count_inc. case_decide; [apply uint64_range|apply Hcv].
    + exists cv'. rewrite Hrun, Hw1, insert_insert_eq. split; [done|]. split; [done|]. intros code.
      rewrite Hcount, count_inc, occurrences_cons. case_decide; [rewrite uint64_add|]; f_equal; lia.
Qed.

(** What the registry exports: each registered collector with its present value.
    Registered collectors are allocated. *)
Definition value_of (s : prom) (c : collector) : option (CounterVec + Summary) :=
  match c with CCounterVec l => inl <$> counters s !! l | CSummary l => inr <$> summaries s !! l end.
Definition exported (s : prom) : list (Desc * option (CounterVec + Summary)) :=
  (fun '(d, c) => (d, value_of s c)) <$> registry s.
Definition registry_ok (s : prom) : Prop := Forall (fun '(d, c) => is_Some (value_of s c)) (registry s).

Lemma handle_NewCounterVec d s : handle (NewCounterVec d) s =
  (fresh (dom (counters s)), mkProm (<[fresh (dom (counters s)) := mkCV d ∅]> (counters s)) (summaries s) (registry s)).
Proof. done. Qed.

Lemma handle_RegisterCollector d c s : handle (RegisterCollector d c) s =
  (reg_check (registry s).*1 d,
   mkProm (counters s) (summaries s) (registry s ++ match reg_check (registry s).*1 d with Some _ => [] | None => [(d, c)] end)).
Proof. unfold handle, promE_handler. destruct (reg_check _ d); [rewrite app_nil_r; by destruct s|done]. Qed.

(** The vector [initCounterVec] makes, registered or not. *)
Definition status_desc (name help : string) : Desc := mkDesc (BuildFQName subsystem name) help ["status_code"].

Lemma run_initCounterVec name help w :
  exists l msg, counters (w_state w) !! l = None /\
    run clock (initCounterVec None name help) w = (Done (Some l), World
      (mkProm (<[l := mkCV (status_desc name help) ∅]> (counters (w_state w))) (summaries (w_state w))
         (registry (w_state w) ++ match reg_check (registry (w_state w)).*1 (status_desc name help) with
                                  | Some _ => [] | None => [(status_desc name help, CCounterVec l)] end))
      (w_tick w) (w_log w ++ [LogLine (SinkLogger "logrus") LInfo msg])).
Proof.
  unfold initCounterVec. cbn zeta. fold (status_desc name help). rewrite run_call, handle_NewCounterVec.
  exists (fresh (dom (counters (w_state w)))). rewrite run_call, handle_RegisterCollector.
  cbn [w_state set_state registry counters summaries].
  destruct (reg_check _ _); eexists; (split; [apply not_elem_of_dom, is_fresh|done]).
Qed.

(** A new vector is not one of those registered. *)
Lemma value_of_other (s : prom) l cv c : counters s !! l = None -> is_Some (value_of s c) ->
  value_of (mkProm (<[l := cv]> (counters s)) (summaries s) (registry s)) c = value_of s c.
Proof.
  intros Hl Hc. destruct c as [l'|l']; [|done]. simpl in *. rewrite lookup_insert_ne; [done|].
  intros <-. rewrite Hl in Hc. by destruct Hc.
Qed.

Lemma exported_other (s : prom) l cv : counters s !! l = None -> registry_ok s ->
  ((fun '(d, c) => (d, value_of (mkProm (<[l := cv]> (counters s)) (summaries s) (registry s)) c)) <$> registry s) = exported s.
Proof.
  intros Hl Hok. unfold exported. apply list_fmap_ext. intros i [d c] Hi. f_equal. apply value_of_other; [done|].
  unfold registry_ok in Hok. rewrite Forall_lookup in Hok. apply (Hok _ _ Hi).
Qed.

(** C40. What is measured: a counter vector made by [initCounterVec] and incremented
    for the status codes [cs] counts every code exactly (modulo 2^64).  The counts
    are exported if the name was accepted; when the name is taken or is not a metric
    name the vector works but stays outside the registry: what the registry exports
    does not change, whatever is counted. *)
Theorem metrics_counts name help cs w : registry_ok (w_state w) ->
  exists l w1 w' cv, run clock (initCounterVec None name help) w = (Done (Some l), w1) /\
    run clock (increments (Some l) cs) w1 = (Done tt, w') /\ counters (w_state w') !! l = Some cv /\
    (forall code, count cv code = uint64 (occurrences code cs)) /\
    exported (w_state w') = exported (w_state w) ++
      match reg_check (registry (w_state w)).*1 (status_desc name help) with
      | Some _ => [] | None => [(status_desc name help, Some (inl cv))]
      end.
Proof.
  intros Hok. destruct (run_initCounterVec name help w) as (l & msg & Hl & Hinit).
  set (d := status_desc name help) in *.
  match type of Hinit with _ = (_, ?w1) =>
    destruct (run_increments l cs w1 (mkCV d ∅)) as (cv & Hrun & _ & Hcount) end.
  { apply lookup_insert_eq. }
  { intros code. unfold count. simpl. by rewrite lookup_empty. }
  eexists l, _, _, cv. split; [exact Hinit|]. split; [exact Hrun|]. split; [apply lookup_insert_eq|]. split.
  { intros code. rewrite Hcount. unfold count at 1. simpl. by rewrite lookup_empty. }
  unfold exported at 1. cbn [w_state set_state registry counters summaries]. rewrite insert_insert_eq, fmap_app.
  f_equal; [by apply exported_other|]. destruct (reg_check _ d); [done|]. simpl. by rewrite lookup_insert_eq.
Qed.
End props.

(** ** Instances *)
Section witnesses.
Definition no_metrics : world prom := World (mkProm ∅ ∅ []) 0 [].
Definition readings : nat -> Z := fun _ => 0.

Lemma metrics_counts_witness : exists l w1 w' cv,
  run readings (initCounterVec None "hits" "h") no_metrics = (Done (Some l), w1) /\
  run readings (increments (Some l) [200; 404; 200]) w1 = (Done tt, w') /\ counters (w_state w') !! l = Some cv /\
  count cv 200 = 2 /\ count cv 500 = 0 /\
  exported (w_state w') = [(mkDesc "go_cache_hits" "h" ["status_code"], Some (inl cv))].
Proof.
  destruct (metrics_counts readings "hits" "h" [200; 404; 200] no_metrics)
    as (l & w1 & w' & cv & Hinit & Hrun & Hcv & Hcount & Hexp); [constructor|].
  exists l, w1, w', cv. split; [exact Hinit|]. split; [exact Hrun|]. split; [exact Hcv|].
  split; [rewrite Hcount; reflexivity|]. split; [rewrite Hcount; reflexivity|exact Hexp].
Defined.

(** A second vector of the same name is refused, with this message. *)
Example duplicate_message : exists w',
  run readings (_ ← initCounterVec None "hits" "h"; initCounterVec None "hits" "h") no_metrics = (Done (Some 1%nat), w') /\
  w_log w' = [LogLine (SinkLogger "logrus") LInfo "hits registered.";
    LogLine (SinkLogger "logrus") LInfo
      "%!s(MISSING) could not be registered: hitsduplicate metrics collector registration attempted"].
Proof. eexists. split; vm_compute; reflexivity. Qed.
End witnesses.
