(* ===== verification/InMemory.v ===== *)
(** * inmemory.go: the in-memory store with expiry

    [InMemoryStore] keeps [GenericCacheEntry] values in an [lru.ARCCache].  Its
    methods are programs whose atomic calls [memE] are the methods of that cache
    (each runs under the cache's mutex), the registration of a metric and the
    start of a janitor goroutine.  A store is named by the location [lru] of its
    cache in the state [mem]. *)

From stdpp Require Import gmap strings.
From Stdlib Require Import Strings.Byte.
From S2P Require Import Prelude LruInterface SimpleLru Arc GoValues Metrics.
Local Open Scope Z_scope.

(** ** State and atomic calls *)
Abbreviation arc := (ARCCache (LRU (K := string) (V := goval))).

#[global] Instance LRU_inhabited : Inhabited (LRU (K := string) (V := goval)) :=
  populate (mkLRU 1 [] ∅ ∅ 0).
#[global] Instance arc_inhabited : Inhabited arc :=
  populate (mkARC 1 0 inhabitant inhabitant inhabitant inhabitant).

(** A gauge registered with prometheus: its descriptor, and the cache it measures. *)
Record gauge := mkGauge { g_desc : Desc; g_lru : nat }.

Record mem := mkMem {
  arcs : gmap nat arc;
  gauges : list gauge;
  janitors : list (nat * Z) }.

Inductive memE : Type -> Type :=
  | ArcNew (n : Z) : memE (string + nat)
  | ArcGet (l : nat) (k : string) : memE (goval * bool)
  | ArcAdd (l : nat) (k : string) (v : goval) : memE unit
  | ArcRemove (l : nat) (k : string) : memE unit
  | ArcKeys (l : nat) : memE (list string)
  | ArcLen (l : nat) : memE Z
  | ArcPurge (l : nat) : memE unit
  | Register (g : gauge) : memE (option error)
  | GoJanitor (l : nat) (interval : Z) : memE unit.

Definition get_arc (s : mem) (l : nat) : arc := arcs s !!! l.
Definition set_arc (s : mem) (l : nat) (c : arc) : mem :=
  mkMem (<[l := c]> (arcs s)) (gauges s) (janitors s).

Definition refused (s : mem) (g : gauge) : option error := reg_check (g_desc <$> gauges s) (g_desc g).

#[global] Instance memE_handler : Handler memE mem := fun X e s =>
  match e in memE X return X * mem with
  | ArcNew n =>
      match NewARC n with
      | inl err => (inl err, s)
      | inr c => let l := fresh (dom (arcs s)) in (inr l, set_arc s l c)
      end
  | ArcGet l k => let '(r, c) := arc_Get (get_arc s l) k in (r, set_arc s l c)
  | ArcAdd l k v => (tt, set_arc s l (arc_Add (get_arc s l) k v))
  | ArcRemove l k => (tt, set_arc s l (arc_Remove (get_arc s l) k))
  | ArcKeys l => (arc_Keys (get_arc s l), s)
  | ArcLen l => (arc_Len (get_arc s l), s)
  | ArcPurge l => (tt, set_arc s l (arc_Purge (get_arc s l)))
  | Register g =>
      match refused s g with
      | Some err => (Some err, s)
      | None => (None, mkMem (arcs s) (gauges s ++ [g]) (janitors s))
      end
  | GoJanitor l i => (tt, mkMem (arcs s) (gauges s) (janitors s ++ [(l, i)]))
  end.

Section inmemory.

(** The struct; [janitor] lives in the state, as [janitors]. *)
Record InMemoryStore := mkInMemoryStore { lru : nat; DefaultExp : Z }.

(** ** generic.go: [GenericCacheEntry.Expired] *)
Definition Expired {E} (e : GenericCacheEntry) : prog E bool :=
  if ExpiresAt e =? 0 then mret false
  else
    now ← time_Now;
    mret (unix_before (ExpiresAt e) now).

(** ** metrics.go: [initGaugeWithFunc] *)
Definition size_gauge (l : nat) (name help : string) : gauge := mkGauge (mkDesc (BuildFQName subsystem name) help []) l.

Definition initGaugeWithFunc (l : nat) (name help : string) : prog memE (option error) :=
  err ← call (Register (size_gauge l name help));
  match err with
  | Some e =>
      _ ← Infof (name +:+ " could not be registered: " +:+ Error e);
      mret (Some e)
  | None =>
      _ ← Infof (name +:+ " registered.");
      mret None
  end.

(** ** Construction *)
Definition NewInMemoryStore (maxEntries defaultExpiration cleanupInterval : Z)
    (createMetric : bool) (metricLabel : string) : prog memE (string + InMemoryStore) :=
  r ← call (ArcNew maxEntries);
  match r with
  | inl err => mret (inl err)
  | inr l =>
      let c := mkInMemoryStore l defaultExpiration in
      _ ← (if createMetric then
             let label := if (0 <? Z.of_nat (String.length metricLabel)) then metricLabel
                          else "inmemory_cache_total_items_cnt" in
             _ ← initGaugeWithFunc l label
               ("Total count the number of items in the in-memory cache for " +:+ label);
             mret tt
           else mret tt);
      _ ← (if 0 <? cleanupInterval then call (GoJanitor l cleanupInterval) else mret tt);
      mret (inr c)
  end.

Definition InMemoryStore_NewGenericCacheEntry (c : InMemoryStore) (data : goval) (exp : Z)
    : prog memE (GenericCacheEntry * option error) :=
  let t := if exp =? 0 then DefaultExp c else exp in
  nowt ← time_Now;
  let now := Unix nowt in
  let expiresAt := int64 (now + seconds t) in
  mret (mkEntry data now expiresAt, None).

(** ** The methods *)
(** The message of a failed type assertion [x.(T)]. *)
Definition not_a (tname : string) : string := "interface conversion: interface {} is not " +:+ tname.

Definition InMemoryStore_Get (c : InMemoryStore) (key : string) (value : goval)
    : prog memE (option error * goval) :=
  r ← call (ArcGet (lru c) key);
  if snd r : bool then
    entry ← assert_some (as_entry (fst r)) (not_a "cache.GenericCacheEntry");
    expired ← Expired entry;
    if expired : bool then
      _ ← call (ArcRemove (lru c) key);
      mret (Some ErrCacheMiss, value)
    else
      let valueType := typeof value in
      if String.eqb valueType "*string" then
        _ ← assert_some (as_ptr as_string value) (not_a "*string");
        s ← assert_some (as_string (Data entry)) (not_a "string");
        mret (None, VPtr (VString s))
      else if String.eqb valueType "*int" then
        _ ← assert_some (as_ptr as_int value) (not_a "*int");
        n ← assert_some (as_int (Data entry)) (not_a "int");
        mret (None, VPtr (VInt Int n))
      else if String.eqb valueType "*cache.GenericCacheEntry" then
        _ ← assert_some (as_ptr as_entry value) (not_a "*cache.GenericCacheEntry");
        mret (None, VPtr (of_entry entry))
      else if String.eqb valueType "*cache.ResponseCache" then
        _ ← assert_some (as_ptr as_response value) (not_a "*cache.ResponseCache");
        r ← assert_some (as_response (Data entry)) (not_a "cache.ResponseCache");
        mret (None, VPtr (VResponse r))
      else mret (Some ErrNotSupport, value)
  else mret (Some ErrCacheMiss, value).

Definition doAddSet (c : InMemoryStore) (key : string) (value : goval) (exp : Z)
    : prog memE (option error) :=
  let valueType := typeof value in
  nowt ← time_Now;
  let now := Unix nowt in
  let expiresAt :=
    if exp =? FOREVER then 0
    else if negb (exp =? 0) then int64 (now + seconds exp)
    else int64 (now + seconds (DefaultExp c)) in
  if negb (String.eqb valueType "cache.GenericCacheEntry") then
    let e := mkEntry value now expiresAt in
    _ ← call (ArcAdd (lru c) key (of_entry e));
    mret None
  else
    v ← assert_some (as_entry value) (not_a "cache.GenericCacheEntry");
    let e := mkEntry (Data v) now expiresAt in
    _ ← call (ArcAdd (lru c) key (of_entry e));
    mret None.

Definition InMemoryStore_Keys (c : InMemoryStore) : prog memE (list string) := call (ArcKeys (lru c)).

Definition InMemoryStore_Len (c : InMemoryStore) : prog memE Z := call (ArcLen (lru c)).

Definition InMemoryStore_Set (c : InMemoryStore) (key : string) (value : goval) (exp : Z)
    : prog memE (option error) := doAddSet c key value exp.

Definition InMemoryStore_Add (c : InMemoryStore) (key : string) (value : goval) (exp : Z)
    : prog memE (option error) :=
  r ← call (ArcGet (lru c) key);
  if snd r : bool then mret (Some ErrNotStored) else doAddSet c key value exp.

Definition InMemoryStore_Replace (c : InMemoryStore) (key : string) (value : goval) (exp : Z)
    : prog memE (option error) :=
  r ← call (ArcGet (lru c) key);
  if snd r : bool then doAddSet c key value exp else mret (Some ErrNotStored).

Definition InMemoryStore_Update (c : InMemoryStore) (key : string) (entry : GenericCacheEntry)
    : prog memE (option error) :=
  r ← call (ArcGet (lru c) key);
  if snd r : bool then
    _ ← call (ArcAdd (lru c) key (of_entry entry));
    mret None
  else mret (Some ErrNotStored).

Definition InMemoryStore_Delete (c : InMemoryStore) (key : string) : prog memE (option error) :=
  r ← call (ArcGet (lru c) key);
  if snd r : bool then
    _ ← call (ArcRemove (lru c) key);
    mret None
  else mret (Some ErrCacheMiss).

Definition InMemoryStore_Increment (c : InMemoryStore) (key : string) (n : Z)
    : prog memE (Z * option error) :=
  r ← call (ArcGet (lru c) key);
  if negb (snd r) then mret (0, Some ErrCacheMiss)
  else
    entry ← assert_some (as_entry (fst r)) (not_a "cache.GenericCacheEntry");
    if String.eqb (typeof (Data entry)) "int" then
      d ← assert_some (as_int (Data entry)) (not_a "int");
      let d := int64 (d + int64 n) in
      let entry := mkEntry (VInt Int d) (TimeAdded entry) (ExpiresAt entry) in
      _ ← call (ArcAdd (lru c) key (of_entry entry));
      mret (uint64 d, None)
    else mret (0, Some ErrNotSupport).

Definition InMemoryStore_Decrement (c : InMemoryStore) (key : string) (n : Z)
    : prog memE (Z * option error) :=
  r ← call (ArcGet (lru c) key);
  if negb (snd r) then mret (0, Some ErrCacheMiss)
  else
    entry ← assert_some (as_entry (fst r)) (not_a "cache.GenericCacheEntry");
    if String.eqb (typeof (Data entry)) "int" then
      d ← assert_some (as_int (Data entry)) (not_a "int");
      let d := if d <? int64 n then 0 else int64 (d - int64 n) in
      let entry := mkEntry (VInt Int d) (TimeAdded entry) (ExpiresAt entry) in
      _ ← call (ArcAdd (lru c) key (of_entry entry));
      mret (uint64 d, None)
    else mret (0, Some ErrNotSupport).

Definition InMemoryStore_Flush (c : InMemoryStore) : prog memE (option error) :=
  _ ← call (ArcPurge (lru c));
  mret None.

(** The body of the loop over the keys, then the loop. *)
Definition deleteIfExpired (l : nat) (key : string) : prog memE unit :=
  r ← call (ArcGet l key);
  if snd r : bool then
    e ← assert_some (as_entry (fst r)) (not_a "cache.GenericCacheEntry");
    expired ← Expired e;
    if expired : bool then call (ArcRemove l key) else mret tt
  else mret tt.

Fixpoint deleteExpiredKeys (l : nat) (keys : list string) : prog memE unit :=
  match keys with
  | [] => mret tt
  | key :: keys => _ ← deleteIfExpired l key; deleteExpiredKeys l keys
  end.

Definition DeleteExpired (l : nat) : prog memE unit :=
  keys ← call (ArcKeys l);
  deleteExpiredKeys l keys.

#[global] Instance InMemoryStore_CacheStore : CacheStore memE InMemoryStore := {|
  cs_Get := InMemoryStore_Get; cs_Set := InMemoryStore_Set; cs_Add := InMemoryStore_Add;
  cs_Replace := InMemoryStore_Replace; cs_Delete := InMemoryStore_Delete;
  cs_Increment := InMemoryStore_Increment; cs_Decrement := InMemoryStore_Decrement;
  cs_Flush := InMemoryStore_Flush |}.
End inmemory.

(** ** The abstract store

    A store stands for a finite map from keys to entries.  [represents s l m]: the
    cache at [l] is well formed and holds exactly the entries of [m]. *)
Definition represents (s : mem) (l : nat) (m : gmap string GenericCacheEntry) : Prop :=
  exists c : arc, arcs s !! l = Some c /\ ARC_ok c /\ forall k : string, content c k = of_entry <$> m !! k.

(** The cache at [l] holds at most as many entries as its nominal size. *)
Definition within (s : mem) (l : nat) : Prop :=
  exists c : arc, arcs s !! l = Some c /\ held c <= asize c.

(** The nominal size. *)
Definition capacity (s : mem) (l : nat) : Z := asize (get_arc s l).

Section atomic_calls.
Implicit Types (s : mem) (l : nat) (k x : string) (m : gmap string GenericCacheEntry) (c : arc).

Lemma get_arc_eq s l c : arcs s !! l = Some c -> get_arc s l = c.
Proof. intros Hl. unfold get_arc. by apply lookup_total_correct. Qed.

Lemma represents_lossy s l m c c' :
  (forall x, content c x = of_entry <$> m !! x) -> ARC_ok c' ->
  (forall x, content c' x = content c x \/ content c' x = None) ->
  exists m', represents (set_arc s l c') l m' /\ m' ⊆ m /\
    (forall k, content c' k = content c k -> m' !! k = m !! k).
Proof.
  intros Hc Hok Hx. destruct (map_restrict (content c') m) as (m' & Hsub & Hm').
  exists m'. split; [|split; [done|]].
  - exists c'. split; [by apply lookup_insert_eq|]. split; [done|]. intros k. rewrite Hm'.
    destruct (Hx k) as [E|E]; rewrite E; [rewrite Hc|done]. by destruct (m !! k).
  - intros k E. rewrite Hm', E, Hc. by destruct (m !! k).
Qed.

Lemma handle_ArcGet s l k m : represents s l m ->
  exists s' m', handle (ArcGet l k) s =
      (match m !! k with Some e => (of_entry e, true) | None => (VNil, false) end, s') /\
    represents s' l m' /\ m' ⊆ m /\ m' !! k = m !! k /\
    capacity s' l = capacity s l /\ (within s l -> m' = m /\ within s' l).
Proof.
  intros (c & Hl & Hok & Hm). unfold handle, memE_handler. rewrite (get_arc_eq s l c Hl).
  pose proof (arc_Get_spec c k Hok) as Hget. destruct (arc_Get c k) as [vb c'].
  destruct Hget as (Hvb & Hok' & Hsz & Hheld & Hk & Hlossy & Hexact).
  destruct (represents_lossy s l m c c' Hm Hok' Hlossy) as (m' & Hrep & Hsub & Hagree).
  exists (set_arc s l c'), m'. split; [|split; [done|split; [done|split; [by apply Hagree|split]]]].
  - f_equal. rewrite Hvb, Hm. by destruct (m !! k).
  - unfold capacity. rewrite (get_arc_eq s l c Hl), (get_arc_eq _ l c'); [done|]. apply lookup_insert_eq.
  - intros (c0 & Hc0 & Hin). simplify_eq. split.
    + apply map_eq. intros x. apply Hagree. by apply Hexact.
    + exists c'. split; [apply lookup_insert_eq|]. rewrite Hsz. lia.
Qed.

Lemma handle_ArcAdd s l k e m : represents s l m ->
  exists s' m', handle (ArcAdd l k (of_entry e)) s = (tt, s') /\
    represents s' l m' /\ m' ⊆ <[k := e]> m /\ m' !! k = Some e /\ capacity s' l = capacity s l.
Proof.
  intros (c & Hl & Hok & Hm). unfold handle, memE_handler. rewrite (get_arc_eq s l c Hl).
  destruct (arc_Add_added c k (of_entry e) Hok) as (Hok' & Hsz & Hk & Hother).
  set (c' := arc_Add c k (of_entry e)) in *.
  destruct (map_restrict (content c') m) as (m1 & Hsub & Hm1).
  exists (set_arc s l c'), (<[k := e]> m1).
  split; [done|]. split; [|split; [by apply insert_mono|split; [by apply lookup_insert_eq|]]].
  - exists c'. split; [apply lookup_insert_eq|]. split; [done|]. intros x.
    rewrite lookup_insert. case_decide as Hx; [by subst|]. rewrite Hm1.
    destruct (Hother x) as [E|E]; [congruence|..]; rewrite E; [rewrite Hm|done]. by destruct (m !! x).
  - unfold capacity. rewrite (get_arc_eq s l c Hl), (get_arc_eq _ l c'); [done|]. apply lookup_insert_eq.
Qed.

Lemma handle_ArcRemove s l k m : represents s l m ->
  exists s', handle (ArcRemove l k) s = (tt, s') /\ represents s' l (delete k m) /\
    capacity s' l = capacity s l /\ (within s l -> within s' l).
Proof.
  intros (c & Hl & Hok & Hm). unfold handle, memE_handler. rewrite (get_arc_eq s l c Hl).
  destruct (arc_Remove_spec c k Hok) as (Hok' & Hsz & Hheld & Hk & Hother).
  exists (set_arc s l (arc_Remove c k)). split; [done|]. split; [|split].
  - exists (arc_Remove c k). split; [apply lookup_insert_eq|]. split; [done|]. intros x.
    rewrite lookup_delete. case_decide as Hx; [by subst|]. by rewrite Hother.
  - unfold capacity. rewrite (get_arc_eq s l c Hl), (get_arc_eq _ l (arc_Remove c k)); [done|].
    apply lookup_insert_eq.
  - intros (c0 & Hc0 & Hin). simplify_eq. exists (arc_Remove c k).
    split; [apply lookup_insert_eq|]. rewrite Hsz. lia.
Qed.

Lemma handle_ArcPurge s l m : represents s l m ->
  exists s', handle (ArcPurge l) s = (tt, s') /\ represents s' l ∅ /\ within s' l.
Proof.
  intros (c & Hl & Hok & Hm). unfold handle, memE_handler. rewrite (get_arc_eq s l c Hl).
  destruct (arc_Purge_spec c Hok) as (Hok' & Hsz & Hheld & Hx).
  exists (set_arc s l (arc_Purge c)). split; [done|]. split.
  - exists (arc_Purge c). split; [apply lookup_insert_eq|]. split; [done|]. intros x.
    by rewrite Hx, lookup_empty.
  - exists (arc_Purge c). split; [apply lookup_insert_eq|]. rewrite Hsz, Hheld.
    pose proof (ok_size c Hok). lia.
Qed.

Lemma handle_ArcKeys s l m : represents s l m ->
  exists ks, handle (ArcKeys l) s = (ks, s) /\ NoDup ks /\ forall k, k ∈ ks <-> is_Some (m !! k).
Proof.
  intros (c & Hl & Hok & Hm). unfold handle, memE_handler. rewrite (get_arc_eq s l c Hl).
  exists (arc_Keys c). split; [done|]. split; [by apply arc_Keys_NoDup|].
  intros k. rewrite arc_Keys_spec, Hm by done. by rewrite fmap_is_Some.
Qed.

(** [Len] counts the entries; a store never holds more than one entry above its
    nominal size. *)
Lemma represents_size s l m : represents s l m ->
  handle (ArcLen l) s = (Z.of_nat (size m), s) /\ Z.of_nat (size m) <= capacity s l + 1.
Proof.
  intros (c & Hl & Hok & Hm). unfold capacity. unfold handle, memE_handler. rewrite (get_arc_eq s l c Hl).
  destruct (arc_Keys_NoDup c Hok) as [Hnd Hlen].
  assert (dom m = list_to_set (arc_Keys c)) as Hdom.
  { apply set_eq. intros k. rewrite elem_of_dom, elem_of_list_to_set, arc_Keys_spec, Hm by done.
    by rewrite fmap_is_Some. }
  assert (Z.of_nat (size m) = held c) as Hsz.
  { rewrite <- size_dom, Hdom, size_list_to_set by done. done. }
  rewrite held_Len by done. rewrite Hsz. split; [done|]. apply (ok_held c Hok).
Qed.
End atomic_calls.

(** ** The abstract specification of the methods

    [spec_op c t o m] is what method call [o] answers on a store that stands for
    [m], the clock reading [t], and the map it leaves.  It is stated on values,
    with no recency, no segments and no type strings. *)
Inductive op :=
  | OGet (k : string) (value : goval)
  | OSet (k : string) (v : goval) (exp : Z)
  | OAdd (k : string) (v : goval) (exp : Z)
  | OReplace (k : string) (v : goval) (exp : Z)
  | OUpdate (k : string) (e : GenericCacheEntry)
  | ODelete (k : string)
  | OIncrement (k : string) (n : Z)
  | ODecrement (k : string) (n : Z)
  | OFlush.

Inductive answer := AErr (err : option error) | AVal (err : option error) (v : goval)
  | ANum (n : Z) (err : option error).

#[global] Instance AErr_inj : Inj (=) (=) AErr.
Proof. intros ? ? ?. by simplify_eq. Qed.
#[global] Instance AVal_inj : Inj (=) (=) (fun r : option error * goval => AVal (fst r) (snd r)).
Proof. intros [] [] ?. by simplify_eq/=. Qed.
#[global] Instance ANum_inj : Inj (=) (=) (fun r : Z * option error => ANum (fst r) (snd r)).
Proof. intros [] [] ?. by simplify_eq/=. Qed.

(** Run a method, wrap its answer. *)
Definition do_op (c : InMemoryStore) (o : op) : prog memE answer :=
  match o with
  | OGet k value => r ← InMemoryStore_Get c k value; mret (AVal (fst r) (snd r))
  | OSet k v exp => r ← InMemoryStore_Set c k v exp; mret (AErr r)
  | OAdd k v exp => r ← InMemoryStore_Add c k v exp; mret (AErr r)
  | OReplace k v exp => r ← InMemoryStore_Replace c k v exp; mret (AErr r)
  | OUpdate k e => r ← InMemoryStore_Update c k e; mret (AErr r)
  | ODelete k => r ← InMemoryStore_Delete c k; mret (AErr r)
  | OIncrement k n => r ← InMemoryStore_Increment c k n; mret (ANum (fst r) (snd r))
  | ODecrement k n => r ← InMemoryStore_Decrement c k n; mret (ANum (fst r) (snd r))
  | OFlush => r ← InMemoryStore_Flush c; mret (AErr r)
  end.

Definition live (t : Z) (e : GenericCacheEntry) : bool :=
  (ExpiresAt e =? 0) || (t <=? ExpiresAt e * Second).

(** What a hit writes to the destination. *)
Definition dest_types : list string :=
  ["*string"; "*int"; "*cache.GenericCacheEntry"; "*cache.ResponseCache"].

Definition deliver (value : goval) (e : GenericCacheEntry) : outcome answer :=
  match value, Data e with
  | VPtr (VString _), VString s => Done (AVal None (VPtr (VString s)))
  | VPtr (VString _), _ => Crash (not_a "string")
  | VPtr (VInt Int _), VInt Int n => Done (AVal None (VPtr (VInt Int n)))
  | VPtr (VInt Int _), _ => Crash (not_a "int")
  | VPtr (VEntry _ _ _), _ => Done (AVal None (VPtr (of_entry e)))
  | VPtr (VResponse _), VResponse r => Done (AVal None (VPtr (VResponse r)))
  | VPtr (VResponse _), _ => Crash (not_a "cache.ResponseCache")
  | _, _ => if bool_decide (typeof value ∈ dest_types) then Crash (not_a (typeof value))
            else Done (AVal (Some ErrNotSupport) value)
  end.

(** The entry [Set] stores: an entry value is unwrapped, the times are the
    store's own. *)
Definition expires_at (c : InMemoryStore) (exp t : Z) : Z :=
  if exp =? FOREVER then 0
  else int64 (Unix t + seconds (if exp =? 0 then DefaultExp c else exp)).

Definition payload (v : goval) : goval := match v with VEntry d _ _ => d | v => v end.

Definition stamp (c : InMemoryStore) (v : goval) (exp t : Z) : GenericCacheEntry :=
  mkEntry (payload v) (Unix t) (expires_at c exp t).

(** No foreign type that prints like the package's entry type. *)
Definition own_entry (v : goval) : bool :=
  match v with VOther t _ => negb (String.eqb t "cache.GenericCacheEntry") | _ => true end.

Definition spec_set (c : InMemoryStore) (t : Z) (k : string) (v : goval) (exp : Z)
    (m : gmap string GenericCacheEntry) : outcome answer * gmap string GenericCacheEntry :=
  if own_entry v then (Done (AErr None), <[k := stamp c v exp t]> m)
  else (Crash (not_a "cache.GenericCacheEntry"), m).

Definition spec_arith (f : Z -> Z) (k : string) (m : gmap string GenericCacheEntry)
    : outcome answer * gmap string GenericCacheEntry :=
  match m !! k with
  | None => (Done (ANum 0 (Some ErrCacheMiss)), m)
  | Some e =>
      match Data e with
      | VInt Int d => (Done (ANum (uint64 (f d)) None),
                       <[k := mkEntry (VInt Int (f d)) (TimeAdded e) (ExpiresAt e)]> m)
      | VOther t _ => if String.eqb t "int" then (Crash (not_a "int"), m)
                      else (Done (ANum 0 (Some ErrNotSupport)), m)
      | _ => (Done (ANum 0 (Some ErrNotSupport)), m)
      end
  end.

Definition spec_op (c : InMemoryStore) (t : Z) (o : op) (m : gmap string GenericCacheEntry)
    : outcome answer * gmap string GenericCacheEntry :=
  match o with
  | OGet k value =>
      match m !! k with
      | None => (Done (AVal (Some ErrCacheMiss) value), m)
      | Some e => if live t e then (deliver value e, m)
                  else (Done (AVal (Some ErrCacheMiss) value), delete k m)
      end
  | OSet k v exp => spec_set c t k v exp m
  | OAdd k v exp =>
      match m !! k with
      | Some _ => (Done (AErr (Some ErrNotStored)), m)
      | None => spec_set c t k v exp m
      end
  | OReplace k v exp =>
      match m !! k with
      | Some _ => spec_set c t k v exp m
      | None => (Done (AErr (Some ErrNotStored)), m)
      end
  | OUpdate k e =>
      match m !! k with
      | Some _ => (Done (AErr None), <[k := e]> m)
      | None => (Done (AErr (Some ErrNotStored)), m)
      end
  | ODelete k =>
      match m !! k with
      | Some _ => (Done (AErr None), delete k m)
      | None => (Done (AErr (Some ErrCacheMiss)), m)
      end
  | OIncrement k n => spec_arith (fun d => int64 (d + n)) k m
  | ODecrement k n => spec_arith (fun d => if d <? int64 n then 0 else int64 (d - n)) k m
  | OFlush => (Done (AErr None), ∅)
  end.

Definition op_key (o : op) : option string :=
  match o with
  | OGet k _ | OSet k _ _ | OAdd k _ _ | OReplace k _ _ | OUpdate k _ | ODelete k
  | OIncrement k _ | ODecrement k _ => Some k
  | OFlush => None
  end.

(** The store may forget entries of other keys (eviction), never alter one. *)
Definition forgets (o : op) (m' m : gmap string GenericCacheEntry) : Prop :=
  m' ⊆ m /\ forall k, op_key o = Some k -> m' !! k = m !! k.

(** ** The methods implement the specification *)
Section methods.
Context (clock : nat -> Z) (c : InMemoryStore).
Implicit Types (w : world mem) (m : gmap string GenericCacheEntry) (k : string).

(** [w] is a world in which the store [c] stands for [m]. *)
Definition holds w m : Prop := represents (w_state w) (lru c) m.

(** A call with answer [r] led from [w], where the store stood for [m], to a
    world where it stands for a part of [m1] that agrees on [k]. *)
Definition leads w (r : outcome answer * world mem) (a : outcome answer) k m1 : Prop :=
  exists w' m', r = (a, w') /\ holds w' m' /\ m' ⊆ m1 /\ m' !! k = m1 !! k /\
    capacity (w_state w') (lru c) = capacity (w_state w) (lru c).

Lemma live_unix t e : live t e = (ExpiresAt e =? 0) || negb (unix_before (ExpiresAt e) t).
Proof. unfold live, unix_before. by rewrite Z.leb_antisym. Qed.

(** [Expired] is the negation of [live] at the reading it takes, if it takes one. *)
Lemma run_Expired {B} e (f : bool -> prog memE B) w :
  exists w', run clock (Expired e ≫= f) w = run clock (f (negb (live (clock (w_tick w)) e))) w' /\
    w_state w' = w_state w /\ w_log w' = w_log w /\ (w_tick w <= w_tick w' <= S (w_tick w))%nat.
Proof.
  rewrite live_unix. unfold Expired. destruct (ExpiresAt e =? 0).
  - exists w. simpl. auto with lia.
  - exists (tick w). rewrite orb_false_l, negb_involutive. simpl. auto with lia.
Qed.

(** The existence check every conditional method starts with. *)
Lemma run_lookup {B} k (f : goval * bool -> prog memE B) w m : holds w m ->
  exists w' m', run clock (call (ArcGet (lru c) k) ≫= f) w =
      run clock (f match m !! k with Some e => (of_entry e, true) | None => (VNil, false) end) w' /\
    holds w' m' /\ m' ⊆ m /\ m' !! k = m !! k /\ w_tick w' = w_tick w /\ w_log w' = w_log w /\
    capacity (w_state w') (lru c) = capacity (w_state w) (lru c).
Proof.
  intros Hw. destruct (handle_ArcGet _ _ k _ Hw) as (s' & m' & He & Hr & Hs & Hk & Hc & _).
  exists (set_state w s'), m'. rewrite (run_call_eq _ _ _ _ _ _ He). by repeat split.
Qed.

Lemma run_store {B} k e (f : unit -> prog memE B) w m : holds w m ->
  exists w' m', run clock (call (ArcAdd (lru c) k (of_entry e)) ≫= f) w = run clock (f tt) w' /\
    holds w' m' /\ m' ⊆ <[k := e]> m /\ m' !! k = Some e /\ w_log w' = w_log w /\
    capacity (w_state w') (lru c) = capacity (w_state w) (lru c).
Proof.
  intros Hw. destruct (handle_ArcAdd _ _ k e _ Hw) as (s' & m' & He & Hr & Hs & Hk & Hc).
  exists (set_state w s'), m'. rewrite (run_call_eq _ _ _ _ _ _ He). by repeat split.
Qed.

Lemma run_remove {B} k (f : unit -> prog memE B) w m : holds w m ->
  exists w', run clock (call (ArcRemove (lru c) k) ≫= f) w = run clock (f tt) w' /\
    holds w' (delete k m) /\ w_log w' = w_log w /\
    capacity (w_state w') (lru c) = capacity (w_state w) (lru c).
Proof.
  intros Hw. destruct (handle_ArcRemove _ _ k _ Hw) as (s' & He & Hr & Hc & _).
  exists (set_state w s'). rewrite (run_call_eq _ _ _ _ _ _ He). by repeat split.
Qed.

Lemma leads_intro w a w' k m' m1 : holds w' m' -> m' ⊆ m1 -> m' !! k = m1 !! k ->
  capacity (w_state w') (lru c) = capacity (w_state w) (lru c) -> leads w (a, w') a k m1.
Proof. intros. by exists w', m'. Qed.

(** [doAddSet] reads the clock once and stores the stamped entry. *)
Lemma doAddSet_eq {B} k v exp (g : option error -> prog memE B) w :
  run clock (doAddSet c k v exp ≫= g) w =
    if own_entry v
    then run clock (call (ArcAdd (lru c) k (of_entry (stamp c v exp (clock (w_tick w))))) ≫=
           fun _ => g None) (tick w)
    else (Crash (not_a "cache.GenericCacheEntry"), tick w).
Proof.
  set (t := clock (w_tick w)).
  assert ((if exp =? FOREVER then 0
           else if negb (exp =? 0) then int64 (Unix t + seconds exp)
                else int64 (Unix t + seconds (DefaultExp c))) = expires_at c exp t) as Hexp.
  { unfold expires_at. destruct (exp =? FOREVER); [done|]. by destruct (exp =? 0). }
  unfold doAddSet, stamp. rewrite <- Hexp.
  destruct v; simpl; try done; [by destruct t0|by destruct (String.eqb _ _)].
Qed.

Lemma run_doAddSet k v exp w m : holds w m ->
  leads w (run clock (r ← doAddSet c k v exp; mret (AErr r)) w)
    (spec_set c (clock (w_tick w)) k v exp m).1 k (spec_set c (clock (w_tick w)) k v exp m).2.
Proof.
  intros Hw. rewrite doAddSet_eq. unfold spec_set. destruct (own_entry v).
  - destruct (run_store k (stamp c v exp (clock (w_tick w))) (fun _ => mret (AErr None)) (tick w) m)
      as (w' & m' & -> & Hw' & Hsub & Hk & _ & Hcap); [done|].
    apply (leads_intro w _ w' k m'); try done. simpl. by rewrite lookup_insert_eq.
  - by apply (leads_intro w _ (tick w) k m).
Qed.

Ltac lookup_step H w1 m1 Hw Hs Hk Ht Hc :=
  match goal with |- context [run clock (call (ArcGet _ ?k) ≫= ?f) ?w] =>
    destruct (run_lookup k f w _ H) as (w1 & m1 & -> & Hw & Hs & Hk & Ht & _ & Hc) end.
Ltac expired_step w1 Hs :=
  match goal with |- context [run clock (Expired ?e ≫= ?f) ?w] =>
    destruct (run_Expired e f w) as (w1 & -> & Hs & _ & _) end.
Ltac store_step H w1 m1 Hw Hs Hk Hc :=
  match goal with |- context [run clock (call (ArcAdd _ ?k (of_entry ?e)) ≫= ?f) ?w] =>
    destruct (run_store k e f w _ H) as (w1 & m1 & -> & Hw & Hs & Hk & _ & Hc) end.
Ltac remove_step H w1 Hw Hc :=
  match goal with |- context [run clock (call (ArcRemove _ ?k) ≫= ?f) ?w] =>
    destruct (run_remove k f w _ H) as (w1 & -> & Hw & _ & Hc) end.

Ltac eqb_cases :=
  repeat match goal with |- context [String.eqb ?a ?b] =>
    destruct (String.eqb_spec a b) as [E|?]; [by rewrite ?E; (try subst a)|] end.

Lemma leads_weaken w a r k m m1 w0 :
  capacity (w_state w0) (lru c) = capacity (w_state w) (lru c) ->
  m ⊆ m1 -> m !! k = m1 !! k -> leads w0 r a k m -> leads w r a k m1.
Proof.
  intros Hc Hs Hk (w' & m' & -> & Hw' & Hs' & Hk' & Hc'). exists w', m'.
  split; [done|]. split; [done|]. split; [by etrans|]. split; congruence.
Qed.

(** [Get] serves a live entry, and removes an expired one. *)
Lemma run_Get k value w m : holds w m ->
  leads w (run clock (do_op c (OGet k value)) w)
    (spec_op c (clock (w_tick w)) (OGet k value) m).1 k (spec_op c (clock (w_tick w)) (OGet k value) m).2.
Proof.
  intros Hw. cbn [do_op spec_op]. unfold InMemoryStore_Get. rewrite run_bind.
  lookup_step Hw w1 m1 Hw1 Hs1 Hk1 Ht1 Hc1.
  destruct (m !! k) as [e|] eqn:Hm; cbn [snd fst]; [|apply (leads_intro w _ w1 k m1); simpl; (done || congruence)].
  rewrite as_entry_of_entry, run_assert.
  expired_step w2 Hs2. rewrite Ht1.
  assert (holds w2 m1) as Hw2 by (unfold holds; by rewrite Hs2).
  assert (capacity (w_state w2) (lru c) = capacity (w_state w) (lru c)) as Hc2 by (by rewrite Hs2).
  destruct (live (clock (w_tick w)) e); cbn [negb].
  - match goal with |- leads _ (match run clock ?p w2 with _ => _ end) _ _ _ =>
      assert (match run clock p w2 with
              | (Done a, w') => run clock (mret (AVal a.1 a.2)) w'
              | (Crash msg, w') => (Crash msg, w') end = (deliver value e, w2)) as -> end.
    { unfold deliver. destruct value; try done; cbn [typeof].
      - by destruct t.
      - eqb_cases. rewrite bool_decide_false; [done|].
        unfold dest_types. rewrite !elem_of_cons, elem_of_nil. naive_solver.
      - destruct value; try done; cbn [typeof]; try (by destruct (Data e)).
        + destruct t; try done. by destruct (Data e) as [| |[]| | | | | | |].
        + eqb_cases. rewrite bool_decide_false; [done|].
          unfold dest_types. rewrite !elem_of_cons, elem_of_nil. naive_solver. }
    apply (leads_intro w _ w2 k m1); simpl; (done || congruence).
  - remove_step Hw2 w3 Hw3 Hc3.
    apply (leads_intro w _ w3 k (delete k m1)); simpl; [done| |by rewrite !lookup_delete_eq|congruence].
    by apply delete_mono.
Qed.

Ltac leads_with w1 m1 k := apply (leads_intro _ _ w1 k m1); simpl; (done || congruence).

(** Storing [e] over an entry of the store's key. *)
Lemma run_overwrite k e a w w1 m m1 : holds w1 m1 -> m1 ⊆ m ->
  capacity (w_state w1) (lru c) = capacity (w_state w) (lru c) ->
  leads w (run clock (call (ArcAdd (lru c) k (of_entry e)) ≫= fun _ => mret a) w1)
    (Done a) k (<[k := e]> m).
Proof.
  intros Hw1 Hs1 Hc1. store_step Hw1 w2 m2 Hw2 Hs2 Hk2 Hc2.
  apply (leads_intro w _ w2 k m2); [done| |by rewrite lookup_insert_eq|congruence].
  etrans; [done|]. by apply insert_mono.
Qed.

Lemma run_conditional k v exp w m w1 m1 : holds w1 m1 -> m1 ⊆ m -> m1 !! k = m !! k ->
  w_tick w1 = w_tick w -> capacity (w_state w1) (lru c) = capacity (w_state w) (lru c) ->
  leads w (run clock (r ← doAddSet c k v exp; mret (AErr r)) w1)
    (spec_set c (clock (w_tick w)) k v exp m).1 k (spec_set c (clock (w_tick w)) k v exp m).2.
Proof.
  intros Hw1 Hs1 Hk1 Ht1 Hc1. pose proof (run_doAddSet k v exp w1 m1 Hw1) as Hl. rewrite Ht1 in Hl.
  revert Hl. unfold spec_set. destruct (own_entry v); simpl; apply leads_weaken; try done.
  - by apply insert_mono.
  - by rewrite !lookup_insert_eq.
Qed.

(** [Increment] and [Decrement] differ in the arithmetic only. *)
Lemma run_arith k (f g : Z -> Z) w m : (forall d, f d = g d) -> holds w m ->
  leads w (run clock (
      r ← (r ← call (ArcGet (lru c) k);
           if negb (snd r) then mret (0, Some ErrCacheMiss)
           else
             entry ← assert_some (as_entry (fst r)) (not_a "cache.GenericCacheEntry");
             if String.eqb (typeof (Data entry)) "int" then
               d ← assert_some (as_int (Data entry)) (not_a "int");
               let d := f d in
               let entry := mkEntry (VInt Int d) (TimeAdded entry) (ExpiresAt entry) in
               _ ← call (ArcAdd (lru c) k (of_entry entry));
               mret (uint64 d, None)
             else mret (0, Some ErrNotSupport));
      mret (ANum (fst r) (snd r))) w)
    (spec_arith g k m).1 k (spec_arith g k m).2.
Proof.
  intros Hfg Hw. rewrite bind_call. unfold spec_arith. lookup_step Hw w1 m1 Hw1 Hs1 Hk1 Ht1 Hc1.
  destruct (m !! k) as [e|] eqn:Hm; cbn [snd fst negb]; [|leads_with w1 m1 k].
  rewrite as_entry_of_entry, bind_assert_Some.
  destruct (Data e) as [| |t d| | | | |t ?|v|] eqn:Hd; cbn [typeof as_int]; try (leads_with w1 m1 k).
  - destruct t; try (leads_with w1 m1 k). rewrite bind_assert_Some, <- Hfg.
    change (String.eqb (int_name Int) "int") with true. cbv iota zeta. rewrite bind_call. apply (run_overwrite k _ (ANum (uint64 (f d)) None) w w1 m m1 Hw1 Hs1 Hc1).
  - destruct (String.eqb t "int"); leads_with w1 m1 k.
Qed.

(** Every method call answers as the specification says, and leaves a store that
    stands for the specified map, up to forgotten entries of other keys. *)
Lemma do_op_refines o w m : holds w m ->
  exists w' m', run clock (do_op c o) w = ((spec_op c (clock (w_tick w)) o m).1, w') /\
    holds w' m' /\ forgets o m' (spec_op c (clock (w_tick w)) o m).2 /\
    capacity (w_state w') (lru c) = capacity (w_state w) (lru c).
Proof.
  intros Hw.
  assert (forall k, op_key o = Some k ->
    leads w (run clock (do_op c o) w) (spec_op c (clock (w_tick w)) o m).1 k
      (spec_op c (clock (w_tick w)) o m).2) as Hleads.
  { intros k Hk. destruct o; cbn in Hk; try discriminate; injection Hk as ->; cbn [do_op spec_op].
    - by apply run_Get.
    - by apply run_doAddSet.
    - unfold InMemoryStore_Add. rewrite bind_call. lookup_step Hw w1 m1 Hw1 Hs1 Hk1 Ht1 Hc1.
      destruct (m !! k) as [e|] eqn:Hm; cbn [snd]; [leads_with w1 m1 k|].
      apply (run_conditional k v exp w m w1 m1); (done || congruence).
    - unfold InMemoryStore_Replace. rewrite bind_call. lookup_step Hw w1 m1 Hw1 Hs1 Hk1 Ht1 Hc1.
      destruct (m !! k) as [e|] eqn:Hm; cbn [snd]; [|leads_with w1 m1 k].
      apply (run_conditional k v exp w m w1 m1); (done || congruence).
    - unfold InMemoryStore_Update. rewrite bind_call. lookup_step Hw w1 m1 Hw1 Hs1 Hk1 Ht1 Hc1.
      destruct (m !! k) as [e0|] eqn:Hm; cbn [snd]; [|leads_with w1 m1 k].
      rewrite bind_call. apply (run_overwrite k e (AErr None) w w1 m m1 Hw1 Hs1 Hc1).
    - unfold InMemoryStore_Delete. rewrite bind_call. lookup_step Hw w1 m1 Hw1 Hs1 Hk1 Ht1 Hc1.
      destruct (m !! k) as [e0|] eqn:Hm; cbn [snd]; [|leads_with w1 m1 k].
      rewrite bind_call. remove_step Hw1 w2 Hw2 Hc2.
      apply (leads_intro w _ w2 k (delete k m1)); simpl;
        [done|by apply delete_mono|by rewrite !lookup_delete_eq|congruence].
    - apply (run_arith k (fun d => int64 (d + int64 n))); [|done]. intros d. apply int64_add_mod.
    - apply (run_arith k (fun d => if d <? int64 n then 0 else int64 (d - int64 n))); [|done].
      intros d. by rewrite int64_sub_mod. }
  destruct (op_key o) as [k|] eqn:Hk.
  - destruct (Hleads k eq_refl) as (w' & m' & -> & Hw' & Hs & Hk' & Hc).
    exists w', m'. split; [done|]. split; [done|]. split; [|done]. split; [done|].
    intros k' Hk''. rewrite Hk in Hk''. by simplify_eq.
  - destruct o; try done. cbn [do_op spec_op fst snd]. unfold InMemoryStore_Flush. rewrite bind_call.
    destruct (handle_ArcPurge _ _ _ Hw) as (s' & He & Hr & _).
    rewrite (run_call_eq _ _ _ _ _ _ He). exists (set_state w s'), ∅. split; [done|].
    split; [done|]. split; [by split|].
    destruct Hw as (a & Ha & Hok & _). unfold capacity. revert He. unfold handle, memE_handler.
    rewrite (get_arc_eq _ _ a Ha). intros [= <-]. by rewrite (get_arc_eq _ _ (arc_Purge a) (lookup_insert_eq _ _ _)).
Qed.
End methods.

(** ** The janitor's sweep *)
Section sweep.
Context (clock : nat -> Z) (Hclock : monotone clock) (c : InMemoryStore).
Implicit Types (w : world mem) (m : gmap string GenericCacheEntry) (k : string).

Lemma live_mono t t' e : t <= t' -> live t' e = true -> live t e = true.
Proof.
  unfold live. rewrite !orb_true_iff, !Z.leb_le. intros ? [?|?]; [by left|right; lia].
Qed.

(** What one step of the sweep does to the map. *)
Definition swept w w' m m' k : Prop :=
  holds c w' m' /\ m' ⊆ m /\ (w_tick w <= w_tick w')%nat /\
  capacity (w_state w') (lru c) = capacity (w_state w) (lru c) /\
  (forall e, m' !! k = Some e -> live (clock (w_tick w)) e = true) /\
  (within (w_state w) (lru c) -> within (w_state w') (lru c) /\
     forall x e, m !! x = Some e -> live (clock (w_tick w')) e = true -> m' !! x = Some e).

Lemma run_deleteIfExpired k w m : holds c w m ->
  exists w' m', run clock (deleteIfExpired (lru c) k) w = (Done tt, w') /\ swept w w' m m' k.
Proof.
  intros Hw. unfold deleteIfExpired.
  destruct (handle_ArcGet _ _ k _ Hw) as (s1 & m1 & He & Hr & Hs1 & Hk1 & Hc1 & Hx).
  rewrite (run_call_eq _ _ _ _ _ _ He). set (w1 := set_state w s1).
  destruct (m !! k) as [e|] eqn:Hm; cbn [snd fst].
  - rewrite as_entry_of_entry, bind_assert_Some.
    match goal with |- context [run clock (Expired ?e ≫= ?f) w1] =>
      destruct (run_Expired clock e f w1) as (w2 & -> & Hs2 & _ & Ht2) end.
    assert (holds c w2 m1) as Hw2 by (unfold holds; by rewrite Hs2). simpl in Ht2.
    destruct (live (clock (w_tick w1)) e) eqn:Hlive; cbn [negb].
    + exists w2, m1. split; [done|]. split; [done|]. split; [done|]. split; [lia|].
      split; [by rewrite Hs2|].
      split; [intros e' He'; by simplify_eq/=|]. intros Hin. destruct (Hx Hin) as [-> Hin'].
      rewrite Hs2. done.
    + destruct (handle_ArcRemove _ _ k _ Hw2) as (s3 & He3 & Hr3 & Hc3 & Hin3).
      rewrite (run_call_last _ _ _ _ _ He3). exists (set_state w2 s3), (delete k m1).
      split; [done|]. split; [done|]. split; [|split; [simpl; lia|split; [|split]]].
      * etrans; [apply delete_subseteq|done].
      * simpl. rewrite Hc3, Hs2. done.
      * intros e'. by rewrite lookup_delete_eq.
      * intros Hin. destruct (Hx Hin) as [-> Hin']. rewrite Hs2 in Hin3. split; [by apply Hin3|].
        intros x e' Hxe Hl. rewrite lookup_delete_ne; [done|]. intros <-. rewrite Hm in Hxe. injection Hxe as <-.
        rewrite (live_mono (clock (w_tick w1)) (clock (w_tick w2)) e) in Hlive; [done| |done].
        apply Hclock. simpl. lia.
  - exists w1, m1. split; [done|]. split; [done|]. split; [done|]. split; [done|]. split; [done|].
    split; [intros e; by rewrite Hk1|]. intros Hin. by destruct (Hx Hin) as [-> Hin'].
Qed.

Lemma run_deleteExpiredKeys ks w m : holds c w m ->
  exists w' m', run clock (deleteExpiredKeys (lru c) ks) w = (Done tt, w') /\
    holds c w' m' /\ m' ⊆ m /\ (w_tick w <= w_tick w')%nat /\
    capacity (w_state w') (lru c) = capacity (w_state w) (lru c) /\
    (forall k e, k ∈ ks -> m' !! k = Some e -> live (clock (w_tick w)) e = true) /\
    (within (w_state w) (lru c) -> within (w_state w') (lru c) /\
       forall x e, m !! x = Some e -> live (clock (w_tick w')) e = true -> m' !! x = Some e).
Proof.
  revert w m. induction ks as [|k ks IH]; intros w m Hw; cbn [deleteExpiredKeys].
  - exists w, m. split; [done|]. split; [done|]. split; [done|]. split; [done|]. split; [done|].
    split; [by intros k e ?%not_elem_of_nil|done].
  - destruct (run_deleteIfExpired k w m Hw) as (w1 & m1 & Hr1 & Hw1 & Hs1 & Ht1 & Hc1 & Hk1 & Hx1).
    rewrite (run_bind_done _ _ _ _ _ _ Hr1).
    destruct (IH w1 m1 Hw1) as (w2 & m2 & -> & Hw2 & Hs2 & Ht2 & Hc2 & Hk2 & Hx2).
    exists w2, m2. split; [done|]. split; [done|]. split; [by etrans|]. split; [lia|].
    split; [congruence|]. split.
    + intros k' e [->|Hin]%elem_of_cons He.
      * apply Hk1. by eapply lookup_weaken.
      * apply (live_mono _ (clock (w_tick w1))); [apply Hclock; lia|]. by eapply Hk2.
    + intros Hin. destruct (Hx1 Hin) as [Hin1 Hkeep1]. destruct (Hx2 Hin1) as [Hin2 Hkeep2].
      split; [done|]. intros x e Hxe Hl. apply Hkeep2; [|done]. apply Hkeep1; [done|].
      apply (live_mono _ (clock (w_tick w2))); [apply Hclock; lia|done].
Qed.

(** After a sweep no entry is left that was expired when it began; within
    capacity, every entry that is still live when it ends is kept. *)
Lemma run_DeleteExpired w m : holds c w m ->
  exists w' m', run clock (DeleteExpired (lru c)) w = (Done tt, w') /\
    holds c w' m' /\ m' ⊆ m /\
    capacity (w_state w') (lru c) = capacity (w_state w) (lru c) /\
    (forall k e, m' !! k = Some e -> live (clock (w_tick w)) e = true) /\
    (within (w_state w) (lru c) -> within (w_state w') (lru c) /\
       forall k e, m !! k = Some e -> live (clock (w_tick w')) e = true -> m' !! k = Some e).
Proof.
  intros Hw. unfold DeleteExpired. destruct (handle_ArcKeys _ _ _ Hw) as (ks & He & _ & Hks).
  rewrite (run_call_eq _ _ _ _ _ _ He).
  destruct (run_deleteExpiredKeys ks (set_state w (w_state w)) m) as (w' & m' & -> & Hw' & Hs & _ & Hc & Hk & Hx); [done|].
  exists w', m'. split; [done|]. split; [done|]. split; [done|]. split; [done|]. split; [|done].
  intros k e Hke. apply (Hk k); [|done]. apply Hks. exists e. by eapply lookup_weaken.
Qed.
End sweep.

(** ** Construction *)
Section construction.
Context (clock : nat -> Z).

Lemma handle_ArcNew n s : handle (ArcNew n) s =
  match NewARC n with
  | inl err => (inl err, s)
  | inr a => (inr (fresh (dom (arcs s))), set_arc s (fresh (dom (arcs s))) a)
  end.
Proof. done. Qed.

Lemma handle_Register g s : handle (Register g) s =
  match refused s g with
  | Some err => (Some err, s)
  | None => (None, mkMem (arcs s) (gauges s ++ [g]) (janitors s))
  end.
Proof. done. Qed.

Lemma run_initGauge l name help w :
  exists w' err, run clock (initGaugeWithFunc l name help) w = (Done err, w') /\
    arcs (w_state w') = arcs (w_state w) /\ janitors (w_state w') = janitors (w_state w) /\
    err = refused (w_state w) (size_gauge l name help) /\
    gauges (w_state w') = gauges (w_state w) ++ match err with Some _ => [] | None => [size_gauge l name help] end.
Proof.
  unfold initGaugeWithFunc. rewrite run_call, handle_Register.
  destruct (refused _ _) as [err|]; simpl; eexists _, _; (split; [done|]); (split; [done|]); (split; [done|]);
    (split; [done|]); [by rewrite app_nil_r|done].
Qed.

(** The state [NewInMemoryStore] leaves: an empty cache at a fresh location; the
    other caches untouched; a janitor exactly when the interval is positive. *)
Lemma run_NewInMemoryStore n d i createMetric label w : 0 < n ->
  exists c w', run clock (NewInMemoryStore n d i createMetric label) w = (Done (inr c), w') /\
    arcs (w_state w) !! lru c = None /\ DefaultExp c = d /\
    represents (w_state w') (lru c) ∅ /\ capacity (w_state w') (lru c) = n /\
    (forall l, l <> lru c -> arcs (w_state w') !! l = arcs (w_state w) !! l) /\
    janitors (w_state w') = janitors (w_state w) ++ (if 0 <? i then [(lru c, i)] else []) /\
    (createMetric = false -> gauges (w_state w') = gauges (w_state w)).
Proof.
  intros Hn. unfold NewInMemoryStore. rewrite run_call, handle_ArcNew.
  destruct (NewARC n) as [err|a] eqn:Ha.
  { unfold NewARC, NewLRU in Ha. destruct (Z.leb_spec n 0); [lia|done]. }
  destruct (NewARC_spec n a Ha) as (Hok & Hsz & _ & Hc).
  set (l := fresh (dom (arcs (w_state w)))). set (w1 := set_state w (set_arc (w_state w) l a)).
  assert (arcs (w_state w) !! l = None) as Hfresh.
  { apply not_elem_of_dom. apply is_fresh. }
  cbv zeta. rewrite run_bind.
  match goal with |- context [run clock (if createMetric then ?p else ?q) w1] =>
    assert (exists w2, run clock (if createMetric then p else q) w1 = (Done tt, w2) /\
      arcs (w_state w2) = arcs (w_state w1) /\ janitors (w_state w2) = janitors (w_state w1) /\
      (createMetric = false -> gauges (w_state w2) = gauges (w_state w1))) as (w2 & -> & Ha2 & Hj2 & Hg2) end.
  { destruct createMetric; [|by exists w1].
    set (lbl := if (0 <? Z.of_nat (String.length label)) then label else "inmemory_cache_total_items_cnt").
    destruct (run_initGauge l lbl ("Total count the number of items in the in-memory cache for " +:+ lbl) w1)
      as (w2 & err & Hrun & Ha2 & Hj2 & _).
    exists w2. by rewrite (run_bind_done _ _ _ _ _ _ Hrun). }
  exists (mkInMemoryStore l d).
  assert (forall s, arcs s = arcs (w_state w1) -> represents s l ∅ /\ capacity s l = n) as Hrep.
  { intros s Hs. assert (arcs s !! l = Some a) as Hl by (rewrite Hs; apply lookup_insert_eq).
    split; [exists a; split; [done|]; split; [done|]; intros k; by rewrite Hc, lookup_empty|].
    unfold capacity. by rewrite (get_arc_eq s l a Hl). }
  destruct (0 <? i).
  - eexists. split; [reflexivity|]. simpl. split; [done|]. split; [done|].
    destruct (Hrep (mkMem (arcs (w_state w2)) (gauges (w_state w2)) (janitors (w_state w2) ++ [(l, i)])) Ha2).
    split; [done|]. split; [done|]. rewrite Ha2, Hj2. split; [|done].
    intros l' Hl'. by apply lookup_insert_ne.
  - exists w2. split; [done|]. simpl. split; [done|]. split; [done|]. destruct (Hrep (w_state w2) Ha2).
    split; [done|]. split; [done|]. rewrite Ha2, Hj2, app_nil_r. split; [|done].
    intros l' Hl'. by apply lookup_insert_ne.
Qed.

(** A size that is not positive is refused, and nothing is allocated. *)
Lemma run_NewInMemoryStore_err n d i createMetric label w : n <= 0 ->
  exists w', run clock (NewInMemoryStore n d i createMetric label) w =
    (Done (inl "Must provide a positive size"), w') /\ w_state w' = w_state w.
Proof.
  intros Hn. unfold NewInMemoryStore. rewrite run_call, handle_ArcNew.
  assert (NewARC n = (inl "Must provide a positive size" : string + arc)) as Ha.
  { unfold NewARC, NewLRU. by destruct (Z.leb_spec n 0); [|lia]. }
  rewrite Ha. by exists (set_state w (w_state w)).
Qed.
End construction.

(** ** Histories

    [served clock c n w M]: world [w] is reached from the creation of store [c]
    (nominal size [n]) by method calls and sweeps; the ledger [M] records for each
    key the entry last written to it according to the answers, with no eviction
    and no expiry. *)
Definition ledger_step (c : InMemoryStore) (t : Z) (o : op) (a : outcome answer)
    (M : gmap string GenericCacheEntry) : gmap string GenericCacheEntry :=
  match o, a with
  | OSet k v exp, Done (AErr None)
  | OAdd k v exp, Done (AErr None)
  | OReplace k v exp, Done (AErr None) => <[k := stamp c v exp t]> M
  | OUpdate k e, Done (AErr None) => <[k := e]> M
  | ODelete k, Done (AErr None) => delete k M
  | OIncrement _ _, Done (ANum _ None)
  | ODecrement _ _, Done (ANum _ None) => (spec_op c t o M).2
  | OFlush, _ => ∅
  | _, _ => M
  end.

Inductive served (clock : nat -> Z) (c : InMemoryStore) (n : Z)
    : world mem -> gmap string GenericCacheEntry -> Prop :=
  | served_new d i b label w0 w :
      run clock (NewInMemoryStore n d i b label) w0 = (Done (inr c), w) -> served clock c n w ∅
  | served_op w M o a w' :
      served clock c n w M -> run clock (do_op c o) w = (a, w') ->
      served clock c n w' (ledger_step c (clock (w_tick w)) o a M)
  | served_sweep w M a w' :
      served clock c n w M -> run clock (DeleteExpired (lru c)) w = (a, w') -> served clock c n w' M.

Section histories.
Context (clock : nat -> Z) (Hclock : monotone clock) (c : InMemoryStore) (n : Z).
Implicit Types (w : world mem) (m M : gmap string GenericCacheEntry).

Lemma spec_set_ledger t k v exp m M : m ⊆ M ->
  (spec_set c t k v exp m).2 ⊆
  match (spec_set c t k v exp m).1 with Done (AErr None) => <[k := stamp c v exp t]> M | _ => M end.
Proof. intros Hs. unfold spec_set. destruct (own_entry v); simpl; [by apply insert_mono|done]. Qed.

Lemma spec_arith_ledger f k m M : m ⊆ M ->
  (spec_arith f k m).2 ⊆
  match (spec_arith f k m).1 with Done (ANum _ None) => (spec_arith f k M).2 | _ => M end.
Proof.
  intros Hs. unfold spec_arith. destruct (m !! k) as [e|] eqn:Hk; [|done].
  rewrite (lookup_weaken m M k e Hk Hs). destruct (Data e) as [| |[]| | | | |t ?| |]; try done; simpl.
  - by apply insert_mono.
  - by destruct (String.eqb t "int").
Qed.

(** What a call leaves is covered by the ledger. *)
Lemma ledger_covers t o m M : m ⊆ M ->
  (spec_op c t o m).2 ⊆ ledger_step c t o (spec_op c t o m).1 M.
Proof.
  intros Hs. destruct o; cbn [spec_op ledger_step].
  - destruct (m !! k); [|done]. destruct (live t g); simpl; [done|].
    etrans; [apply delete_subseteq|done].
  - by apply spec_set_ledger.
  - destruct (m !! k); [done|]. by apply spec_set_ledger.
  - destruct (m !! k); [|done]. by apply spec_set_ledger.
  - destruct (m !! k); simpl; [by apply insert_mono|done].
  - destruct (m !! k); simpl; [by apply delete_mono|done].
  - by apply spec_arith_ledger.
  - by apply spec_arith_ledger.
  - done.
Qed.

Lemma served_holds w M : served clock c n w M ->
  exists m, holds c w m /\ m ⊆ M /\ capacity (w_state w) (lru c) = n.
Proof.
  induction 1 as [d i b label w0 w Hrun|w M o a w' _ (m & Hw & Hs & Hc) Hrun|w M a w' _ (m & Hw & Hs & Hc) Hrun].
  - destruct (Z.leb_spec n 0) as [Hn|Hn].
    { destruct (run_NewInMemoryStore_err clock n d i b label w0 Hn) as (w1 & Hr & _). congruence. }
    destruct (run_NewInMemoryStore clock n d i b label w0 Hn) as (c' & w1 & Hr & _ & _ & Hrep & Hcap & _).
    rewrite Hrun in Hr. simplify_eq. by exists ∅.
  - destruct (do_op_refines clock c o w m Hw) as (w1 & m1 & Hr & Hw1 & [Hs1 _] & Hc1).
    rewrite Hrun in Hr. simplify_eq. exists m1. split; [done|]. split; [|congruence].
    etrans; [done|]. by apply ledger_covers.
  - destruct (run_DeleteExpired clock Hclock c w m Hw) as (w1 & m1 & Hr & Hw1 & Hs1 & Hc1 & _).
    rewrite Hrun in Hr. simplify_eq. exists m1. split; [done|]. split; [by etrans|done].
Qed.
End histories.
