(* ===== verification/InMemoryProps.v ===== *)
(** * What the in-memory store guarantees

    The theorems about [InMemoryStore] taken alone (one goroutine at a time), each
    with a concrete instance.  [stored] says that a key is present with a given
    entry. *)

From stdpp Require Import gmap strings.
From S2P Require Import Prelude LruInterface SimpleLru Arc GoValues InMemory.
Local Open Scope Z_scope.

Definition stored (c : InMemoryStore) (w : world mem) (k : string) (e : GenericCacheEntry) : Prop :=
  exists m, holds c w m /\ m !! k = Some e.

(** ** A concrete store for the instances

    One cache of nominal size 2 at location 0, a clock that starts at second
    1700000000 and advances by one second per reading, and the store after
    [Set("n", 10, FOREVER)]. *)
Section fixture.
Definition clk (i : nat) : Z := (1700000000 + Z.of_nat i) * Second.

Definition arc2 : arc := match NewARC 2 with inr a => a | inl _ => inhabitant end.
Definition c2 : InMemoryStore := mkInMemoryStore 0 (3600 * Second).
Definition w_empty : world mem := World (mkMem {[0%nat := arc2]} [] []) 0 [].
Definition w_n : world mem := (run clk (do_op c2 (OSet "n" (VInt Int 10) FOREVER)) w_empty).2.
Definition e_n : GenericCacheEntry := mkEntry (VInt Int 10) 1700000000 0.

Lemma clk_monotone : monotone clk.
Proof. intros i j Hij. unfold clk, Second. lia. Qed.

Lemma w_empty_holds : holds c2 w_empty ∅ /\ within (w_state w_empty) 0.
Proof.
  assert (NewARC 2 = inr arc2) as Hnew by reflexivity.
  destruct (NewARC_spec 2 arc2 Hnew) as (Hok & Hsz & Hh & Hc). split.
  - exists arc2. split; [done|]. split; [done|]. intros k. by rewrite Hc, lookup_empty.
  - exists arc2. split; [done|]. by rewrite Hh.
Qed.

Lemma w_n_stored : stored c2 w_n "n" e_n.
Proof.
  destruct (do_op_refines clk c2 (OSet "n" (VInt Int 10) FOREVER) w_empty ∅)
    as (w' & m' & Hr & Hw & [_ Hk] & _); [apply w_empty_holds|].
  exists m'. unfold w_n. rewrite Hr. split; [done|]. rewrite (Hk "n" eq_refl). reflexivity.
Qed.
End fixture.

(** ** How long an entry lives

    The deadline is in whole seconds: the reading is rounded down, and so is the
    duration. *)
Section lifetime.
Context (c : InMemoryStore) (v : goval).

Lemma expires_at_eq exp t0 : 0 < exp < 2 ^ 62 -> Second <= t0 < 2 ^ 62 ->
  expires_at c exp t0 = t0 / Second + seconds exp /\ 1 <= t0 / Second /\ 0 <= seconds exp /\
  seconds exp * Second <= exp < (seconds exp + 1) * Second /\ (t0 / Second) * Second <= t0 < (t0 / Second + 1) * Second.
Proof.
  intros Hexp Ht0. destruct (seconds_nonneg exp ltac:(lia)) as [Hs1 Hs2].
  assert (exp < (seconds exp + 1) * Second) as Hs3.
  { unfold seconds, Second in *. pose proof (Z.quot_rem' exp 1000000000).
    pose proof (Z.rem_bound_pos exp 1000000000 ltac:(lia) ltac:(lia)). lia. }
  pose proof (Z.div_mod t0 Second ltac:(done)) as Hdiv. pose proof (Z.mod_pos_bound t0 Second eq_refl) as Hmod.
  assert (1 <= t0 / Second) by (apply Z.div_le_lower_bound; unfold Second in *; lia).
  split; [|unfold Second in *; lia].
  unfold expires_at, FOREVER, Unix. destruct (Z.eqb_spec exp (-1)); [lia|].
  destruct (Z.eqb_spec exp 0); [lia|]. unfold Second in *.
  rewrite (int64_id (t0 / 1000000000)) by (unfold in_int64; lia). apply int64_id. unfold in_int64. lia.
Qed.

Lemma stamp_dead exp t0 t1 : 0 < exp < 2 ^ 62 -> Second <= t0 < 2 ^ 62 -> t0 + exp < t1 ->
  live t1 (stamp c v exp t0) = false.
Proof.
  intros Hexp Ht0 Ht. destruct (expires_at_eq exp t0 Hexp Ht0) as (He & Hu & Hs & Hx & Hy).
  unfold live, stamp. cbn [ExpiresAt]. rewrite He. unfold Second in *.
  destruct (Z.eqb_spec (t0 / 1000000000 + seconds exp) 0); [lia|].
  destruct (Z.leb_spec t1 ((t0 / 1000000000 + seconds exp) * 1000000000)); [lia|done].
Qed.

Lemma stamp_live exp t0 t1 : 0 < exp < 2 ^ 62 -> Second <= t0 < 2 ^ 62 -> t1 + 2 * Second <= t0 + exp ->
  live t1 (stamp c v exp t0) = true.
Proof.
  intros Hexp Ht0 Ht. destruct (expires_at_eq exp t0 Hexp Ht0) as (He & Hu & Hs & Hx & Hy).
  unfold live, stamp. cbn [ExpiresAt]. rewrite He. unfold Second in *. apply orb_true_intro. right. apply Z.leb_le. lia.
Qed.

(** Within the second in which it was stored, an entry with a second to live is live. *)
Lemma stamp_live_second exp t0 t1 : Second <= exp < 2 ^ 62 -> Second <= t0 < 2 ^ 62 -> t1 / Second = t0 / Second ->
  live t1 (stamp c v exp t0) = true.
Proof.
  intros Hexp Ht0 Ht. destruct (expires_at_eq exp t0 ltac:(unfold Second in *; lia) Ht0) as (He & Hu & Hs & Hx & Hy).
  unfold live, stamp. cbn [ExpiresAt]. rewrite He, <- Ht.
  pose proof (Z.div_mod t1 Second ltac:(done)). pose proof (Z.mod_pos_bound t1 Second eq_refl). unfold Second in *.
  apply orb_true_intro. right. apply Z.leb_le. lia.
Qed.

Lemma stamp_forever t0 t1 : live t1 (stamp c v FOREVER t0) = true.
Proof. done. Qed.
End lifetime.

Lemma live_antitone t0 t1 e : t0 <= t1 -> live t1 e = true -> live t0 e = true.
Proof.
  intros Ht. unfold live. intros [He|He]%orb_prop; [by rewrite He|]. apply orb_true_intro. right.
  apply Z.leb_le in He. apply Z.leb_le. lia.
Qed.

Section claims.
Context (clock : nat -> Z) (c : InMemoryStore).
Implicit Types (w : world mem) (m M : gmap string GenericCacheEntry) (k : string).

Lemma stored_spec o w k e : stored c w k e -> op_key o = Some k ->
  exists w' m m', holds c w m /\ m !! k = Some e /\
    run clock (do_op c o) w = ((spec_op c (clock (w_tick w)) o m).1, w') /\
    holds c w' m' /\ m' !! k = (spec_op c (clock (w_tick w)) o m).2 !! k.
Proof.
  intros (m & Hw & Hk) Ho. destruct (do_op_refines clock c o w m Hw) as (w' & m' & Hr & Hw' & [_ Hag] & _).
  exists w', m, m'. split; [done|]. split; [done|]. split; [done|]. split; [done|]. by apply Hag.
Qed.

(** [Set] reads the clock once. *)
Lemma run_Set_tick k v exp w m : holds c w m -> own_entry v = true ->
  exists w', run clock (do_op c (OSet k v exp)) w = (Done (AErr None), w') /\
    stored c w' k (stamp c v exp (clock (w_tick w))) /\ w_tick w' = S (w_tick w).
Proof.
  intros Hw Hv. cbn [do_op]. unfold InMemoryStore_Set. rewrite doAddSet_eq, Hv.
  destruct (handle_ArcAdd (w_state (tick w)) (lru c) k (stamp c v exp (clock (w_tick w))) m Hw)
    as (s' & m' & He & Hr & _ & Hk & _).
  rewrite (run_call_eq _ _ _ _ _ _ He). eexists. split; [reflexivity|]. split; [by exists m'|done].
Qed.

(** C1. Refinement: every method of the store, on every branch (hit, miss,
    expired, wrong type, refused), answers exactly what the abstract map
    specification [spec_op] says, and leaves a store that stands for the
    specified map, except that entries under other keys may have been evicted. *)
Theorem inmemory_refines_spec o w m : holds c w m ->
  exists w' m', run clock (do_op c o) w = ((spec_op c (clock (w_tick w)) o m).1, w') /\
    holds c w' m' /\ m' ⊆ (spec_op c (clock (w_tick w)) o m).2 /\
    (forall k, op_key o = Some k -> m' !! k = (spec_op c (clock (w_tick w)) o m).2 !! k).
Proof.
  intros Hw. destruct (do_op_refines clock c o w m Hw) as (w' & m' & Hr & Hw' & [Hs Hk] & _).
  by exists w', m'.
Qed.

(** C3. Truthful hits: after any history of method calls and janitor sweeps from
    the creation of the store, a [Get] that returns without error delivers the
    entry last written under that key (nothing older, nothing deleted), and that
    entry has not expired at the time of the call. *)
Theorem inmemory_hits_truthful n w M k value v w' :
  monotone clock -> served clock c n w M ->
  run clock (do_op c (OGet k value)) w = (Done (AVal None v), w') ->
  exists e, M !! k = Some e /\ live (clock (w_tick w)) e = true /\
    deliver value e = Done (AVal None v).
Proof.
  intros Hclock Hs Hrun. destruct (served_holds clock Hclock c n w M Hs) as (m & Hw & Hsub & _).
  destruct (do_op_refines clock c (OGet k value) w m Hw) as (w1 & m1 & Hr & _).
  rewrite Hrun in Hr. cbn [spec_op] in Hr. destruct (m !! k) as [e|] eqn:Hk; [|done].
  exists e. split; [by eapply lookup_weaken|].
  destruct (live (clock (w_tick w)) e); simpl in Hr; [|done]. by simplify_eq.
Qed.

(** C10. Capacity: in every history the store holds at most one entry more than
    the size it was created with, and [Len] reports the number of entries. *)
Theorem inmemory_capacity n w M : monotone clock -> served clock c n w M ->
  exists m w', holds c w m /\ Z.of_nat (size m) <= n + 1 /\
    run clock (InMemoryStore_Len c) w = (Done (Z.of_nat (size m)), w').
Proof.
  intros Hclock Hs. destruct (served_holds clock Hclock c n w M Hs) as (m & Hw & _ & Hc).
  destruct (represents_size _ _ _ Hw) as [Hlen Hle]. exists m, (set_state w (w_state w)).
  split; [done|]. split; [by rewrite <- Hc|]. unfold InMemoryStore_Len. by apply run_call_last.
Qed.

(** Calls that do not write [k]: those on other keys, [Get] of any key, and sweeps. *)
Inductive apart k w : world mem -> Prop :=
  | apart_other o k' : op_key o = Some k' -> k' <> k -> apart k w (run clock (do_op c o) w).2
  | apart_get k' value : apart k w (run clock (do_op c (OGet k' value)) w).2
  | apart_sweep : apart k w (run clock (DeleteExpired (lru c)) w).2.

(** They leave [k] as it is, or without an entry. *)
Definition kept_or_gone k (e : GenericCacheEntry) w : Prop :=
  exists m, holds c w m /\ (m !! k = None \/ m !! k = Some e).

Lemma spec_op_other o k k' t m : op_key o = Some k' -> k' <> k -> (spec_op c t o m).2 !! k = m !! k.
Proof.
  intros Ho Hne. destruct o; simpl in Ho; simplify_eq; cbn [spec_op]; unfold spec_set, spec_arith;
    repeat case_match; simpl; try done; by rewrite ?lookup_insert_ne, ?lookup_delete_ne.
Qed.

Lemma subset_kept (m m' : gmap string GenericCacheEntry) k e : m' ⊆ m -> m !! k = None \/ m !! k = Some e -> m' !! k = None \/ m' !! k = Some e.
Proof.
  intros Hs Hk. destruct (m' !! k) as [e'|] eqn:Hk'; [|by left]. right.
  pose proof (lookup_weaken m' m k e' Hk' Hs). destruct Hk; congruence.
Qed.

(** A store stands for one map. *)
Lemma holds_unique w m m' : holds c w m -> holds c w m' -> m = m'.
Proof.
  intros (a & Ha & _ & Hm) (a' & Ha' & _ & Hm'). rewrite Ha in Ha'. injection Ha' as <-. apply map_eq. intros k.
  specialize (Hm k). specialize (Hm' k). rewrite Hm in Hm'. destruct (m !! k) as [[]|], (m' !! k) as [[]|]; simpl in Hm'; by simplify_eq.
Qed.

Lemma apart_kept k e w w' : monotone clock -> apart k w w' -> kept_or_gone k e w -> kept_or_gone k e w'.
Proof.
  intros Hclock [o k' Ho Hne|k' value|] (m & Hw & Hk).
  - destruct (do_op_refines clock c o w m Hw) as (w1 & m1 & -> & Hw1 & [Hs _] & _). exists m1. split; [done|].
    eapply subset_kept; [done|]. by rewrite (spec_op_other o k k').
  - destruct (do_op_refines clock c (OGet k' value) w m Hw) as (w1 & m1 & -> & Hw1 & [Hs _] & _). exists m1. split; [done|].
    eapply subset_kept; [|exact Hk]. etrans; [done|]. cbn [spec_op].
    destruct (m !! k') as [e'|]; [|done]. destruct (live (clock (w_tick w)) e'); [done|]. apply delete_subseteq.
  - destruct (run_DeleteExpired clock Hclock c w m Hw) as (w1 & m1 & -> & Hw1 & Hs & _). exists m1. split; [done|].
    by eapply subset_kept.
Qed.


(** C12. The janitor's sweep: [DeleteExpired] always completes; no entry is left
    that was expired when it began, nothing is invented or altered, and in a store
    within its size every entry that is still live when it ends is kept. *)
Theorem inmemory_sweep_exact w m : monotone clock -> holds c w m ->
  exists w' m', run clock (DeleteExpired (lru c)) w = (Done tt, w') /\ holds c w' m' /\ m' ⊆ m /\
    (forall k e, m' !! k = Some e -> live (clock (w_tick w)) e = true) /\
    (within (w_state w) (lru c) ->
       forall k e, m !! k = Some e -> live (clock (w_tick w')) e = true -> m' !! k = Some e).
Proof.
  intros Hclock Hw.
  destruct (run_DeleteExpired clock Hclock c w m Hw) as (w' & m' & Hr & Hw' & Hs & _ & Hl & Hin).
  exists w', m'. repeat (split; [done|]). intros Hwi. by apply Hin.
Qed.

(** The conditional methods do not look at expiry: while an expired entry has
    not been swept, [Add] is refused although [Get] reports the key missing. *)
Theorem inmemory_add_refused_when_expired k e v exp s0 w :
  stored c w k e -> live (clock (w_tick w)) e = false ->
  (run clock (do_op c (OAdd k v exp)) w).1 = Done (AErr (Some ErrNotStored)) /\
  (run clock (do_op c (OGet k (VPtr (VString s0)))) w).1 =
    Done (AVal (Some ErrCacheMiss) (VPtr (VString s0))).
Proof.
  intros Hst Hdead. split.
  - destruct (stored_spec (OAdd k v exp) w k e Hst eq_refl) as (w' & m & m' & _ & Hk & -> & _).
    cbn [spec_op]. by rewrite Hk.
  - destruct (stored_spec (OGet k (VPtr (VString s0))) w k e Hst eq_refl) as (w' & m & m' & _ & Hk & -> & _).
    cbn [spec_op]. by rewrite Hk, Hdead.
Qed.

(** ** Counters *)
Definition counter w k d : Prop := exists e, stored c w k e /\ Data e = VInt Int d.

Lemma run_arith_counter o f k w d :
  (forall t m, spec_op c t o m = spec_arith f k m) -> op_key o = Some k -> counter w k d ->
  exists w', run clock (do_op c o) w = (Done (ANum (uint64 (f d)) None), w') /\ counter w' k (f d).
Proof.
  intros Ho Hk (e & Hst & Hd).
  destruct (stored_spec o w k e Hst Hk) as (w' & m & m' & _ & Hm & Hr & Hw' & Hm').
  rewrite Ho in Hr, Hm'. unfold spec_arith in Hr, Hm'. rewrite Hm, Hd in Hr, Hm'. cbn [fst snd] in *.
  rewrite lookup_insert_eq in Hm'. exists w'. split; [done|]. eexists. split; [by exists m'|done].
Qed.

Fixpoint increments k (ns : list Z) : prog memE (list answer) :=
  match ns with
  | [] => mret []
  | n :: ns => a ← do_op c (OIncrement k n); rest ← increments k ns; mret (a :: rest)
  end.

(** The running totals [d + n1], [d + n1 + n2], ... *)
Fixpoint totals (d : Z) (ns : list Z) : list Z :=
  match ns with [] => [] | n :: ns => (d + n) :: totals (d + n) ns end.

Lemma totals_congr a b ns : uint64 a = uint64 b ->
  map (fun z => ANum (uint64 z) None) (totals a ns) = map (fun z => ANum (uint64 z) None) (totals b ns).
Proof.
  revert a b. induction ns as [|n ns IH]; intros a b Hab; [done|]. cbn [totals map].
  pose proof (uint64_add_congr a b n Hab) as Hn. rewrite Hn. f_equal. by apply IH.
Qed.

(** Increments accumulate: any sequence of [Increment]s of a counter succeeds
    and answers the running totals modulo 2^64, whatever wrap-around happens in
    the signed [int] the counter is stored in. *)
Theorem inmemory_increments_total k ns d w : counter w k d ->
  exists w' d', run clock (increments k ns) w =
      (Done (map (fun z => ANum (uint64 z) None) (totals d ns)), w') /\
    counter w' k d' /\ uint64 d' = uint64 (d + foldr Z.add 0 ns).
Proof.
  revert d w. induction ns as [|n ns IH]; intros d w Hw.
  - exists w, d. by rewrite Z.add_0_r.
  - cbn [increments].
    destruct (run_arith_counter (OIncrement k n) (fun d => int64 (d + n)) k w d) as (w1 & Hr & Hw1); [done..|].
    rewrite (run_bind_done _ _ _ _ _ _ Hr).
    destruct (IH _ _ Hw1) as (w2 & d2 & Hr2 & Hw2 & Hd2).
    rewrite (run_bind_done _ _ _ _ _ _ Hr2). exists w2, d2. cbn [totals map foldr].
    rewrite uint64_int64, (totals_congr (int64 (d + n)) (d + n) ns) by apply uint64_int64.
    split; [done|]. split; [done|]. rewrite Hd2, Z.add_assoc. apply uint64_add_congr, uint64_int64.
Qed.

(** Decrement stops at zero: for a step below 2^63 and a counter that is not
    negative, [Decrement] answers and stores [max 0 (d - n)]. *)
Theorem inmemory_decrement_floor k n d w :
  counter w k d -> 0 <= d < 2 ^ 63 -> 0 <= n < 2 ^ 63 ->
  exists w', run clock (do_op c (ODecrement k n)) w = (Done (ANum (Z.max 0 (d - n)) None), w') /\
    counter w' k (Z.max 0 (d - n)).
Proof.
  intros Hw Hd Hn.
  destruct (run_arith_counter (ODecrement k n) (fun d => if d <? int64 n then 0 else int64 (d - n)) k w d)
    as (w' & -> & Hw'); [done..|].
  assert ((if d <? int64 n then 0 else int64 (d - n)) = Z.max 0 (d - n)) as E.
  { rewrite !int64_id by (unfold in_int64; lia). destruct (Z.ltb_spec d n); lia. }
  rewrite E in *. exists w'. rewrite uint64_nonneg_int64 by (unfold in_int64; lia). done.
Qed.

(** A step of 2^63 or more is read as a negative [int]: [Decrement] then makes
    the counter grow, by 2^64 - n. *)
Theorem inmemory_decrement_grows k n d w :
  counter w k d -> 0 <= d -> 2 ^ 63 <= n < 2 ^ 64 -> d + (2 ^ 64 - n) < 2 ^ 63 ->
  exists w', run clock (do_op c (ODecrement k n)) w = (Done (ANum (d + (2 ^ 64 - n)) None), w') /\
    counter w' k (d + (2 ^ 64 - n)).
Proof.
  intros Hw Hd Hn Hsum.
  destruct (run_arith_counter (ODecrement k n) (fun d => if d <? int64 n then 0 else int64 (d - n)) k w d)
    as (w' & -> & Hw'); [done..|].
  assert (int64 n = n - 2 ^ 64) as En.
  { rewrite <- (int64_id (n - 2 ^ 64)) by (unfold in_int64; lia).
    replace n with (n - 2 ^ 64 + 2 ^ 64) at 1 by lia. apply int64_add_2_64. }
  assert ((if d <? int64 n then 0 else int64 (d - n)) = d + (2 ^ 64 - n)) as E.
  { rewrite <- int64_sub_mod, En, int64_id by (unfold in_int64; lia). destruct (Z.ltb_spec d (n - 2 ^ 64)); lia. }
  rewrite E in *. exists w'. rewrite uint64_nonneg_int64 by (unfold in_int64; lia). done.
Qed.
End claims.

(** Construction: [NewInMemoryStore] fails exactly when the size is not
    positive, and then changes nothing; otherwise it leaves an empty store of that
    size at a fresh location, every other cache untouched, and starts a janitor
    exactly when the cleanup interval is positive. *)
Theorem inmemory_construction clock n d i createMetric label w :
  match run clock (NewInMemoryStore n d i createMetric label) w with
  | (Done (inl err), w') => n <= 0 /\ err = "Must provide a positive size" /\ w_state w' = w_state w
  | (Done (inr c), w') =>
      0 < n /\ holds c w' ∅ /\ capacity (w_state w') (lru c) = n /\ DefaultExp c = d /\
      arcs (w_state w) !! lru c = None /\
      (forall l, l <> lru c -> arcs (w_state w') !! l = arcs (w_state w) !! l) /\
      janitors (w_state w') = janitors (w_state w) ++ (if 0 <? i then [(lru c, i)] else [])
  | (Crash _, _) => False
  end.
Proof.
  destruct (Z.leb_spec n 0) as [Hn|Hn].
  - destruct (run_NewInMemoryStore_err clock n d i createMetric label w Hn) as (w' & -> & Hw'). done.
  - destruct (run_NewInMemoryStore clock n d i createMetric label w Hn)
      as (c & w' & -> & Hl & Hd & Hw' & Hc & Ho & Hj & _). done.
Qed.

(** ** Instances *)
Section witnesses.
Definition w_start : world mem := World (mkMem ∅ [] []) 0 [].

Lemma served_empty : served clk c2 2 w_empty ∅.
Proof. apply (served_new clk c2 2 (3600 * Second) 0 false "" w_start). vm_compute. reflexivity. Qed.

Lemma served_n : served clk c2 2 w_n {["n" := e_n]}.
Proof.
  apply (served_op clk c2 2 w_empty ∅ (OSet "n" (VInt Int 10) FOREVER) (Done (AErr None)) w_n served_empty).
  vm_compute. reflexivity.
Qed.

Lemma w_n_counter : counter c2 w_n "n" 10.
Proof. exists e_n. split; [apply w_n_stored|done]. Qed.

(** An entry that expired one second ago, not swept yet. *)
Definition e_old : GenericCacheEntry := mkEntry (VString "x") 1699999000 1699999999.
Definition w_old : world mem :=
  (run clk (call (ArcAdd 0 "k" (of_entry e_old))) w_empty).2.

Lemma w_old_stored : stored c2 w_old "k" e_old.
Proof.
  destruct (handle_ArcAdd (w_state w_empty) 0 "k" e_old ∅) as (s' & m' & He & Hr & _ & Hk & _);
    [apply w_empty_holds|].
  exists m'. unfold w_old. rewrite (run_call_last _ _ _ _ _ He). done.
Qed.

Lemma inmemory_refines_spec_witness :
  exists w' m', run clk (do_op c2 (OSet "n" (VInt Int 10) FOREVER)) w_empty = (Done (AErr None), w') /\
    holds c2 w' m' /\ m' !! "n" = Some e_n.
Proof.
  destruct (inmemory_refines_spec clk c2 (OSet "n" (VInt Int 10) FOREVER) w_empty ∅)
    as (w' & m' & Hr & Hw & _ & Hk); [apply w_empty_holds|].
  exists w', m'. split; [exact Hr|]. split; [exact Hw|]. rewrite (Hk "n" eq_refl). reflexivity.
Defined.

Lemma inmemory_hits_truthful_witness :
  exists e, ({["n" := e_n]} : gmap string GenericCacheEntry) !! "n" = Some e /\
    live (clk (w_tick w_n)) e = true /\
    deliver (VPtr (VInt Int 0)) e = Done (AVal None (VPtr (VInt Int 10))).
Proof.
  apply (inmemory_hits_truthful clk c2 2 w_n {["n" := e_n]} "n" (VPtr (VInt Int 0)) (VPtr (VInt Int 10))
    (run clk (do_op c2 (OGet "n" (VPtr (VInt Int 0)))) w_n).2);
    [apply clk_monotone|apply served_n|vm_compute; reflexivity].
Defined.

Lemma inmemory_capacity_witness :
  exists m w', holds c2 w_n m /\ Z.of_nat (size m) <= 2 + 1 /\
    run clk (InMemoryStore_Len c2) w_n = (Done (Z.of_nat (size m)), w').
Proof. apply (inmemory_capacity clk c2 2 w_n {["n" := e_n]}); [apply clk_monotone|apply served_n]. Defined.

(** Ten seconds of life are served one second later; one second is not. *)
(** A value for ten seconds, and one for half a second; another key is written between
    [Set] and [Get]. *)
Definition w_set (exp : Z) : world mem := (run clk (do_op c2 (OSet "k" (VString "v") exp)) w_empty).2.
Definition w_other (exp : Z) : world mem := (run clk (do_op c2 (OSet "j" (VInt Int 1) FOREVER)) (w_set exp)).2.


Lemma inmemory_sweep_exact_witness :
  exists w' m', run clk (DeleteExpired 0) w_old = (Done tt, w') /\ holds c2 w' m' /\
    (forall k e, m' !! k = Some e -> live (clk (w_tick w_old)) e = true).
Proof.
  destruct w_old_stored as (m & Hm & _).
  destruct (inmemory_sweep_exact clk c2 w_old m clk_monotone Hm) as (w' & m' & Hr & Hw & _ & Hl & _).
  exists w', m'. split; [exact Hr|]. split; [exact Hw|exact Hl].
Defined.

Lemma inmemory_add_refused_when_expired_witness :
  (run clk (do_op c2 (OAdd "k" (VString "new") DEFAULT)) w_old).1 = Done (AErr (Some ErrNotStored)) /\
  (run clk (do_op c2 (OGet "k" (VPtr (VString "")))) w_old).1 =
    Done (AVal (Some ErrCacheMiss) (VPtr (VString ""))).
Proof.
  apply (inmemory_add_refused_when_expired clk c2 "k" e_old); [apply w_old_stored|vm_compute; reflexivity].
Defined.

Lemma inmemory_increments_total_witness :
  exists w' d', run clk (increments c2 "n" [5; 2 ^ 64 - 7]) w_n =
      (Done [ANum 15 None; ANum 8 None], w') /\ counter c2 w' "n" d' /\ uint64 d' = 8.
Proof.
  destruct (inmemory_increments_total clk c2 "n" [5; 2 ^ 64 - 7] 10 w_n w_n_counter) as (w' & d' & Hr & Hw & Hd).
  exists w', d'. split; [exact Hr|]. split; [exact Hw|exact Hd].
Defined.

Lemma inmemory_decrement_floor_witness :
  exists w', run clk (do_op c2 (ODecrement "n" 12)) w_n = (Done (ANum 0 None), w') /\ counter c2 w' "n" 0.
Proof. apply (inmemory_decrement_floor clk c2 "n" 12 10 w_n); [apply w_n_counter|lia|lia]. Defined.

Lemma inmemory_decrement_grows_witness :
  exists w', run clk (do_op c2 (ODecrement "n" (2 ^ 64 - 1))) w_n = (Done (ANum 11 None), w') /\
    counter c2 w' "n" 11.
Proof. apply (inmemory_decrement_grows clk c2 "n" (2 ^ 64 - 1) 10 w_n); [apply w_n_counter|lia..]. Defined.
End witnesses.
