(* ===== verification/InMemoryConc.v ===== *)
(** * The in-memory store under concurrency

    Several goroutines (request handlers and the janitor) use one store.  Each
    method of [InMemoryStore] is a sequence of calls to the cache, atomic one by
    one but not together: [InMemoryStore] has no lock of its own.  This file shows
    what survives every interleaving and what does not. *)

From stdpp Require Import gmap strings.
From S2P Require Import Prelude Interleave LruInterface SimpleLru Arc GoValues InMemory InMemoryProps.
Local Open Scope Z_scope.

(** ** The shared invariant as a contract *)

(** A well-formed cache that holds only [GenericCacheEntry] values. *)
Definition arc_typed (a : arc) : Prop :=
  ARC_ok a /\ forall (k : string) v, content a k = Some v -> is_Some (as_entry v).

Definition mem_contract : contract memE mem := {|
  inv := fun s => forall l a, arcs s !! l = Some a -> arc_typed a;
  pre := fun X e => match e with ArcAdd _ _ v => is_Some (as_entry v) | _ => True end;
  post := fun X e => match e in memE X return X -> Prop with
    | ArcGet _ _ => fun r => snd r = true -> is_Some (as_entry (fst r))
    | _ => fun _ => True
    end |}.

Lemma inhabitant_typed : arc_typed (inhabitant : arc).
Proof.
  assert (NewARC 1 = inr (inhabitant : arc)) as Hnew by reflexivity.
  destruct (NewARC_spec 1 _ Hnew) as (Hok & _ & _ & Hc).
  split; [done|]. intros k v. by rewrite Hc.
Qed.

Lemma get_arc_typed s l : inv mem_contract s -> arc_typed (get_arc s l).
Proof.
  intros Hs. unfold get_arc. rewrite lookup_total_alt. destruct (arcs s !! l) as [a|] eqn:Hl.
  - by apply (Hs l).
  - apply inhabitant_typed.
Qed.

Lemma set_arc_inv s l a : inv mem_contract s -> arc_typed a -> inv mem_contract (set_arc s l a).
Proof.
  intros Hs Ha l' a'. simpl. rewrite lookup_insert. case_decide; [by intros [= <-]|apply Hs].
Qed.

Lemma mem_honoured : honoured mem_contract.
Proof.
  intros X e s Hs Hpre. destruct e; unfold handle, memE_handler.
  - destruct (NewARC n) as [err|a] eqn:Ha; [done|]. split; [|done].
    apply set_arc_inv; [done|]. destruct (NewARC_spec n a Ha) as (Hok & _ & _ & Hc).
    split; [done|]. intros k v. by rewrite Hc.
  - destruct (get_arc_typed s l Hs) as [Hok Hty]. pose proof (arc_Get_spec (get_arc s l) k Hok) as Hg.
    destruct (arc_Get (get_arc s l) k) as [vb a]. destruct Hg as (-> & Hok' & _ & _ & _ & Hx & _).
    split.
    + apply set_arc_inv; [done|]. split; [done|]. intros k' v. destruct (Hx k') as [->| ->]; [apply Hty|done].
    + simpl. destruct (content (get_arc s l) k) eqn:Hc; [intros _; by eapply Hty|done].
  - destruct (get_arc_typed s l Hs) as [Hok Hty].
    destruct (arc_Add_added (get_arc s l) k v Hok) as (Hok' & _ & Hk & Hx).
    split; [|done]. apply set_arc_inv; [done|]. split; [done|]. intros k' v'.
    destruct (decide (k' = k)) as [->|Hne]; [rewrite Hk; by intros [= <-]|].
    destruct (Hx k' Hne) as [->| ->]; [apply Hty|done].
  - destruct (get_arc_typed s l Hs) as [Hok Hty].
    destruct (arc_Remove_spec (get_arc s l) k Hok) as (Hok' & _ & _ & Hk & Hx).
    split; [|done]. apply set_arc_inv; [done|]. split; [done|]. intros k' v'.
    destruct (decide (k' = k)) as [->|Hne]; [by rewrite Hk|]. rewrite (Hx k' Hne). apply Hty.
  - done.
  - done.
  - destruct (get_arc_typed s l Hs) as [Hok Hty].
    destruct (arc_Purge_spec (get_arc s l) Hok) as (Hok' & _ & _ & Hx).
    split; [|done]. apply set_arc_inv; [done|]. split; [done|]. intros k' v'. by rewrite Hx.
  - by destruct (refused _ _).
  - done.
Qed.

(** ** Every method conforms *)

(** The panic of the assertion [val.(GenericCacheEntry)]. *)
Definition entry_panic : string := not_a "cache.GenericCacheEntry".
Definition no_entry_panic {A} (o : outcome A) : Prop := o <> Crash entry_panic.

Definition own_op (o : op) : bool :=
  match o with OSet _ v _ | OAdd _ v _ | OReplace _ v _ => own_entry v | _ => true end.

(** What a goroutine does with the store [c]. *)
Inductive job := JOp (o : op) | JSweep | JKeys | JLen.

Definition do_job (c : InMemoryStore) (j : job) : prog memE unit :=
  match j with
  | JOp o => _ ← do_op c o; mret tt
  | JSweep => DeleteExpired (lru c)
  | JKeys => _ ← InMemoryStore_Keys c; mret tt
  | JLen => _ ← InMemoryStore_Len c; mret tt
  end.

Fixpoint do_jobs (c : InMemoryStore) (js : list job) : prog memE unit :=
  match js with [] => mret tt | j :: js => _ ← do_job c j; do_jobs c js end.

Definition own_job (j : job) : bool := match j with JOp o => own_op o | _ => true end.

Section conformance.
Context (c : InMemoryStore).

(** The answer of a lookup, once it says the key is there, is an entry. *)
Lemma conforms_lookup {B} (Q : outcome B -> Prop) l k (f : goval * bool -> prog memE B) :
  (forall e, conforms mem_contract Q (f (of_entry e, true))) ->
  (forall v, conforms mem_contract Q (f (v, false))) ->
  conforms mem_contract Q (call (ArcGet l k) ≫= f).
Proof.
  intros Ht Hf. apply conforms_call; [done|]. intros [v []] Hv; [|apply Hf].
  destruct Hv as [e He%as_entry_Some]; [done|]. simpl in He. subst v. apply Ht.
Qed.

Lemma conforms_store {B} (Q : outcome B -> Prop) l k e (f : unit -> prog memE B) :
  conforms mem_contract Q (f tt) ->
  conforms mem_contract Q (call (ArcAdd l k (of_entry e)) ≫= f).
Proof. intros Hf. apply conforms_call; [simpl; eauto|]. by intros []. Qed.

Lemma conforms_Expired {B} (Q : outcome B -> Prop) e (f : bool -> prog memE B) :
  (forall b, conforms mem_contract Q (f b)) -> conforms mem_contract Q (Expired e ≫= f).
Proof.
  intros Hf. apply conforms_bind. unfold Expired. destruct (ExpiresAt e =? 0); simpl; intros; apply Hf.
Qed.

Lemma conforms_doAddSet {B} (Q : outcome B -> Prop) k v exp (g : option error -> prog memE B) :
  own_entry v = true -> conforms mem_contract Q (g None) ->
  conforms mem_contract Q (doAddSet c k v exp ≫= g).
Proof.
  intros Hv Hg. unfold doAddSet. rewrite bind_Now. intros t. cbn zeta.
  destruct v; simpl in *; try (by split; [simpl; eauto|]).
  - by destruct t0; simpl; (split; [simpl; eauto|]).
  - rewrite Hv. simpl. by split; [simpl; eauto|].
Qed.

Lemma conforms_assert {A B} (Q : outcome B -> Prop) (o : option A) msg (f : A -> prog memE B) :
  Q (Crash msg) -> (forall a, conforms mem_contract Q (f a)) ->
  conforms mem_contract Q (assert_some o msg ≫= f).
Proof. intros Hp Hf. destruct o; [apply Hf|done]. Qed.

Lemma conforms_Get k value :
  conforms mem_contract no_entry_panic (InMemoryStore_Get c k value).
Proof.
  unfold InMemoryStore_Get. apply conforms_lookup; [intros e|done].
  cbn [snd fst]. rewrite as_entry_of_entry, bind_assert_Some. apply conforms_Expired. intros [].
  { apply conforms_call; [done|]. by intros [] _. }
  repeat match goal with
  | |- conforms _ _ (if ?b then _ else _) => destruct b
  | |- conforms _ _ (assert_some _ _ ≫= _) => apply conforms_assert; [discriminate|intros ?]
  | |- conforms _ _ (mret _) => discriminate
  end.
Qed.

Lemma conforms_do_op o : own_op o = true -> conforms mem_contract no_entry_panic (do_op c o).
Proof.
  intros Ho. destruct o; cbn [do_op own_op] in *.
  - apply conforms_bind. eapply conforms_mono; [|apply conforms_Get].
    intros [a|msg]; [done|]. intros Hm Heq. by apply Hm; injection Heq as ->.
  - by apply conforms_doAddSet.
  - unfold InMemoryStore_Add. rewrite bind_call.
    apply conforms_lookup; intros ?; cbn [snd]; [done|]. by apply conforms_doAddSet.
  - unfold InMemoryStore_Replace. rewrite bind_call.
    apply conforms_lookup; intros ?; cbn [snd]; [|done]. by apply conforms_doAddSet.
  - unfold InMemoryStore_Update. rewrite bind_call.
    apply conforms_lookup; intros ?; cbn [snd]; [|done]. rewrite bind_call. by apply conforms_store.
  - unfold InMemoryStore_Delete. rewrite bind_call.
    apply conforms_lookup; intros ?; cbn [snd]; [|done]. rewrite bind_call.
    apply conforms_call; [done|]. by intros [] _.
  - unfold InMemoryStore_Increment. rewrite bind_call.
    apply conforms_lookup; intros ?; cbn [snd fst negb]; [|done]. rewrite as_entry_of_entry, bind_assert_Some.
    destruct (String.eqb _ _); [|done]. apply conforms_bind, conforms_assert; [discriminate|].
    intros d. by apply conforms_store.
  - unfold InMemoryStore_Decrement. rewrite bind_call.
    apply conforms_lookup; intros ?; cbn [snd fst negb]; [|done]. rewrite as_entry_of_entry, bind_assert_Some.
    destruct (String.eqb _ _); [|done]. apply conforms_bind, conforms_assert; [discriminate|].
    intros d. by apply conforms_store.
  - unfold InMemoryStore_Flush. rewrite bind_call. apply conforms_call; [done|]. by intros [] _.
Qed.

Lemma conforms_sweep ks :
  conforms mem_contract no_entry_panic (deleteExpiredKeys (lru c) ks).
Proof.
  induction ks as [|k ks IH]; [done|]. cbn [deleteExpiredKeys]. unfold deleteIfExpired. rewrite bind_call.
  apply conforms_lookup; intros x; cbn [snd fst]; [|done]. rewrite as_entry_of_entry, bind_assert_Some.
  apply conforms_bind, conforms_Expired. intros []; [|done]. by split.
Qed.

Lemma conforms_jobs js : Forall (fun j => own_job j = true) js ->
  conforms mem_contract no_entry_panic (do_jobs c js).
Proof.
  induction 1 as [|j js Hj _ IH]; [done|]. cbn [do_jobs]. apply conforms_bind.
  assert (conforms mem_contract no_entry_panic (do_job c j)) as Hjob.
  { destruct j; cbn [do_job].
    - apply conforms_bind. eapply conforms_mono; [|by apply conforms_do_op].
      intros [a|msg]; [done|]. intros Hm Heq. by apply Hm; injection Heq as ->.
    - unfold DeleteExpired. apply conforms_call; [done|]. intros ks _. apply conforms_sweep.
    - by split.
    - by split. }
  eapply conforms_mono; [|apply Hjob]. intros [a|msg]; [done|].
  intros Hm Heq. by apply Hm; injection Heq as ->.
Qed.
End conformance.

(** ** What every interleaving keeps *)
Section claims.
Context (clock : nat -> Z) (c : InMemoryStore).
Implicit Types (w : world mem) (m : gmap string GenericCacheEntry) (k : string).

(** C13. Safety under concurrency: any number of goroutines, each running any
    sequence of method calls and sweeps on stores of the same memory, interleaved
    call by call in any order, leave every cache well formed, holding at most one
    entry above its size, holding only entries; and no assertion
    [val.(GenericCacheEntry)] ever panics. *)
Theorem concurrent_store_safe w (jss : list (InMemoryStore * list job)) w' ps' :
  (forall l a, arcs (w_state w) !! l = Some a -> arc_typed a) ->
  Forall (fun cj => Forall (fun j => own_job j = true) cj.2) jss ->
  reaches clock (w, map (fun cj => do_jobs cj.1 cj.2) jss) (w', ps') ->
  (forall l a, arcs (w_state w') !! l = Some a -> arc_typed a /\ arc_Len a <= asize a + 1) /\
  (forall i, ps' !! i <> Some (Panic entry_panic)).
Proof.
  intros Hw Hjs Hr.
  destruct (reaches_conforms mem_contract clock mem_honoured no_entry_panic _ _ _ _ Hr) as [Hw' Hps].
  - apply Forall_map. eapply Forall_impl; [apply Hjs|]. intros cj. apply conforms_jobs.
  - done.
  - split.
    + intros l a Hl. destruct (Hw' l a Hl) as [Hok Hty]. split; [done|].
      rewrite held_Len by done. apply (ok_held a Hok).
    + intros i Hi. by apply (Forall_lookup_1 _ _ _ _ Hps Hi).
Qed.

(** ** What interleavings break: check-then-act

    A lookup and the store that follows it are two atomic calls. *)

Lemma increment_eq k n : do_op c (OIncrement k n) =
  (call (ArcGet (lru c) k) ≫= fun r => (if negb (snd r) then mret (0, Some ErrCacheMiss)
    else entry ← assert_some (as_entry (fst r)) (not_a "cache.GenericCacheEntry");
      if String.eqb (typeof (Data entry)) "int" then
        d ← assert_some (as_int (Data entry)) (not_a "int");
        _ ← call (ArcAdd (lru c) k (of_entry (mkEntry (VInt Int (int64 (d + int64 n)))
               (TimeAdded entry) (ExpiresAt entry))));
        mret (uint64 (int64 (d + int64 n)), None)
      else mret (0, Some ErrNotSupport)) ≫= fun r => mret (ANum (fst r) (snd r))).
Proof. done. Qed.

(** C34. Lost update: two goroutines that increment the same counter can both be
    told the same total, and one of the two steps is lost. *)
Theorem concurrent_increment_lost k n d e w m :
  holds c w m -> m !! k = Some e -> Data e = VInt Int d ->
  exists w' m', reaches clock
      (w, [do_op c (OIncrement k n); do_op c (OIncrement k n)])
      (w', [Ret (ANum (uint64 (d + n)) None); Ret (ANum (uint64 (d + n)) None)]) /\
    holds c w' m' /\ Data <$> m' !! k = Some (VInt Int (int64 (d + n))).
Proof.
  intros Hw Hk Hd. rewrite increment_eq.
  destruct (handle_ArcGet _ _ k _ Hw) as (s1 & m1 & He1 & Hr1 & _ & Hk1 & _). rewrite Hk in He1, Hk1.
  destruct (handle_ArcGet _ _ k _ Hr1) as (s2 & m2 & He2 & Hr2 & _ & Hk2 & _). rewrite Hk1 in He2, Hk2.
  set (e' := mkEntry (VInt Int (int64 (d + int64 n))) (TimeAdded e) (ExpiresAt e)).
  destruct (handle_ArcAdd _ _ k e' _ Hr2) as (s3 & m3 & He3 & Hr3 & _).
  destruct (handle_ArcAdd _ _ k e' _ Hr3) as (s4 & m4 & He4 & Hr4 & _ & Hk4 & _).
  exists (set_state w s4), m4. split; [|split; [done|]].
  - eapply (reaches_call clock 0); [done|done|]. eapply (reaches_call clock 1); [done|done|].
    cbn [fst snd negb]. rewrite as_entry_of_entry, bind_assert_Some, Hd. cbn [typeof int_name as_int].
    change (String.eqb "int" "int") with true. cbv iota. rewrite bind_assert_Some, bind_call.
    eapply (reaches_call clock 0); [done|done|]. eapply (reaches_call clock 1); [done|done|].
    rewrite !bind_mret. cbn [fst snd]. rewrite uint64_int64, <- (uint64_int64 (d + int64 n)), int64_add_mod, uint64_int64.
    apply rtc_refl.
  - rewrite Hk4. simpl. by rewrite int64_add_mod.
Qed.

(** [Add] is not exclusive: two goroutines adding a missing key can both be
    told that they stored it. *)
Theorem concurrent_adds_both_succeed k v1 v2 exp w m :
  holds c w m -> m !! k = None -> own_entry v1 = true -> own_entry v2 = true ->
  exists w' m', reaches clock
      (w, [do_op c (OAdd k v1 exp); do_op c (OAdd k v2 exp)])
      (w', [Ret (AErr None); Ret (AErr None)]) /\
    holds c w' m' /\ Data <$> m' !! k = Some (payload v2).
Proof.
  intros Hw Hk Hv1 Hv2.
  destruct (handle_ArcGet _ _ k _ Hw) as (s1 & m1 & He1 & Hr1 & _ & Hk1 & _). rewrite Hk in He1, Hk1.
  destruct (handle_ArcGet _ _ k _ Hr1) as (s2 & m2 & He2 & Hr2 & _ & Hk2 & _). rewrite Hk1 in He2, Hk2.
  set (w2 := set_state (set_state w s1) s2).
  destruct (do_op_refines clock c (OSet k v1 exp) w2 m2 Hr2) as (w3 & m3 & Hrun3 & Hw3 & _).
  destruct (do_op_refines clock c (OSet k v2 exp) w3 m3 Hw3) as (w4 & m4 & Hrun4 & Hw4 & [_ Hag4] & _).
  cbn [spec_op] in *. unfold spec_set in *. rewrite Hv1 in Hrun3. rewrite Hv2 in Hrun4, Hag4. cbn [fst snd] in *.
  exists w4, m4. split; [|split; [done|]].
  - eapply (reaches_call clock 0); [done|done|]. eapply (reaches_call clock 1); [done|done|].
    eapply (reaches_run clock 0 (do_op c (OSet k v1 exp))); [done|done|].
    eapply (reaches_run clock 1 (do_op c (OSet k v2 exp))); [done|done|]. apply rtc_refl.
  - rewrite (Hag4 k eq_refl), lookup_insert_eq. done.
Qed.

(** A reader can delete a writer's value: a [Get] that found the old entry
    expired removes the key after another goroutine has stored a fresh value, and
    both calls answer as if nothing had happened. *)
Theorem concurrent_get_removes_fresh k e v exp s0 w m :
  holds c w m -> m !! k = Some e -> live (clock (w_tick w)) e = false -> own_entry v = true ->
  exists w' m', reaches clock
      (w, [do_op c (OGet k (VPtr (VString s0))); do_op c (OSet k v exp)])
      (w', [Ret (AVal (Some ErrCacheMiss) (VPtr (VString s0))); Ret (AErr None)]) /\
    holds c w' m' /\ m' !! k = None.
Proof.
  intros Hw Hk Hdead Hv.
  destruct (handle_ArcGet _ _ k _ Hw) as (s1 & m1 & He1 & Hr1 & _). rewrite Hk in He1.
  set (w1 := tick (set_state w s1)).
  destruct (do_op_refines clock c (OSet k v exp) w1 m1 Hr1) as (w2 & m2 & Hrun2 & Hw2 & _).
  cbn [spec_op] in Hrun2. unfold spec_set in Hrun2. rewrite Hv in Hrun2. cbn [fst] in Hrun2.
  destruct (handle_ArcRemove _ _ k _ Hw2) as (s3 & He3 & Hr3 & _).
  exists (set_state w2 s3), (delete k m2). split; [|split; [done|apply lookup_delete_eq]].
  cbn [do_op]. unfold InMemoryStore_Get. rewrite bind_call.
  eapply (reaches_call clock 0); [done|done|]. cbn [fst snd].
  rewrite as_entry_of_entry, bind_assert_Some. unfold Expired.
  rewrite live_unix in Hdead. apply orb_false_iff in Hdead as [-> Hb%negb_false_iff].
  rewrite !bind_Now. eapply (reaches_now clock 0); [done|]. fold w1. cbn [w_tick set_state].
  rewrite bind_mret, Hb, bind_call.
  eapply (reaches_run clock 1 (do_op c (OSet k v exp))); [done|done|].
  eapply (reaches_call clock 0); [done|done|]. apply rtc_refl.
Qed.
End claims.

(** ** Instances *)
Section witnesses.
(** A writer and a sweep, interleaved. *)
Definition two_jobs : list (InMemoryStore * list job) :=
  [(c2, [JOp (OSet "k" (VString "v") (5 * Second)); JOp (OGet "k" (VPtr (VString "")))]); (c2, [JSweep])].
Definition interleaved : world mem * list (prog memE unit) :=
  sched clk [1; 0; 0; 1; 0]%nat w_n (map (fun cj => do_jobs cj.1 cj.2) two_jobs).

Lemma w_n_typed : forall l a, arcs (w_state w_n) !! l = Some a -> arc_typed a.
Proof.
  apply (run_conforms mem_contract clk mem_honoured no_entry_panic); [by apply conforms_do_op|].
  intros l a Hl. apply (lookup_singleton_Some 0%nat l arc2 a) in Hl as [<- <-].
  destruct (NewARC_spec 2 arc2 eq_refl) as (Hok & _ & _ & Hc). split; [done|]. intros k v. by rewrite Hc.
Qed.

Lemma concurrent_store_safe_witness :
  (forall l a, arcs (w_state interleaved.1) !! l = Some a -> arc_typed a /\ arc_Len a <= asize a + 1) /\
  (forall i, interleaved.2 !! i <> Some (Panic entry_panic)).
Proof.
  apply (concurrent_store_safe clk w_n two_jobs interleaved.1 interleaved.2).
  - apply w_n_typed.
  - repeat constructor.
  - rewrite <- surjective_pairing. apply sched_reaches.
Defined.

Lemma concurrent_increment_lost_witness :
  exists w' m', reaches clk
      (w_n, [do_op c2 (OIncrement "n" 1); do_op c2 (OIncrement "n" 1)])
      (w', [Ret (ANum 11 None); Ret (ANum 11 None)]) /\
    holds c2 w' m' /\ Data <$> m' !! "n" = Some (VInt Int 11).
Proof.
  destruct w_n_stored as (m & Hm & Hn).
  apply (concurrent_increment_lost clk c2 "n" 1 10 e_n w_n m Hm Hn). reflexivity.
Defined.

Lemma concurrent_adds_both_succeed_witness :
  exists w' m', reaches clk
      (w_empty, [do_op c2 (OAdd "k" (VString "a") DEFAULT); do_op c2 (OAdd "k" (VString "b") DEFAULT)])
      (w', [Ret (AErr None); Ret (AErr None)]) /\
    holds c2 w' m' /\ Data <$> m' !! "k" = Some (VString "b").
Proof.
  apply (concurrent_adds_both_succeed clk c2 "k" (VString "a") (VString "b") DEFAULT w_empty ∅);
    [apply w_empty_holds|reflexivity..].
Defined.

Lemma concurrent_get_removes_fresh_witness :
  exists w' m', reaches clk
      (w_old, [do_op c2 (OGet "k" (VPtr (VString ""))); do_op c2 (OSet "k" (VString "new") DEFAULT)])
      (w', [Ret (AVal (Some ErrCacheMiss) (VPtr (VString ""))); Ret (AErr None)]) /\
    holds c2 w' m' /\ m' !! "k" = None.
Proof.
  destruct w_old_stored as (m & Hm & Hk).
  apply (concurrent_get_removes_fresh clk c2 "k" e_old (VString "new") DEFAULT "" w_old m Hm Hk);
    [vm_compute; reflexivity|reflexivity].
Defined.
End witnesses.
