(* ===== verification/Janitor.v ===== *)
(** * inmemory.go: the janitor goroutine and its stop

    The janitor goroutine ([janitor.Run]) and the finalizer ([stopJanitor]) as a
    step relation.  [janitor.stop] is nil until [Run] makes the channel; the
    finalizer evaluates [c.janitor.stop] once and then sends on what it found: a
    send on a nil channel blocks forever, a send on the channel blocks until [Run]
    receives in its [select].  The sweep is the program [DeleteExpired], run one
    action at a time. *)

From stdpp Require Import gmap strings.
From S2P Require Import Prelude Interleave LruInterface SimpleLru Arc GoValues InMemory InMemoryProps.
Local Open Scope Z_scope.

(** Where [Run] is. *)
Inductive runner :=
  | RMake            (** about to execute [j.stop = make(chan bool)] *)
  | RTick            (** about to execute [tick := time.Tick(j.Interval)] *)
  | RSelect          (** blocked in, or about to enter, [select] *)
  | RSweep (p : prog memE unit)  (** executing [c.DeleteExpired()] *)
  | RReturned.

(** Where the finalizer is. *)
Inductive stopper :=
  | SNotCalled
  | SNilSend         (** sending on the nil channel *)
  | SSend            (** sending on the channel [Run] made *)
  | SReturned.

Record jstate := mkJ {
  stop_made : bool;  (** [j.stop] is not nil *)
  at_run : runner;
  at_stop : stopper;
  ticked : bool;     (** a tick waits in the channel of [time.Tick], capacity 1 *)
  heap : world mem }.

Section steps.
Context (clock : nat -> Z) (l : nat).
(** What the other goroutines may do to the shared state. *)
Context (others : world mem -> world mem -> Prop).

(** [runJanitor]: the goroutine is created, nothing of it has run. *)
Definition runJanitor (w : world mem) : jstate := mkJ false RMake SNotCalled false w.

Inductive jstep : jstate -> jstate -> Prop :=
  | j_make s t w : jstep (mkJ false RMake s t w) (mkJ true RTick s t w)
  | j_tick b s t w : jstep (mkJ b RTick s t w) (mkJ b RSelect s t w)
  | j_timer b r s t w : r <> RMake -> r <> RTick -> jstep (mkJ b r s t w) (mkJ b r s true w)
  | j_select_tick b s w : jstep (mkJ b RSelect s true w) (mkJ b (RSweep (DeleteExpired l)) s false w)
  | j_sweep b s t p w p' w' : thread_step clock p w p' w' ->
      jstep (mkJ b (RSweep p) s t w) (mkJ b (RSweep p') s t w')
  | j_swept b s t w : jstep (mkJ b (RSweep (Ret tt)) s t w) (mkJ b RSelect s t w)
  | j_select_stop b t w : jstep (mkJ b RSelect SSend t w) (mkJ b RReturned SReturned t w)
  | j_finalize b r t w :
      jstep (mkJ b r SNotCalled t w) (mkJ b r (if b then SSend else SNilSend) t w)
  | j_others b r s t w w' : others w w' -> jstep (mkJ b r s t w) (mkJ b r s t w').

Definition jreach := rtc jstep.

(** ** Invariant *)
Definition j_inv (s : jstate) : Prop :=
  (stop_made s = true <-> at_run s <> RMake) /\
  (at_stop s = SSend -> stop_made s = true) /\
  (at_run s = RReturned <-> at_stop s = SReturned).

Lemma j_inv_init w : j_inv (runJanitor w).
Proof. unfold j_inv. simpl. naive_solver. Qed.

Lemma j_inv_step s s' : jstep s s' -> j_inv s -> j_inv s'.
Proof. unfold j_inv. destruct 1; simpl; try destruct b; naive_solver. Qed.

Lemma j_inv_reach w s : jreach (runJanitor w) s -> j_inv s.
Proof.
  intros Hr. pose proof (j_inv_init w) as Hi. induction Hr; eauto using j_inv_step.
Qed.

(** A finalizer stuck on the nil channel stays there, and [Run] then never returns. *)
Lemma j_stuck s s' : jreach s s' -> at_stop s = SNilSend -> j_inv s ->
  at_stop s' = SNilSend /\ at_run s' <> RReturned.
Proof.
  induction 1 as [s|s s1 s' Hs _ IH]; intros Hst Hi.
  - split; [done|]. destruct Hi as (_ & _ & Hi). rewrite Hi. congruence.
  - apply IH; [|by eapply j_inv_step]. destruct Hs; simpl in *; congruence.
Qed.

(** A program alone runs to its end inside the sweep. *)
Lemma j_run b s t p w : exists p', jreach (mkJ b (RSweep p) s t w) (mkJ b (RSweep p') s t (run clock p w).2) /\
  p' = finished (run clock p w).1.
Proof.
  revert w. induction p as [[]|msg|k IH|ll k IH|X e k IH]; intros w; simpl.
  - eexists. split; [apply rtc_refl|done].
  - eexists. split; [apply rtc_refl|done].
  - destruct (IH (clock (w_tick w)) (tick w)) as (p' & Hr & Hp). exists p'. split; [|done].
    eapply rtc_l; [|exact Hr]. apply j_sweep. constructor.
  - destruct (IH (add_log w ll)) as (p' & Hr & Hp). exists p'. split; [|done].
    eapply rtc_l; [|exact Hr]. apply j_sweep. constructor.
  - destruct (handle e (w_state w)) as [x s1] eqn:He.
    destruct (IH x (set_state w s1)) as (p' & Hr & Hp). exists p'. split; [|done].
    eapply rtc_l; [|exact Hr]. apply j_sweep. by constructor.
Qed.
End steps.

Section claims.
Context (clock : nat -> Z) (others : world mem -> world mem -> Prop) (c : InMemoryStore).

(** C27. A tick sweeps: with a tick pending in [select], the janitor can always run
    a whole [DeleteExpired] and come back to [select]; no entry is left then that
    was expired at the start, so the next tick finds the loop ready. *)
Theorem janitor_tick_sweeps b s w m : monotone clock -> holds c w m ->
  exists w' m', jreach clock (lru c) others (mkJ b RSelect s true w) (mkJ b RSelect s false w') /\
    holds c w' m' /\ m' ⊆ m /\
    forall k e, m' !! k = Some e -> live (clock (w_tick w)) e = true.
Proof.
  intros Hclock Hw.
  destruct (run_DeleteExpired clock Hclock c w m Hw) as (w' & m' & Hr & Hw' & Hs & _ & Hl & _).
  destruct (j_run clock (lru c) others b s false (DeleteExpired (lru c)) w) as (p' & Hrun & Hp).
  rewrite Hr in Hrun, Hp. exists w', m'. split; [|done].
  eapply rtc_l; [apply j_select_tick|]. eapply rtc_r; [exact Hrun|]. rewrite Hp. apply j_swept.
Qed.

(** C28. Stopping works once the loop has started: if the finalizer runs after
    [Run] has made its channel and the loop is in [select], both can return; and
    once [Run] has returned it never sweeps again. *)
Theorem janitor_stop_after_start w s :
  jreach clock (lru c) others (runJanitor w) s -> at_stop s = SNotCalled -> at_run s = RSelect ->
  (exists s', jreach clock (lru c) others s s' /\ at_run s' = RReturned /\ at_stop s' = SReturned) /\
  (forall s1 s2, jreach clock (lru c) others s s1 -> at_run s1 = RReturned ->
     jreach clock (lru c) others s1 s2 -> at_run s2 = RReturned).
Proof.
  intros Hr Hs Ha. pose proof (j_inv_reach clock (lru c) others w s Hr) as (Hm & _).
  destruct s as [b r st t w1]; simpl in *; subst. split.
  - assert (b = true) as -> by (apply Hm; discriminate).
    exists (mkJ true RReturned SReturned t w1). split; [|done].
    eapply rtc_l; [apply j_finalize|]. eapply rtc_l; [apply j_select_stop|]. apply rtc_refl.
  - intros s1 s2 _ H1 H12. induction H12 as [s1|s1 s2 s3 Hstep _ IH]; [done|].
    apply IH. destruct Hstep; simpl in *; congruence.
Qed.

(** C29. The finalizer can block forever: [runJanitor] returns before the goroutine
    has made the channel; if the finalizer runs first it sends on a nil channel,
    and from then on neither it nor the janitor ever returns. *)
Theorem janitor_stop_before_start_blocks w :
  exists s, jreach clock (lru c) others (runJanitor w) s /\ at_stop s = SNilSend /\
    forall s', jreach clock (lru c) others s s' -> at_stop s' = SNilSend /\ at_run s' <> RReturned.
Proof.
  eexists. split; [apply rtc_once, j_finalize|]. split; [done|]. intros s' Hr.
  apply (j_stuck clock (lru c) others _ _ Hr); [done|]. unfold j_inv. simpl. naive_solver.
Qed.
End claims.

(** ** Instances *)
Section witnesses.
Definition nobody (w w' : world mem) : Prop := False.

Lemma janitor_tick_sweeps_witness :
  exists w' m', jreach clk 0 nobody (mkJ true RSelect SNotCalled true w_old) (mkJ true RSelect SNotCalled false w') /\
    holds c2 w' m' /\ m' !! "k" = None.
Proof.
  destruct w_old_stored as (m & Hm & _).
  destruct (janitor_tick_sweeps clk nobody c2 true SNotCalled w_old m clk_monotone Hm) as (w' & m' & Hr & Hw & Hs & Hl).
  exists w', m'. split; [exact Hr|]. split; [exact Hw|].
  destruct (m' !! "k") as [e|] eqn:Hk; [|reflexivity]. exfalso.
  destruct w_old_stored as (m0 & Hm0 & Hk0). destruct Hm as (a & Ha & _ & Hc). destruct Hm0 as (a0 & Ha0 & _ & Hc0).
  assert (a0 = a) as -> by congruence.
  pose proof (lookup_weaken _ _ _ _ Hk Hs) as Hmk. pose proof (Hc "k") as E1. pose proof (Hc0 "k") as E2.
  rewrite Hmk in E1. rewrite Hk0 in E2. rewrite E1 in E2. destruct e as [d ta ea]. unfold of_entry in E2. simpl in E2.
  injection E2 as -> -> ->. specialize (Hl "k" _ Hk). vm_compute in Hl. discriminate Hl.
Defined.

Lemma janitor_stop_after_start_witness :
  exists s', jreach clk 0 nobody (mkJ true RSelect SNotCalled false w_n) s' /\ at_run s' = RReturned /\ at_stop s' = SReturned.
Proof.
  apply (janitor_stop_after_start clk nobody c2 w_n (mkJ true RSelect SNotCalled false w_n)); [|reflexivity..].
  eapply rtc_l; [apply j_make|]. eapply rtc_l; [apply j_tick|]. apply rtc_refl.
Defined.
End witnesses.
