(* ===== verification/Pkcs.v ===== *)
(** * pkcs.go: PKCS padding

    [PKCS5] and [PKCS7] are the same struct.  A run-time panic is [Crash], an error
    value is [inl]. *)

From stdpp Require Import list strings.
From Stdlib Require Import Strings.Byte.
From S2P Require Import Prelude GoValues Bytes.
Local Open Scope Z_scope.

Definition index_panic : string := "runtime error: index out of range".

(** [Unpadding]: the last byte says how many bytes to drop. *)
Definition Unpadding (src : list byte) (blockSize : Z) : outcome (error + list byte) :=
  let srcLen := Z.of_nat (length src) in
  match last src with
  | None => Crash index_panic
  | Some b =>
      let paddingLen := byte_to_Z b in
      if (srcLen <=? paddingLen) || (blockSize <? paddingLen) then Done (inl ErrPaddingSize)
      else Done (inr (take (Z.to_nat (srcLen - paddingLen)) src))
  end.

(** [Padding]; [bytes.Repeat] panics on a negative count, [%] on zero. *)
Definition Padding (src : list byte) (blockSize : Z) : outcome (list byte) :=
  let srcLen := Z.of_nat (length src) in
  if blockSize =? 0 then Crash "runtime error: integer divide by zero"
  else
    let padLen := int64 (blockSize - Z.rem srcLen blockSize) in
    if padLen <? 0 then Crash "bytes: negative Repeat count"
    else Done (src ++ repeat (byte_of_Z padLen) (Z.to_nat padLen)).

Section padding.
Implicit Types (src : list byte) (blockSize : Z).

Lemma Padding_eq src blockSize : 0 < blockSize < 256 ->
  exists n, Padding src blockSize = Done (src ++ repeat (byte_of_Z n) (Z.to_nat n)) /\
    n = blockSize - Z.of_nat (length src) mod blockSize /\ 1 <= n <= blockSize.
Proof.
  intros Hb. unfold Padding. destruct (Z.eqb_spec blockSize 0); [lia|].
  rewrite Z.rem_mod_nonneg by lia.
  pose proof (Z.mod_pos_bound (Z.of_nat (length src)) blockSize ltac:(lia)).
  rewrite int64_id by (unfold in_int64; lia).
  eexists. split; [|split; [reflexivity|lia]]. destruct (Z.ltb_spec (blockSize - Z.of_nat (length src) mod blockSize) 0); [lia|done].
Qed.

Lemma last_repeat_app src (b : byte) n : (0 < n)%nat -> last (src ++ repeat b n) = Some b.
Proof.
  intros Hn. destruct n as [|n]; [lia|]. cbn [repeat]. rewrite repeat_cons, app_assoc. apply last_snoc.
Qed.

(** What [Unpadding] makes of a padded message. *)
Lemma Unpadding_padded src n blockSize : 1 <= n <= blockSize -> n < 256 ->
  Unpadding (src ++ repeat (byte_of_Z n) (Z.to_nat n)) blockSize =
    Done (match src with [] => inl ErrPaddingSize | _ => inr src end).
Proof.
  intros Hn Hn'. unfold Unpadding. rewrite last_repeat_app by lia. rewrite byte_to_of_Z by lia.
  rewrite length_app, repeat_length.
  destruct (Z.leb_spec (Z.of_nat (length src + Z.to_nat n)) n); destruct src as [|b src]; simpl length in *; try lia.
  - done.
  - cbn [orb]. destruct (Z.ltb_spec blockSize n); [lia|]. do 2 f_equal.
    replace (Z.to_nat (Z.of_nat (S (length src) + Z.to_nat n) - n)) with (length (b :: src)) by (simpl; lia).
    apply take_app_length.
Qed.

(** C18. Padding round trip: for every block size from 1 to 255 and every message,
    [Padding] yields whole blocks and at least one byte of padding, and [Unpadding]
    gives the message back; except that the padded empty message is refused with
    [ErrPaddingSize]. *)
Theorem pkcs_roundtrip src blockSize : 0 < blockSize < 256 ->
  exists padded, Padding src blockSize = Done padded /\
    Z.of_nat (length padded) mod blockSize = 0 /\
    (length src < length padded)%nat /\ src `prefix_of` padded /\
    Unpadding padded blockSize = Done (match src with [] => inl ErrPaddingSize | _ => inr src end).
Proof.
  intros Hb. destruct (Padding_eq src blockSize Hb) as (n & Hp & Hn & Hr).
  eexists. split; [exact Hp|]. rewrite length_app, repeat_length. split; [|split; [lia|split]].
  - replace (Z.of_nat (length src + Z.to_nat n))
      with (0 + (1 + Z.of_nat (length src) / blockSize) * blockSize).
    + rewrite Z.mod_add by lia. done.
    + pose proof (Z.div_mod (Z.of_nat (length src)) blockSize ltac:(lia)). lia.
  - by apply prefix_app_r.
  - apply Unpadding_padded; lia.
Qed.

(** [Unpadding] on arbitrary input: it panics exactly on the empty message;
    otherwise it either refuses, or returns a non-empty prefix of its input that is
    shorter by at most the block size and by at most 255. *)
Theorem unpadding_total src blockSize :
  match Unpadding src blockSize with
  | Crash _ => src = []
  | Done (inl e) => e = ErrPaddingSize /\ src <> []
  | Done (inr out) => out <> [] /\ exists dropped, src = out ++ dropped /\
      Z.of_nat (length dropped) <= blockSize /\ (length dropped < 256)%nat
  end.
Proof.
  unfold Unpadding. destruct (last src) as [b|] eqn:Hl; [|by apply last_None in Hl].
  pose proof (byte_to_Z_range b) as Hb.
  destruct (Z.leb_spec (Z.of_nat (length src)) (byte_to_Z b)) as [H1|H1]; cbn [orb].
  { split; [done|]. intros ->. done. }
  destruct (Z.ltb_spec blockSize (byte_to_Z b)) as [H2|H2]; [by split; [|intros ->]|].
  set (n := Z.to_nat (Z.of_nat (length src) - byte_to_Z b)). split.
  - intros Hn%(f_equal length). rewrite length_take in Hn. simpl in Hn. lia.
  - exists (drop n src). rewrite take_drop, length_drop. split; [done|]. lia.
Qed.
End padding.

(** ** Instances *)
Lemma pkcs_roundtrip_witness :
  exists padded, Padding [x61; x62] 16 = Done padded /\ length padded = 16%nat /\
    Unpadding padded 16 = Done (inr [x61; x62]).
Proof.
  destruct (pkcs_roundtrip [x61; x62] 16 ltac:(lia)) as (p & Hp & _ & _ & _ & Hu).
  exists p. split; [exact Hp|]. split; [|exact Hu]. revert Hp. vm_compute. by intros [= <-].
Defined.
