(* ===== verification/Aes.v ===== *)
(** * AES-128 (crypto/aes)

    The block cipher behind [aes.NewCipher] for the 16-byte keys the code uses, as
    FIPS-197 defines it: executable, with the inverse cipher and the proof that it
    undoes the cipher.  A block is a list of 16 bytes, column by column. *)

From stdpp Require Import list strings.
From Stdlib Require Import Strings.Byte Btauto.
From S2P Require Import Prelude GoValues Bytes.

(** ** Arithmetic in GF(2^8) *)

(** Multiplication by [x] modulo x^8 + x^4 + x^3 + x + 1. *)
Definition xtime (a : byte) : byte :=
  let '(a0, (a1, (a2, (a3, (a4, (a5, (a6, a7))))))) := Byte.to_bits a in
  Byte.of_bits (a7, (xorb a0 a7, (a1, (xorb a2 a7, (xorb a3 a7, (a4, (a5, a6))))))).

Definition mul2 (a : byte) : byte := xtime a.
Definition mul3 (a : byte) : byte := bxor (xtime a) a.
Definition mul9 (a : byte) : byte := bxor (xtime (xtime (xtime a))) a.
Definition mul11 (a : byte) : byte := bxor (xtime (xtime (xtime a))) (bxor (xtime a) a).
Definition mul13 (a : byte) : byte := bxor (xtime (xtime (xtime a))) (bxor (xtime (xtime a)) a).
Definition mul14 (a : byte) : byte := bxor (xtime (xtime (xtime a))) (bxor (xtime (xtime a)) (xtime a)).

(** ** The S-box and its inverse *)
Definition sbox_table : list byte :=
  [ x63; x7c; x77; x7b; xf2; x6b; x6f; xc5; x30; x01; x67; x2b; xfe; xd7; xab; x76;
    xca; x82; xc9; x7d; xfa; x59; x47; xf0; xad; xd4; xa2; xaf; x9c; xa4; x72; xc0;
    xb7; xfd; x93; x26; x36; x3f; xf7; xcc; x34; xa5; xe5; xf1; x71; xd8; x31; x15;
    x04; xc7; x23; xc3; x18; x96; x05; x9a; x07; x12; x80; xe2; xeb; x27; xb2; x75;
    x09; x83; x2c; x1a; x1b; x6e; x5a; xa0; x52; x3b; xd6; xb3; x29; xe3; x2f; x84;
    x53; xd1; x00; xed; x20; xfc; xb1; x5b; x6a; xcb; xbe; x39; x4a; x4c; x58; xcf;
    xd0; xef; xaa; xfb; x43; x4d; x33; x85; x45; xf9; x02; x7f; x50; x3c; x9f; xa8;
    x51; xa3; x40; x8f; x92; x9d; x38; xf5; xbc; xb6; xda; x21; x10; xff; xf3; xd2;
    xcd; x0c; x13; xec; x5f; x97; x44; x17; xc4; xa7; x7e; x3d; x64; x5d; x19; x73;
    x60; x81; x4f; xdc; x22; x2a; x90; x88; x46; xee; xb8; x14; xde; x5e; x0b; xdb;
    xe0; x32; x3a; x0a; x49; x06; x24; x5c; xc2; xd3; xac; x62; x91; x95; xe4; x79;
    xe7; xc8; x37; x6d; x8d; xd5; x4e; xa9; x6c; x56; xf4; xea; x65; x7a; xae; x08;
    xba; x78; x25; x2e; x1c; xa6; xb4; xc6; xe8; xdd; x74; x1f; x4b; xbd; x8b; x8a;
    x70; x3e; xb5; x66; x48; x03; xf6; x0e; x61; x35; x57; xb9; x86; xc1; x1d; x9e;
    xe1; xf8; x98; x11; x69; xd9; x8e; x94; x9b; x1e; x87; xe9; xce; x55; x28; xdf;
    x8c; xa1; x89; x0d; xbf; xe6; x42; x68; x41; x99; x2d; x0f; xb0; x54; xbb; x16 ].

Definition inv_sbox_table : list byte :=
  [ x52; x09; x6a; xd5; x30; x36; xa5; x38; xbf; x40; xa3; x9e; x81; xf3; xd7; xfb;
    x7c; xe3; x39; x82; x9b; x2f; xff; x87; x34; x8e; x43; x44; xc4; xde; xe9; xcb;
    x54; x7b; x94; x32; xa6; xc2; x23; x3d; xee; x4c; x95; x0b; x42; xfa; xc3; x4e;
    x08; x2e; xa1; x66; x28; xd9; x24; xb2; x76; x5b; xa2; x49; x6d; x8b; xd1; x25;
    x72; xf8; xf6; x64; x86; x68; x98; x16; xd4; xa4; x5c; xcc; x5d; x65; xb6; x92;
    x6c; x70; x48; x50; xfd; xed; xb9; xda; x5e; x15; x46; x57; xa7; x8d; x9d; x84;
    x90; xd8; xab; x00; x8c; xbc; xd3; x0a; xf7; xe4; x58; x05; xb8; xb3; x45; x06;
    xd0; x2c; x1e; x8f; xca; x3f; x0f; x02; xc1; xaf; xbd; x03; x01; x13; x8a; x6b;
    x3a; x91; x11; x41; x4f; x67; xdc; xea; x97; xf2; xcf; xce; xf0; xb4; xe6; x73;
    x96; xac; x74; x22; xe7; xad; x35; x85; xe2; xf9; x37; xe8; x1c; x75; xdf; x6e;
    x47; xf1; x1a; x71; x1d; x29; xc5; x89; x6f; xb7; x62; x0e; xaa; x18; xbe; x1b;
    xfc; x56; x3e; x4b; xc6; xd2; x79; x20; x9a; xdb; xc0; xfe; x78; xcd; x5a; xf4;
    x1f; xdd; xa8; x33; x88; x07; xc7; x31; xb1; x12; x10; x59; x27; x80; xec; x5f;
    x60; x51; x7f; xa9; x19; xb5; x4a; x0d; x2d; xe5; x7a; x9f; x93; xc9; x9c; xef;
    xa0; xe0; x3b; x4d; xae; x2a; xf5; xb0; xc8; xeb; xbb; x3c; x83; x53; x99; x61;
    x17; x2b; x04; x7e; xba; x77; xd6; x26; xe1; x69; x14; x63; x55; x21; x0c; x7d ].

Definition sbox (b : byte) : byte := nth (N.to_nat (Byte.to_N b)) sbox_table x00.
Definition inv_sbox (b : byte) : byte := nth (N.to_nat (Byte.to_N b)) inv_sbox_table x00.

(** ** The steps of a round *)
Definition SubBytes (s : list byte) : list byte := map sbox s.
Definition InvSubBytes (s : list byte) : list byte := map inv_sbox s.

Definition ShiftRows (s : list byte) : list byte :=
  match s with
  | [s0; s1; s2; s3; s4; s5; s6; s7; s8; s9; sa; sb; sc; sd; se; sf] =>
    [s0; s5; sa; sf; s4; s9; se; s3; s8; sd; s2; s7; sc; s1; s6; sb]
  | _ => s
  end.

Definition InvShiftRows (s : list byte) : list byte :=
  match s with
  | [s0; s1; s2; s3; s4; s5; s6; s7; s8; s9; sa; sb; sc; sd; se; sf] =>
    [s0; sd; sa; s7; s4; s1; se; sb; s8; s5; s2; sf; sc; s9; s6; s3]
  | _ => s
  end.

(** The sum of four bytes. *)
Definition xor4 (a b c d : byte) : byte := bxor a (bxor b (bxor c d)).

Fixpoint MixColumns (s : list byte) : list byte :=
  match s with
  | a :: b :: c :: d :: s =>
      xor4 (mul2 a) (mul3 b) c d :: xor4 a (mul2 b) (mul3 c) d ::
      xor4 a b (mul2 c) (mul3 d) :: xor4 (mul3 a) b c (mul2 d) :: MixColumns s
  | _ => s
  end.

Fixpoint InvMixColumns (s : list byte) : list byte :=
  match s with
  | a :: b :: c :: d :: s =>
      xor4 (mul14 a) (mul11 b) (mul13 c) (mul9 d) :: xor4 (mul9 a) (mul14 b) (mul11 c) (mul13 d) ::
      xor4 (mul13 a) (mul9 b) (mul14 c) (mul11 d) :: xor4 (mul11 a) (mul13 b) (mul9 c) (mul14 d) ::
      InvMixColumns s
  | _ => s
  end.

Definition AddRoundKey (k s : list byte) : list byte := xor_bytes s k.

(** ** Key schedule

    The next round key: four words, the first one mixed with the rotated and
    substituted last word and the round constant. *)
Definition next_key (rcon : byte) (k : list byte) : list byte :=
  match k with
  | [s0; s1; s2; s3; s4; s5; s6; s7; s8; s9; sa; sb; sc; sd; se; sf] =>
    let g := [bxor (sbox sd) rcon; sbox se; sbox sf; sbox sc] in
    let w0 := xor_bytes [s0; s1; s2; s3] g in
    let w1 := xor_bytes [s4; s5; s6; s7] w0 in
    let w2 := xor_bytes [s8; s9; sa; sb] w1 in
    let w3 := xor_bytes [sc; sd; se; sf] w2 in
    w0 ++ w1 ++ w2 ++ w3
  | _ => k
  end.

Definition rcons : list byte := [x01; x02; x04; x08; x10; x20; x40; x80; x1b; x36].

Fixpoint expand (rs : list byte) (k : list byte) : list (list byte) :=
  match rs with [] => [k] | r :: rs => k :: expand rs (next_key r k) end.

Definition expandKey (key : list byte) : list (list byte) := expand rcons key.

(** ** The cipher and its inverse, over the list of round keys *)
Definition round (k s : list byte) : list byte := AddRoundKey k (MixColumns (ShiftRows (SubBytes s))).
Definition last_round (k s : list byte) : list byte := AddRoundKey k (ShiftRows (SubBytes s)).
Definition inv_round (k s : list byte) : list byte :=
  InvSubBytes (InvShiftRows (InvMixColumns (AddRoundKey k s))).
Definition inv_last_round (k s : list byte) : list byte := InvSubBytes (InvShiftRows (AddRoundKey k s)).

Fixpoint rounds (ks : list (list byte)) (s : list byte) : list byte :=
  match ks with
  | [] => s
  | [k] => last_round k s
  | k :: ks => rounds ks (round k s)
  end.

Fixpoint inv_rounds (ks : list (list byte)) (s : list byte) : list byte :=
  match ks with
  | [] => s
  | [k] => inv_last_round k s
  | k :: ks => inv_round k (inv_rounds ks s)
  end.

Definition aes_encrypt (key block : list byte) : list byte :=
  match expandKey key with [] => block | k0 :: ks => rounds ks (AddRoundKey k0 block) end.

Definition aes_decrypt (key block : list byte) : list byte :=
  match expandKey key with [] => block | k0 :: ks => AddRoundKey k0 (inv_rounds ks block) end.

(** The example of FIPS-197, appendix B and C.1. *)
Example fips197_encrypt :
  aes_encrypt [x00; x01; x02; x03; x04; x05; x06; x07; x08; x09; x0a; x0b; x0c; x0d; x0e; x0f]
              [x00; x11; x22; x33; x44; x55; x66; x77; x88; x99; xaa; xbb; xcc; xdd; xee; xff] =
  [x69; xc4; xe0; xd8; x6a; x7b; x04; x30; xd8; xcd; xb7; x80; x70; xb4; xc5; x5a].
Proof. vm_compute. reflexivity. Qed.

(** ** Decryption undoes encryption *)

(** A linear identity over GF(2): compare the bits. *)
Ltac gf2_linear x :=
  unfold xor4, mul14, mul11, mul13, mul9, mul2, mul3, xtime, bxor;
  transitivity (Byte.of_bits (Byte.to_bits x)); [|apply Byte.of_bits_to_bits];
  repeat match goal with
  | |- context [Byte.to_bits ?a] => is_var a; destruct (Byte.to_bits a) as (?&?&?&?&?&?&?&?)
  end;
  repeat (rewrite Byte.to_bits_of_bits; cbv beta iota);
  f_equal; repeat (apply f_equal2; [btauto|]); btauto.

Section inverse.
Implicit Types (a b c d : byte) (s k : list byte).

Lemma inv_sbox_sbox a : inv_sbox (sbox a) = a.
Proof. destruct a; reflexivity. Qed.

Lemma InvSubBytes_SubBytes s : InvSubBytes (SubBytes s) = s.
Proof. unfold InvSubBytes, SubBytes. rewrite map_map. induction s; simpl; [done|]. by rewrite inv_sbox_sbox, IHs. Qed.

Lemma InvMix_row0 a b c d :
  xor4 (mul14 (xor4 (mul2 a) (mul3 b) c d)) (mul11 (xor4 a (mul2 b) (mul3 c) d))
    (mul13 (xor4 a b (mul2 c) (mul3 d))) (mul9 (xor4 (mul3 a) b c (mul2 d))) = a.
Proof. gf2_linear a. Qed.

Lemma InvMix_row1 a b c d :
  xor4 (mul9 (xor4 (mul2 a) (mul3 b) c d)) (mul14 (xor4 a (mul2 b) (mul3 c) d))
    (mul11 (xor4 a b (mul2 c) (mul3 d))) (mul13 (xor4 (mul3 a) b c (mul2 d))) = b.
Proof. gf2_linear b. Qed.

Lemma InvMix_row2 a b c d :
  xor4 (mul13 (xor4 (mul2 a) (mul3 b) c d)) (mul9 (xor4 a (mul2 b) (mul3 c) d))
    (mul14 (xor4 a b (mul2 c) (mul3 d))) (mul11 (xor4 (mul3 a) b c (mul2 d))) = c.
Proof. gf2_linear c. Qed.

Lemma InvMix_row3 a b c d :
  xor4 (mul11 (xor4 (mul2 a) (mul3 b) c d)) (mul13 (xor4 a (mul2 b) (mul3 c) d))
    (mul9 (xor4 a b (mul2 c) (mul3 d))) (mul14 (xor4 (mul3 a) b c (mul2 d))) = d.
Proof. gf2_linear d. Qed.

Lemma length16 s : length s = 16%nat -> exists b0 b1 b2 b3 b4 b5 b6 b7 b8 b9 b10 b11 b12 b13 b14 b15,
  s = [b0; b1; b2; b3; b4; b5; b6; b7; b8; b9; b10; b11; b12; b13; b14; b15].
Proof. intros Hs. do 16 (destruct s as [|? s]; [done|]). destruct s; [|done]. by repeat eexists. Qed.

(** Case analysis on the 16 bytes of a block. *)
Ltac block16 s Hs := destruct (length16 s Hs) as (?&?&?&?&?&?&?&?&?&?&?&?&?&?&?&?&->).

Lemma InvMixColumns_MixColumns s : length s = 16%nat -> InvMixColumns (MixColumns s) = s.
Proof.
  intros Hs. block16 s Hs. cbn [MixColumns InvMixColumns].
  by rewrite !InvMix_row0, !InvMix_row1, !InvMix_row2, !InvMix_row3.
Qed.

Lemma InvShiftRows_ShiftRows s : length s = 16%nat -> InvShiftRows (ShiftRows s) = s.
Proof. intros Hs. by block16 s Hs. Qed.

Lemma SubBytes_length s : length (SubBytes s) = length s.
Proof. apply length_map. Qed.

Lemma ShiftRows_length s : length s = 16%nat -> length (ShiftRows s) = 16%nat.
Proof. intros Hs. by block16 s Hs. Qed.

Lemma MixColumns_length s : length s = 16%nat -> length (MixColumns s) = 16%nat.
Proof. intros Hs. by block16 s Hs. Qed.

Lemma AddRoundKey_length k s : length k = length s -> length (AddRoundKey k s) = length s.
Proof. intros Hk. by apply xor_bytes_length. Qed.

Lemma AddRoundKey_twice k s : length k = length s -> AddRoundKey k (AddRoundKey k s) = s.
Proof. intros Hk. by apply xor_bytes_cancel. Qed.

Lemma next_key_length r k : length k = 16%nat -> length (next_key r k) = 16%nat.
Proof. intros Hk. by block16 k Hk. Qed.

Lemma expand_lengths rs k : length k = 16%nat -> Forall (fun k => length k = 16%nat) (expand rs k).
Proof.
  revert k. induction rs as [|r rs IH]; intros k Hk; simpl; [by repeat constructor|].
  constructor; [done|]. by apply IH, next_key_length.
Qed.

Lemma round_length k s : length k = 16%nat -> length s = 16%nat -> length (round k s) = 16%nat.
Proof.
  intros Hk Hs. unfold round.
  assert (length (MixColumns (ShiftRows (SubBytes s))) = 16%nat) as Hm
    by (by apply MixColumns_length, ShiftRows_length; rewrite SubBytes_length).
  rewrite AddRoundKey_length; congruence.
Qed.

Lemma last_round_length k s : length k = 16%nat -> length s = 16%nat -> length (last_round k s) = 16%nat.
Proof.
  intros Hk Hs. unfold last_round.
  assert (length (ShiftRows (SubBytes s)) = 16%nat) as Hm by (by apply ShiftRows_length; rewrite SubBytes_length).
  rewrite AddRoundKey_length; congruence.
Qed.

Lemma inv_round_round k s : length k = 16%nat -> length s = 16%nat -> inv_round k (round k s) = s.
Proof.
  intros Hk Hs. unfold inv_round, round.
  assert (length (ShiftRows (SubBytes s)) = 16%nat) as Hsh by (by apply ShiftRows_length; rewrite SubBytes_length).
  rewrite AddRoundKey_twice by (by rewrite MixColumns_length).
  rewrite InvMixColumns_MixColumns, InvShiftRows_ShiftRows by (by rewrite ?SubBytes_length).
  apply InvSubBytes_SubBytes.
Qed.

Lemma inv_last_round_last_round k s : length k = 16%nat -> length s = 16%nat ->
  inv_last_round k (last_round k s) = s.
Proof.
  intros Hk Hs. unfold inv_last_round, last_round.
  assert (length (ShiftRows (SubBytes s)) = 16%nat) as Hsh by (by apply ShiftRows_length; rewrite SubBytes_length).
  rewrite AddRoundKey_twice, InvShiftRows_ShiftRows by (by rewrite ?SubBytes_length, ?Hsh).
  apply InvSubBytes_SubBytes.
Qed.

Lemma rounds_inverse ks s : Forall (fun k => length k = 16%nat) ks -> length s = 16%nat ->
  length (rounds ks s) = 16%nat /\ inv_rounds ks (rounds ks s) = s.
Proof.
  intros Hks. revert s. induction Hks as [|k ks Hk Hks IH]; intros s Hs; [done|].
  destruct ks as [|k' ks].
  - cbn [rounds inv_rounds]. split; [by apply last_round_length|by apply inv_last_round_last_round].
  - change (rounds (k :: k' :: ks) s) with (rounds (k' :: ks) (round k s)).
    change (inv_rounds (k :: k' :: ks) ?x) with (inv_round k (inv_rounds (k' :: ks) x)).
    destruct (IH (round k s)) as [Hl He]; [by apply round_length|].
    split; [done|]. rewrite He. by apply inv_round_round.
Qed.

Lemma aes_inverse key block : length key = 16%nat -> length block = 16%nat ->
  length (aes_encrypt key block) = 16%nat /\ aes_decrypt key (aes_encrypt key block) = block.
Proof.
  intros Hk Hb. unfold aes_encrypt, aes_decrypt, expandKey.
  pose proof (expand_lengths rcons key Hk) as Hks. destruct (expand rcons key) as [|k0 ks]; [done|].
  apply Forall_cons in Hks as [Hk0 Hks].
  destruct (rounds_inverse ks (AddRoundKey k0 block) Hks) as [Hl He]; [rewrite AddRoundKey_length; congruence|].
  split; [done|]. rewrite He. apply AddRoundKey_twice. congruence.
Qed.
End inverse.
