(* ===== verification/Crypto.v ===== *)
(** * generic.go: the symmetric encryption of entries

    [crypto/cipher]'s CBC mode over a block cipher (the interface [BlockCipher]),
    AES-128 as its instance, and the functions [keyAndIV], [encryptByteArray] and
    [decryptByteArray]. *)

From stdpp Require Import list strings.
From Stdlib Require Import Strings.Byte.
From S2P Require Import Prelude GoValues Bytes Aes.
Local Open Scope Z_scope.

(** ** [cipher.Block] with blocks of 16 bytes *)
Class BlockCipher (C : Type) := {
  bc_ok : C -> Prop;
  bc_Encrypt : C -> list byte -> list byte;
  bc_Decrypt : C -> list byte -> list byte;
  bc_inverse c b : bc_ok c -> length b = 16%nat ->
    length (bc_Encrypt c b) = 16%nat /\ bc_Decrypt c (bc_Encrypt c b) = b }.

(** ** [cipher.NewCBCEncrypter], [cipher.NewCBCDecrypter] and [CryptBlocks] *)
Section cbc.
Context {C : Type} `{BlockCipher C}.
Implicit Types (c : C) (iv data p : list byte).

Fixpoint cbc_encrypt (n : nat) c iv data : list byte :=
  match n with
  | O => []
  | S n => let block := bc_Encrypt c (xor_bytes (take 16 data) iv) in
           block ++ cbc_encrypt n c block (drop 16 data)
  end.

Fixpoint cbc_decrypt (n : nat) c iv data : list byte :=
  match n with
  | O => []
  | S n => xor_bytes (bc_Decrypt c (take 16 data)) iv ++ cbc_decrypt n c (take 16 data) (drop 16 data)
  end.

(** The two panics: an IV of the wrong length, an input that is not whole blocks. *)
Definition crypt_blocks (f : nat -> C -> list byte -> list byte -> list byte) c iv data
    : outcome (list byte) :=
  if negb (Nat.eqb (length iv) 16) then Crash "cipher: IV length must equal block size"
  else if negb (Nat.eqb (length data mod 16) 0) then Crash "crypto/cipher: input not full blocks"
  else Done (f (length data / 16)%nat c iv data).

Lemma cbc_inverse n c iv data : bc_ok c -> length iv = 16%nat -> length data = (16 * n)%nat ->
  length (cbc_encrypt n c iv data) = length data /\
  cbc_decrypt n c iv (cbc_encrypt n c iv data) = data.
Proof.
  intros Hc. revert iv data. induction n as [|n IH]; intros iv data Hiv Hd.
  - destruct data; [done|simpl in Hd; lia].
  - cbn [cbc_encrypt cbc_decrypt].
    assert (length (take 16 data) = 16%nat) as Ht by (rewrite length_take; lia).
    destruct (bc_inverse c (xor_bytes (take 16 data) iv) Hc) as [Hl Hinv].
    { rewrite xor_bytes_length; congruence. }
    set (block := bc_Encrypt c (xor_bytes (take 16 data) iv)) in *.
    destruct (IH block (drop 16 data) Hl) as [Hlen Hrest]; [rewrite length_drop; lia|].
    rewrite take_app_length' , drop_app_length' by done. rewrite Hinv, Hrest. split.
    + rewrite length_app, Hl, Hlen, length_drop. lia.
    + rewrite xor_bytes_cancel by congruence. apply take_drop.
Qed.

(** Blocks do not depend on what follows them. *)
Lemma cbc_app n m c iv p data : length p = (16 * n)%nat ->
  exists iv', cbc_encrypt (n + m) c iv (p ++ data) = cbc_encrypt n c iv p ++ cbc_encrypt m c iv' data.
Proof.
  revert iv p. induction n as [|n IH]; intros iv p Hp.
  - exists iv. by destruct p; [|simpl in Hp; lia].
  - cbn [Nat.add cbc_encrypt]. rewrite take_app_le, drop_app_le by lia.
    set (block := bc_Encrypt c _). destruct (IH block (drop 16 p)) as [iv' ->]; [rewrite length_drop; lia|].
    exists iv'. apply app_assoc.
Qed.

Lemma crypt_blocks_whole f c iv data n : length iv = 16%nat -> length data = (16 * n)%nat ->
  crypt_blocks f c iv data = Done (f n c iv data).
Proof.
  intros Hiv Hd. unfold crypt_blocks. rewrite Hiv, Hd, Nat.mul_comm, Nat.Div0.mod_mul, Nat.div_mul by done. done.
Qed.
End cbc.

(** ** [aes.NewCipher]

    The code only ever passes keys of 16 bytes (AES-128). *)
Record aesCipher := mkAes { aes_key : list byte }.

#[global] Instance aes_BlockCipher : BlockCipher aesCipher := {|
  bc_ok c := length (aes_key c) = 16%nat;
  bc_Encrypt c := aes_encrypt (aes_key c);
  bc_Decrypt c := aes_decrypt (aes_key c);
  bc_inverse c b Hc Hb := aes_inverse (aes_key c) b Hc Hb |}.

Definition NewCipher (key : list byte) : error + aesCipher :=
  if Nat.eqb (length key) 16 then inr (mkAes key) else inl (ErrMsg "crypto/aes: invalid key size").

(** ** [keyAndIV]

    [key] and [IV] are slices of the same array [tmp]; the loop reverses [IV] in
    place. *)
Record slice := mkSlice { s_off : nat; s_len : nat }.
Definition slice_read (a : list byte) (s : slice) : list byte := take (s_len s) (drop (s_off s) a).

(** [s[i], s[j] = s[j], s[i]] on the array behind [s]. *)
Definition slice_swap (s : slice) (i j : nat) (a : list byte) : list byte :=
  match a !! (s_off s + i)%nat, a !! (s_off s + j)%nat with
  | Some x, Some y => <[(s_off s + j)%nat := x]> (<[(s_off s + i)%nat := y]> a)
  | _, _ => a
  end.

Definition keyAndIV (secret : list byte) : error + (list byte * list byte) :=
  if Z.of_nat (length secret) <? 16 then
    inl (ErrMsg "cache.keyAndIV: secret is too short - must be a min len of 16")
  else
    let tmp := secret in
    let key := mkSlice 0 16 in
    let IV := mkSlice 0 16 in
    let tmp := foldl (fun tmp i => slice_swap IV i (s_len IV - 1 - i) tmp) tmp
      (reverse (seq 0 (s_len IV / 2))) in
    inr (slice_read tmp key, slice_read tmp IV).

Definition encryptByteArray (data secret : list byte) : outcome (error + list byte) :=
  match keyAndIV secret with
  | inl err => Done (inl err)
  | inr (key, IV) =>
      match NewCipher key with
      | inl err => Done (inl err)
      | inr block =>
          match crypt_blocks cbc_encrypt block IV data with
          | Crash msg => Crash msg
          | Done ciphertext => Done (inr ciphertext)
          end
      end
  end.

Definition decryptByteArray (data secret : list byte) : outcome (error + list byte) :=
  match keyAndIV secret with
  | inl err => Done (inl err)
  | inr (key, IV) =>
      match NewCipher key with
      | inl err => Done (inl err)
      | inr block =>
          match crypt_blocks cbc_decrypt block IV data with
          | Crash msg => Crash msg
          | Done ciphertext => Done (inr ciphertext)
          end
      end
  end.

Section byte_arrays.
Implicit Types (secret data p : list byte).

Lemma keyAndIV_short secret : (length secret < 16)%nat ->
  keyAndIV secret = inl (ErrMsg "cache.keyAndIV: secret is too short - must be a min len of 16").
Proof. intros Hs. unfold keyAndIV. by destruct (Z.ltb_spec (Z.of_nat (length secret)) 16); [|lia]. Qed.

Lemma keyAndIV_long secret : (16 <= length secret)%nat ->
  keyAndIV secret = inr (reverse (take 16 secret), reverse (take 16 secret)).
Proof.
  intros Hs. unfold keyAndIV. destruct (Z.ltb_spec (Z.of_nat (length secret)) 16); [lia|].
  rewrite <- (take_drop 16 secret) at 1 2.
  assert (length (take 16 secret) = 16%nat) as Ht by (rewrite length_take; lia).
  destruct (length16 _ Ht) as (?&?&?&?&?&?&?&?&?&?&?&?&?&?&?&?&->). reflexivity.
Qed.

Definition secret_key secret : list byte := reverse (take 16 secret).

Lemma secret_key_length secret : (16 <= length secret)%nat -> length (secret_key secret) = 16%nat.
Proof. intros Hs. unfold secret_key. rewrite length_reverse, length_take. lia. Qed.

Lemma encryptByteArray_whole data secret n : (16 <= length secret)%nat -> length data = (16 * n)%nat ->
  encryptByteArray data secret =
    Done (inr (cbc_encrypt n (mkAes (secret_key secret)) (secret_key secret) data)).
Proof.
  intros Hs Hd. unfold encryptByteArray. rewrite keyAndIV_long by done. unfold NewCipher.
  fold (secret_key secret). rewrite secret_key_length by done. cbn [Nat.eqb].
  by rewrite (crypt_blocks_whole _ _ _ _ n) by (by try apply secret_key_length).
Qed.

Lemma decryptByteArray_whole data secret n : (16 <= length secret)%nat -> length data = (16 * n)%nat ->
  decryptByteArray data secret =
    Done (inr (cbc_decrypt n (mkAes (secret_key secret)) (secret_key secret) data)).
Proof.
  intros Hs Hd. unfold decryptByteArray. rewrite keyAndIV_long by done. unfold NewCipher.
  fold (secret_key secret). rewrite secret_key_length by done. cbn [Nat.eqb].
  by rewrite (crypt_blocks_whole _ _ _ _ n) by (by try apply secret_key_length).
Qed.

Lemma byte_array_inverse data secret n : (16 <= length secret)%nat -> length data = (16 * n)%nat ->
  exists ct, encryptByteArray data secret = Done (inr ct) /\ length ct = length data /\
    decryptByteArray ct secret = Done (inr data).
Proof.
  intros Hs Hd. rewrite (encryptByteArray_whole data secret n) by done.
  destruct (cbc_inverse n (mkAes (secret_key secret)) (secret_key secret) data) as [Hl Hinv];
    [by apply secret_key_length|by apply secret_key_length|done|].
  eexists. split; [reflexivity|]. split; [done|].
  rewrite (decryptByteArray_whole _ secret n) by congruence. by rewrite Hinv.
Qed.

(** C19. AES-128-CBC round trip: with a secret of at least 16 bytes and an input of
    whole blocks, encryption succeeds, keeps the length, and decryption gives the
    input back. *)
Theorem encrypt_decrypt_roundtrip data secret n :
  (16 <= length secret)%nat -> length data = (16 * n)%nat ->
  exists ct, encryptByteArray data secret = Done (inr ct) /\ length ct = length data /\
    decryptByteArray ct secret = Done (inr data).
Proof. apply byte_array_inverse. Qed.

(** Failure of encryption and decryption: a secret shorter than 16 bytes is an
    error whatever the data; with a long enough secret the only failure is the
    panic of [CryptBlocks] on an input that is not whole blocks. *)
Theorem crypt_failures data secret :
  if bool_decide (length secret < 16)%nat then
    exists err, encryptByteArray data secret = Done (inl err) /\ decryptByteArray data secret = Done (inl err)
  else if bool_decide (length data mod 16 = 0)%nat then
    (exists ct, encryptByteArray data secret = Done (inr ct)) /\
    (exists pt, decryptByteArray data secret = Done (inr pt))
  else
    encryptByteArray data secret = Crash "crypto/cipher: input not full blocks" /\
    decryptByteArray data secret = Crash "crypto/cipher: input not full blocks".
Proof.
  case_bool_decide as Hs.
  - unfold encryptByteArray, decryptByteArray. rewrite keyAndIV_short by done. eauto.
  - case_bool_decide as Hd.
    + assert (length data = 16 * (length data / 16))%nat as Hn.
      { pose proof (Nat.div_mod_eq (length data) 16). lia. }
      rewrite (encryptByteArray_whole data secret _ ltac:(lia) Hn).
      rewrite (decryptByteArray_whole data secret _ ltac:(lia) Hn). eauto.
    + unfold encryptByteArray, decryptByteArray. rewrite keyAndIV_long by lia. fold (secret_key secret).
      unfold NewCipher. rewrite secret_key_length by lia. cbn [Nat.eqb].
      unfold crypt_blocks. rewrite secret_key_length by lia. cbn [Nat.eqb negb].
      by destruct (Nat.eqb_spec (length data mod 16) 0).
Qed.

(** C36. Key and IV are one array: [keyAndIV] returns the first 16 bytes of the
    secret reversed, twice, so the IV is the AES key itself and never varies; two
    inputs that begin with the same blocks have ciphertexts that do. *)
Theorem key_is_iv secret p d1 d2 n m1 m2 :
  (16 <= length secret)%nat -> length p = (16 * n)%nat ->
  length d1 = (16 * m1)%nat -> length d2 = (16 * m2)%nat ->
  keyAndIV secret = inr (reverse (take 16 secret), reverse (take 16 secret)) /\
  exists cp c1 c2, length cp = length p /\
    encryptByteArray (p ++ d1) secret = Done (inr (cp ++ c1)) /\
    encryptByteArray (p ++ d2) secret = Done (inr (cp ++ c2)).
Proof.
  intros Hs Hp H1 H2. split; [by apply keyAndIV_long|].
  rewrite (encryptByteArray_whole (p ++ d1) secret (n + m1)), (encryptByteArray_whole (p ++ d2) secret (n + m2))
    by (rewrite ?length_app; lia).
  destruct (cbc_app n m1 (mkAes (secret_key secret)) (secret_key secret) p d1 Hp) as [iv1 ->].
  destruct (cbc_app n m2 (mkAes (secret_key secret)) (secret_key secret) p d2 Hp) as [iv2 ->].
  do 3 eexists. split; [|by split].
  by apply cbc_inverse; [apply secret_key_length|apply secret_key_length|].
Qed.
End byte_arrays.

(** ** Instances *)
Section witnesses.
Definition secret17 : list byte := bytes_of_string "a secret of seven".

Lemma encrypt_decrypt_roundtrip_witness :
  exists ct, encryptByteArray (repeat x61 32) secret17 = Done (inr ct) /\ length ct = 32%nat /\
    decryptByteArray ct secret17 = Done (inr (repeat x61 32)).
Proof. apply (encrypt_decrypt_roundtrip (repeat x61 32) secret17 2); [vm_compute; lia|reflexivity]. Defined.

Lemma key_is_iv_witness :
  keyAndIV secret17 = inr (bytes_of_string "eves fo terces a", bytes_of_string "eves fo terces a") /\
  exists cp c1 c2, length cp = 16%nat /\
    encryptByteArray (repeat x61 16 ++ repeat x62 16) secret17 = Done (inr (cp ++ c1)) /\
    encryptByteArray (repeat x61 16 ++ repeat x63 32) secret17 = Done (inr (cp ++ c2)).
Proof.
  apply (key_is_iv secret17 (repeat x61 16) (repeat x62 16) (repeat x63 32) 1 1 2);
    [vm_compute; lia|reflexivity..].
Defined.
End witnesses.
