(* ===== verification/Sha256.v ===== *)
(** * SHA-256, HMAC and the signature of a key (crypto/sha256, crypto/hmac)

    Executable definitions after FIPS 180-4 and RFC 2104; 32-bit words are [Z]s
    with wrap-around addition. *)

From stdpp Require Import list strings.
From Stdlib Require Import Strings.Byte.
From S2P Require Import Prelude GoValues Bytes.
Local Open Scope Z_scope.

(** ** Words *)
Definition uint32 (z : Z) : Z := wrapU 32 z.
Definition add32 (a b : Z) : Z := uint32 (a + b).
Definition shr (n x : Z) : Z := Z.shiftr x n.
Definition rotr (n x : Z) : Z := Z.lor (Z.shiftr x n) (uint32 (Z.shiftl x (32 - n))).
Definition not32 (x : Z) : Z := 2 ^ 32 - 1 - x.

Definition Ch (x y z : Z) : Z := Z.lxor (Z.land x y) (Z.land (not32 x) z).
Definition Maj (x y z : Z) : Z := Z.lxor (Z.land x y) (Z.lxor (Z.land x z) (Z.land y z)).
Definition Sigma0 (x : Z) : Z := Z.lxor (rotr 2 x) (Z.lxor (rotr 13 x) (rotr 22 x)).
Definition Sigma1 (x : Z) : Z := Z.lxor (rotr 6 x) (Z.lxor (rotr 11 x) (rotr 25 x)).
Definition sigma0 (x : Z) : Z := Z.lxor (rotr 7 x) (Z.lxor (rotr 18 x) (shr 3 x)).
Definition sigma1 (x : Z) : Z := Z.lxor (rotr 17 x) (Z.lxor (rotr 19 x) (shr 10 x)).

Definition K256 : list Z :=
  [ 1116352408; 1899447441; 3049323471; 3921009573; 961987163; 1508970993; 2453635748; 2870763221;
    3624381080; 310598401; 607225278; 1426881987; 1925078388; 2162078206; 2614888103; 3248222580;
    3835390401; 4022224774; 264347078; 604807628; 770255983; 1249150122; 1555081692; 1996064986;
    2554220882; 2821834349; 2952996808; 3210313671; 3336571891; 3584528711; 113926993; 338241895;
    666307205; 773529912; 1294757372; 1396182291; 1695183700; 1986661051; 2177026350; 2456956037;
    2730485921; 2820302411; 3259730800; 3345764771; 3516065817; 3600352804; 4094571909; 275423344;
    430227734; 506948616; 659060556; 883997877; 958139571; 1322822218; 1537002063; 1747873779;
    1955562222; 2024104815; 2227730452; 2361852424; 2428436474; 2756734187; 3204031479; 3329325298 ].

(** The eight chaining words. *)
Record digest := mkDigest { h0 : Z; h1 : Z; h2 : Z; h3 : Z; h4 : Z; h5 : Z; h6 : Z; h7 : Z }.

Definition initial : digest :=
  mkDigest 1779033703 3144134277 1013904242 2773480762 1359893119 2600822924 528734635 1541459225.

(** ** Blocks *)
Definition word_of (b : list byte) : Z := foldl (fun acc x => 256 * acc + byte_to_Z x) 0 b.
Definition bytes_of_word (x : Z) : list byte :=
  map (fun n => byte_of_Z (Z.shiftr x n)) [24; 16; 8; 0].

Fixpoint words (n : nat) (b : list byte) : list Z :=
  match n with O => [] | S n => word_of (take 4 b) :: words n (drop 4 b) end.

(** The message schedule, kept in reverse: 48 more words after the first 16. *)
Fixpoint schedule (n : nat) (rev_w : list Z) : list Z :=
  match n with
  | O => reverse rev_w
  | S n =>
      let w i := nth i rev_w 0 in
      schedule n (add32 (add32 (sigma1 (w 1%nat)) (w 6%nat)) (add32 (sigma0 (w 14%nat)) (w 15%nat)) :: rev_w)
  end.

Definition step (d : digest) (kw : Z * Z) : digest :=
  let t1 := add32 (add32 (h7 d) (Sigma1 (h4 d)))
              (add32 (Ch (h4 d) (h5 d) (h6 d)) (add32 (fst kw) (snd kw))) in
  let t2 := add32 (Sigma0 (h0 d)) (Maj (h0 d) (h1 d) (h2 d)) in
  mkDigest (add32 t1 t2) (h0 d) (h1 d) (h2 d) (add32 (h3 d) t1) (h4 d) (h5 d) (h6 d).

Definition compress (d : digest) (block : list byte) : digest :=
  let w := schedule 48 (reverse (words 16 block)) in
  let r := foldl step d (zip K256 w) in
  mkDigest (add32 (h0 d) (h0 r)) (add32 (h1 d) (h1 r)) (add32 (h2 d) (h2 r)) (add32 (h3 d) (h3 r))
    (add32 (h4 d) (h4 r)) (add32 (h5 d) (h5 r)) (add32 (h6 d) (h6 r)) (add32 (h7 d) (h7 r)).

Fixpoint blocks (n : nat) (d : digest) (m : list byte) : digest :=
  match n with O => d | S n => blocks n (compress d (take 64 m)) (drop 64 m) end.

(** One bit, zeros, and the length in bits as 64 bits. *)
Definition sha_pad (m : list byte) : list byte :=
  let n := Z.of_nat (length m) in
  m ++ x80 :: repeat x00 (Z.to_nat ((55 - n) mod 64)) ++
  map (fun s => byte_of_Z (Z.shiftr (8 * n) s)) [56; 48; 40; 32; 24; 16; 8; 0].

Definition digest_bytes (d : digest) : list byte :=
  concat (map bytes_of_word [h0 d; h1 d; h2 d; h3 d; h4 d; h5 d; h6 d; h7 d]).

Definition sha256 (m : list byte) : list byte :=
  let p := sha_pad m in digest_bytes (blocks (length p / 64) initial p).

(** ** HMAC: [hmac.New(sha256.New, key)], one [Write], [Sum(nil)] *)
Definition hmac_key (key : list byte) : list byte :=
  let key := if (64 <? Z.of_nat (length key)) then sha256 key else key in
  key ++ repeat x00 (64 - length key).

Definition hmac_sha256 (key m : list byte) : list byte :=
  let k := hmac_key key in
  sha256 (map (bxor x5c) k ++ sha256 (map (bxor x36) k ++ m)).

(** ** generic.go: [entrySignature] *)
Definition entrySignature (entry secret : list byte) : string := EncodeToString (hmac_sha256 secret entry).

(** Test vectors: FIPS 180-4 ("abc" and the empty message), RFC 4231 case 2. *)
Example sha256_abc : EncodeToString (sha256 (bytes_of_string "abc")) =
  "ba7816bf8f01cfea414140de5dae2223b00361a396177a9cb410ff61f20015ad".
Proof. vm_compute. reflexivity. Qed.

Example sha256_empty : EncodeToString (sha256 []) =
  "e3b0c44298fc1c149afbf4c8996fb92427ae41e4649b934ca495991b7852b855".
Proof. vm_compute. reflexivity. Qed.

Example hmac_rfc4231_2 :
  entrySignature (bytes_of_string "what do ya want for nothing?") (bytes_of_string "Jefe") =
  "5bdcc146bf60754e6a042426089575c75a003f089d2739839dec58b964ec3843".
Proof. vm_compute. reflexivity. Qed.

Lemma sha256_length m : length (sha256 m) = 32%nat.
Proof. reflexivity. Qed.

Lemma sha_pad_length m : Z.of_nat (length (sha_pad m)) mod 64 = 0.
Proof.
  unfold sha_pad. rewrite length_app. cbn [length]. rewrite length_app, repeat_length, length_map. cbn [length].
  set (n := Z.of_nat (length m)). pose proof (Z.mod_pos_bound (55 - n) 64 ltac:(lia)).
  pose proof (Z.div_mod (55 - n) 64 ltac:(lia)).
  replace (Z.of_nat _) with (0 + (1 - (55 - n) / 64) * 64) by lia. by rewrite Z.mod_add.
Qed.

Lemma entrySignature_length entry secret : String.length (entrySignature entry secret) = 64%nat.
Proof. unfold entrySignature. by rewrite EncodeToString_length. Qed.
