(* ===== verification/Sha1.v ===== *)
(** * SHA-1 and URL escaping (crypto/sha1, net/url)

    What [urlEscape] uses: the hash of long URLs, and [url.QueryEscape]. *)

From stdpp Require Import list strings.
From Stdlib Require Import Strings.Byte Strings.Ascii.
From S2P Require Import Prelude GoValues Bytes Sha256.
Local Open Scope Z_scope.

(** ** SHA-1 (FIPS 180-4) *)
Definition rotl (n x : Z) : Z := Z.lor (uint32 (Z.shiftl x n)) (Z.shiftr x (32 - n)).

Record digest1 := mkDigest1 { g0 : Z; g1 : Z; g2 : Z; g3 : Z; g4 : Z }.
Definition initial1 : digest1 := mkDigest1 1732584193 4023233417 2562383102 271733878 3285377520.

Fixpoint schedule1 (n : nat) (rev_w : list Z) : list Z :=
  match n with
  | O => reverse rev_w
  | S n =>
      let w i := nth i rev_w 0 in
      schedule1 n (rotl 1 (Z.lxor (Z.lxor (w 2%nat) (w 7%nat)) (Z.lxor (w 13%nat) (w 15%nat))) :: rev_w)
  end.

(** The function and the constant of the four groups of twenty rounds. *)
Definition round_fk (i : nat) (b c d : Z) : Z * Z :=
  if Nat.ltb i 20 then (Ch b c d, 1518500249)
  else if Nat.ltb i 40 then (Z.lxor b (Z.lxor c d), 1859775393)
  else if Nat.ltb i 60 then (Maj b c d, 2400959708)
  else (Z.lxor b (Z.lxor c d), 3395469782).

Definition step1 (d : digest1) (iw : nat * Z) : digest1 :=
  let '(f, k) := round_fk (fst iw) (g1 d) (g2 d) (g3 d) in
  mkDigest1 (add32 (add32 (rotl 5 (g0 d)) f) (add32 (g4 d) (add32 k (snd iw))))
    (g0 d) (rotl 30 (g1 d)) (g2 d) (g3 d).

Definition compress1 (d : digest1) (block : list byte) : digest1 :=
  let w := schedule1 64 (reverse (words 16 block)) in
  let r := foldl step1 d (zip (seq 0 80) w) in
  mkDigest1 (add32 (g0 d) (g0 r)) (add32 (g1 d) (g1 r)) (add32 (g2 d) (g2 r)) (add32 (g3 d) (g3 r))
    (add32 (g4 d) (g4 r)).

Fixpoint blocks1 (n : nat) (d : digest1) (m : list byte) : digest1 :=
  match n with O => d | S n => blocks1 n (compress1 d (take 64 m)) (drop 64 m) end.

Definition sha1 (m : list byte) : list byte :=
  let p := sha_pad m in
  let d := blocks1 (length p / 64) initial1 p in
  concat (map bytes_of_word [g0 d; g1 d; g2 d; g3 d; g4 d]).

Example sha1_abc : EncodeToString (sha1 (bytes_of_string "abc")) = "a9993e364706816aba3e25717850c26c9cd0d89d".
Proof. vm_compute. reflexivity. Qed.

Lemma sha1_length m : length (sha1 m) = 20%nat.
Proof. reflexivity. Qed.

(** ** [url.QueryEscape] *)
Definition unreserved (c : ascii) : bool :=
  between "a" "z" c || between "A" "Z" c || between "0" "9" c ||
  Ascii.eqb c "-" || Ascii.eqb c "_" || Ascii.eqb c "." || Ascii.eqb c "~".

Definition upperhex (n : N) : ascii :=
  nth (N.to_nat n) (String.list_ascii_of_string "0123456789ABCDEF") "0"%char.

Definition escape_char (c : ascii) (rest : string) : string :=
  if unreserved c then String c rest
  else if Ascii.eqb c " " then String "+" rest
  else String "%" (String (upperhex (N_of_ascii c / 16)) (String (upperhex (N_of_ascii c mod 16)) rest)).

Fixpoint QueryEscape (s : string) : string :=
  match s with EmptyString => EmptyString | String c s => escape_char c (QueryEscape s) end.

Example escape_uri : QueryEscape "/a b?x=1" = "%2Fa+b%3Fx%3D1".
Proof. reflexivity. Qed.

(** [url.QueryUnescape] on the texts [QueryEscape] produces. *)
Definition unhex (c : ascii) : N := if between "0" "9" c then N_of_ascii c - 48 else N_of_ascii c - 55.

Fixpoint QueryUnescape (s : string) : string :=
  match s with
  | EmptyString => EmptyString
  | String c rest =>
      if Ascii.eqb c "%" then
        match rest with
        | String a (String b rest) => String (ascii_of_N (16 * unhex a + unhex b)) (QueryUnescape rest)
        | _ => EmptyString
        end
      else if Ascii.eqb c "+" then String " " (QueryUnescape rest)
      else String c (QueryUnescape rest)
  end.

Lemma unescape_char c rest : QueryUnescape (escape_char c rest) = String c (QueryUnescape rest).
Proof. destruct c as [[] [] [] [] [] [] [] []]; reflexivity. Qed.

Lemma QueryUnescape_QueryEscape s : QueryUnescape (QueryEscape s) = s.
Proof. induction s as [|c s IH]; [done|]. cbn [QueryEscape]. by rewrite unescape_char, IH. Qed.
