(* ===== verification/Strconv.v ===== *)
(** * Package strconv: [ParseInt] and [ParseUint] in base 10

    With 64 bits, as [utils.Deserialize] and redigo's replies use them; what
    [FormatInt] and [FormatUint] print is read back. *)

From stdpp Require Import list strings pretty.
From Stdlib Require Import Strings.Ascii.
From S2P Require Import Prelude GoValues GoFmt.
Local Open Scope Z_scope.

Inductive parse_error := ErrSyntax | ErrRange.

Definition digit_of (c : ascii) : option Z :=
  let n := Z.of_N (N_of_ascii c) in
  if (48 <=? n) && (n <=? 57) then Some (n - 48) else None.

(** The loop of [ParseUint]: it stops at the first byte that is not a digit or that
    makes the number too large. *)
Fixpoint parse_digits (acc : Z) (s : string) : parse_error + Z :=
  match s with
  | EmptyString => inr acc
  | String c s =>
      match digit_of c with
      | None => inl ErrSyntax
      | Some d =>
          let n := acc * 10 + d in
          if 2 ^ 64 <=? n then inl ErrRange else parse_digits n s
      end
  end.

Definition parse_uint (s : string) : parse_error + Z :=
  match s with EmptyString => inl ErrSyntax | _ => parse_digits 0 s end.

Definition parse_int (s : string) : parse_error + Z :=
  match s with
  | EmptyString => inl ErrSyntax
  | String c rest =>
      let neg := Ascii.eqb c "-" in
      let digits := if neg || Ascii.eqb c "+" then rest else s in
      match parse_uint digits with
      | inl err => inl err
      | inr un =>
          if negb neg && (2 ^ 63 <=? un) then inl ErrRange
          else if neg && (2 ^ 63 <? un) then inl ErrRange
          else inr (if neg then - un else un)
      end
  end.

Section messages.
(** [strconv.Quote] *)
Context (quote : string -> string).

Definition parse_message (fn s : string) (e : parse_error) : error :=
  ErrMsg ("strconv." +:+ fn +:+ ": parsing " +:+ quote s +:+ ": " +:+
    match e with ErrSyntax => "invalid syntax" | ErrRange => "value out of range" end).

Definition ParseInt (s : string) : error + Z :=
  match parse_int s with inl e => inl (parse_message "ParseInt" s e) | inr z => inr z end.
Definition ParseUint (s : string) : error + Z :=
  match parse_uint s with inl e => inl (parse_message "ParseUint" s e) | inr z => inr z end.
End messages.

(** ** What was printed is read back *)
Lemma digit_of_pretty n : (n < 10)%N -> digit_of (pretty_N_char n) = Some (Z.of_N n).
Proof.
  assert (Forall (fun i => digit_of (pretty_N_char (N.of_nat i)) = Some (Z.of_nat i)) (seq 0 10)) as Hall
    by (repeat constructor).
  intros Hn. rewrite Forall_forall in Hall. specialize (Hall (N.to_nat n)).
  rewrite N2Nat.id, N_nat_Z in Hall. apply Hall, elem_of_seq. lia.
Qed.

Lemma digit_range c d : digit_of c = Some d -> 0 <= d <= 9.
Proof. unfold digit_of. destruct (andb _ _) eqn:Hb; [|done]. intros [= <-]. lia. Qed.

Lemma parse_digits_pretty (x : N) s : Z.of_N x < 2 ^ 64 ->
  parse_digits 0 (pretty_N_go x s) = parse_digits (Z.of_N x) s.
Proof.
  revert s. induction x as [x IH] using (well_founded_ind N.lt_wf_0); intros s Hx.
  destruct (decide (0 < x)%N) as [Hpos|]; [|replace x with 0%N by lia; by rewrite pretty_N_go_0].
  rewrite pretty_N_go_step by done.
  pose proof (N.div_lt x 10 Hpos eq_refl) as Hlt.
  rewrite IH by lia. simpl. rewrite digit_of_pretty by (apply N.mod_lt; done).
  pose proof (N.div_mod x 10 ltac:(done)) as Hdm.
  replace (Z.of_N (x `div` 10) * 10 + Z.of_N (x `mod` 10)) with (Z.of_N x) by lia.
  destruct (Z.leb_spec (2 ^ 64) (Z.of_N x)); [lia|done].
Qed.

Lemma parse_uint_pretty (p : positive) : Z.pos p < 2 ^ 64 ->
  exists c s, pretty (N.pos p) = String c s /\ digit_of c <> None /\
    parse_uint (String c s) = inr (Z.pos p).
Proof.
  intros Hp. change (pretty (N.pos p)) with (pretty_N_go (N.pos p) "").
  pose proof (parse_digits_pretty (N.pos p) "" Hp) as Hd.
  destruct (pretty_N_go (N.pos p) "") as [|c s] eqn:Hs; [done|].
  exists c, s. split; [done|]. split; [|exact Hd]. intros Hc. simpl in Hd. by rewrite Hc in Hd.
Qed.

Lemma not_sign c : digit_of c <> None -> Ascii.eqb c "-" = false /\ Ascii.eqb c "+" = false.
Proof. intros Hc. split; [destruct (Ascii.eqb_spec c "-")|destruct (Ascii.eqb_spec c "+")]; by subst. Qed.

Lemma parse_uint_fmt z : in_uint64 z -> parse_uint (fmt_int z) = inr z.
Proof.
  unfold in_uint64. intros Hz. destruct z as [|p|p]; [done| |lia].
  destruct (parse_uint_pretty p) as (c & s & Hs & _ & Hp); [lia|].
  unfold fmt_int. change (pretty (Z.pos p)) with (pretty (N.pos p)). by rewrite Hs.
Qed.

Lemma parse_int_fmt z : in_int64 z -> parse_int (fmt_int z) = inr z.
Proof.
  unfold in_int64. intros Hz. destruct z as [|p|p]; [done|..];
    destruct (parse_uint_pretty p) as (c & s & Hs & Hc & Hp); try lia;
    apply not_sign in Hc as [Hm Hpl].
  - unfold fmt_int. change (pretty (Z.pos p)) with (pretty (N.pos p)). rewrite Hs. unfold parse_int.
    rewrite Hm, Hpl. cbn [orb negb andb]. rewrite Hp.
    destruct (Z.leb_spec (2 ^ 63) (Z.pos p)); [lia|done].
  - unfold fmt_int. change (pretty (Z.neg p)) with (String "-" (pretty (N.pos p))). unfold parse_int.
    cbn [Ascii.eqb Bool.eqb orb negb andb]. rewrite Hs, Hp.
    destruct (Z.ltb_spec (2 ^ 63) (Z.pos p)); [lia|done].
Qed.

Lemma parse_int_fmt_large z : in_uint64 z -> ~ in_int64 z -> parse_int (fmt_int z) = inl ErrRange.
Proof.
  unfold in_uint64, in_int64. intros Hz Hn. destruct z as [|p|p]; [lia| |lia].
  destruct (parse_uint_pretty p) as (c & s & Hs & Hc & Hp); [lia|]. apply not_sign in Hc as [Hm Hpl].
  unfold fmt_int. change (pretty (Z.pos p)) with (pretty (N.pos p)). rewrite Hs. unfold parse_int.
  rewrite Hm, Hpl. cbn [orb negb andb]. rewrite Hp.
  destruct (Z.leb_spec (2 ^ 63) (Z.pos p)); [done|lia].
Qed.

Section round_trips.
Context (quote : string -> string).

Lemma ParseInt_fmt z : in_int64 z -> ParseInt quote (fmt_int z) = inr z.
Proof. intros Hz. unfold ParseInt. by rewrite parse_int_fmt. Qed.

Lemma ParseUint_fmt z : in_uint64 z -> ParseUint quote (fmt_int z) = inr z.
Proof. intros Hz. unfold ParseUint. by rewrite parse_uint_fmt. Qed.

Lemma ParseInt_range s z : ParseInt quote s = inr z -> in_int64 z.
Proof.
  unfold ParseInt, parse_int, in_int64. destruct s as [|c s]; [done|]. cbn zeta.
  set (neg := Ascii.eqb c "-"). destruct (parse_uint _) as [e|un] eqn:Hun; [done|].
  assert (0 <= un) as Hpos.
  { assert (forall t acc, 0 <= acc -> forall v, parse_digits acc t = inr v -> 0 <= v) as Hd.
    { intros t. induction t as [|c' t IH]; intros acc Ha v; simpl; [congruence|].
      destruct (digit_of c') as [d|] eqn:Hc'; [|done].
      destruct (2 ^ 64 <=? acc * 10 + d); [done|]. apply IH.
      pose proof (digit_range _ _ Hc'). lia. }
    unfold parse_uint in Hun. destruct (if neg || _ then _ else _); [done|].
    by apply (Hd _ 0 ltac:(lia) un Hun). }
  destruct neg; cbn [negb andb].
  - destruct (Z.ltb_spec (2 ^ 63) un); [done|]. intros [= <-]. lia.
  - destruct (Z.leb_spec (2 ^ 63) un); [done|]. intros [= <-]. lia.
Qed.
End round_trips.
