(* ===== verification/Generic.v ===== *)
(** * generic.go: [GenericCache], the cache facade

    A [GenericCache] wraps a store (any [persistence.CacheStore]) and adds default
    expiry, keys signed with the shared secret, encryption of entries, logging, and
    a second read-only cache.  Its methods are programs over the effects [E] of the
    stores: [T] is the type of the stores that only offer [CacheStore], [R] that of
    [*persistence.RedisStore], which offers [RedisOps] besides.

    [encoding/gob] and the local time zone are not part of the sources: they are
    the parameters [gob_encode], [gob_decode] and [rfc3339]. *)

From stdpp Require Import gmap strings.
From Stdlib Require Import Strings.Byte.
From S2P Require Import Prelude LruInterface GoValues GoFmt Bytes Pkcs Crypto Sha256 InMemory.
Local Open Scope Z_scope.

(** The methods of [persistence.RedisStore] the facade calls besides [CacheStore]. *)
Class RedisOps (E : Type -> Type) (R : Type) := {
  rs_ExpireAt : R -> string -> Z -> prog E (option error);
  rs_GetExpiresIn : R -> string -> prog E (Z * option error);
  rs_IncrementAtomic : R -> string -> Z -> prog E (Z * option error);
  rs_IncrementCheckSet : R -> string -> Z -> prog E (Z * option error) }.

(** redispool.go: [Type] and [Level] *)
Definition ReadOnly : Z := 0.
Definition Writable : Z := 1.
Definition L1 : Z := 1.
Definition L2 : Z := 2.

Section generic.
Context {E : Type -> Type} {T R : Type} `{CacheStore E T, CacheStore E R, !RedisOps E R}.
Context (gob_encode : goval -> error + list byte) (gob_decode : list byte -> error + goval).
Context (rfc3339 : Z -> string).

(** The dynamic value of the field [Cache]. *)
Inductive cache_iface := CNil | CStore (t : T) | CRedis (r : R) | CForeign (tname : string).

Inductive GenericCache := mkGenericCache {
  Cache : cache_iface;
  ReadCache : option GenericCache;
  sharedSecret : list byte;
  gDefaultExp : Z;
  cType : Z;
  cLevel : Z;
  KeyPrefix : option (list byte);
  Logger : option string;
  EncryptData : bool }.

Definition set_Logger (c : GenericCache) (l : option string) : GenericCache :=
  mkGenericCache (Cache c) (ReadCache c) (sharedSecret c) (gDefaultExp c) (cType c) (cLevel c)
    (KeyPrefix c) l (EncryptData c).
Definition set_ReadCache (c : GenericCache) (r : option GenericCache) : GenericCache :=
  mkGenericCache (Cache c) r (sharedSecret c) (gDefaultExp c) (cType c) (cLevel c)
    (KeyPrefix c) (Logger c) (EncryptData c).

(** ** Constructors *)
Definition NewCacheWithPool (cachePool : cache_iface) (cType cLevel : Z) (sharedSecret : string)
    (expirySeconds : Z) (keyPrefix : option (list byte)) (encryptData : bool) : GenericCache :=
  let storeExp := int64 (expirySeconds * Second) in
  mkGenericCache cachePool None (bytes_of_string sharedSecret) storeExp cType cLevel keyPrefix None encryptData.

Definition NewCacheWithMultiPools (writeCachePool readCachePool : cache_iface) (cLevel : Z)
    (sharedSecret : string) (expirySeconds : Z) (keyPrefix : option (list byte)) (encryptData : bool)
    : GenericCache :=
  let c := NewCacheWithPool writeCachePool Writable cLevel sharedSecret expirySeconds keyPrefix encryptData in
  set_ReadCache c
    (Some (NewCacheWithPool readCachePool ReadOnly cLevel sharedSecret expirySeconds keyPrefix encryptData)).

(** ** Type assertions on the field [Cache] *)
Definition the_store (c : GenericCache) : prog E (T + R) :=
  match Cache c with
  | CStore t => mret (inl t)
  | CRedis r => mret (inr r)
  | CNil => Panic (not_a "persistence.CacheStore")
  | CForeign _ => Panic (not_a "persistence.CacheStore")
  end.

Definition the_redis (c : GenericCache) : prog E R :=
  match Cache c with
  | CRedis r => mret r
  | _ => Panic (not_a "*persistence.RedisStore")
  end.

(** Calls through the interface [CacheStore]. *)
Definition st_Get (s : T + R) : string -> goval -> prog E (option error * goval) :=
  match s with inl t => cs_Get t | inr r => cs_Get r end.
Definition st_Set (s : T + R) : string -> goval -> Z -> prog E (option error) :=
  match s with inl t => cs_Set t | inr r => cs_Set r end.
Definition st_Add (s : T + R) : string -> goval -> Z -> prog E (option error) :=
  match s with inl t => cs_Add t | inr r => cs_Add r end.
Definition st_Replace (s : T + R) : string -> goval -> Z -> prog E (option error) :=
  match s with inl t => cs_Replace t | inr r => cs_Replace r end.
Definition st_Delete (s : T + R) : string -> prog E (option error) :=
  match s with inl t => cs_Delete t | inr r => cs_Delete r end.
Definition st_Increment (s : T + R) : string -> Z -> prog E (Z * option error) :=
  match s with inl t => cs_Increment t | inr r => cs_Increment r end.
Definition st_Decrement (s : T + R) : string -> Z -> prog E (Z * option error) :=
  match s with inl t => cs_Decrement t | inr r => cs_Decrement r end.
Definition st_Flush (s : T + R) : prog E (option error) :=
  match s with inl t => cs_Flush t | inr r => cs_Flush r end.

(** ** Logging *)
Definition logDebug (c : GenericCache) (entry : string) : prog E unit :=
  match Logger c with
  | Some l => log (LogLine (SinkLogger l) LDebug entry)
  | None => mret tt
  end.

Definition logError (c : GenericCache) (entry : string) : prog E unit :=
  match Logger c with
  | Some l => log (LogLine (SinkLogger l) LError entry)
  | None => log (LogLine SinkStderr LError entry)
  end.

(** "L%v/T%v" *)
Definition LT (c : GenericCache) : string := "L" +:+ fmt_int (cLevel c) +:+ "/T" +:+ fmt_int (cType c).

Definition debugEntry (c : GenericCache) (key : string) (e : GenericCacheEntry) : prog E unit :=
  let added := rfc3339 (TimeAdded e) in
  let expAt := rfc3339 (ExpiresAt e) in
  logDebug c ("GenericCache.debugEntry: " +:+ LT c +:+ ", Key == " +:+ key +:+ ", TimeAdded == " +:+ added
    +:+ ", ExpiresAt == " +:+ expAt).

(** ** Keys *)
Definition GetKey (c : GenericCache) (entryData : list byte) : string :=
  match KeyPrefix c with
  | Some prefix => string_of_bytes prefix +:+ "::" +:+ entrySignature entryData (sharedSecret c)
  | None => entrySignature entryData (sharedSecret c)
  end.

(** ** Encryption of an entry's data *)
(** Run a pure computation that may panic. *)
Definition lift {A} (o : outcome A) : prog E A :=
  match o with Done a => mret a | Crash msg => Panic msg end.

Definition encryptEntry (c : GenericCache) (data : list byte) : prog E (error + list byte) :=
  if EncryptData c then
    paddedData ← lift (Padding data 16);
    encrypted ← lift (encryptByteArray paddedData (sharedSecret c));
    match encrypted with
    | inl cryptErr =>
        let err := "GenericCache.encryptEntry: can't encrypt data: " +:+ Error cryptErr in
        _ ← logError c err;
        mret (inl (ErrMsg err))
    | inr encrypted => mret (inr encrypted)
    end
  else mret (inr data).

Definition decryptEntry (c : GenericCache) (data : list byte) : prog E (error + list byte) :=
  if EncryptData c then
    decryptedData ← lift (decryptByteArray data (sharedSecret c));
    match decryptedData with
    | inl cryptErr =>
        let err := "GenericCache.decryptEntry: can't decrypt data: " +:+ Error cryptErr in
        _ ← logError c err;
        mret (inl (ErrMsg err))
    | inr decryptedData =>
        unpaddedData ← lift (Unpadding decryptedData 16);
        match unpaddedData with
        | inl cryptErr =>
            let err := "GenericCache.decryptEntry: can't unpadding error: " +:+ Error cryptErr in
            _ ← logError c err;
            mret (inl (ErrMsg err))
        | inr unpaddedData => mret (inr unpaddedData)
        end
    end
  else mret (inr data).

Definition NewGenericCacheEntry (c : GenericCache) (data : goval) (exp : Z) : prog E GenericCacheEntry :=
  let t := if negb (exp =? 0) then exp else gDefaultExp c in
  nowt ← time_Now;
  let now := Unix nowt in
  let expiresAt := int64 (now + seconds t) in
  mret (mkEntry data now expiresAt).

(** ** The methods *)
(** The guard "if c.Cache == nil" of the method [name]. *)
Definition no_cache (c : GenericCache) (name : string) : string :=
  "GenericCache." +:+ name +:+ ": error - no " +:+ LT c +:+ " cache intialized".

Definition is_nil (i : cache_iface) : bool := match i with CNil => true | _ => false end.

(** [fmt.Sprintf("GenericCache.<name>: L%v/T%v error == %s", ..., err.Error())] *)
Definition error_line (c : GenericCache) (name : string) (err : error) : string :=
  "GenericCache." +:+ name +:+ ": " +:+ LT c +:+ " error == " +:+ Error err.

Definition AddExistingEntry (c : GenericCache) (key : string) (entry : GenericCacheEntry) (expiresAt : Z)
    : prog E (option error) :=
  _ ← logDebug c ("GenericCache.AddExistingEntry: " +:+ LT c +:+ " key == " +:+ key);
  now ← time_Now;
  let expCacheAt := int64 (int64 (expiresAt - Unix now) * Second) in
  s ← the_store c;
  err ← st_Set s key (of_entry entry) expCacheAt;
  match err with
  | Some err => _ ← logError c (error_line c "AddExistingEntry" err); mret (Some err)
  | None => mret None
  end.

Definition g_Add (c : GenericCache) (key : string) (data : goval) (exp : Z) : prog E (option error) :=
  if is_nil (Cache c) then
    let err := no_cache c "Add" in
    _ ← logError c err; mret (Some (ErrMsg err))
  else
    _ ← logDebug c ("GenericCache.Add: " +:+ LT c +:+ " key == " +:+ key);
    let t := if negb (exp =? 0) then exp else gDefaultExp c in
    s ← the_store c;
    err ← st_Add s key data t;
    match err with
    | Some err => _ ← logError c (error_line c "Add" err); mret (Some err)
    | None => mret None
    end.

Definition g_Delete (c : GenericCache) (key : string) : prog E (option error) :=
  if is_nil (Cache c) then
    let err := no_cache c "Delete" in
    _ ← logError c err; mret (Some (ErrMsg err))
  else
    _ ← logDebug c ("GenericCache.Delete: " +:+ LT c +:+ " key == " +:+ key);
    s ← the_store c;
    err ← st_Delete s key;
    match err with
    | Some err =>
        if negb (String.eqb (Error err) (Error ErrCacheMiss)) then
          _ ← logError c (error_line c "Delete" err); mret (Some err)
        else mret (Some ErrCacheMiss)
    | None => mret None
    end.

(** What the branches of [Get] do after the call of the store. *)
Definition get_result (c : GenericCache) (r : option error * goval) : prog E (option error * goval) :=
  match fst r with
  | Some err =>
      if negb (String.eqb (Error err) (Error ErrCacheMiss)) then
        _ ← logError c (error_line c "Get" err); mret (Some err, snd r)
      else mret (Some ErrCacheMiss, snd r)
  | None => mret (None, snd r)
  end.

Definition int_types : list string :=
  ["int"; "int8"; "int16"; "int32"; "int64"; "uint"; "uint8"; "uint16"; "uint32"; "uint64"].
Definition int_ptr_types : list string := map (String.append "*") int_types.

Definition g_Get (c : GenericCache) (key : string) (value : goval) : prog E (option error * goval) :=
  if is_nil (Cache c) then
    let err := no_cache c "Get" in
    _ ← logError c err; mret (Some (ErrMsg err), value)
  else
    let valueType := typeof value in
    _ ← logDebug c ("GenericCache.Get: " +:+ LT c +:+ " key == " +:+ key +:+ " and entry type == " +:+ valueType
          +:+ " and encryption == " +:+ fmt_bool (EncryptData c));
    if String.eqb valueType "*cache.ResponseCache" then
      _ ← assert_some (as_ptr as_response value) (not_a "*cache.ResponseCache");
      s ← the_store c;
      r ← st_Get s key value;
      get_result c r
    else if String.eqb valueType "*GenericCacheEntry" || String.eqb valueType "*cache.GenericCacheEntry" then
      _ ← assert_some (as_ptr as_entry value) (not_a "*cache.GenericCacheEntry");
      s ← the_store c;
      r ← st_Get s key value;
      r ← get_result c r;
      match fst r with
      | Some err => mret r
      | None =>
          if EncryptData c then
            entry ← assert_some (as_ptr as_entry (snd r)) (not_a "*cache.GenericCacheEntry");
            data ← assert_some (as_bytes (Data entry)) (not_a "[]uint8");
            decryptedData ← decryptEntry c data;
            match decryptedData with
            | inl err => _ ← logError c (error_line c "Get" err); mret (Some err, snd r)
            | inr decryptedData =>
                match gob_decode decryptedData with
                | inl err => mret (Some err, snd r)
                | inr data => mret (None, VPtr (of_entry (mkEntry data (TimeAdded entry) (ExpiresAt entry))))
                end
            end
          else mret r
      end
    else if String.eqb valueType "*string" then
      _ ← assert_some (as_ptr as_string value) (not_a "*string");
      s ← the_store c;
      r ← st_Get s key value;
      get_result c r
    else if bool_decide (valueType ∈ int_ptr_types) then
      s ← the_store c;
      r ← st_Get s key value;
      get_result c r
    else if bool_decide (valueType ∈ int_types) then
      s ← the_store c;
      r ← st_Get s key (VIfacePtr value);
      get_result c (fst r, value)
    else if String.eqb valueType "*float64" then
      _ ← assert_some (as_ptr (fun v => match v with VFloat64 b => Some b | _ => None end) value) (not_a "*float64");
      s ← the_store c;
      r ← st_Get s key value;
      get_result c r
    else
      let err := "GenericCache.Get: " +:+ LT c +:+ " error - not supported type - " +:+ valueType in
      _ ← logError c err;
      mret (Some ErrNotSupport, value).

Definition zero_entry : GenericCacheEntry := mkEntry VNil 0 0.

(** [Exists] on a cache without read cache. *)
Definition Exists_here (c : GenericCache) (key : string)
    : prog E (bool * GenericCacheEntry * option error) :=
  if is_nil (Cache c) then
    let err := no_cache c "Add" in
    _ ← logError c err; mret (false, zero_entry, Some (ErrMsg err))
  else
    _ ← logDebug c ("GenericCache.Exists: " +:+ LT c +:+ " looking for key " +:+ key +:+ " and encryption "
          +:+ fmt_bool (EncryptData c));
    r ← g_Get c key (VPtr (of_entry zero_entry));
    entry ← assert_some (as_ptr as_entry (snd r)) (not_a "*cache.GenericCacheEntry");
    match fst r with
    | Some err =>
        _ ← (if cLevel c =? L1 then logDebug c ("GenericCache::Exist: L1 not found - " +:+ Error err)
             else if cLevel c =? L2 then logDebug c ("GenericCache::Exist: L2 not found - " +:+ Error err)
             else mret tt);
        mret (false, entry, Some err)
    | None =>
        _ ← debugEntry c key entry;
        mret (true, entry, None)
    end.

(** [c.Logger = logger; c.Exists(key)].  The cache comes back, because the loggers
    of the read caches are overwritten on the way. *)
Fixpoint Exists_as (logger : option string) (c : GenericCache) (key : string)
    : prog E ((bool * GenericCacheEntry * option error) * GenericCache) :=
  let c' := set_Logger c logger in
  match ReadCache c with
  | Some r =>
      x ← Exists_as logger r key;
      mret (fst x, set_ReadCache c' (Some (snd x)))
  | None =>
      x ← Exists_here c' key;
      mret (x, c')
  end.

Definition Exists (c : GenericCache) (key : string)
    : prog E ((bool * GenericCacheEntry * option error) * GenericCache) := Exists_as (Logger c) c key.

(** The last lines of [Set]. *)
Definition set_store (c : GenericCache) (key : string) (data : goval) (t : Z) : prog E (option error) :=
  s ← the_store c;
  err ← st_Set s key data t;
  match err with
  | Some err => _ ← logError c (error_line c "Set" err); mret (Some err)
  | None => mret None
  end.

Definition g_Set (c : GenericCache) (key : string) (data : goval) (exp : Z) : prog E (option error) :=
  if is_nil (Cache c) then
    let err := no_cache c "Set" in
    _ ← logError c err; mret (Some (ErrMsg err))
  else
    _ ← logDebug c ("GenericCache.Set: " +:+ LT c +:+ " key == " +:+ key);
    let t := if negb (exp =? 0) then exp else gDefaultExp c in
    if EncryptData c then
      let valueType := typeof data in
      _ ← logDebug c ("GenericCache.Get: " +:+ LT c +:+ " key == " +:+ key +:+ " and entry type == " +:+ valueType);
      if String.eqb valueType "GenericCacheEntry" || String.eqb valueType "cache.GenericCacheEntry" then
        entry ← assert_some (as_entry data) (not_a "cache.GenericCacheEntry");
        match gob_encode (Data entry) with
        | inl err => mret (Some err)
        | inr b =>
            encryptedData ← encryptEntry c b;
            match encryptedData with
            | inl err => _ ← logError c (error_line c "Set" err); mret (Some err)
            | inr encryptedData =>
                data ← NewGenericCacheEntry c (VBytes encryptedData) exp;
                set_store c key (of_entry data) t
            end
        end
      else set_store c key data t
    else set_store c key data t.

Definition g_Replace (c : GenericCache) (key : string) (data : goval) (exp : Z) : prog E (option error) :=
  if is_nil (Cache c) then
    let err := no_cache c "Replace" in
    _ ← logError c err; mret (Some (ErrMsg err))
  else
    _ ← logDebug c ("GenericCache.Replace: " +:+ LT c +:+ " key == " +:+ key +:+ " and exp == " +:+ duration_String exp);
    let t := if negb (exp =? 0) then exp else gDefaultExp c in
    _ ← logDebug c ("GenericCache.Replace: " +:+ LT c +:+ " and t == " +:+ duration_String t);
    s ← the_store c;
    err ← st_Replace s key data t;
    match err with
    | Some err => _ ← logError c (error_line c "Replace" err); mret (Some err)
    | None => mret None
    end.

(** The end of the methods that return a number. *)
Definition num_result (c : GenericCache) (name : string) (r : Z * option error) : prog E (Z * option error) :=
  match snd r with
  | Some err => _ ← logError c (error_line c name err); mret (0, Some err)
  | None => mret (fst r, None)
  end.

Definition g_Increment (c : GenericCache) (key : string) (n : Z) : prog E (Z * option error) :=
  if is_nil (Cache c) then
    let err := no_cache c "Increment" in
    _ ← logError c err; mret (0, Some (ErrMsg err))
  else
    _ ← logDebug c ("GenericCache.Increment: " +:+ LT c +:+ " key == " +:+ key);
    s ← the_store c;
    r ← st_Increment s key n;
    num_result c "Increment" r.

Definition g_Decrement (c : GenericCache) (key : string) (n : Z) : prog E (Z * option error) :=
  if is_nil (Cache c) then
    let err := no_cache c "Decrement" in
    _ ← logError c err; mret (0, Some (ErrMsg err))
  else
    _ ← logDebug c ("GenericCache.Decrement: " +:+ LT c +:+ " key == " +:+ key);
    s ← the_store c;
    r ← st_Decrement s key n;
    num_result c "Decrement" r.

Definition g_Flush (c : GenericCache) : prog E (option error) :=
  if is_nil (Cache c) then
    let err := no_cache c "Flush" in
    _ ← logError c err; mret (Some (ErrMsg err))
  else
    _ ← logDebug c ("GenericCache.Flush: flushing all keys for " +:+ LT c +:+ " key");
    s ← the_store c;
    _ ← st_Flush s;
    mret None.

(** ** The methods for Redis only *)
Definition RedisExpireAt (c : GenericCache) (key : string) (epoc : Z) : prog E (option error) :=
  if is_nil (Cache c) then
    let err := no_cache c "RedisExpireAt" in
    _ ← logError c err; mret (Some (ErrMsg err))
  else
    _ ← logDebug c ("GenericCache.RedisExpireAt: " +:+ LT c +:+ " key == " +:+ key);
    s ← the_redis c;
    err ← rs_ExpireAt s key epoc;
    match err with
    | Some err => _ ← logError c (error_line c "RedisExpireAt" err); mret (Some err)
    | None => mret None
    end.

Definition RedisGetExpiresIn (c : GenericCache) (key : string) : prog E (Z * option error) :=
  if is_nil (Cache c) then
    let err := no_cache c "RedisGetExpiresIn" in
    _ ← logError c err; mret (0, Some (ErrMsg err))
  else
    _ ← logDebug c ("GenericCache.RedisExpireAt: " +:+ LT c +:+ " key == " +:+ key);
    s ← the_redis c;
    r ← rs_GetExpiresIn s key;
    num_result c "RedisExpireAt" r.

Definition RedisIncrementAtomic (c : GenericCache) (key : string) (n : Z) : prog E (Z * option error) :=
  if is_nil (Cache c) then
    let err := no_cache c "IncrementAtomic" in
    _ ← logError c err; mret (0, Some (ErrMsg err))
  else
    _ ← logDebug c ("GenericCache.IncrementAtomic: " +:+ LT c +:+ " key == " +:+ key);
    s ← the_redis c;
    r ← rs_IncrementAtomic s key n;
    num_result c "IncrementAtomic" r.

Definition RedisIncrementCheckSet (c : GenericCache) (key : string) (n : Z) : prog E (Z * option error) :=
  if is_nil (Cache c) then
    let err := no_cache c "IncrementCheckSet" in
    _ ← logError c err; mret (0, Some (ErrMsg err))
  else
    _ ← logDebug c ("GenericCache.IncrementCheckSet: " +:+ LT c +:+ " key == " +:+ key);
    s ← the_redis c;
    r ← rs_IncrementCheckSet s key n;
    num_result c "IncrementCheckSet" r.

(** The facade is itself a [persistence.CacheStore]. *)
#[global] Instance GenericCache_CacheStore : CacheStore E GenericCache := {|
  cs_Get := g_Get; cs_Set := g_Set; cs_Add := g_Add; cs_Replace := g_Replace; cs_Delete := g_Delete;
  cs_Increment := g_Increment; cs_Decrement := g_Decrement; cs_Flush := g_Flush |}.
End generic.
Arguments cache_iface T R : clear implicits.
Arguments GenericCache T R : clear implicits.
