(* ===== verification/GenericProps.v ===== *)
(** * What the cache facade guarantees

    Theorems about [GenericCache].  Those that depend on the store are proved
    against the interface [ReadYourWrite], which [InMemoryStore] implements. *)

From stdpp Require Import gmap strings.
From Stdlib Require Import Strings.Byte.
From S2P Require Import Prelude LruInterface SimpleLru Arc GoValues GoFmt Bytes Pkcs Crypto Sha256.
From S2P Require Import InMemory InMemoryProps Generic.
Local Open Scope Z_scope.

(** ** What the facade needs of a store

    [ryw_has t k v s]: the value [v] was stored in [t] under [k], without deadline;
    [ryw_reads t v]: such a value can be read as an entry. *)
Class ReadYourWrite (E : Type -> Type) (T S : Type) `{Handler E S, CacheStore E T} := {
  ryw_ok : T -> S -> Prop;
  ryw_has : T -> string -> goval -> S -> Prop;
  ryw_reads : T -> goval -> Prop;
  ryw_set t k v clock (w : world S) : ryw_ok t (w_state w) -> own_entry v = true ->
    exists w', run clock (cs_Set t k v FOREVER) w = (Done None, w') /\ ryw_has t k v (w_state w');
  ryw_add t k v clock (w : world S) : ryw_ok t (w_state w) -> own_entry v = true ->
    exists err w', run clock (cs_Add t k v FOREVER) w = (Done err, w') /\
      (err = None -> ryw_has t k v (w_state w'));
  ryw_has_ok t k v s : ryw_has t k v s -> ryw_ok t s;
  ryw_get_response t k r r0 clock (w : world S) : ryw_has t k (VResponse r) (w_state w) ->
    exists w', run clock (cs_Get t k (VPtr (VResponse r0))) w = (Done (None, VPtr (VResponse r)), w') /\
      ryw_has t k (VResponse r) (w_state w');
  ryw_reads_entry t e : ryw_reads t (of_entry e);
  ryw_get t k v e0 clock (w : world S) : ryw_has t k v (w_state w) -> ryw_reads t v ->
    exists e w', run clock (cs_Get t k (VPtr (of_entry e0))) w = (Done (None, VPtr (of_entry e)), w') /\
      Data e = payload v /\ ryw_has t k v (w_state w') }.

(** ** What the page cache needs of a store

    Less: responses only.  [pg_has t k r s]: the store has the response [r] under [k],
    without deadline. *)
Class PageStore (E : Type -> Type) (T S : Type) `{Handler E S, CacheStore E T} := {
  pg_ok : T -> S -> Prop;
  pg_has : T -> string -> ResponseCache -> S -> Prop;
  pg_set t k r clock (w : world S) : pg_ok t (w_state w) ->
    exists w', run clock (cs_Set t k (VResponse r) FOREVER) w = (Done None, w') /\ pg_has t k r (w_state w');
  pg_has_ok t k r s : pg_has t k r s -> pg_ok t s;
  pg_get t k r r0 clock (w : world S) : pg_has t k r (w_state w) ->
    exists w', run clock (cs_Get t k (VPtr (VResponse r0))) w = (Done (None, VPtr (VResponse r)), w') /\
      pg_has t k r (w_state w') }.

#[global] Instance ReadYourWrite_PageStore {E T S} `{ReadYourWrite E T S} : PageStore E T S := {|
  pg_ok := ryw_ok; pg_has t k r := ryw_has t k (VResponse r);
  pg_set t k r clock w Hw := ryw_set t k (VResponse r) clock w Hw eq_refl;
  pg_has_ok t k r := ryw_has_ok t k (VResponse r);
  pg_get t k r r0 clock w Hw := ryw_get_response t k r r0 clock w Hw |}.

(** ** [InMemoryStore] implements it *)
Section inmemory_instance.
Implicit Types (c : InMemoryStore) (w : world mem) (k : string).

Definition im_ok c (s : mem) : Prop := exists m, represents s (lru c) m.
Definition im_has c k (v : goval) (s : mem) : Prop :=
  exists m e, represents s (lru c) m /\ m !! k = Some e /\ Data e = payload v /\ ExpiresAt e = 0.

(** A method's own answer, from that of [do_op]. *)
Lemma run_unwrap {A} clock (p : prog memE A) (f : A -> answer) a w w' :
  (forall x y, f x = f y -> x = y) ->
  run clock (x ← p; mret (f x)) w = (Done (f a), w') -> run clock p w = (Done a, w').
Proof.
  intros Hf. rewrite run_bind. destruct (run clock p w) as [[x|msg] w1]; simpl; [|done].
  intros [= Hx ->]. by rewrite (Hf _ _ Hx).
Qed.

Lemma im_set c k v clock w : im_ok c (w_state w) -> own_entry v = true ->
  exists w', run clock (InMemoryStore_Set c k v FOREVER) w = (Done None, w') /\ im_has c k v (w_state w').
Proof.
  intros (m & Hw) Hv. destruct (run_Set_tick clock c k v FOREVER w m Hw Hv) as (w' & Hr & (m' & Hm' & Hk) & _).
  exists w'. split.
  - apply (run_unwrap clock _ AErr); [congruence|done].
  - exists m'. eexists. split; [done|]. split; [exact Hk|]. done.
Qed.

Lemma im_add c k v clock w : im_ok c (w_state w) -> own_entry v = true ->
  exists err w', run clock (InMemoryStore_Add c k v FOREVER) w = (Done err, w') /\
    (err = None -> im_has c k v (w_state w')).
Proof.
  intros (m & Hw) Hv.
  destruct (do_op_refines clock c (OAdd k v FOREVER) w m Hw) as (w' & m' & Hr & Hw' & [_ Hk] & _).
  specialize (Hk k eq_refl). cbn [spec_op] in Hr, Hk. destruct (m !! k) eqn:Hm; [|unfold spec_set in *; rewrite Hv in *].
  - exists (Some ErrNotStored), w'. split; [|done]. apply (run_unwrap clock _ AErr); [congruence|done].
  - exists None, w'. split; [apply (run_unwrap clock _ AErr); [congruence|done]|]. intros _.
    cbn [snd] in Hk. rewrite lookup_insert_eq in Hk. exists m'. eexists. split; [done|]. split; [exact Hk|]. done.
Qed.

Lemma im_get c k v e0 clock w : im_has c k v (w_state w) ->
  exists e w', run clock (InMemoryStore_Get c k (VPtr (of_entry e0))) w = (Done (None, VPtr (of_entry e)), w') /\
    Data e = payload v /\ im_has c k v (w_state w').
Proof.
  intros (m & e & Hw & Hk & Hd & Hx).
  destruct (do_op_refines clock c (OGet k (VPtr (of_entry e0))) w m Hw) as (w' & m' & Hr & Hw' & [_ Hag] & _).
  specialize (Hag k eq_refl). cbn [spec_op] in Hr, Hag. rewrite Hk in Hr, Hag.
  unfold live in Hr, Hag. rewrite Hx, Z.eqb_refl in Hr, Hag. cbn [orb fst snd] in Hr, Hag.
  exists e, w'. split; [|split; [done|]].
  - apply (run_unwrap clock _ (fun r => AVal (fst r) (snd r))); [intros [] [] ?; simpl in *; congruence|].
    etransitivity; [exact Hr|]. done.
  - exists m', e. rewrite Hag. done.
Qed.

Lemma im_get_response c k r r0 clock w : im_has c k (VResponse r) (w_state w) ->
  exists w', run clock (InMemoryStore_Get c k (VPtr (VResponse r0))) w = (Done (None, VPtr (VResponse r)), w') /\
    im_has c k (VResponse r) (w_state w').
Proof.
  intros (m & e & Hw & Hk & Hd & Hx).
  destruct (do_op_refines clock c (OGet k (VPtr (VResponse r0))) w m Hw) as (w' & m' & Hr & Hw' & [_ Hag] & _).
  specialize (Hag k eq_refl). cbn [spec_op] in Hr, Hag. rewrite Hk in Hr, Hag.
  unfold live in Hr, Hag. rewrite Hx, Z.eqb_refl in Hr, Hag. cbn [orb fst snd deliver] in Hr, Hag. rewrite Hd in Hr.
  exists w'. split.
  - apply (run_unwrap clock _ (fun r => AVal (fst r) (snd r))); [intros [] [] ?; simpl in *; congruence|].
    exact Hr.
  - exists m', e. rewrite Hag. done.
Qed.

Lemma im_has_ok c k d s : im_has c k d s -> im_ok c s.
Proof. intros (m & e & Hm & _). by exists m. Qed.

#[global] Instance inmemory_ReadYourWrite : ReadYourWrite memE InMemoryStore mem := {|
  ryw_ok := im_ok; ryw_has := im_has; ryw_reads _ _ := True;
  ryw_set t k v clock w Hw Hv := im_set t k v clock w Hw Hv;
  ryw_add t k d clock w Hw Hd := im_add t k d clock w Hw Hd;
  ryw_has_ok := im_has_ok;
  ryw_get_response t k r r0 clock w Hw := im_get_response t k r r0 clock w Hw;
  ryw_reads_entry _ _ := I;
  ryw_get t k v e0 clock w Hw _ := im_get t k v e0 clock w Hw |}.
End inmemory_instance.

(** Among the strings [Get] dispatches on, each belongs to one branch. *)
Ltac each_type H := unfold int_ptr_types, int_types in H; cbn [map String.append] in H;
  repeat (apply elem_of_cons in H as [H|H]; [|]); [..|by apply not_elem_of_nil in H].

(** ** The facade over any store *)
Section facade.
Context {E : Type -> Type} {T R S : Type} `{Handler E S, CacheStore E T, CacheStore E R, !RedisOps E R}.
Context (gob_encode : goval -> error + list byte) (gob_decode : list byte -> error + goval).
Context (rfc3339 : Z -> string) (clock : nat -> Z).
Implicit Types (c : GenericCache T R) (w : world S) (key : string).

(** [gob] encodes [v] to a non-empty message that decodes to [v]. *)
Definition gob_faithful (v : goval) : Prop :=
  exists b, gob_encode v = inr b /\ b <> [] /\ gob_decode b = inr v.

Lemma run_logDebug {B} c m (f : unit -> prog E B) w :
  exists w', run clock (logDebug c m ≫= f) w = run clock (f tt) w' /\
    w_state w' = w_state w /\ w_tick w' = w_tick w.
Proof. unfold logDebug. destruct (Logger c); [by eexists|by exists w]. Qed.

Lemma run_logError {B} c m (f : unit -> prog E B) w :
  exists w' l, run clock (logError c m ≫= f) w = run clock (f tt) w' /\
    w_state w' = w_state w /\ w_tick w' = w_tick w /\ w_log w' = w_log w ++ [l] /\
    ll_level l = LError /\ ll_msg l = m.
Proof. unfold logError. destruct (Logger c); eexists _, _; split; reflexivity || done. Qed.

Lemma the_store_eq c t : Cache c = CStore t -> the_store (E := E) c = mret (inl t).
Proof. unfold the_store. by intros ->. Qed.

Lemma not_nil c t : Cache c = CStore t -> is_nil (Cache c) = false.
Proof. by intros ->. Qed.

(** *** Encryption of the data *)
Lemma encryptEntry_eq c d : EncryptData c = true -> (16 <= length (sharedSecret c))%nat ->
  exists ct, encryptEntry (E := E) c d = mret (inr ct) /\
    decryptEntry (E := E) c ct =
      match d with
      | [] => _ ← logError c "GenericCache.decryptEntry: can't unpadding error: padding size error";
              mret (inl (ErrMsg "GenericCache.decryptEntry: can't unpadding error: padding size error"))
      | _ => mret (inr d)
      end.
Proof.
  intros He Hs. unfold encryptEntry, decryptEntry. rewrite He.
  destruct (Padding_eq d 16 ltac:(lia)) as (n & -> & Hn & Hr). set (p := d ++ _).
  assert (length p = 16 * Z.to_nat (1 + Z.of_nat (length d) / 16))%nat as Hl.
  { subst p. rewrite length_app, repeat_length.
    pose proof (Z.div_mod (Z.of_nat (length d)) 16 ltac:(lia)).
    pose proof (Z.div_pos (Z.of_nat (length d)) 16 ltac:(lia) ltac:(lia)). lia. }
  destruct (byte_array_inverse p (sharedSecret c) _ Hs Hl) as (ct & Hct & _ & Hdec).
  cbn [lift]. rewrite bind_mret, Hct. cbn [lift]. rewrite bind_mret. exists ct. split; [done|].
  rewrite Hdec. cbn [lift]. rewrite bind_mret. subst p. rewrite Unpadding_padded by lia.
  by destruct d.
Qed.

(** Encryption of an entry's data: with a secret of at least 16 bytes,
    [encryptEntry] succeeds silently on every input, and [decryptEntry] gives the
    input back, except for the empty input, which comes back as an error. *)
Theorem entry_encryption_roundtrip c d w :
  EncryptData c = true -> (16 <= length (sharedSecret c))%nat ->
  exists ct w', run clock (encryptEntry c d) w = (Done (inr ct), w) /\
    run clock (decryptEntry c ct) w =
      (Done (match d with
             | [] => inl (ErrMsg "GenericCache.decryptEntry: can't unpadding error: padding size error")
             | _ => inr d
             end), w') /\
    w_state w' = w_state w /\ (d <> [] -> w' = w).
Proof.
  intros He Hs. destruct (encryptEntry_eq c d He Hs) as (ct & Henc & Hdec).
  exists ct. rewrite Henc, Hdec. destruct d as [|b d].
  - match goal with |- context [logError c ?m ≫= ?f] =>
      destruct (run_logError c m f w) as (w' & l & -> & Hst & _) end.
    by exists w'.
  - by exists w.
Qed.

(** A secret shorter than 16 bytes never encrypts or decrypts anything: both
    answer an error that names the cause, and log it. *)
Theorem entry_encryption_short_secret c d w :
  EncryptData c = true -> (length (sharedSecret c) < 16)%nat ->
  exists msg w' msg' w'', run clock (encryptEntry c d) w = (Done (inl (ErrMsg msg)), w') /\
    run clock (decryptEntry c d) w = (Done (inl (ErrMsg msg')), w'') /\
    msg = "GenericCache.encryptEntry: can't encrypt data: cache.keyAndIV: secret is too short - must be a min len of 16" /\
    msg' = "GenericCache.decryptEntry: can't decrypt data: cache.keyAndIV: secret is too short - must be a min len of 16" /\
    ll_msg <$> last (w_log w') = Some msg /\ ll_msg <$> last (w_log w'') = Some msg'.
Proof.
  intros He Hs. unfold encryptEntry, decryptEntry, encryptByteArray, decryptByteArray. rewrite He, keyAndIV_short by done.
  destruct (Padding_eq d 16 ltac:(lia)) as (n & -> & _). cbn [lift]. rewrite !bind_mret.
  match goal with |- context [run clock (logError c ?m ≫= ?f) w] =>
    destruct (run_logError c m f w) as (w' & l & -> & _ & _ & Hl & _ & Hm) end.
  match goal with |- context [run clock (logError c ?m ≫= ?f) w] =>
    destruct (run_logError c m f w) as (w'' & l' & -> & _ & _ & Hl' & _ & Hm') end.
  eexists _, w', _, w''. split; [reflexivity|]. split; [reflexivity|]. split; [reflexivity|]. split; [reflexivity|].
  rewrite Hl, Hl', !last_snoc. simpl. by rewrite Hm, Hm'.
Qed.

(** *** Set and Get *)
Section with_store.
Context `{!ReadYourWrite E T S}.

Lemma run_set_store c t key v w : Cache c = CStore t -> ryw_ok t (w_state w) -> own_entry v = true ->
  exists w', run clock (set_store c key v FOREVER) w = (Done None, w') /\ ryw_has t key v (w_state w').
Proof.
  intros Hc Hw Hv. unfold set_store. rewrite (the_store_eq c t Hc), bind_mret. cbn [st_Set].
  destruct (ryw_set t key v clock w Hw Hv) as (w' & Hr & Hh).
  rewrite (run_bind_done _ _ _ _ _ _ Hr). by exists w'.
Qed.

(** Without encryption, or for a value that is no entry, [Set] stores the value. *)
Lemma run_Set_plain c t key v w : Cache c = CStore t -> ryw_ok t (w_state w) -> own_entry v = true ->
  EncryptData c = false \/ (typeof v <> "GenericCacheEntry" /\ typeof v <> "cache.GenericCacheEntry") ->
  exists w', run clock (g_Set gob_encode c key v FOREVER) w = (Done None, w') /\
    ryw_has t key v (w_state w').
Proof.
  intros Hc Hw Hv Hplain. unfold g_Set. rewrite (not_nil c t Hc).
  match goal with |- context [logDebug c ?m ≫= ?f] =>
    destruct (run_logDebug c m f w) as (w1 & -> & Hs1 & _) end. cbn zeta.
  change (negb (FOREVER =? 0)) with true. cbv iota. rewrite <- Hs1 in Hw.
  destruct (EncryptData c) eqn:He; [|by apply run_set_store].
  match goal with |- context [run clock (logDebug c ?m ≫= ?f) w1] =>
    destruct (run_logDebug c m f w1) as (w2 & -> & Hs2 & _) end. rewrite <- Hs2 in Hw.
  destruct Hplain as [?|[Hp1 Hp2]]; [done|].
  destruct (String.eqb_spec (typeof v) "GenericCacheEntry"); [done|].
  destruct (String.eqb_spec (typeof v) "cache.GenericCacheEntry"); [done|]. cbn [orb]. by apply run_set_store.
Qed.

(** With encryption, [Set] of an entry stores the encrypted encoding of its data. *)
Lemma run_Set_encrypted c t key e b w : Cache c = CStore t -> ryw_ok t (w_state w) ->
  EncryptData c = true -> (16 <= length (sharedSecret c))%nat -> gob_encode (Data e) = inr b -> b <> [] ->
  exists ct e' w', run clock (g_Set gob_encode c key (of_entry e) FOREVER) w = (Done None, w') /\
    Data e' = VBytes ct /\ ryw_has t key (of_entry e') (w_state w') /\ decryptEntry (E := E) c ct = mret (inr b).
Proof.
  intros Hc Hw He Hs Hb Hne. unfold g_Set. rewrite (not_nil c t Hc).
  match goal with |- context [logDebug c ?m ≫= ?f] =>
    destruct (run_logDebug c m f w) as (w1 & -> & Hs1 & _) end. cbn zeta.
  change (negb (FOREVER =? 0)) with true. cbv iota. rewrite He, <- Hs1 in *.
  match goal with |- context [run clock (logDebug c ?m ≫= ?f) w1] =>
    destruct (run_logDebug c m f w1) as (w2 & -> & Hs2 & _) end. rewrite <- Hs2 in Hw.
  change (typeof (of_entry e)) with "cache.GenericCacheEntry".
  change (_ || _) with true. cbv iota. rewrite as_entry_of_entry, bind_assert_Some, Hb.
  destruct (encryptEntry_eq c b He Hs) as (ct & -> & Hdec). rewrite bind_mret.
  unfold NewGenericCacheEntry. change (negb (FOREVER =? 0)) with true. cbv iota.
  rewrite bind_Now, run_time_Now. cbn zeta. rewrite bind_mret.
  match goal with |- context [set_store c key (of_entry ?e') FOREVER] =>
    destruct (run_set_store c t key (of_entry e') (tick w2) Hc Hw eq_refl) as (w3 & Hr & Hh) end.
  eexists ct, _, w3. split; [done|]. split; [|split; [exact Hh|]]; [done|]. rewrite Hdec. by destruct b.
Qed.

(** [Get] of an entry the store has. *)
Lemma run_Get_entry c t key v e0 w : Cache c = CStore t -> ryw_has t key v (w_state w) -> ryw_reads t v ->
  exists e w', Data e = payload v /\ ryw_has t key v (w_state w') /\
    run clock (g_Get gob_decode c key (VPtr (of_entry e0))) w =
      run clock (if EncryptData c then
          data ← assert_some (as_bytes (payload v)) (not_a "[]uint8");
          decryptedData ← decryptEntry c data;
          match decryptedData with
          | inl err => _ ← logError c (error_line c "Get" err); mret (Some err, VPtr (of_entry e))
          | inr decryptedData =>
              match gob_decode decryptedData with
              | inl err => mret (Some err, VPtr (of_entry e))
              | inr data => mret (None, VPtr (of_entry (mkEntry data (TimeAdded e) (ExpiresAt e))))
              end
          end
        else mret (None, VPtr (of_entry e))) w'.
Proof.
  intros Hc Hw Hv. unfold g_Get. rewrite (not_nil c t Hc). cbn zeta.
  match goal with |- context [logDebug c ?m ≫= ?f] =>
    destruct (run_logDebug c m f w) as (w1 & -> & Hs1 & _) end. rewrite <- Hs1 in Hw.
  change (typeof (VPtr (of_entry e0))) with "*cache.GenericCacheEntry".
  change (String.eqb "*cache.GenericCacheEntry" "*cache.ResponseCache") with false. cbv iota.
  change (_ || _) with true. cbv iota. cbn [as_ptr]. rewrite as_entry_of_entry, bind_assert_Some.
  rewrite (the_store_eq c t Hc), bind_mret. cbn [st_Get].
  destruct (ryw_get t key v e0 clock w1 Hw Hv) as (e & w2 & Hr & Hd & Hh).
  rewrite (run_bind_done _ _ _ _ _ _ Hr). unfold get_result. cbn [fst snd]. rewrite bind_mret. cbn [fst snd].
  exists e, w2. split; [done|]. split; [done|]. destruct (EncryptData c); [|done].
  cbn [as_ptr]. rewrite as_entry_of_entry, bind_assert_Some. by rewrite Hd.
Qed.

(** C17. Transparent encryption: an entry [Set] without expiry is given back by the
    next [Get] with the data it had, whether the cache encrypts or not, provided
    [gob] is faithful on that data and the secret has at least 16 bytes. *)
Theorem generic_set_get c t key e e0 w :
  Cache c = CStore t -> ryw_ok t (w_state w) ->
  (EncryptData c = true -> (16 <= length (sharedSecret c))%nat /\ gob_faithful (Data e)) ->
  exists w1 w2 e', run clock (g_Set gob_encode c key (of_entry e) FOREVER) w = (Done None, w1) /\
    run clock (g_Get gob_decode c key (VPtr (of_entry e0))) w1 = (Done (None, VPtr (of_entry e')), w2) /\
    Data e' = Data e.
Proof.
  intros Hc Hw Henc. destruct (EncryptData c) eqn:He.
  - destruct (Henc eq_refl) as [Hs (b & Hb & Hne & Hdec)].
    destruct (run_Set_encrypted c t key e b w Hc Hw He Hs Hb Hne) as (ct & e1 & w1 & Hr & He1 & Hh & Hd).
    destruct (run_Get_entry c t key _ e0 w1 Hc Hh (ryw_reads_entry t e1)) as (e' & w2 & _ & _ & Hget).
    exists w1, w2. eexists. split; [done|]. rewrite Hget, He. cbn [payload of_entry]. rewrite He1. cbn [as_bytes].
    rewrite bind_assert_Some, Hd, bind_mret, Hdec. by split.
  - destruct (run_Set_plain c t key (of_entry e) w Hc Hw eq_refl (or_introl He)) as (w1 & Hr & Hh).
    destruct (run_Get_entry c t key _ e0 w1 Hc Hh (ryw_reads_entry t e)) as (e' & w2 & Hd & _ & Hget).
    exists w1, w2, e'. split; [done|]. rewrite Hget, He. by split.
Qed.

(** C33. [Add] does not encrypt but [Get] decrypts: in an encrypting cache, after a
    successful [Add] of anything but a byte slice, [Get] of the entry panics. *)
Theorem generic_add_then_get_panics c t key d e0 w w1 :
  Cache c = CStore t -> ryw_ok t (w_state w) -> EncryptData c = true ->
  own_entry d = true -> ryw_reads t d -> as_bytes (payload d) = None ->
  run clock (g_Add c key d FOREVER) w = (Done None, w1) ->
  (run clock (g_Get gob_decode c key (VPtr (of_entry e0))) w1).1 = Crash (not_a "[]uint8").
Proof.
  intros Hc Hw He Hd Hv Hb. unfold g_Add. rewrite (not_nil c t Hc).
  match goal with |- context [logDebug c ?m ≫= ?f] =>
    destruct (run_logDebug c m f w) as (w0 & -> & Hs0 & _) end. cbn zeta.
  change (negb (FOREVER =? 0)) with true. cbv iota. rewrite (the_store_eq c t Hc), bind_mret. cbn [st_Add].
  rewrite <- Hs0 in Hw. destruct (ryw_add t key d clock w0 Hw Hd) as (err & w' & Hr & Hh).
  rewrite (run_bind_done _ _ _ _ _ _ Hr). destruct err as [err|].
  { match goal with |- context [run clock (logError c ?m ≫= ?f) w'] =>
      destruct (run_logError c m f w') as (w'' & l & -> & _) end. done. }
  intros [= <-]. destruct (run_Get_entry c t key _ e0 w' Hc (Hh eq_refl) Hv) as (e & w2 & _ & _ & Hget).
  rewrite Hget, He, Hb. done.
Qed.

(** Only entries are encrypted: in an encrypting cache [Set] of a plain string
    puts the string itself into the store. *)
Theorem generic_set_string_in_clear c t key s w :
  Cache c = CStore t -> ryw_ok t (w_state w) -> EncryptData c = true ->
  exists w', run clock (g_Set gob_encode c key (VString s) FOREVER) w = (Done None, w') /\
    ryw_has t key (VString s) (w_state w').
Proof. intros Hc Hw _. apply (run_Set_plain c t key (VString s) w Hc Hw eq_refl). by right. Qed.
End with_store.

(** *** The destinations of [Get] *)

(** Numbers passed by value: the store is given an [interface{}] to fill, and the
    caller's value stays as it is. *)
Definition by_value (v : goval) : bool := bool_decide (typeof v ∈ int_types).
Definition asked (v : goval) : goval := if by_value v then VIfacePtr v else v.
Definition handed (v v' : goval) : goval := if by_value v then v else v'.

(** The destinations [Get] takes, and the types it goes on to assert: a foreign type that
    prints as one of these panics. *)
Definition takes (v : goval) : bool :=
  match v with
  | VPtr (VResponse _) | VPtr (VEntry _ _ _) | VPtr (VString _) | VPtr (VFloat64 _) => true
  | _ => bool_decide (typeof v ∈ int_ptr_types) || by_value v
  end.
Definition asserted (ty : string) : option string :=
  if String.eqb ty "*cache.ResponseCache" then Some "*cache.ResponseCache"
  else if String.eqb ty "*GenericCacheEntry" || String.eqb ty "*cache.GenericCacheEntry" then Some "*cache.GenericCacheEntry"
  else if String.eqb ty "*string" then Some "*string"
  else if String.eqb ty "*float64" then Some "*float64" else None.

(** The lines [Get] and [Delete] log, with and without a logger. *)
Definition debugged c (m : string) w : world S :=
  match Logger c with Some l => add_log w (LogLine (SinkLogger l) LDebug m) | None => w end.
Definition complained c (m : string) w : world S :=
  add_log w (LogLine (match Logger c with Some l => SinkLogger l | None => SinkStderr end) LError m).
Definition get_line c key (v : goval) : string :=
  "GenericCache.Get: " +:+ LT c +:+ " key == " +:+ key +:+ " and entry type == " +:+ typeof v
    +:+ " and encryption == " +:+ fmt_bool (EncryptData c).
Definition delete_line c key : string := "GenericCache.Delete: " +:+ LT c +:+ " key == " +:+ key.
Definition unsupported_line c (v : goval) : string :=
  "GenericCache.Get: " +:+ LT c +:+ " error - not supported type - " +:+ typeof v.

Lemma run_debugged {B} c m (f : unit -> prog E B) w : run clock (logDebug c m ≫= f) w = run clock (f tt) (debugged c m w).
Proof. unfold logDebug, debugged. by destruct (Logger c). Qed.

Lemma run_complained {B} c m (f : unit -> prog E B) w : run clock (logError c m ≫= f) w = run clock (f tt) (complained c m w).
Proof. unfold logError, complained. by destruct (Logger c). Qed.

Lemma debugged_same c m w : w_state (debugged c m w) = w_state w /\ w_tick (debugged c m w) = w_tick w.
Proof. unfold debugged. by destruct (Logger c). Qed.

(** What happens to an entry the store has given. *)
Definition open_entry c (r : option error * goval) : prog E (option error * goval) :=
  match fst r with
  | Some err => mret r
  | None =>
      if EncryptData c then
        entry ← assert_some (as_ptr as_entry (snd r)) (not_a "*cache.GenericCacheEntry");
        data ← assert_some (as_bytes (Data entry)) (not_a "[]uint8");
        decryptedData ← decryptEntry c data;
        match decryptedData with
        | inl err => _ ← logError c (error_line c "Get" err); mret (Some err, snd r)
        | inr decryptedData =>
            match gob_decode decryptedData with
            | inl err => mret (Some err, snd r)
            | inr data => mret (None, VPtr (of_entry (mkEntry data (TimeAdded entry) (ExpiresAt entry))))
            end
        end
      else mret r
  end.
Definition afterwards c (v : goval) (r : option error * goval) : prog E (option error * goval) :=
  match v with VPtr (VEntry _ _ _) => open_entry c r | _ => mret r end.

(** The branches of [Get] after the call [q] of the store. *)
Lemma run_pointer_tail c (q : prog E (option error * goval)) v w : by_value v = false ->
  run clock (r ← q; get_result c r) w = run clock (r ← q; r ← get_result c (fst r, handed v (snd r)); mret r) w.
Proof.
  intros Hv. unfold handed. rewrite Hv, !run_bind. destruct (run clock q w) as [[[e u]|msg] w1]; [|done]. cbn [fst snd].
  rewrite run_bind. by destruct (run clock (get_result c (e, u)) w1) as [[]].
Qed.

Lemma run_value_tail c (q : prog E (option error * goval)) v w : by_value v = true ->
  run clock (r ← q; get_result c (fst r, v)) w = run clock (r ← q; r ← get_result c (fst r, handed v (snd r)); mret r) w.
Proof.
  intros Hv. unfold handed. rewrite Hv, !run_bind. destruct (run clock q w) as [[[e u]|msg] w1]; [|done]. cbn [fst snd].
  rewrite run_bind. by destruct (run clock (get_result c (e, v)) w1) as [[]].
Qed.

Lemma run_entry_tail c (q : prog E (option error * goval)) v w : by_value v = false ->
  run clock (r ← q; r ← get_result c r; open_entry c r) w = run clock (r ← q; r ← get_result c (fst r, handed v (snd r)); open_entry c r) w.
Proof.
  intros Hv. unfold handed. rewrite Hv, !run_bind. by destruct (run clock q w) as [[[e u]|msg] w1].
Qed.

(** [Get] asks the store once, and works on its answer. *)
Lemma run_g_Get c t key v w : Cache c = CStore t -> takes v = true ->
  run clock (g_Get gob_decode c key v) w =
    run clock (r ← cs_Get t key (asked v); r ← get_result c (fst r, handed v (snd r)); afterwards c v r)
      (debugged c (get_line c key v) w).
Proof.
  intros Hc Hv. unfold g_Get. rewrite (not_nil c t Hc). cbn zeta. rewrite run_debugged. cbv beta. fold (get_line c key v).
  rewrite (the_store_eq c t Hc). set (w1 := debugged c (get_line c key v) w).
  destruct (bool_decide (typeof v ∈ int_ptr_types)) eqn:Hptr.
  { assert (by_value v = false /\ afterwards c v = mret) as [Hb Ha].
    { apply bool_decide_eq_true in Hptr. unfold by_value. each_type Hptr; rewrite Hptr; (split; [reflexivity|]);
        destruct v as [| | | | | | | |[]|]; done. }
    unfold asked. rewrite Hb, Ha. apply bool_decide_eq_true in Hptr.
    each_type Hptr; rewrite Hptr; apply (run_pointer_tail c (cs_Get t key v) v w1 Hb). }
  destruct (by_value v) eqn:Hb.
  { assert (afterwards c v = mret) as Ha by (destruct v as [| | | | | | | |[]|]; done).
    unfold asked. rewrite Hb, Ha. pose proof Hb as Hval. apply bool_decide_eq_true in Hval.
    each_type Hval; rewrite Hval; apply (run_value_tail c (cs_Get t key (VIfacePtr v)) v w1 Hb). }
  unfold asked. rewrite Hb. unfold takes in Hv. rewrite Hptr, Hb in Hv.
  destruct v as [| | | | | | | |[]|]; try discriminate Hv;
    first [exact (run_entry_tail c (cs_Get t key _) _ w1 Hb)|exact (run_pointer_tail c (cs_Get t key _) _ w1 Hb)].
Qed.

(** Other destinations: a panic, or an error without a call of the store. *)
Lemma run_g_Get_not_taken c t key v w : Cache c = CStore t -> takes v = false ->
  run clock (g_Get gob_decode c key v) w =
    match asserted (typeof v) with
    | Some ty => (Crash (not_a ty), debugged c (get_line c key v) w)
    | None => (Done (Some ErrNotSupport, v), complained c (unsupported_line c v) (debugged c (get_line c key v) w))
    end.
Proof.
  intros Hc Hv. unfold g_Get. rewrite (not_nil c t Hc). cbn zeta. rewrite run_debugged. cbv beta. fold (get_line c key v).
  assert (bool_decide (typeof v ∈ int_ptr_types) = false /\ bool_decide (typeof v ∈ int_types) = false) as [-> ->].
  { unfold takes, by_value in Hv. apply orb_false_iff. destruct v as [| | | | | | | |[]|]; done. }
  unfold asserted.
  destruct (String.eqb (typeof v) "*cache.ResponseCache") eqn:H2; [by destruct v as [| | | | | | | |[]|]|].
  destruct (String.eqb (typeof v) "*GenericCacheEntry" || String.eqb (typeof v) "*cache.GenericCacheEntry");
    [by destruct v as [| | | | | | | |[]|]|].
  destruct (String.eqb (typeof v) "*string"); [by destruct v as [| | | | | | | |[]|]|].
  destruct (String.eqb (typeof v) "*float64"); [by destruct v as [| | | | | | | |[]|]|].
  rewrite run_complained. done.
Qed.

(** *** Errors *)
Definition is_miss (err : error) : bool := bool_decide (Error err = Error ErrCacheMiss).
Definition reported (err : error) : error := if is_miss err then ErrCacheMiss else err.

(** C32. Error policy of [Get] and [Delete], with or without a logger.  When the store
    answers a [Get], into any destination the facade takes, or a [Delete] with an error,
    a miss is reported as [ErrCacheMiss] without an error line, and any other error is
    returned as it is, after exactly one error line.  A destination the facade does not
    take is answered with [ErrNotSupport] after one error line, without a call of the
    store (a foreign type that prints as one it takes panics). *)
Theorem generic_error_policy c t key v err v' err' w w2 w3 : Cache c = CStore t ->
  (takes v = true -> run clock (cs_Get t key (asked v)) (debugged c (get_line c key v) w) = (Done (Some err, v'), w2) ->
     run clock (g_Get gob_decode c key v) w =
       (Done (Some (reported err), handed v v'), if is_miss err then w2 else complained c (error_line c "Get" err) w2)) /\
  (run clock (cs_Delete t key) (debugged c (delete_line c key) w) = (Done (Some err'), w3) ->
     run clock (g_Delete c key) w =
       (Done (Some (reported err')), if is_miss err' then w3 else complained c (error_line c "Delete" err') w3)) /\
  (takes v = false -> asserted (typeof v) = None -> run clock (g_Get gob_decode c key v) w =
     (Done (Some ErrNotSupport, v), complained c (unsupported_line c v) (debugged c (get_line c key v) w))).
Proof.
  intros Hc. split; [|split].
  - intros Hv Hget. rewrite (run_g_Get c t) by done. rewrite (run_bind_done _ _ _ _ _ _ Hget). cbn [fst snd].
    assert (forall e u, afterwards c v (Some e, u) = mret (Some e, u)) as Hafter by (intros e u; by destruct v as [| | | | | | | |[]|]).
    unfold get_result, reported, is_miss. cbn [fst snd]. destruct (String.eqb_spec (Error err) (Error ErrCacheMiss)); cbn [negb].
    + by rewrite bool_decide_true, bind_mret, Hafter.
    + rewrite bool_decide_false, run_bind, run_complained, run_mret, Hafter by done. done.
  - intros Hdel. unfold g_Delete. rewrite (not_nil c t Hc), run_debugged, (the_store_eq c t Hc), bind_mret.
    fold (delete_line c key). cbn [st_Delete]. rewrite (run_bind_done _ _ _ _ _ _ Hdel). unfold reported, is_miss.
    destruct (String.eqb_spec (Error err') (Error ErrCacheMiss)); cbn [negb].
    + by rewrite bool_decide_true.
    + rewrite bool_decide_false, run_complained by done. done.
  - intros Hv Ha. rewrite (run_g_Get_not_taken c t) by done. by rewrite Ha.
Qed.

(** The methods that check for a nil cache, with the error they answer. *)
Inductive gcall :=
  | GAdd (key : string) (data : goval) (exp : Z) | GDelete (key : string) | GExists (key : string)
  | GSet (key : string) (data : goval) (exp : Z) | GReplace (key : string) (data : goval) (exp : Z)
  | GIncrement (key : string) (n : Z) | GDecrement (key : string) (n : Z) | GFlush
  | GGet (key : string) (value : goval) | GRedisExpireAt (key : string) (epoc : Z)
  | GRedisGetExpiresIn (key : string) | GRedisIncrementAtomic (key : string) (n : Z)
  | GRedisIncrementCheckSet (key : string) (n : Z).

Definition do_gcall c (g : gcall) : prog E (option error) :=
  match g with
  | GAdd key data exp => g_Add c key data exp
  | GDelete key => g_Delete c key
  | GExists key => x ← Exists gob_decode rfc3339 c key; mret (snd (fst x))
  | GSet key data exp => g_Set gob_encode c key data exp
  | GReplace key data exp => g_Replace c key data exp
  | GIncrement key n => x ← g_Increment c key n; mret (snd x)
  | GDecrement key n => x ← g_Decrement c key n; mret (snd x)
  | GFlush => g_Flush c
  | GGet key value => x ← g_Get gob_decode c key value; mret (fst x)
  | GRedisExpireAt key epoc => RedisExpireAt c key epoc
  | GRedisGetExpiresIn key => x ← RedisGetExpiresIn c key; mret (snd x)
  | GRedisIncrementAtomic key n => x ← RedisIncrementAtomic c key n; mret (snd x)
  | GRedisIncrementCheckSet key n => x ← RedisIncrementCheckSet c key n; mret (snd x)
  end.

(** A cache without a store is harmless: every guarded method answers an error,
    writes that error as its only log line, reads no clock and calls no store.
    [AddExistingEntry] has no guard and panics. *)
Theorem generic_nil_cache c g w key e x :
  Cache c = CNil -> ReadCache c = None ->
  (exists msg sink, run clock (do_gcall c g) w =
     (Done (Some (ErrMsg msg)), add_log w (LogLine sink LError msg))) /\
  (run clock (AddExistingEntry c key e x) w).1 = Crash (not_a "persistence.CacheStore").
Proof.
  intros Hc Hr. split.
  - unfold do_gcall, g_Add, g_Delete, Exists, g_Set, g_Replace, g_Increment, g_Decrement, g_Flush, g_Get,
      RedisExpireAt, RedisGetExpiresIn, RedisIncrementAtomic, RedisIncrementCheckSet.
    destruct c as [C r s de ty lv kp lg en]; simpl in *; subst.
    destruct g; simpl; unfold Exists_here, logError; simpl; destruct lg; simpl; eauto.
  - unfold AddExistingEntry. match goal with |- context [logDebug c ?m ≫= ?f] =>
      destruct (run_logDebug c m f w) as (w1 & -> & _) end.
    rewrite run_time_Now. unfold the_store. rewrite Hc. done.
Qed.

(** *** Pools *)

(** Which pool is read: with two pools, [Exists] answers from the read pool
    alone, whatever the write pool is, and [Get] from the write pool alone. *)
Theorem generic_pools W R' level secret exp prefix enc key value :
  let c := NewCacheWithMultiPools W R' level secret exp prefix enc in
  (forall w, (run clock (x ← Exists gob_decode rfc3339 c key; mret (fst x)) w) =
    run clock (x ← Exists gob_decode rfc3339 (NewCacheWithPool R' ReadOnly level secret exp prefix enc) key;
               mret (fst x)) w) /\
  (forall w, run clock (g_Get gob_decode c key value) w =
    run clock (g_Get gob_decode (NewCacheWithPool W Writable level secret exp prefix enc) key value) w).
Proof.
  intros c. split; intros w; [|done]. unfold Exists, c, NewCacheWithMultiPools, NewCacheWithPool. simpl.
  rewrite !run_bind. destruct (run clock _ w) as [[x|msg] w']; done.
Qed.
End facade.

(** ** Keys *)
Section keys.
Context {T R : Type}.
Implicit Types (c : GenericCache T R).

(** Keys identify prefix and signature: a key is the 64-digit hexadecimal
    HMAC-SHA256 of the data, after the prefix and two colons if there is a prefix;
    two caches give the same key only if they have the same prefix and the HMACs
    coincide, so caches with different prefixes never share a key. *)
Theorem getkey_identifies c1 c2 d1 d2 : GetKey c1 d1 = GetKey c2 d2 ->
  KeyPrefix c1 = KeyPrefix c2 /\
  hmac_sha256 (sharedSecret c1) d1 = hmac_sha256 (sharedSecret c2) d2.
Proof.
  pose proof (entrySignature_length d1 (sharedSecret c1)) as L1.
  pose proof (entrySignature_length d2 (sharedSecret c2)) as L2.
  unfold GetKey. intros Heq.
  destruct (KeyPrefix c1) as [p1|], (KeyPrefix c2) as [p2|].
  - apply string_app_split in Heq as [Hp Hs]; [|rewrite !string_length_app, L1, L2; done].
    apply (inj (String.app "::")) in Hs. split; [|by apply EncodeToString_inj].
    by rewrite <- (bytes_string_bytes p1), Hp, bytes_string_bytes.
  - apply (f_equal String.length) in Heq. rewrite !string_length_app, L1, L2 in Heq. simpl in Heq. lia.
  - apply (f_equal String.length) in Heq. rewrite !string_length_app, L1, L2 in Heq. simpl in Heq. lia.
  - split; [done|]. by apply EncodeToString_inj.
Qed.
End keys.

(** ** Copying an entry between levels *)

(** The in-memory stores with no Redis store around. *)
#[global] Instance Empty_CacheStore {E} : CacheStore E Empty_set := {|
  cs_Get (r : Empty_set) := match r with end; cs_Set (r : Empty_set) := match r with end; cs_Add (r : Empty_set) := match r with end;
  cs_Replace (r : Empty_set) := match r with end; cs_Delete (r : Empty_set) := match r with end; cs_Increment (r : Empty_set) := match r with end;
  cs_Decrement (r : Empty_set) := match r with end; cs_Flush (r : Empty_set) := match r with end |}.
#[global] Instance Empty_RedisOps {E} : RedisOps E Empty_set := {|
  rs_ExpireAt (r : Empty_set) := match r with end; rs_GetExpiresIn (r : Empty_set) := match r with end;
  rs_IncrementAtomic (r : Empty_set) := match r with end; rs_IncrementCheckSet (r : Empty_set) := match r with end |}.

Section existing.
Context (clock : nat -> Z).
Implicit Types (c : GenericCache InMemoryStore Empty_set) (w : world mem).

Lemma seconds_of_seconds n : in_int64 (n * Second) -> in_int64 n ->
  seconds (int64 (int64 n * Second)) = n.
Proof. intros H1 H2. rewrite (int64_id n), int64_id by done. apply seconds_exact. Qed.

(** [AddExistingEntry] turns a deadline [x] into a duration from its own clock
    reading [t1], and the store turns it back at its later reading [t2]: the copy
    expires at [x] plus the seconds that passed between the two readings; but a
    deadline equal to the current second becomes the store's default expiry. *)
Theorem add_existing_deadline c st key e x w m :
  Cache c = CStore st -> holds st w m ->
  let t1 := clock (w_tick w) in
  let t2 := clock (S (w_tick w)) in
  0 <= t1 < 2 ^ 62 -> 0 <= t2 < 2 ^ 62 -> 0 <= x < 9000000000 ->
  exists w', run clock (AddExistingEntry c key e x) w = (Done None, w') /\
    stored st w' key (mkEntry (Data e) (Unix t2)
      (if x =? Unix t1 then expires_at st DEFAULT t2 else x + (Unix t2 - Unix t1))).
Proof.
  intros Hc Hw t1 t2 Ht1 Ht2 Hx. unfold AddExistingEntry.
  match goal with |- context [logDebug c ?m ≫= ?f] =>
    destruct (run_logDebug clock c m f w) as (w1 & -> & Hs1 & Hk1) end.
  rewrite run_time_Now, Hk1. fold t1. cbn zeta. rewrite (the_store_eq c st Hc), bind_mret. cbn [st_Set].
  set (d := int64 (int64 (x - Unix t1) * Second)).
  assert (holds st (tick w1) m) as Hw1 by (unfold holds; simpl; by rewrite Hs1).
  destruct (run_Set_tick clock st key (of_entry e) d (tick w1) m Hw1 eq_refl) as (w2 & Hr & Hst & _).
  assert (forall t, 0 <= t < 2 ^ 62 -> Unix t = t / Second /\ 0 <= t / Second < 2 ^ 33) as Hunix.
  { intros t Ht. pose proof (Z.div_pos t Second ltac:(lia) eq_refl).
    pose proof (Z.div_lt_upper_bound t Second (2 ^ 33) eq_refl). unfold Second in *.
    split; [apply int64_id; unfold in_int64; lia|lia]. }
  destruct (Hunix t1 Ht1) as [Hu1 Hr1]. destruct (Hunix t2 Ht2) as [Hu2 Hr2].
  exists w2. split.
  { apply (run_unwrap clock _ AErr) in Hr; [|congruence]. by rewrite (run_bind_done _ _ _ _ _ _ Hr). }
  replace (mkEntry _ _ _) with (stamp st (of_entry e) d (clock (w_tick (tick w1)))); [done|].
  simpl w_tick. rewrite Hk1. fold t2. unfold stamp. f_equal. unfold expires_at.
  assert (d = (x - Unix t1) * Second) as Hd.
  { subst d. rewrite (int64_id (x - Unix t1)) by (unfold in_int64; lia). apply int64_id. unfold in_int64, Second. lia. }
  destruct (Z.eqb_spec d FOREVER) as [E1|E1]; [unfold FOREVER, Second in *; lia|].
  destruct (Z.eqb_spec x (Unix t1)) as [->|E2].
  - rewrite Hd, Z.sub_diag. done.
  - destruct (Z.eqb_spec d 0) as [E3|E3]; [unfold Second in *; lia|].
    rewrite Hd, seconds_exact, int64_id by (unfold in_int64; lia). lia.
Qed.
End existing.

(** ** Instances *)
Section witnesses.
(** A codec for strings, faithful on them. *)
Definition enc1 (v : goval) : error + list byte :=
  match v with
  | VString s => inr (x01 :: bytes_of_string s)
  | _ => inl (ErrMsg "gob: type not registered for interface")
  end.
Definition dec1 (b : list byte) : error + goval :=
  match b with
  | x01 :: b => inr (VString (string_of_bytes b))
  | _ => inl (ErrMsg "EOF")
  end.

Lemma enc1_faithful s : gob_faithful enc1 dec1 (VString s).
Proof.
  exists (x01 :: bytes_of_string s). split; [done|]. split; [done|]. simpl. by rewrite string_bytes_string.
Qed.

Definition gc (store : cache_iface InMemoryStore Empty_set) (secret : string) : GenericCache InMemoryStore Empty_set :=
  NewCacheWithPool store Writable L1 secret 3600 (Some (bytes_of_string "test")) true.
Definition gc1 : GenericCache InMemoryStore Empty_set := gc (CStore c2) "a secret of seven".

Lemma w_empty_ok : im_ok c2 (w_state w_empty).
Proof. exists ∅. apply w_empty_holds. Qed.

Lemma entry_encryption_roundtrip_witness :
  exists ct w', run clk (encryptEntry gc1 [x61; x62]) w_empty = (Done (inr ct), w_empty) /\
    run clk (decryptEntry gc1 ct) w_empty = (Done (inr [x61; x62]), w').
Proof.
  destruct (entry_encryption_roundtrip clk gc1 [x61; x62] w_empty) as (ct & w' & He & Hd & _);
    [reflexivity|vm_compute; lia|].
  exists ct, w'. split; [exact He|exact Hd].
Defined.

Lemma entry_encryption_short_secret_witness :
  exists msg w', run clk (encryptEntry (gc (CStore c2) "short") [x61]) w_empty = (Done (inl (ErrMsg msg)), w') /\
    ll_msg <$> last (w_log w') = Some msg.
Proof.
  destruct (entry_encryption_short_secret clk (gc (CStore c2) "short") [x61] w_empty)
    as (msg & w' & msg' & w'' & He & _ & _ & _ & Hl & _); [reflexivity|vm_compute; lia|].
  exists msg, w'. split; [exact He|exact Hl].
Defined.

Lemma generic_set_get_witness :
  exists w1 w2 e', run clk (g_Set enc1 gc1 "k" (VEntry (VString "hello") 0 0) FOREVER) w_empty = (Done None, w1) /\
    run clk (g_Get dec1 gc1 "k" (VPtr (of_entry zero_entry))) w1 = (Done (None, VPtr (of_entry e')), w2) /\
    Data e' = VString "hello".
Proof.
  apply (generic_set_get enc1 dec1 clk gc1 c2 "k" (mkEntry (VString "hello") 0 0) zero_entry w_empty);
    [reflexivity|apply w_empty_ok|].
  intros _. split; [vm_compute; lia|apply enc1_faithful].
Defined.

Lemma generic_add_then_get_panics_witness :
  (run clk (g_Get dec1 gc1 "k" (VPtr (of_entry zero_entry)))
     (run clk (g_Add gc1 "k" (VEntry (VString "hello") 0 0) FOREVER) w_empty).2).1 = Crash (not_a "[]uint8").
Proof.
  apply (generic_add_then_get_panics dec1 clk gc1 c2 "k" (VEntry (VString "hello") 0 0) zero_entry w_empty);
    [reflexivity|apply w_empty_ok|reflexivity|reflexivity|exact I|reflexivity|vm_compute; reflexivity].
Defined.

Lemma generic_set_string_in_clear_witness :
  exists w', run clk (g_Set enc1 gc1 "k" (VString "secret") FOREVER) w_empty = (Done None, w') /\
    ryw_has (E := memE) c2 "k" (VString "secret") (w_state w').
Proof.
  apply (generic_set_string_in_clear enc1 clk gc1 c2 "k" "secret" w_empty);
    [reflexivity|apply w_empty_ok|reflexivity].
Defined.

Lemma generic_error_policy_witness :
  (run clk (g_Get dec1 gc1 "k" (VPtr (VString ""))) w_empty).1 = Done (Some ErrCacheMiss, VPtr (VString "")) /\
  (run clk (g_Delete gc1 "k") w_empty).1 = Done (Some ErrCacheMiss) /\
  (run clk (g_Get dec1 gc1 "k" (VPtr (VBytes []))) w_empty).1 = Done (Some ErrNotSupport, VPtr (VBytes [])).
Proof.
  pose proof (fun v w2 w3 => generic_error_policy dec1 clk gc1 c2 "k" v ErrCacheMiss v ErrCacheMiss w_empty w2 w3 eq_refl) as Hp.
  split; [|split].
  - rewrite (proj1 (Hp (VPtr (VString "")) (run clk (cs_Get c2 "k" (VPtr (VString ""))) w_empty).2 w_empty));
      [reflexivity|reflexivity|vm_compute; reflexivity].
  - rewrite (proj1 (proj2 (Hp (VPtr (VString "")) w_empty (run clk (cs_Delete c2 "k") w_empty).2)));
      [reflexivity|vm_compute; reflexivity].
  - rewrite (proj2 (proj2 (Hp (VPtr (VBytes [])) w_empty w_empty))); reflexivity.
Defined.

Lemma generic_nil_cache_witness :
  exists msg sink, run clk (do_gcall enc1 dec1 (fun _ => "") (gc CNil "") GFlush) w_empty =
    (Done (Some (ErrMsg msg)), add_log w_empty (LogLine sink LError msg)).
Proof.
  apply (generic_nil_cache enc1 dec1 (fun _ => "") clk (gc CNil "") GFlush w_empty "k" zero_entry 0); reflexivity.
Defined.

Lemma getkey_identifies_witness :
  KeyPrefix gc1 = KeyPrefix (gc CNil "a secret of seven") /\
  hmac_sha256 (sharedSecret gc1) [x61] = hmac_sha256 (sharedSecret (gc CNil "a secret of seven")) [x61].
Proof. apply (getkey_identifies gc1 (gc CNil "a secret of seven") [x61] [x61]). reflexivity. Defined.

(** An entry that expires in ten seconds keeps its deadline, one second late. *)
Lemma add_existing_deadline_witness :
  exists w', run clk (AddExistingEntry gc1 "k" (mkEntry (VString "v") 0 0) 1700000010) w_empty = (Done None, w') /\
    stored c2 w' "k" (mkEntry (VString "v") 1700000001 1700000011).
Proof.
  apply (add_existing_deadline clk gc1 c2 "k" (mkEntry (VString "v") 0 0) 1700000010 w_empty ∅);
    [reflexivity|apply w_empty_holds|vm_compute; split; congruence..].
Defined.
End witnesses.
