(* ===== verification/MapStore.v ===== *)
(** * Stores that behave as a map with deadlines

    [MapStore] is what a client of [persistence.CacheStore] can rely on: every
    method answers as [spec_op] says of the map the store stands for, and leaves a
    store that stands for the map of the specification less some entries of other
    keys.  [InMemoryStore] implements it, and so does a [GenericCache] in front of
    any store that does. *)

From stdpp Require Import gmap strings.
From Stdlib Require Import Strings.Byte.
From S2P Require Import Prelude LruInterface GoValues GoFmt Bytes InMemory InMemoryProps Generic GenericProps.
Local Open Scope Z_scope.

(** A method call through the interface. *)
Inductive mop :=
  | MGet (k : string) (value : goval) | MSet (k : string) (v : goval) (exp : Z)
  | MAdd (k : string) (v : goval) (exp : Z) | MReplace (k : string) (v : goval) (exp : Z)
  | MDelete (k : string) | MIncrement (k : string) (n : Z) | MDecrement (k : string) (n : Z) | MFlush.

Definition op_of (o : mop) : op :=
  match o with
  | MGet k v => OGet k v | MSet k v exp => OSet k v exp | MAdd k v exp => OAdd k v exp
  | MReplace k v exp => OReplace k v exp | MDelete k => ODelete k
  | MIncrement k n => OIncrement k n | MDecrement k n => ODecrement k n | MFlush => OFlush
  end.

Definition cs_do {E T} `{CacheStore E T} (t : T) (o : mop) : prog E answer :=
  match o with
  | MGet k value => r ← cs_Get t k value; mret (AVal (fst r) (snd r))
  | MSet k v exp => r ← cs_Set t k v exp; mret (AErr r)
  | MAdd k v exp => r ← cs_Add t k v exp; mret (AErr r)
  | MReplace k v exp => r ← cs_Replace t k v exp; mret (AErr r)
  | MDelete k => r ← cs_Delete t k; mret (AErr r)
  | MIncrement k n => r ← cs_Increment t k n; mret (ANum (fst r) (snd r))
  | MDecrement k n => r ← cs_Decrement t k n; mret (ANum (fst r) (snd r))
  | MFlush => r ← cs_Flush t; mret (AErr r)
  end.

(** The specification, for a store whose default duration is [d]. *)
Definition spec_mop (d t : Z) (o : mop) (m : gmap string GenericCacheEntry) : outcome answer * gmap string GenericCacheEntry :=
  spec_op (mkInMemoryStore 0 d) t (op_of o) m.

Class MapStore (E : Type -> Type) (T S : Type) `{Handler E S, CacheStore E T} := {
  ms_holds : T -> S -> gmap string GenericCacheEntry -> Prop;
  ms_default : T -> Z;
  ms_accepts : T -> mop -> Prop;
  ms_step t o clock (w : world S) m : ms_accepts t o -> ms_holds t (w_state w) m ->
    exists w' m', run clock (cs_do t o) w = ((spec_mop (ms_default t) (clock (w_tick w)) o m).1, w') /\
      ms_holds t (w_state w') m' /\ forgets (op_of o) m' (spec_mop (ms_default t) (clock (w_tick w)) o m).2 }.

(** ** [InMemoryStore] *)
#[global] Program Instance inmemory_MapStore : MapStore memE InMemoryStore mem := {|
  ms_holds c s m := represents s (lru c) m; ms_default c := DefaultExp c; ms_accepts c o := True |}.
Next Obligation.
  intros c o clock w m _ Hw. destruct (do_op_refines clock c (op_of o) w m Hw) as (w' & m' & Hr & Hw' & Hf & _).
  exists w', m'. split; [|done].
  transitivity (run clock (do_op c (op_of o)) w); [by destruct o|]. rewrite Hr. by destruct o.
Qed.

(** ** The facade *)
Section facade.
Context {E : Type -> Type} {T R S : Type} `{Handler E S, CacheStore E T, CacheStore E R, !RedisOps E R, !MapStore E T S}.
Context (gob_encode : goval -> error + list byte) (gob_decode : list byte -> error + goval).
Implicit Types (c : GenericCache T R) (w : world S).

Definition g_resolve c (exp : Z) : Z := if negb (exp =? 0) then exp else gDefaultExp c.

(** The call the facade makes of its store. *)
Definition passed c (o : mop) : mop :=
  match o with
  | MGet k v => MGet k (asked v)
  | MSet k v exp => MSet k v (g_resolve c exp)
  | MAdd k v exp => MAdd k v (g_resolve c exp)
  | MReplace k v exp => MReplace k v (g_resolve c exp)
  | o => o
  end.

(** The values whose data an encrypting [Set] encrypts, and the destinations whose data
    [Get] decrypts. *)
Definition entry_type (ty : string) : bool := String.eqb ty "GenericCacheEntry" || String.eqb ty "cache.GenericCacheEntry".
Definition entry_dest (v : goval) : bool := match v with VPtr (VEntry _ _ _) => true | _ => false end.

(** Calls the facade passes on as they are: no entry is encrypted or decrypted. *)
Definition plain_call c (o : mop) : Prop :=
  match o with
  | MGet _ v => takes v = true /\ (entry_dest v && EncryptData c) = false
  | MSet _ v _ => (entry_type (typeof v) && EncryptData c) = false
  | MFlush => False
  | _ => True
  end.

Lemma run_wrap {A B} clock (p : prog E A) (f : A -> B) w o w' :
  run clock (r ← p; mret (f r)) w = (o, w') ->
  (exists r, run clock p w = (Done r, w') /\ o = Done (f r)) \/ (exists msg, run clock p w = (Crash msg, w') /\ o = Crash msg).
Proof.
  rewrite run_bind. destruct (run clock p w) as [[a|msg] w1]; simpl; intros; simplify_eq; eauto.
Qed.

Definition facade_default c (t : T) : Z := if gDefaultExp c =? 0 then ms_default t else gDefaultExp c.

Lemma stamp_resolve c t v exp tm : gDefaultExp c <> FOREVER ->
  stamp (mkInMemoryStore 0 (ms_default t)) v (g_resolve c exp) tm = stamp (mkInMemoryStore 0 (facade_default c t)) v exp tm.
Proof.
  intros Hg. unfold stamp, expires_at, g_resolve, facade_default. cbn [DefaultExp].
  destruct (Z.eqb_spec exp 0) as [->|Hexp]; cbn [negb].
  - destruct (Z.eqb_spec (gDefaultExp c) FOREVER); [done|]. by destruct (gDefaultExp c =? 0).
  - by destruct (Z.eqb_spec exp 0); [done|].
Qed.

Lemma spec_set_resolve c t tm k v exp m : gDefaultExp c <> FOREVER ->
  spec_set (mkInMemoryStore 0 (ms_default t)) tm k v (g_resolve c exp) m =
  spec_set (mkInMemoryStore 0 (facade_default c t)) tm k v exp m.
Proof. intros Hg. unfold spec_set. by rewrite stamp_resolve. Qed.

(** The answer of a [Get] of an [int] passed by value is the one of the store, but
    for the value handed back. *)
Definition own_value (o : mop) (a : outcome answer) : outcome answer :=
  match o, a with MGet _ v, Done (AVal err v') => Done (AVal err (handed v v')) | _, _ => a end.

Lemma own_value_not_get o a : (forall k v, o <> MGet k v) -> own_value o a = a.
Proof. destruct o; try done. intros Ho. by destruct (Ho k value). Qed.

Lemma own_value_same k v a : by_value v = false -> own_value (MGet k v) a = a.
Proof. intros Hv. unfold own_value, handed. rewrite Hv. by destruct a as [[]|]. Qed.

Lemma deliver_value v e : by_value v = true ->
  deliver v e = Done (AVal (Some ErrNotSupport) v) /\ deliver (VIfacePtr v) e = Done (AVal (Some ErrNotSupport) (VIfacePtr v)).
Proof.
  intros Hv. split; [|by destruct (Data e)]. apply bool_decide_eq_true in Hv.
  assert (bool_decide (typeof v ∈ dest_types) = false) as Hd by (each_type Hv; by rewrite Hv).
  destruct v as [| | | | | | | |v|]; try (unfold deliver; destruct (Data e); by rewrite Hd).
  exfalso. each_type Hv; by destruct v.
Qed.

Lemma spec_passed c t tm o m : gDefaultExp c <> FOREVER ->
  spec_mop (facade_default c t) tm o m =
    (own_value o (spec_mop (ms_default t) tm (passed c o) m).1, (spec_mop (ms_default t) tm (passed c o) m).2).
Proof.
  intros Hg. destruct o as [k v|k v exp|k v exp|k v exp|k|k n|k n|]; unfold spec_mop; cbn [op_of passed spec_op];
    rewrite ?own_value_not_get by done.
  - unfold asked. destruct (by_value v) eqn:Hv; [|rewrite own_value_same by done; by destruct (match m !! k with Some _ => _ | None => _ end)].
    unfold own_value, handed. rewrite Hv. destruct (m !! k) as [e|]; [|done]. destruct (live tm e); [|done]. cbn [fst snd].
    by destruct (deliver_value v e Hv) as [-> ->].
  - rewrite spec_set_resolve by done. by destruct (spec_set _ _ _ _ _ _).
  - destruct (m !! k); [done|]. rewrite spec_set_resolve by done. by destruct (spec_set _ _ _ _ _ _).
  - destruct (m !! k); [|done]. rewrite spec_set_resolve by done. by destruct (spec_set _ _ _ _ _ _).
  - by destruct (m !! k).
  - by destruct (spec_arith _ k m).
  - by destruct (spec_arith _ k m).
  - done.
Qed.

(** The answers the specification gives: errors are the package's own, and come
    with no number. *)
Definition sentinel (a : outcome answer) : Prop :=
  match a with
  | Done (AErr (Some e)) | Done (AVal (Some e) _) => match e with ErrMsg _ => False | _ => True end
  | Done (ANum n (Some e)) => n = 0
  | _ => True
  end.

Lemma spec_set_sentinel s tm k v exp m : sentinel (spec_set s tm k v exp m).1.
Proof. unfold spec_set. by destruct (own_entry v). Qed.

Lemma spec_arith_sentinel f k m : sentinel (spec_arith f k m).1.
Proof. unfold spec_arith. repeat case_match; done. Qed.

Lemma spec_sentinel d tm o m : sentinel (spec_mop d tm o m).1.
Proof.
  destruct o as [k v|k v exp|k v exp|k v exp|k|k n|k n|]; unfold spec_mop; cbn [op_of spec_op];
    try apply spec_set_sentinel; try apply spec_arith_sentinel; try done; destruct (m !! k) as [e|];
    try apply spec_set_sentinel; try done.
  destruct (live tm e); [|done]. cbn [fst]. unfold deliver. repeat case_match; done.
Qed.

Section run.
Context (clock : nat -> Z).
#[local] Instance facade : CacheStore E (GenericCache T R) := GenericCache_CacheStore gob_encode gob_decode.

(** What the facade does with the answer of its store: it may log, and hands it on. *)
Definition hands_on {A B} (p : A -> prog E B) (f : A -> answer) (g : B -> answer) (o : mop) : Prop :=
  forall a w, sentinel (Done (f a)) ->
    exists w' b, run clock (p a) w = (Done b, w') /\ w_state w' = w_state w /\ Done (g b) = own_value o (Done (f a)).

Lemma run_handed {A B} (q : prog E A) (p : A -> prog E B) f g o w a w' :
  hands_on p f g o -> run clock (r ← q; mret (f r)) w = (a, w') -> sentinel a ->
  exists w'', run clock (r ← (r ← q; p r); mret (g r)) w = (own_value o a, w'') /\ w_state w'' = w_state w' /\
    (w_tick w' <= w_tick w'')%nat.
Proof.
  intros Hp Hq Hs. rewrite !run_bind. destruct (run_wrap clock q f w a w' Hq) as [(r & -> & ->)|(msg & -> & ->)].
  - destruct (Hp r w' Hs) as (w1 & b & Hr & Hst & <-). pose proof (run_tick clock (p r) w') as Ht. rewrite Hr in *. by exists w1.
  - exists w'. split; [|done]. by destruct o.
Qed.

(** The three ends of the facade's methods. *)
Lemma hands_on_error c name o : (forall a, own_value o a = a) ->
  hands_on (fun err => match err with
    | Some err => _ ← logError c (error_line c name err); mret (Some err) | None => mret None end) AErr AErr o.
Proof.
  intros Ho [err|] w _; [|by exists w, None; rewrite Ho].
  destruct (run_logError clock c (error_line c name err) (fun _ => mret (Some err)) w) as (w' & l & -> & Hst & _).
  exists w', (Some err). by rewrite Ho.
Qed.

Lemma hands_on_delete c k : hands_on (fun err => match err with
    | Some err => if negb (String.eqb (Error err) (Error ErrCacheMiss)) then
        _ ← logError c (error_line c "Delete" err); mret (Some err) else mret (Some ErrCacheMiss)
    | None => mret None end) AErr AErr (MDelete k).
Proof.
  intros [err|] w Hs; [|by exists w, None].
  destruct (String.eqb_spec (Error err) (Error ErrCacheMiss)) as [He|He]; cbn [negb].
  - exists w, (Some ErrCacheMiss). by destruct err.
  - destruct (run_logError clock c (error_line c "Delete" err) (fun _ => mret (Some err)) w) as (w' & l & -> & Hst & _).
    by exists w', (Some err).
Qed.

Lemma hands_on_num c name o : (forall a, own_value o a = a) ->
  hands_on (num_result c name) (fun r => ANum (fst r) (snd r)) (fun r => ANum (fst r) (snd r)) o.
Proof.
  intros Ho [n [err|]] w Hs; unfold num_result; cbn [fst snd] in *; [|by exists w, (n, None); rewrite Ho].
  destruct (run_logError clock c (error_line c name err) (fun _ => mret (0, Some err)) w) as (w' & l & -> & Hst & _).
  exists w', (0, Some err). rewrite Ho. simpl in Hs. subst n. done.
Qed.

Lemma hands_on_get c k v :
  hands_on (fun r => get_result c (fst r, handed v (snd r))) (fun r => AVal (fst r) (snd r)) (fun r => AVal (fst r) (snd r)) (MGet k v).
Proof.
  intros [[err|] u] w Hs; unfold get_result; cbn [fst snd] in *; [|by exists w, (None, handed v u)].
  destruct (String.eqb_spec (Error err) (Error ErrCacheMiss)) as [He|He]; cbn [negb].
  - exists w, (Some ErrCacheMiss, handed v u). split; [done|]. split; [done|]. by destruct err.
  - match goal with |- context [run clock (logError c ?m ≫= ?k) w] =>
      destruct (run_logError clock c m k w) as (w' & l & -> & Hst & _) end.
    by exists w', (Some err, handed v u).
Qed.

(** The calls of the facade, as the one call of the store they make. *)
Definition relays c (o : mop) (q : prog E answer) : Prop := forall w, exists w1,
  w_state w1 = w_state w /\ w_tick w1 = w_tick w /\
  forall a w', run clock q w1 = (a, w') -> sentinel a ->
    exists w'', run clock (cs_do c o) w = (own_value o a, w'') /\ w_state w'' = w_state w' /\ (w_tick w' <= w_tick w'')%nat.

Lemma relays_intro {A B} c o (q : prog E A) (p : A -> prog E B) f g : hands_on p f g o ->
  (forall w, exists w1, run clock (cs_do c o) w = run clock (r ← (r ← q; p r); mret (g r)) w1 /\
     w_state w1 = w_state w /\ w_tick w1 = w_tick w) ->
  relays c o (r ← q; mret (f r)).
Proof.
  intros Hp Hrun w. destruct (Hrun w) as (w1 & Hr & Hst & Ht). exists w1. split; [done|]. split; [done|].
  intros a w' Hq Hs. rewrite Hr. by eapply run_handed.
Qed.

(** Skip the debug line at the head of a method. *)
Lemma run_debug {A B} c m (f : unit -> prog E A) (g : A -> prog E B) w :
  exists w1, run clock ((logDebug c m ≫= f) ≫= g) w = run clock (f tt ≫= g) w1 /\
    w_state w1 = w_state w /\ w_tick w1 = w_tick w.
Proof. unfold logDebug. destruct (Logger c); by eexists. Qed.

Ltac skip_debug := match goal with |- context [run clock ((logDebug ?c ?m ≫= ?f) ≫= ?g) ?w] =>
  let w1 := fresh "w" in let Hs := fresh "Hs" in let Ht := fresh "Ht" in
  destruct (run_debug c m f g w) as (w1 & -> & Hs & Ht); rewrite <- Hs, <- Ht; cbv beta end.

Lemma hands_on_after {A B} (p : A -> prog E B) (h : B -> prog E B) f g o :
  hands_on p f g o -> (forall b, h b = mret b) -> hands_on (fun a => p a ≫= h) f g o.
Proof.
  intros Hp Hh a w Hs. destruct (Hp a w Hs) as (w' & b & Hr & Hst & Hb). exists w', b.
  by rewrite (run_bind_done _ _ _ _ _ _ Hr), Hh.
Qed.

Lemma relays_Get c t k v : Cache c = CStore t -> plain_call c (MGet k v) ->
  relays c (MGet k v) (cs_do t (passed c (MGet k v))).
Proof.
  intros Hc [Hv Henc]. cbn [passed cs_do]. eapply relays_intro.
  - apply (hands_on_after (fun r => get_result c (fst r, handed v (snd r))) (afterwards gob_decode c v)); [apply hands_on_get|].
    intros [[err|] u]; destruct v as [| | | | | | | |[]|]; try done. unfold afterwards, open_entry. cbn [fst].
    cbn [entry_dest andb] in Henc. by rewrite Henc.
  - intros w. exists (debugged c (get_line c k v) w). destruct (debugged_same c (get_line c k v) w) as [-> ->].
    split; [|done]. cbn [cs_do facade GenericCache_CacheStore cs_Get].
    rewrite run_bind, (run_g_Get gob_decode clock c t) by done. by rewrite <- run_bind.
Qed.

Lemma facade_relays c t o : Cache c = CStore t -> plain_call c o -> relays c o (cs_do t (passed c o)).
Proof.
  intros Hc Ho. pose proof (not_nil c t Hc) as Hn. pose proof (the_store_eq (E := E) c t Hc) as Hst.
  destruct o as [k v|k v exp|k v exp|k v exp|k|k n|k n|]; [by apply relays_Get| | | | | | |done].
  - eapply relays_intro; [by apply (hands_on_error c "Set")|].
    intros w. cbn [cs_do facade GenericCache_CacheStore cs_Set]. unfold g_Set, set_store. rewrite Hn. cbn zeta.
    fold (g_resolve c exp). skip_debug. destruct (EncryptData c) eqn:He.
    + cbn [plain_call] in Ho. rewrite He, andb_true_r in Ho. unfold entry_type in Ho. rewrite Ho.
      skip_debug. rewrite Hst. by eexists.
    + rewrite Hst. by exists w0.
  - eapply relays_intro; [by apply (hands_on_error c "Add")|].
    intros w. cbn [cs_do facade GenericCache_CacheStore cs_Add]. unfold g_Add. rewrite Hn. cbn zeta.
    fold (g_resolve c exp). skip_debug. rewrite Hst. by exists w0.
  - eapply relays_intro; [by apply (hands_on_error c "Replace")|].
    intros w. cbn [cs_do facade GenericCache_CacheStore cs_Replace]. unfold g_Replace. rewrite Hn. cbn zeta.
    fold (g_resolve c exp). skip_debug. skip_debug. rewrite Hst. by exists w1.
  - eapply relays_intro; [apply (hands_on_delete c)|].
    intros w. cbn [cs_do facade GenericCache_CacheStore cs_Delete]. unfold g_Delete. rewrite Hn. cbn zeta.
    skip_debug. rewrite Hst. by exists w0.
  - eapply relays_intro; [by apply (hands_on_num c "Increment")|].
    intros w. cbn [cs_do facade GenericCache_CacheStore cs_Increment]. unfold g_Increment. rewrite Hn. cbn zeta.
    skip_debug. rewrite Hst. by exists w0.
  - eapply relays_intro; [by apply (hands_on_num c "Decrement")|].
    intros w. cbn [cs_do facade GenericCache_CacheStore cs_Decrement]. unfold g_Decrement. rewrite Hn. cbn zeta.
    skip_debug. rewrite Hst. by exists w0.
Qed.

End run.

(** A call that is passed on, in terms of the specification of the store. *)
Lemma facade_passes c t o clock w m : plain_call c o -> ms_accepts t (passed c o) ->
  Cache c = CStore t -> ms_holds t (w_state w) m ->
  let spec := spec_mop (ms_default t) (clock (w_tick w)) (passed c o) m in
  exists w' m', run clock (cs_do (H := GenericCache_CacheStore gob_encode gob_decode) c o) w = (own_value o spec.1, w') /\
    ms_holds t (w_state w') m' /\ forgets (op_of o) m' spec.2.
Proof.
  intros Ho Hacc Hc Hm. destruct (facade_relays clock c t o Hc Ho w) as (w1 & Hst & Ht & Hrelay). rewrite <- Hst in Hm.
  destruct (ms_step t (passed c o) clock w1 m Hacc Hm) as (w2 & m' & Hr & Hm' & Hf).
  destruct (Hrelay _ _ Hr (spec_sentinel _ _ _ _)) as (w3 & Hrun & Hst3 & _).
  rewrite Ht in *. exists w3, m'. split; [exact Hrun|]. rewrite Hst3.
  split; [done|]. destruct Hf as [Hsub Hk]. split; [done|]. intros k Hok. apply Hk. rewrite <- Hok. by destruct o.
Qed.

(** A facade whose store is a [MapStore] is one, with its own default duration. *)
Lemma facade_step c t o clock w m : gDefaultExp c <> FOREVER -> plain_call c o -> ms_accepts t (passed c o) ->
  Cache c = CStore t -> ms_holds t (w_state w) m ->
  exists w' m', run clock (cs_do (H := GenericCache_CacheStore gob_encode gob_decode) c o) w =
      ((spec_mop (facade_default c t) (clock (w_tick w)) o m).1, w') /\
    ms_holds t (w_state w') m' /\ forgets (op_of o) m' (spec_mop (facade_default c t) (clock (w_tick w)) o m).2.
Proof. intros Hg Ho Hacc Hc Hm. rewrite spec_passed by done. by apply facade_passes. Qed.

Definition facade_MapStore : @MapStore E (GenericCache T R) S _ (GenericCache_CacheStore gob_encode gob_decode).
Proof.
  refine {|
    ms_holds c s m := exists t, Cache c = CStore t /\ ms_holds t s m;
    ms_default c := match Cache c with CStore t => facade_default c t | _ => 0 end;
    ms_accepts c o := gDefaultExp c <> FOREVER /\ plain_call c o /\
      forall t, Cache c = CStore t -> ms_accepts t (passed c o) |}.
  intros c o clock w m (Hg & Ho & Hacc) (t & Hc & Hm). rewrite Hc.
  destruct (facade_step c t o clock w m Hg Ho (Hacc t Hc) Hc Hm) as (w' & m' & Hr & Hm' & Hf).
  exists w', m'. split; [done|]. split; [by exists t|done].
Defined.
End facade.

(** ** One key of a store

    [at_key t w k e]: the store has exactly [e] under [k]. *)
Section keys.
Context {E : Type -> Type} {T S : Type} `{MS : MapStore E T S} (clock : nat -> Z) (t : T).
Implicit Types (w : world S) (k : string) (e : option GenericCacheEntry).

Definition at_key w k e : Prop := exists m, ms_holds t (w_state w) m /\ m !! k = e.

Lemma key_step o k w e : ms_accepts t o -> op_key (op_of o) = Some k -> at_key w k e ->
  exists m w', m !! k = e /\ run clock (cs_do t o) w = ((spec_mop (ms_default t) (clock (w_tick w)) o m).1, w') /\
    at_key w' k ((spec_mop (ms_default t) (clock (w_tick w)) o m).2 !! k) /\ (w_tick w <= w_tick w')%nat.
Proof.
  intros Ho Hk (m & Hm & He). destruct (ms_step t o clock w m Ho Hm) as (w' & m' & Hr & Hm' & _ & Hk').
  exists m, w'. split; [done|]. split; [done|]. split; [exists m'; split; [done|by apply Hk']|].
  pose proof (run_tick clock (cs_do t o) w) as Ht. by rewrite Hr in Ht.
Qed.

(** What the method [p] answers and leaves under [k]. *)
Definition answers {A} (p : prog E A) w k (a : A) e : Prop :=
  exists w', run clock p w = (Done a, w') /\ at_key w' k e /\ (w_tick w <= w_tick w')%nat.

Lemma key_answers {A} (p : prog E A) (f : A -> answer) o k w e a e' :
  cs_do t o = (r ← p; mret (f r)) -> Inj (=) (=) f ->
  ms_accepts t o -> op_key (op_of o) = Some k -> at_key w k e ->
  (forall m, m !! k = e -> (spec_mop (ms_default t) (clock (w_tick w)) o m).1 = Done (f a) /\
    (spec_mop (ms_default t) (clock (w_tick w)) o m).2 !! k = e') ->
  answers p w k a e'.
Proof.
  intros Hdo Hinj Ho Hk Hw Hspec. destruct (key_step o k w e Ho Hk Hw) as (m & w' & Hm & Hr & Hw' & Ht).
  destruct (Hspec m Hm) as [Ha He]. rewrite Ha, Hdo in Hr. rewrite He in Hw'.
  destruct (run_wrap clock p f w _ _ Hr) as [(r & Hp & Hf)|(msg & _ & Hf)]; [|done].
  injection Hf as Hf. apply Hinj in Hf. subst r. by exists w'.
Qed.


(** The entry [Set] leaves. *)
Abbreviation stamped v exp w := (stamp (mkInMemoryStore 0 (ms_default t)) v exp (clock (w_tick w))).

Lemma key_Set k v exp w e : ms_accepts t (MSet k v exp) -> own_entry v = true -> at_key w k e ->
  answers (cs_Set t k v exp) w k None (Some (stamped v exp w)).
Proof.
  intros Ho Hv Hw. eapply (key_answers _ AErr (MSet k v exp)); [done|apply _|done|done|done|].
  intros m Hm. unfold spec_mop. cbn [op_of spec_op]. unfold spec_set. rewrite Hv. split; [done|]. apply lookup_insert_eq.
Qed.

Lemma key_Add k v exp w e : ms_accepts t (MAdd k v exp) -> own_entry v = true -> at_key w k e ->
  answers (cs_Add t k v exp) w k (match e with Some _ => Some ErrNotStored | None => None end)
    (match e with Some _ => e | None => Some (stamped v exp w) end).
Proof.
  intros Ho Hv Hw. eapply (key_answers _ AErr (MAdd k v exp)); [done|apply _|done|done|done|].
  intros m Hm. unfold spec_mop. cbn [op_of spec_op]. unfold spec_set. rewrite Hm, Hv. destruct e; [done|].
  split; [done|]. apply lookup_insert_eq.
Qed.

Lemma key_Replace k v exp w e : ms_accepts t (MReplace k v exp) -> own_entry v = true -> at_key w k e ->
  answers (cs_Replace t k v exp) w k (match e with Some _ => None | None => Some ErrNotStored end)
    (match e with Some _ => Some (stamped v exp w) | None => None end).
Proof.
  intros Ho Hv Hw. eapply (key_answers _ AErr (MReplace k v exp)); [done|apply _|done|done|done|].
  intros m Hm. unfold spec_mop. cbn [op_of spec_op]. unfold spec_set. rewrite Hm, Hv. destruct e; [|done].
  split; [done|]. apply lookup_insert_eq.
Qed.

Lemma key_Delete k w e : ms_accepts t (MDelete k) -> at_key w k e ->
  answers (cs_Delete t k) w k (match e with Some _ => None | None => Some ErrCacheMiss end) None.
Proof.
  intros Ho Hw. eapply (key_answers _ AErr (MDelete k)); [done|apply _|done|done|done|].
  intros m Hm. unfold spec_mop. cbn [op_of spec_op]. rewrite Hm. split; [by destruct e|]. destruct e; [apply lookup_delete_eq|done].
Qed.

(** A [Get] that does not find a live entry. *)
Lemma key_Get_miss k v w e : ms_accepts t (MGet k v) -> at_key w k e ->
  (forall x, e = Some x -> live (clock (w_tick w)) x = false) ->
  answers (cs_Get t k v) w k (Some ErrCacheMiss, v) None.
Proof.
  intros Ho Hw Hdead. eapply (key_answers _ (fun r => AVal (fst r) (snd r)) (MGet k v)); [done|apply _|done|done|done|].
  intros m Hm. unfold spec_mop. cbn [op_of spec_op]. rewrite Hm. destruct e as [x|]; [|done].
  rewrite Hdead by done. split; [done|]. apply lookup_delete_eq.
Qed.

Lemma key_Get_hit k v w x v' : ms_accepts t (MGet k v) -> at_key w k (Some x) ->
  live (clock (w_tick w)) x = true -> deliver v x = Done (AVal None v') ->
  answers (cs_Get t k v) w k (None, v') (Some x).
Proof.
  intros Ho Hw Hlive Hd. eapply (key_answers _ (fun r => AVal (fst r) (snd r)) (MGet k v)); [done|apply _|done|done|done|].
  intros m Hm. unfold spec_mop. cbn [op_of spec_op]. by rewrite Hm, Hlive, Hd.
Qed.

Lemma key_Increment k n w d a x : ms_accepts t (MIncrement k n) -> at_key w k (Some (mkEntry (VInt Int d) a x)) ->
  answers (cs_Increment t k n) w k (uint64 (int64 (d + n)), None) (Some (mkEntry (VInt Int (int64 (d + n))) a x)).
Proof.
  intros Ho Hw. eapply (key_answers _ (fun r => ANum (fst r) (snd r)) (MIncrement k n)); [done|apply _|done|done|done|].
  intros m Hm. unfold spec_mop. cbn [op_of spec_op]. unfold spec_arith. rewrite Hm. split; [done|]. apply lookup_insert_eq.
Qed.

Lemma key_Decrement k n w d a x : ms_accepts t (MDecrement k n) -> at_key w k (Some (mkEntry (VInt Int d) a x)) ->
  let r := if d <? int64 n then 0 else int64 (d - n) in
  answers (cs_Decrement t k n) w k (uint64 r, None) (Some (mkEntry (VInt Int r) a x)).
Proof.
  intros Ho Hw r. eapply (key_answers _ (fun r => ANum (fst r) (snd r)) (MDecrement k n)); [done|apply _|done|done|done|].
  intros m Hm. unfold spec_mop. cbn [op_of spec_op]. unfold spec_arith. rewrite Hm. split; [done|]. apply lookup_insert_eq.
Qed.

Lemma key_arith_miss k n w : ms_accepts t (MIncrement k n) -> ms_accepts t (MDecrement k n) -> at_key w k None ->
  answers (cs_Increment t k n) w k (0, Some ErrCacheMiss) None /\ answers (cs_Decrement t k n) w k (0, Some ErrCacheMiss) None.
Proof.
  intros Hi Hd Hw. split.
  - eapply (key_answers _ (fun r => ANum (fst r) (snd r)) (MIncrement k n)); [done|apply _|done|done|done|].
    intros m Hm. unfold spec_mop. cbn [op_of spec_op]. unfold spec_arith. by rewrite Hm.
  - eapply (key_answers _ (fun r => ANum (fst r) (snd r)) (MDecrement k n)); [done|apply _|done|done|done|].
    intros m Hm. unfold spec_mop. cbn [op_of spec_op]. unfold spec_arith. by rewrite Hm.
Qed.
End keys.
