(* ===== verification/FacadeSpec.v ===== *)
(** * [GenericCache] in front of a store that behaves as a map

    [spec_facade] says of every call of the facade, on every branch, what it answers and
    what it does to the map its store stands for: which calls it passes on and with which
    duration, what it refuses, and what it encrypts and decrypts.  The facade refines it
    in front of any [MapStore]. *)

From stdpp Require Import gmap strings.
From Stdlib Require Import Strings.Byte.
From S2P Require Import Prelude LruInterface GoValues GoFmt Bytes InMemory InMemoryProps Pkcs Crypto Generic GenericProps MapStore.
Local Open Scope Z_scope.

(** ** The specification *)
Section specification.
Context {T R : Type} (gob_encode : goval -> error + list byte) (gob_decode : list byte -> error + goval).
Implicit Types (c : GenericCache T R) (m : gmap string GenericCacheEntry).

(** The cipher text of encoded data, and the data again. *)
Definition sealed c (b : list byte) : outcome (error + list byte) :=
  match Padding b 16 with
  | Crash msg => Crash msg
  | Done padded =>
      match encryptByteArray padded (sharedSecret c) with
      | Crash msg => Crash msg
      | Done (inl err) => Done (inl (ErrMsg ("GenericCache.encryptEntry: can't encrypt data: " +:+ Error err)))
      | Done (inr ct) => Done (inr ct)
      end
  end.

Definition unsealed c (ct : list byte) : outcome (error + list byte) :=
  match decryptByteArray ct (sharedSecret c) with
  | Crash msg => Crash msg
  | Done (inl err) => Done (inl (ErrMsg ("GenericCache.decryptEntry: can't decrypt data: " +:+ Error err)))
  | Done (inr padded) =>
      match Unpadding padded 16 with
      | Crash msg => Crash msg
      | Done (inl err) => Done (inl (ErrMsg ("GenericCache.decryptEntry: can't unpadding error: " +:+ Error err)))
      | Done (inr b) => Done (inr b)
      end
  end.

(** An entry found by an encrypting cache. *)
Definition opened_entry c (a : outcome answer) : outcome answer :=
  match a with
  | Done (AVal None (VPtr (VEntry data added expires))) =>
      match data with
      | VBytes ct =>
          match unsealed c ct with
          | Crash msg => Crash msg
          | Done (inl err) => Done (AVal (Some err) (VPtr (VEntry data added expires)))
          | Done (inr b) =>
              match gob_decode b with
              | inl err => Done (AVal (Some err) (VPtr (VEntry data added expires)))
              | inr v => Done (AVal None (VPtr (VEntry v added expires)))
              end
          end
      | _ => Crash (not_a "[]uint8")
      end
  | _ => a
  end.

(** The call [o] of a cache in front of a store with default duration [d]; [ts] are the
    readings of the clock. *)
Definition spec_facade c (d : Z) (ts : nat -> Z) (o : mop) m : outcome answer * gmap string GenericCacheEntry :=
  match o with
  | MGet k v =>
      if takes v then
        let '(a, m') := spec_mop d (ts 0%nat) (MGet k (asked v)) m in
        (own_value o (if entry_dest v && EncryptData c then opened_entry c a else a), m')
      else
        match asserted (typeof v) with
        | Some ty => (Crash (not_a ty), m)
        | None => (Done (AVal (Some ErrNotSupport) v), m)
        end
  | MSet k v exp =>
      if entry_type (typeof v) && EncryptData c then
        match as_entry v with
        | None => (Crash (not_a "cache.GenericCacheEntry"), m)
        | Some e =>
            match gob_encode (Data e) with
            | inl err => (Done (AErr (Some err)), m)
            | inr b =>
                match sealed c b with
                | Crash msg => (Crash msg, m)
                | Done (inl err) => (Done (AErr (Some err)), m)
                | Done (inr ct) => spec_mop d (ts 1%nat) (MSet k (VBytes ct) (g_resolve c exp)) m
                end
            end
        end
      else spec_mop d (ts 0%nat) (MSet k v (g_resolve c exp)) m
  | MAdd k v exp => spec_mop d (ts 0%nat) (MAdd k v (g_resolve c exp)) m
  | MReplace k v exp => spec_mop d (ts 0%nat) (MReplace k v (g_resolve c exp)) m
  | o => spec_mop d (ts 0%nat) o m
  end.
End specification.

(** ** Refinement *)
Section refinement.
Context {E : Type -> Type} {T R S : Type} `{Handler E S, CacheStore E T, CacheStore E R, !RedisOps E R, !MapStore E T S}.
Context (gob_encode : goval -> error + list byte) (gob_decode : list byte -> error + goval) (clock : nat -> Z).
Context (c : GenericCache T R) (t : T) (Hc : Cache c = CStore t) (Hacc : forall o, ms_accepts t o).
#[local] Instance facade_calls : CacheStore E (GenericCache T R) := GenericCache_CacheStore gob_encode gob_decode.
Implicit Types (w : world S) (m : gmap string GenericCacheEntry).

(** [o] is refined from [w], where the store stands for [m]. *)
Definition refines o w m : Prop :=
  let spec := spec_facade gob_encode gob_decode c (ms_default t) (fun i => clock (w_tick w + i)) o m in
  exists w' m', run clock (cs_do c o) w = (spec.1, w') /\ ms_holds t (w_state w') m' /\ forgets (op_of o) m' spec.2.

Lemma forgets_refl o m : forgets o m m.
Proof. by split. Qed.

(** The pure part of the encryption, which may log. *)
Lemma run_encryptEntry b w : EncryptData c = true ->
  exists w', run clock (encryptEntry c b) w = (sealed c b, w') /\ w_state w' = w_state w /\ w_tick w' = w_tick w.
Proof.
  intros He. unfold encryptEntry, sealed. rewrite He. destruct (Padding b 16) as [padded|msg]; [|by exists w]. cbn [lift].
  rewrite bind_mret. destruct (encryptByteArray padded (sharedSecret c)) as [[err|ct]|msg]; cbn [lift]; rewrite ?bind_mret; try by exists w.
  rewrite run_complained. by eexists.
Qed.

Lemma run_decryptEntry b w : EncryptData c = true ->
  exists w', run clock (decryptEntry c b) w = (unsealed c b, w') /\ w_state w' = w_state w.
Proof.
  intros He. unfold decryptEntry, unsealed. rewrite He.
  destruct (decryptByteArray b (sharedSecret c)) as [[err|padded]|msg]; cbn [lift]; rewrite ?bind_mret; [|..|by exists w].
  - rewrite run_complained. by eexists.
  - destruct (Unpadding padded 16) as [[err|d]|msg]; cbn [lift]; rewrite ?bind_mret; try by exists w.
    rewrite run_complained. by eexists.
Qed.

(** Calls that are passed on. *)
Lemma facade_plain o w m : plain_call c o -> ms_holds t (w_state w) m ->
  spec_facade gob_encode gob_decode c (ms_default t) (fun i => clock (w_tick w + i)) o m =
    (own_value o (spec_mop (ms_default t) (clock (w_tick w)) (passed c o) m).1,
     (spec_mop (ms_default t) (clock (w_tick w)) (passed c o) m).2) ->
  refines o w m.
Proof. intros Ho Hm Hspec. unfold refines. cbn zeta. rewrite Hspec. by apply facade_passes. Qed.

Lemma facade_flush w m : ms_holds t (w_state w) m -> refines MFlush w m.
Proof.
  intros Hm. unfold refines. cbn [spec_facade cs_do facade_calls GenericCache_CacheStore cs_Flush]. unfold g_Flush.
  rewrite (not_nil c t Hc). rewrite run_bind, run_debugged, (the_store_eq c t Hc), bind_mret. cbn [st_Flush].
  set (w1 := debugged c _ w). destruct (debugged_same c ("GenericCache.Flush: flushing all keys for " +:+ LT c +:+ " key") w) as [Hs Ht].
  fold w1 in Hs, Ht. rewrite <- Hs in Hm.
  destruct (ms_step t MFlush clock w1 m (Hacc _) Hm) as (w2 & m' & Hr & Hm' & Hf).
  destruct (run_wrap clock (cs_Flush t) AErr w1 _ _ Hr) as [(r & Hq & _)|(msg & _ & Hbad)]; [|done].
  rewrite (run_bind_done _ _ _ _ _ _ Hq). by exists w2, m'.
Qed.
(** A destination the facade does not take. *)
Lemma facade_not_taken k v w m : takes v = false -> ms_holds t (w_state w) m -> refines (MGet k v) w m.
Proof.
  intros Hv Hm. unfold refines. cbn [spec_facade cs_do facade_calls GenericCache_CacheStore cs_Get]. rewrite Hv.
  rewrite run_bind, (run_g_Get_not_taken gob_decode clock c t) by done. destruct (debugged_same c (get_line c k v) w) as [Hs _].
  destruct (asserted (typeof v)); eexists _, m; (split; [reflexivity|]); (split; [|apply forgets_refl]);
    cbn [complained add_log w_state]; by rewrite Hs.
Qed.

(** An entry read by an encrypting cache. *)
Lemma run_open_entry e w : EncryptData c = true -> exists w',
  run clock (r ← open_entry gob_decode c (None, VPtr (of_entry e)); mret (AVal (fst r) (snd r))) w =
    (opened_entry gob_decode c (Done (AVal None (VPtr (of_entry e)))), w') /\ w_state w' = w_state w.
Proof.
  intros He. destruct e as [data added expires]. unfold open_entry, opened_entry, of_entry. cbn [fst snd Data TimeAdded ExpiresAt].
  rewrite He. cbn [as_ptr as_entry]. rewrite run_bind, bind_assert_Some. cbn [Data].
  destruct data as [| | | |ct| | | | |]; try (by exists w). cbn [as_bytes]. rewrite bind_assert_Some.
  destruct (run_decryptEntry ct w He) as (w1 & Hr & Hs). rewrite run_bind, Hr.
  destruct (unsealed c ct) as [[err|b]|msg]; [|destruct (gob_decode b); by exists w1|by exists w1].
  rewrite run_complained. by eexists.
Qed.

Lemma spec_get_entry d tm k data added expires u m :
  (spec_mop d tm (MGet k (VPtr (VEntry data added expires))) m).1 = Done (AVal None u) -> exists e, u = VPtr (of_entry e).
Proof.
  unfold spec_mop. cbn [op_of spec_op]. destruct (m !! k) as [e|]; [|done]. destruct (live tm e); [|done].
  cbn [fst deliver]. intros [= <-]. by exists e.
Qed.

Lemma run_encrypted_get k data added expires w a w2 :
  let v := VPtr (VEntry data added expires) in
  EncryptData c = true -> run clock (cs_do t (MGet k v)) w = (a, w2) -> sentinel a ->
  (forall u, a = Done (AVal None u) -> exists e, u = VPtr (of_entry e)) ->
  exists w3, run clock (r ← (r ← cs_Get t k v; r ← get_result c (fst r, handed v (snd r)); afterwards gob_decode c v r);
      mret (AVal (fst r) (snd r))) w = (opened_entry gob_decode c a, w3) /\ w_state w3 = w_state w2.
Proof.
  intros v He Hr Hsent Hentry. rewrite !run_bind.
  destruct (run_wrap clock (cs_Get t k v) (fun r => AVal (fst r) (snd r)) w a w2 Hr) as [([[err|] u] & Hq & ->)|(msg & Hq & ->)];
    rewrite Hq; cbn [fst snd]; [| |by exists w2].
  - destruct (hands_on_get clock c k v (Some err, u) w2 Hsent) as (w3 & [e' u'] & Hg & Hs & Hb). cbn [fst snd own_value] in Hb.
    injection Hb as -> ->. rewrite run_bind. cbn [fst snd] in Hg. rewrite Hg. by exists w3.
  - destruct (Hentry u eq_refl) as [e ->]. destruct (run_open_entry e w2 He) as (w3 & Ho & Hs3). rewrite run_bind in Ho.
    exists w3. split; [|done]. rewrite <- Ho. done.
Qed.

Lemma facade_encrypted_get k v w m : entry_dest v = true -> EncryptData c = true -> ms_holds t (w_state w) m ->
  refines (MGet k v) w m.
Proof.
  intros Hv He Hm. destruct v as [| | | | | | | |[| | | | |d a x| | | |]|]; try done. clear Hv. set (v := VPtr (VEntry d a x)).
  set (w1 := debugged c (get_line c k v) w). destruct (debugged_same c (get_line c k v) w) as [Hs Ht]. fold w1 in Hs, Ht.
  rewrite <- Hs in Hm. destruct (ms_step t (MGet k v) clock w1 m (Hacc _) Hm) as (w2 & m' & Hr & Hm' & Hf). rewrite Ht in Hr, Hf.
  destruct (run_encrypted_get k d a x w1 _ w2 He Hr (spec_sentinel _ _ _ _)) as (w3 & Hrun & Hs3).
  { intros u. apply spec_get_entry. }
  exists w3, m'. cbn [spec_facade cs_do facade_calls GenericCache_CacheStore cs_Get]. change (takes v) with true.
  cbn [entry_dest andb v]. fold v. rewrite He, Nat.add_0_r. change (asked v) with v.
  destruct (spec_mop _ _ (MGet k v) m) as [ans m1]. cbn [fst snd] in *. rewrite own_value_same by done.
  rewrite run_bind, (run_g_Get gob_decode clock c t) by done. fold w1. rewrite <- run_bind, Hs3. done.
Qed.

(** An entry set in an encrypting cache. *)
Lemma facade_encrypted_set k v exp w m : entry_type (typeof v) = true -> EncryptData c = true -> ms_holds t (w_state w) m ->
  refines (MSet k v exp) w m.
Proof.
  intros Hv He Hm. unfold refines. cbn [spec_facade cs_do facade_calls GenericCache_CacheStore cs_Set].
  rewrite Hv, He. cbn [andb]. unfold g_Set. rewrite (not_nil c t Hc), He. cbn zeta. unfold entry_type in Hv. rewrite Hv.
  fold (g_resolve c exp). rewrite run_bind, !run_debugged.
  match goal with |- context [run clock _ (debugged c ?m2 (debugged c ?m1 w))] =>
    destruct (debugged_same c m1 w) as [Hs1 Ht1]; destruct (debugged_same c m2 (debugged c m1 w)) as [Hs2 Ht2];
    set (w1 := debugged c m2 (debugged c m1 w)) in * end. rewrite Hs1 in Hs2. rewrite Ht1 in Ht2.
  rewrite <- Hs2 in Hm. destruct (as_entry v) as [e|]; [|by exists w1, m]. rewrite bind_assert_Some.
  destruct (gob_encode (Data e)) as [err|b]; [by exists w1, m|]. rewrite run_bind.
  destruct (run_encryptEntry b w1 He) as (w3 & Hr & Hs3 & Ht3). rewrite Hr. rewrite <- Hs3 in Hm.
  destruct (sealed c b) as [[err|ct]|msg]; [|..|by exists w3, m].
  { rewrite run_complained. by eexists _, m. }
  unfold NewGenericCacheEntry. cbn zeta. rewrite run_bind, run_time_Now, run_mret.
  unfold set_store. rewrite (the_store_eq c t Hc), bind_mret. cbn [st_Set].
  set (data := of_entry _). rewrite <- run_bind.
  destruct (ms_step t (MSet k data (g_resolve c exp)) clock (tick w3) m (Hacc _) Hm) as (w4 & m' & Hr4 & Hm' & Hf).
  assert (w_tick (tick w3) = (w_tick w + 1)%nat) as Ht4 by (simpl; lia). rewrite Ht4 in Hr4, Hf.
  destruct (run_handed clock _ _ _ _ (MSet k v exp) _ _ _ (hands_on_error clock c "Set" (MSet k v exp) (fun a => eq_refl)) Hr4
    (spec_sentinel _ _ _ _)) as (w5 & Hr5 & Hs5 & _).
  exists w5, m'. split; [exact Hr5|]. by rewrite Hs5.
Qed.

(** Every call of the facade. *)
Lemma facade_refines o w m : ms_holds t (w_state w) m -> refines o w m.
Proof.
  intros Hm. destruct o as [k v|k v exp|k v exp|k v exp|k|k n|k n|]; [| |apply facade_plain..|by apply facade_flush]; try done;
    cbn [spec_facade passed]; rewrite ?own_value_not_get, ?Nat.add_0_r by done; try by destruct (spec_mop _ _ _ _).
  - destruct (takes v) eqn:Hv; [|by apply facade_not_taken]. destruct (entry_dest v && EncryptData c) eqn:He.
    + apply andb_prop in He as []. by apply facade_encrypted_get.
    + apply facade_plain; [done|done|]. cbn [spec_facade passed]. rewrite Hv, He, Nat.add_0_r. by destruct (spec_mop _ _ _ _).
  - destruct (entry_type (typeof v) && EncryptData c) eqn:He.
    + apply andb_prop in He as []. by apply facade_encrypted_set.
    + apply facade_plain; [done|done|]. cbn [spec_facade passed]. rewrite He, own_value_not_get, Nat.add_0_r by done.
      by destruct (spec_mop _ _ _ _).
Qed.
End refinement.

(** ** In front of [InMemoryStore] *)

(** C2. A [GenericCache] in front of an [InMemoryStore] refines [spec_facade]: every call
    of [Get], [Set], [Add], [Replace], [Delete], [Increment], [Decrement] and [Flush], of
    any value and destination, encrypting or not, answers (or panics) as specified and
    leaves the store standing for the specified map, less evicted entries of other keys.
    The specification passes a call on to the map of the store with the facade's default
    in place of a duration of 0; refuses destinations [Get] does not take; and, in an
    encrypting cache, stores the cipher text of the data of entries (or answers why it
    could not be made) and decrypts the data of entries found. *)
Theorem facade_refines_spec {R} `{CacheStore memE R, !RedisOps memE R} gob_encode gob_decode
    (c : GenericCache InMemoryStore R) s o clock (w : world mem) m :
  Cache c = CStore s -> holds s w m ->
  let spec := spec_facade gob_encode gob_decode c (DefaultExp s) (fun i => clock (w_tick w + i)%nat) o m in
  exists w' m', run clock (cs_do (H := GenericCache_CacheStore gob_encode gob_decode) c o) w = (spec.1, w') /\
    holds s w' m' /\ m' ⊆ spec.2 /\ (forall k, op_key (op_of o) = Some k -> m' !! k = spec.2 !! k).
Proof.
  intros Hc Hw. assert (forall o, ms_accepts s o) as Hacc by done.
  destruct (facade_refines gob_encode gob_decode clock c s Hc Hacc o w m Hw) as (w' & m' & Hr & Hw' & Hs & Hk).
  by exists w', m'.
Qed.

(** An entry set for an hour, which the store has encrypted, and read again. *)
Definition sealed_entry : gmap string GenericCacheEntry :=
  (spec_facade enc1 dec1 gc1 (DefaultExp c2) clk (MSet "k" (VEntry (VString "v") 0 0) DEFAULT) ∅).2.

Lemma facade_refines_spec_witness : exists w1 m1 w2,
  run clk (cs_do (H := GenericCache_CacheStore enc1 dec1) gc1 (MSet "k" (VEntry (VString "v") 0 0) DEFAULT)) w_empty = (Done (AErr None), w1) /\
  holds c2 w1 m1 /\ m1 !! "k" = sealed_entry !! "k" /\
  run (fun _ => clk 0) (cs_do (H := GenericCache_CacheStore enc1 dec1) gc1 (MGet "k" (VPtr (VEntry VNil 0 0)))) w1 =
    (Done (AVal None (VPtr (VEntry (VString "v") 1700000001 1700003601))), w2).
Proof.
  destruct (facade_refines_spec enc1 dec1 gc1 c2 (MSet "k" (VEntry (VString "v") 0 0) DEFAULT) clk w_empty ∅)
    as (w1 & m1 & Hr1 & Hw1 & _ & Hk1); [reflexivity|apply w_empty_holds|].
  destruct (facade_refines_spec enc1 dec1 gc1 c2 (MGet "k" (VPtr (VEntry VNil 0 0))) (fun _ => clk 0) w1 m1)
    as (w2 & m2 & Hr2 & _); [reflexivity|exact Hw1|].
  specialize (Hk1 "k" eq_refl).
  exists w1, m1, w2. split; [exact Hr1|]. split; [exact Hw1|]. split; [exact Hk1|].
  rewrite Hr2. f_equal. unfold spec_facade, spec_mop. cbn [op_of spec_op takes asked]. rewrite Hk1. vm_compute. reflexivity.
Defined.
