(* ===== verification/RobfigCache.v ===== *)
(** * persistence.InMemoryStore over robfig/go-cache

    robfig/go-cache keeps its items in a map behind one mutex.  A program over
    [itemE] works on the map; a method is a program over [lockE itemE], which takes
    and releases the mutex as the code does.  The store of persistence/inmemory.go
    wraps the cache. *)

From stdpp Require Import gmap strings.
From S2P Require Import Prelude Mutex LruInterface GoValues.
Local Open Scope Z_scope.

(** ** go-cache/cache.go *)
Definition ErrKeyExists : error := ErrMsg "item already exists".
Definition rc_ErrCacheMiss : error := ErrMsg "item not found".

Record item := mkItem { Object : goval; Expiration : option Z }.
#[global] Instance item_eq_dec : EqDecision item.
Proof. solve_decision. Defined.

(** The field of [cache] that never changes; [items] is the state. *)
Record cache := mkCache { cache_default : Z }.

Inductive itemE : Type -> Type :=
  | ItemLookup (k : string) : itemE (option item)
  | ItemPut (k : string) (i : item) : itemE unit
  | ItemDelete (k : string) : itemE unit
  | ItemsAll : itemE (gmap string item)
  | ItemsNew : itemE unit.

#[global] Instance itemE_handler : Handler itemE (gmap string item) := fun X e m =>
  match e in itemE X return X * gmap string item with
  | ItemLookup k => (m !! k, m)
  | ItemPut k i => (tt, <[k := i]> m)
  | ItemDelete k => (tt, delete k m)
  | ItemsAll => (m, m)
  | ItemsNew => (tt, ∅)
  end.

(** Under the mutex. *)
Definition item_Expired (i : item) : prog itemE bool :=
  match Expiration i with
  | None => mret false
  | Some t => now ← time_Now; mret (t <? now)
  end.

Definition rc_set (c : cache) (k : string) (x : goval) (d : Z) : prog itemE unit :=
  let d := if d =? 0 then cache_default c else d in
  e ← (if 0 <? d then now ← time_Now; mret (Some (now + d)) else mret None);
  call (ItemPut k (mkItem x e)).

Definition rc_get (k : string) : prog itemE (goval * bool) :=
  r ← call (ItemLookup k);
  match r with
  | None => mret (VNil, false)
  | Some i =>
      expired ← item_Expired i;
      if expired : bool then _ ← call (ItemDelete k); mret (VNil, false)
      else mret (Object i, true)
  end.

Definition not_integer (k : string) : error := ErrMsg ("The value for " +:+ k +:+ " is not an integer").

(** The switch of [Increment] and of [Decrement]: the new number of an integer of
    type [t]. *)
Definition incremented (t : inttype) (v n : Z) : Z := int_of_width t (v + int_of_width t n).
Definition decremented (t : inttype) (v n : Z) : Z :=
  if int_of_width t n <? v then int_of_width t (v - int_of_width t n) else 0.

Definition rc_change (f : inttype -> Z -> Z) (k : string) : prog itemE (Z * option error) :=
  r ← call (ItemLookup k);
  match r with
  | None => mret (0, Some rc_ErrCacheMiss)
  | Some v =>
      expired ← item_Expired v;
      if expired : bool then mret (0, Some rc_ErrCacheMiss)
      else
        match Object v with
        | VInt t x =>
            _ ← call (ItemPut k (mkItem (VInt t (f t x)) (Expiration v)));
            mret (uint64 (f t x), None)
        | _ => mret (0, Some (not_integer k))
        end
  end.

Fixpoint sweep (l : list (string * item)) : prog itemE unit :=
  match l with
  | [] => mret tt
  | (k, v) :: l =>
      expired ← item_Expired v;
      _ ← (if expired : bool then call (ItemDelete k) else mret tt);
      sweep l
  end.

(** The methods. *)
Definition inLock {A} (p : prog itemE A) : prog (lockE itemE) A := embed (fun X e => Inside e) p.

Definition rc_Set (c : cache) (k : string) (x : goval) (d : Z) : prog (lockE itemE) unit :=
  _ ← call Lock;
  _ ← inLock (rc_set c k x d);
  call Unlock.

Definition rc_Add (c : cache) (k : string) (x : goval) (d : Z) : prog (lockE itemE) (option error) :=
  _ ← call Lock;
  r ← inLock (rc_get k);
  if snd r : bool then
    _ ← call Unlock; mret (Some ErrKeyExists)
  else
    _ ← inLock (rc_set c k x d);
    _ ← call Unlock; mret None.

Definition rc_Replace (c : cache) (k : string) (x : goval) (d : Z) : prog (lockE itemE) (option error) :=
  _ ← call Lock;
  r ← inLock (rc_get k);
  if negb (snd r) then
    _ ← call Unlock; mret (Some (ErrMsg ("item " +:+ k +:+ " doesn't exist")))
  else
    _ ← inLock (rc_set c k x d);
    _ ← call Unlock; mret None.

Definition rc_Get (k : string) : prog (lockE itemE) (goval * bool) :=
  _ ← call Lock;
  r ← inLock (rc_get k);
  _ ← call Unlock; mret r.

Definition rc_Increment (k : string) (n : Z) : prog (lockE itemE) (Z * option error) :=
  atomically (rc_change (fun t v => incremented t v n) k).

Definition rc_Decrement (k : string) (n : Z) : prog (lockE itemE) (Z * option error) :=
  atomically (rc_change (fun t v => decremented t v n) k).

Definition rc_Delete (k : string) : prog (lockE itemE) bool :=
  _ ← call Lock;
  r ← inLock (rc_get k);
  _ ← inLock (call (ItemDelete k));
  _ ← call Unlock; mret (snd r).

Definition rc_Flush : prog (lockE itemE) unit :=
  _ ← call Lock;
  _ ← inLock (call ItemsNew);
  call Unlock.

(** [range_items] is the order in which [range] yields the entries of a map. *)
Definition rc_DeleteExpired (range_items : gmap string item -> list (string * item)) : prog (lockE itemE) unit :=
  _ ← call Lock;
  m ← inLock (call ItemsAll);
  _ ← inLock (sweep (range_items m));
  call Unlock.

Definition newCache (de : Z) : cache := mkCache (if de =? 0 then -1 else de).

(** ** persistence/inmemory.go *)
Record MemoryStore := mkMemoryStore { ms_cache : cache }.

(** [reflect.Value.Set] through a pointer: the types of the variable and of the
    value must be identical; a variable of type [interface{}] takes any value. *)
Definition same_type (old v : goval) : bool :=
  match old, v with
  | VString _, VString _ | VFloat64 _, VFloat64 _ | VBytes _, VBytes _ | VEntry _ _ _, VEntry _ _ _
  | VResponse _, VResponse _ | VIfacePtr _, VIfacePtr _ => true
  | VInt t _, VInt t' _ => bool_decide (t = t')
  | VOther t _, VOther t' _ => String.eqb t t'
  | VPtr a, VPtr b => String.eqb (typeof a) (typeof b)
  | _, _ => false
  end.

Definition not_assignable (v : goval) (tname : string) : string :=
  "reflect.Set: value of type " +:+ typeof v +:+ " is not assignable to type " +:+ tname.
Definition zero_Value (method : string) : string := "reflect: call of reflect.Value." +:+ method +:+ " on zero Value".

Definition pm_Get (c : MemoryStore) (key : string) (value : goval) : prog (lockE itemE) (option error * goval) :=
  r ← rc_Get key;
  if negb (snd r) then mret (Some ErrCacheMiss, value)
  else
    match value with
    | VNil => Panic (zero_Value "Type")
    | VPtr old =>
        if bool_decide (fst r = VNil) then Panic (zero_Value "Set")
        else if same_type old (fst r) then mret (None, VPtr (fst r))
        else Panic (not_assignable (fst r) (typeof old))
    | VIfacePtr _ => if bool_decide (fst r = VNil) then Panic (zero_Value "Set") else mret (None, VIfacePtr (fst r))
    | _ => mret (Some ErrNotStored, value)
    end.

Definition pm_Set (c : MemoryStore) (key : string) (value : goval) (expires : Z) : prog (lockE itemE) (option error) :=
  _ ← rc_Set (ms_cache c) key value expires;
  mret None.

Definition pm_Add (c : MemoryStore) (key : string) (value : goval) (expires : Z) : prog (lockE itemE) (option error) :=
  err ← rc_Add (ms_cache c) key value expires;
  if bool_decide (err = Some ErrKeyExists) then mret (Some ErrNotStored) else mret err.

Definition pm_Replace (c : MemoryStore) (key : string) (value : goval) (expires : Z)
    : prog (lockE itemE) (option error) :=
  err ← rc_Replace (ms_cache c) key value expires;
  match err with
  | Some _ => mret (Some ErrNotStored)
  | None => mret None
  end.

Definition pm_Delete (c : MemoryStore) (key : string) : prog (lockE itemE) (option error) :=
  found ← rc_Delete key;
  if negb found then mret (Some ErrCacheMiss) else mret None.

(** The end of [Increment] and of [Decrement]. *)
Definition pm_number (r : Z * option error) : Z * option error :=
  if bool_decide (snd r = Some rc_ErrCacheMiss) then (0, Some ErrCacheMiss) else r.

Definition pm_Increment (c : MemoryStore) (key : string) (n : Z) : prog (lockE itemE) (Z * option error) :=
  r ← rc_Increment key n;
  mret (pm_number r).

Definition pm_Decrement (c : MemoryStore) (key : string) (n : Z) : prog (lockE itemE) (Z * option error) :=
  r ← rc_Decrement key n;
  mret (pm_number r).

Definition pm_Flush (c : MemoryStore) : prog (lockE itemE) (option error) :=
  _ ← rc_Flush;
  mret None.

#[global] Instance MemoryStore_CacheStore : CacheStore (lockE itemE) MemoryStore := {|
  cs_Get := pm_Get; cs_Set := pm_Set; cs_Add := pm_Add; cs_Replace := pm_Replace; cs_Delete := pm_Delete;
  cs_Increment := pm_Increment; cs_Decrement := pm_Decrement; cs_Flush := pm_Flush |}.
