(* ===== verification/RobfigProps.v ===== *)
(** * What persistence.InMemoryStore guarantees

    The store refines a map whose entries vanish at their deadlines: entries that
    have expired but are still in [items], and sweeps that remove them, cannot be
    observed. *)

From stdpp Require Import gmap strings.
From S2P Require Import Prelude Interleave Mutex LruInterface GoValues GoFmt InMemory InMemoryProps MapStore RobfigCache.
Local Open Scope Z_scope.

(** ** What can be observed of the items at time [t] *)
Definition unexpired (t : Z) (i : item) : Prop := match Expiration i with Some e => t <= e | None => True end.
#[global] Instance unexpired_dec t i : Decision (unexpired t i).
Proof. unfold unexpired. destruct (Expiration i); apply _. Defined.

Definition visible (t : Z) (m : gmap string item) : gmap string item := filter (fun kv => unexpired t kv.2) m.

Section visible.
Implicit Types (m : gmap string item) (k : string) (i : item) (t : Z).

Lemma lookup_visible t m k : visible t m !! k =
  match m !! k with Some i => if decide (unexpired t i) then Some i else None | None => None end.
Proof.
  unfold visible. rewrite map_lookup_filter. destruct (m !! k) as [i|]; [|done]. simpl.
  unfold guard. by destruct (decide (unexpired t i)).
Qed.

Lemma unexpired_before t t' i : t <= t' -> unexpired t' i -> unexpired t i.
Proof. unfold unexpired. destruct (Expiration i); [lia|done]. Qed.

Lemma visible_insert t m m' k i : visible t m = visible t m' -> visible t (<[k := i]> m) = visible t (<[k := i]> m').
Proof.
  intros Hv. apply map_eq. intros k'. rewrite !lookup_visible, !lookup_insert. case_decide; [done|].
  by rewrite <- !lookup_visible, Hv.
Qed.

Lemma visible_delete t m m' k : visible t m = visible t m' -> visible t (delete k m) = visible t (delete k m').
Proof.
  intros Hv. apply map_eq. intros k'. rewrite !lookup_visible, !lookup_delete. case_decide; [done|].
  by rewrite <- !lookup_visible, Hv.
Qed.

(** Removing what is not visible. *)
Lemma visible_delete_gone t m k : visible t m !! k = None -> visible t (delete k m) = visible t m.
Proof.
  intros Hk. apply map_eq. intros k'. rewrite !lookup_visible, lookup_delete. case_decide as E; [|done].
  subst k'. by rewrite <- lookup_visible, Hk.
Qed.
End visible.

(** ** The specification

    [spec_pop d t0 t1 o m]: the answer of [o] and the map it leaves, for a store whose
    default duration is [d]; [t0] is when the key is looked up, [t1] when a value is
    stored. *)
Definition fresh_item (d t1 : Z) (v : goval) (exp : Z) : item :=
  let exp := if exp =? 0 then d else exp in mkItem v (if 0 <? exp then Some (t1 + exp) else None).

Definition assigned (value v : goval) : outcome answer :=
  match value with
  | VNil => Crash (zero_Value "Type")
  | VPtr old =>
      if bool_decide (v = VNil) then Crash (zero_Value "Set")
      else if same_type old v then Done (AVal None (VPtr v)) else Crash (not_assignable v (typeof old))
  | VIfacePtr _ => if bool_decide (v = VNil) then Crash (zero_Value "Set") else Done (AVal None (VIfacePtr v))
  | _ => Done (AVal (Some ErrNotStored) value)
  end.

Definition spec_number (f : inttype -> Z -> Z) (k : string) (t0 : Z) (m : gmap string item) : outcome answer * gmap string item :=
  match visible t0 m !! k with
  | None => (Done (ANum 0 (Some ErrCacheMiss)), m)
  | Some i =>
      match Object i with
      | VInt t x => (Done (ANum (uint64 (f t x)) None), <[k := mkItem (VInt t (f t x)) (Expiration i)]> m)
      | _ => (Done (ANum 0 (Some (not_integer k))), m)
      end
  end.

Definition spec_pop (d t0 t1 : Z) (o : mop) (m : gmap string item) : outcome answer * gmap string item :=
  match o with
  | MGet k value =>
      (match visible t0 m !! k with
       | None => Done (AVal (Some ErrCacheMiss) value)
       | Some i => assigned value (Object i)
       end, m)
  | MSet k v exp => (Done (AErr None), <[k := fresh_item d t1 v exp]> m)
  | MAdd k v exp =>
      match visible t0 m !! k with
      | Some _ => (Done (AErr (Some ErrNotStored)), m)
      | None => (Done (AErr None), <[k := fresh_item d t1 v exp]> m)
      end
  | MReplace k v exp =>
      match visible t0 m !! k with
      | Some _ => (Done (AErr None), <[k := fresh_item d t1 v exp]> m)
      | None => (Done (AErr (Some ErrNotStored)), m)
      end
  | MDelete k =>
      match visible t0 m !! k with
      | Some _ => (Done (AErr None), delete k m)
      | None => (Done (AErr (Some ErrCacheMiss)), m)
      end
  | MIncrement k n => spec_number (fun t v => incremented t v n) k t0 m
  | MDecrement k n => spec_number (fun t v => decremented t v n) k t0 m
  | MFlush => (Done (AErr None), ∅)
  end.

(** ** The bodies *)
Section bodies.
Context (clock : nat -> Z) (Hclock : monotone clock).
Implicit Types (m : gmap string item) (w : world (gmap string item)) (k : string).

(** From the next reading on, clients see [m]. *)
Definition shows w m : Prop := forall i, (w_tick w <= i)%nat -> visible (clock i) (w_state w) = visible (clock i) m.

Lemma shows_tick w m : shows w m -> shows (tick w) m.
Proof. intros Hw i Hi. apply Hw. simpl in Hi. lia. Qed.

Lemma shows_now w m k : shows w m -> visible (clock (w_tick w)) m !! k = visible (clock (w_tick w)) (w_state w) !! k.
Proof. intros Hw. by rewrite Hw. Qed.

(** What is expired now stays so. *)
Lemma shows_gone w m k : visible (clock (w_tick w)) m !! k = None -> shows w m -> shows (set_state w (delete k (w_state w))) m.
Proof.
  intros Hk Hw i Hi. simpl in *. rewrite visible_delete_gone; [by apply Hw|]. rewrite Hw by done.
  rewrite lookup_visible in *. destruct (m !! k) as [x|]; [|done].
  destruct (decide (unexpired (clock i) x)) as [Hx|]; [|done].
  rewrite decide_True in Hk; [done|]. eapply unexpired_before; [|exact Hx]. by apply Hclock.
Qed.

Lemma run_item_lookup {B} k (f : option item -> prog itemE B) w :
  run clock (call (ItemLookup k) ≫= f) w = run clock (f (w_state w !! k)) w.
Proof. rewrite run_call. unfold handle at 1. simpl. by rewrite set_state_id. Qed.

Lemma run_item_Expired {B} i (f : bool -> prog itemE B) w :
  exists w', run clock (item_Expired i ≫= f) w = run clock (f (negb (bool_decide (unexpired (clock (w_tick w)) i)))) w' /\
    w_state w' = w_state w /\ (w' = w \/ w' = tick w).
Proof.
  destruct i as [x [e|]]; [|by exists w; auto]. exists (tick w). split; [|by auto].
  unfold item_Expired. cbn [Expiration]. rewrite bind_Now, run_time_Now, bind_mret. do 2 f_equal.
  apply eq_true_iff_eq. rewrite Z.ltb_lt, negb_true_iff, bool_decide_eq_false. unfold unexpired. simpl. lia.
Qed.

(** One reading at most was taken since [w]. *)
Definition after w w' : Prop := w_tick w' = w_tick w \/ w_tick w' = Datatypes.S (w_tick w).

Lemma run_rc_get k w m : shows w m ->
  exists w', run clock (rc_get k) w =
      (Done (match visible (clock (w_tick w)) m !! k with Some i => (Object i, true) | None => (VNil, false) end), w') /\
    shows w' m /\ after w w'.
Proof.
  intros Hw. rewrite (shows_now w m k Hw). pose proof (shows_now w m k Hw) as Hgone. unfold rc_get.
  rewrite run_item_lookup, !lookup_visible in *. destruct (w_state w !! k) as [i|] eqn:Hi; [|exists w; by split; [|split; [|left]]].
  match goal with |- context [item_Expired i ≫= ?f] => destruct (run_item_Expired i f w) as (w1 & -> & Hs & Ht) end.
  assert (shows w1 m /\ after w w1) as [Hw1 Hafter].
  { destruct Ht as [->| ->]; (split; [auto using shows_tick|]); [by left|by right]. }
  case_bool_decide as Hx; cbn [negb]; [rewrite decide_True by done; by exists w1|]. rewrite decide_False in * by done.
  exists (set_state w1 (delete k (w_state w1))). split; [done|]. split; [|done].
  apply shows_gone; [|done]. rewrite lookup_visible.
  destruct (m !! k) as [x|] eqn:Hm; [|done]. destruct (decide (unexpired (clock (w_tick w)) x)) as [|Hn]; [done|].
  rewrite decide_False; [done|]. intros Hx'. apply Hn. eapply unexpired_before; [|exact Hx'].
  apply Hclock. destruct Hafter; lia.
Qed.

Lemma shows_put w m k i : shows w m -> shows (set_state w (<[k := i]> (w_state w))) (<[k := i]> m).
Proof. intros Hw n Hn. by apply visible_insert, Hw. Qed.

Lemma run_rc_set c k x d w m : shows w m ->
  exists w', run clock (rc_set c k x d) w = (Done tt, w') /\
    shows w' (<[k := fresh_item (cache_default c) (clock (w_tick w)) x d]> m).
Proof.
  intros Hw. unfold rc_set, fresh_item. cbn zeta. destruct (0 <? _).
  - eexists. split; [reflexivity|]. apply (shows_put (tick w)). by apply shows_tick.
  - eexists. split; [reflexivity|]. by apply shows_put.
Qed.

Lemma run_rc_change f k w m : shows w m ->
  exists r w', run clock (rc_change f k) w = (Done r, w') /\
    (spec_number f k (clock (w_tick w)) m).1 = Done (ANum (pm_number r).1 (pm_number r).2) /\
    shows w' (spec_number f k (clock (w_tick w)) m).2.
Proof.
  intros Hw. unfold spec_number. rewrite (shows_now w m k Hw), lookup_visible. unfold rc_change. rewrite run_item_lookup.
  destruct (w_state w !! k) as [i|] eqn:Hi; [|by eexists _, w].
  match goal with |- context [item_Expired i ≫= ?f] => destruct (run_item_Expired i f w) as (w1 & -> & Hs & Ht) end.
  assert (shows w1 m) as Hw1 by (destruct Ht as [->| ->]; auto using shows_tick).
  case_bool_decide; cbn [negb]; [rewrite decide_True by done|rewrite decide_False by done; by eexists _, w1].
  destruct (Object i); try by eexists _, w1. eexists _, _. split; [reflexivity|]. split; [done|]. by apply shows_put.
Qed.

(** ** The methods, one goroutine at a time *)
Implicit Types (W : world (guarded (gmap string item))) (c : MemoryStore).

Definition stored W m : Prop := locked (w_state W) = false /\ shows (unguarded W) m.

Lemma stored_unlocked w m : shows w m -> stored (relock false w) m.
Proof. intros Hw. split; [done|]. by destruct w. Qed.

Lemma unguarded_relock b (w : world (gmap string item)) : unguarded (relock b w) = w.
Proof. by destruct w. Qed.

Lemma run_Lock {B} (f : unit -> prog (lockE itemE) B) W :
  run clock (call Lock ≫= f) W = run clock (f tt) (relock true (unguarded W)).
Proof. done. Qed.

Lemma run_Unlock {B} (f : unit -> prog (lockE itemE) B) b w :
  run clock (call Unlock ≫= f) (relock b w) = run clock (f tt) (relock false w).
Proof. done. Qed.

Lemma run_inLock {A} (p : prog itemE A) b w :
  run clock (inLock p) (relock b w) = let '(o, w1) := run clock p w in (o, relock b w1).
Proof.
  unfold inLock.
  rewrite (run_embed clock (fun X e => Inside e) (guards (S := gmap string item)) (fun s x => mkGuarded (locked s) x)); try done.
  - by destruct w.
Qed.

Lemma run_inLock_done {A B} (p : prog itemE A) (f : A -> prog (lockE itemE) B) b w a w1 :
  run clock p w = (Done a, w1) -> run clock (inLock p ≫= f) (relock b w) = run clock (f a) (relock b w1).
Proof. intros Hp. apply run_bind_done. by rewrite run_inLock, Hp. Qed.

(** What a method answers and leaves; [j] more reading may be taken before storing. *)
Definition refined_pop c o W m : Prop := exists j W', (j <= 1)%nat /\
  let '(a, m') := spec_pop (cache_default (ms_cache c)) (clock (w_tick W)) (clock (w_tick W + j)) o m in
  run clock (cs_do c o) W = (a, W') /\ stored W' m' /\ (w_tick W + j <= w_tick W')%nat.

(** Without a second reading there is nothing to say about its place. *)
Lemma refined_intro c o W m W' :
  run clock (cs_do c o) W = ((spec_pop (cache_default (ms_cache c)) (clock (w_tick W)) (clock (w_tick W)) o m).1, W') ->
  stored W' (spec_pop (cache_default (ms_cache c)) (clock (w_tick W)) (clock (w_tick W)) o m).2 -> refined_pop c o W m.
Proof.
  intros Hr Hw. exists 0%nat, W'. rewrite Nat.add_0_r. pose proof (run_tick clock (cs_do c o) W) as Ht. rewrite Hr in Ht.
  destruct (spec_pop _ _ _ _ _). split; [lia|]. by split.
Qed.

Lemma refined_get c k value W m : stored W m -> refined_pop c (MGet k value) W m.
Proof.
  intros Hw. destruct (run_rc_get k _ _ (proj2 Hw)) as (w1 & Hr & Hw1 & _).
  apply (refined_intro _ _ _ _ (relock false w1)); [|by apply stored_unlocked].
  cbn [spec_pop cs_do cs_Get MemoryStore_CacheStore fst]. unfold pm_Get, rc_Get.
  rewrite run_bind, run_bind, run_Lock, (run_inLock_done _ _ _ _ _ _ Hr), run_Unlock, run_mret.
  change (w_tick (unguarded W)) with (w_tick W).
  destruct (visible (clock (w_tick W)) m !! k) as [i|]; cbn [fst snd negb]; [|done].
  unfold assigned. destruct value; try done; case_bool_decide; try done. by destruct (same_type value (Object i)).
Qed.

Lemma refined_set c k v exp W m : stored W m -> refined_pop c (MSet k v exp) W m.
Proof.
  intros Hw. destruct (run_rc_set (ms_cache c) k v exp _ _ (proj2 Hw)) as (w1 & Hr & Hw1).
  apply (refined_intro _ _ _ _ (relock false w1)); [|by apply stored_unlocked].
  cbn [spec_pop cs_do cs_Set MemoryStore_CacheStore fst]. unfold pm_Set, rc_Set.
  rewrite run_bind, run_bind, run_Lock, (run_inLock_done _ _ _ _ _ _ Hr). done.
Qed.

(** A lookup, then a store that took place [j] readings later. *)
Lemma run_get_set c k v exp W m : stored W m ->
  exists j w1 w2, (j <= 1)%nat /\
    run clock (rc_get k) (unguarded W) =
      (Done (match visible (clock (w_tick W)) m !! k with Some i => (Object i, true) | None => (VNil, false) end), w1) /\
    shows w1 m /\ run clock (rc_set (ms_cache c) k v exp) w1 = (Done tt, w2) /\
    shows w2 (<[k := fresh_item (cache_default (ms_cache c)) (clock (w_tick W + j)) v exp]> m) /\
    (w_tick W + j = w_tick w1)%nat /\ (w_tick w1 <= w_tick w2)%nat.
Proof.
  intros Hw. destruct (run_rc_get k _ _ (proj2 Hw)) as (w1 & Hr & Hw1 & Ht).
  destruct (run_rc_set (ms_cache c) k v exp w1 m Hw1) as (w2 & Hr2 & Hw2).
  assert (w_tick w1 <= w_tick w2)%nat as Hle.
  { pose proof (run_tick clock (rc_set (ms_cache c) k v exp) w1) as Hle. by rewrite Hr2 in Hle. }
  assert (exists j, (j <= 1)%nat /\ (w_tick W + j = w_tick w1)%nat) as (j & Hj & Heq).
  { destruct Ht as [Ht|Ht]; simpl in Ht; [exists 0%nat|exists 1%nat]; lia. }
  exists j, w1, w2. rewrite Heq. by split.
Qed.

Lemma refined_add c k v exp W m : stored W m -> refined_pop c (MAdd k v exp) W m.
Proof.
  intros Hw. destruct (run_get_set c k v exp W m Hw) as (j & w1 & w2 & Hj & Hr1 & Hw1 & Hr2 & Hw2 & Ht1 & Ht2). exists j.
  cbn [spec_pop cs_do cs_Add MemoryStore_CacheStore]. unfold pm_Add, rc_Add. destruct (visible _ m !! k) as [i|] eqn:Hi.
  - exists (relock false w1). split; [done|]. split; [|split; [by apply stored_unlocked|simpl; lia]].
    rewrite run_bind, run_bind, run_Lock, (run_inLock_done _ _ _ _ _ _ Hr1). cbn [snd]. by rewrite run_Unlock.
  - exists (relock false w2). split; [done|]. split; [|split; [by apply stored_unlocked|simpl; lia]].
    rewrite run_bind, run_bind, run_Lock, (run_inLock_done _ _ _ _ _ _ Hr1). cbn [snd].
    by rewrite (run_inLock_done _ _ _ _ _ _ Hr2), run_Unlock.
Qed.

Lemma refined_replace c k v exp W m : stored W m -> refined_pop c (MReplace k v exp) W m.
Proof.
  intros Hw. destruct (run_get_set c k v exp W m Hw) as (j & w1 & w2 & Hj & Hr1 & Hw1 & Hr2 & Hw2 & Ht1 & Ht2). exists j.
  cbn [spec_pop cs_do cs_Replace MemoryStore_CacheStore]. unfold pm_Replace, rc_Replace. destruct (visible _ m !! k) as [i|] eqn:Hi.
  - exists (relock false w2). split; [done|]. split; [|split; [by apply stored_unlocked|simpl; lia]].
    rewrite run_bind, run_bind, run_Lock, (run_inLock_done _ _ _ _ _ _ Hr1). cbn [snd negb].
    by rewrite (run_inLock_done _ _ _ _ _ _ Hr2), run_Unlock.
  - exists (relock false w1). split; [done|]. split; [|split; [by apply stored_unlocked|simpl; lia]].
    rewrite run_bind, run_bind, run_Lock, (run_inLock_done _ _ _ _ _ _ Hr1). cbn [snd negb]. by rewrite run_Unlock.
Qed.

Lemma refined_delete c k W m : stored W m -> refined_pop c (MDelete k) W m.
Proof.
  intros Hw. destruct (run_rc_get k _ _ (proj2 Hw)) as (w1 & Hr & Hw1 & _).
  set (w2 := set_state w1 (delete k (w_state w1))).
  assert (run clock (call (ItemDelete k)) w1 = (Done tt, w2)) as Hr2 by done.
  assert (shows w2 (delete k m)) as Hw2 by (intros n Hn; by apply visible_delete, Hw1).
  apply (refined_intro _ _ _ _ (relock false w2));
    [|cbn [spec_pop]; destruct (visible (clock (w_tick W)) m !! k) as [i|] eqn:Hk; apply stored_unlocked; [done|]].
  { cbn [spec_pop cs_do cs_Delete MemoryStore_CacheStore]. unfold pm_Delete, rc_Delete.
    rewrite run_bind, run_bind, run_Lock, (run_inLock_done _ _ _ _ _ _ Hr), (run_inLock_done _ _ _ _ _ _ Hr2), run_Unlock, run_mret.
    change (w_tick (unguarded W)) with (w_tick W). by destruct (visible (clock (w_tick W)) m !! k). }
  apply shows_gone; [|done]. assert (clock (w_tick W) <= clock (w_tick w1)) as Hle.
  { apply Hclock. pose proof (run_tick clock (rc_get k) (unguarded W)) as Ht. rewrite Hr in Ht. exact Ht. }
  rewrite lookup_visible in Hk |- *. cbn [snd]. destruct (m !! k) as [x|]; [|done]. destruct (decide (unexpired (clock (w_tick W)) x)) as [|Hn]; [done|].
  rewrite decide_False; [done|]. intros Hx. apply Hn. by eapply unexpired_before.
Qed.

Lemma run_atomically {A B} (p : prog itemE A) (f : A -> prog (lockE itemE) B) W a w1 :
  run clock p (unguarded W) = (Done a, w1) -> run clock (atomically p ≫= f) W = run clock (f a) (relock false w1).
Proof.
  intros Hp. apply run_bind_done. unfold atomically. rewrite run_Lock, run_defer.
  change (embed (fun X e => Inside e) p) with (inLock p). by rewrite run_inLock, Hp.
Qed.

Lemma refined_number f c k (p : prog (lockE itemE) (Z * option error)) W m : stored W m ->
  p = (r ← atomically (rc_change f k); mret (pm_number r)) ->
  exists W', run clock (r ← p; mret (ANum r.1 r.2)) W = ((spec_number f k (clock (w_tick W)) m).1, W') /\
    stored W' (spec_number f k (clock (w_tick W)) m).2.
Proof.
  intros Hw ->. destruct (run_rc_change f k _ _ (proj2 Hw)) as (r & w1 & Hr & Ha & Hw1).
  exists (relock false w1). split; [|by apply stored_unlocked].
  rewrite run_bind, (run_atomically _ _ _ _ _ Hr), run_mret. change (w_tick (unguarded W)) with (w_tick W) in Ha. by rewrite Ha.
Qed.

Lemma refined_all c o W m : stored W m -> refined_pop c o W m.
Proof.
  intros Hw. destruct o as [k v|k v exp|k v exp|k v exp|k|k n|k n|].
  - by apply refined_get.
  - by apply refined_set.
  - by apply refined_add.
  - by apply refined_replace.
  - by apply refined_delete.
  - destruct (refined_number (fun t v => incremented t v n) c k (pm_Increment c k n) W m Hw eq_refl) as (W' & Hr & Hw').
    by apply (refined_intro _ _ _ _ W').
  - destruct (refined_number (fun t v => decremented t v n) c k (pm_Decrement c k n) W m Hw eq_refl) as (W' & Hr & Hw').
    by apply (refined_intro _ _ _ _ W').
  - apply (refined_intro _ _ _ _ (relock false (set_state (unguarded W) ∅))); [done|]. by apply stored_unlocked.
Qed.

(** C6. persistence.InMemoryStore refines a map whose entries vanish at their
    deadlines: every method answers, on every branch, what the specification says at
    the time of its reading of the clock, and leaves a store that shows the specified
    map from then on, whatever expired items it still holds. *)
Theorem memory_store_refines c o W m : stored W m ->
  exists j W', (j <= 1)%nat /\
    let '(a, m') := spec_pop (cache_default (ms_cache c)) (clock (w_tick W)) (clock (w_tick W + j)) o m in
    run clock (cs_do c o) W = (a, W') /\ stored W' m' /\ (w_tick W + j <= w_tick W')%nat.
Proof. apply refined_all. Qed.

(** *** Sweeps *)
Lemma run_sweep l w : NoDup l.*1 -> (forall k v, (k, v) ∈ l -> w_state w !! k = Some v) ->
  exists w', run clock (sweep l) w = (Done tt, w') /\ (w_tick w <= w_tick w')%nat /\
    (forall k v, (k, v) ∈ l -> ~ unexpired (clock (w_tick w)) v -> w_state w' !! k = None) /\
    forall k, w_state w' !! k = w_state w !! k \/
      exists v n, w_state w !! k = Some v /\ w_state w' !! k = None /\ (n <= w_tick w')%nat /\ ~ unexpired (clock n) v.
Proof.
  revert w. induction l as [|[k v] l IH]; intros w Hnd Hl; [exists w; simpl; by set_solver|].
  cbn [fmap list_fmap fst] in Hnd. apply NoDup_cons in Hnd as [Hk Hnd]. cbn [sweep].
  match goal with |- context [item_Expired v ≫= ?f] => destruct (run_item_Expired v f w) as (w1 & -> & Hs & Ht) end.
  assert (w_tick w <= w_tick w1)%nat as Hle by (destruct Ht as [->| ->]; simpl; lia).
  set (w2 := if bool_decide (unexpired (clock (w_tick w)) v) then w1 else set_state w1 (delete k (w_state w1))).
  assert (w_tick w2 = w_tick w1) as Ht2 by (unfold w2; by case_bool_decide).
  destruct (IH w2) as (w3 & Hr & Ht3 & Hgone & Hrest); [done| |].
  { intros k' v' Hin. assert (k' <> k) by (intros ->; apply Hk; apply list_elem_of_fmap; by exists (k, v')).
    unfold w2. case_bool_decide; simpl; rewrite ?lookup_delete_ne, Hs by done; apply Hl; by right. }
  exists w3. split; [unfold w2 in Hr; by case_bool_decide|]. split; [lia|].
  assert (w_state w !! k = Some v) as Hkv by (apply Hl; by left). split.
  - intros k' v' [[= -> ->]|Hin]%elem_of_cons Hx.
    + destruct (Hrest k) as [->|(? & ? & _ & ? & _)]; [|done]. unfold w2. rewrite bool_decide_eq_false_2 by done. apply lookup_delete_eq.
    + apply (Hgone k' v' Hin). intros Hv. apply Hx. eapply unexpired_before; [|exact Hv]. apply Hclock. lia.
  - intros k'. destruct (Hrest k') as [->|(v' & n & Hv' & Hn & Hle' & Hx)].
    + unfold w2. case_bool_decide; [left; by rewrite Hs|]. simpl. rewrite Hs.
      destruct (decide (k' = k)) as [->|]; [right; exists v, (w_tick w)|left; by rewrite lookup_delete_ne].
      rewrite lookup_delete_eq. split; [done|]. split; [done|]. split; [lia|done].
    + right. exists v', n. split; [|done]. unfold w2 in Hv'. case_bool_decide; simpl in Hv'; rewrite Hs in Hv'; [done|].
      apply lookup_delete_Some in Hv'. by destruct Hv'.
Qed.

Lemma run_rc_DeleteExpired range_items W m :
  (forall m, range_items m ≡ₚ map_to_list m) -> stored W m ->
  exists W', run clock (rc_DeleteExpired range_items) W = (Done tt, W') /\ stored W' m /\
    forall k v, guards (w_state W') !! k = Some v -> unexpired (clock (w_tick W)) v.
Proof.
  intros Hrange [Hl Hw]. set (w := unguarded W) in *. unfold rc_DeleteExpired.
  rewrite run_Lock. fold w. assert (run clock (call ItemsAll) w = (Done (w_state w), w)) as Hall by by destruct w.
  rewrite (run_inLock_done _ _ _ _ _ _ Hall).
  destruct (run_sweep (range_items (w_state w)) w) as (w1 & Hr & Ht & Hgone & Hrest).
  { rewrite Hrange. apply NoDup_fst_map_to_list. }
  { intros k v. by rewrite Hrange, elem_of_map_to_list. }
  rewrite (run_inLock_done _ _ _ _ _ _ Hr). exists (relock false w1). split; [done|].
  assert (forall k v, w_state w1 !! k = Some v -> w_state w !! k = Some v) as Hsub.
  { intros k v Hv. by destruct (Hrest k) as [<-|(? & ? & _ & ? & _)]; [|congruence]. }
  split.
  - apply stored_unlocked. intros i Hi. rewrite <- Hw by lia. apply map_eq. intros k. rewrite !lookup_visible.
    destruct (Hrest k) as [->|(v & n & Hv & -> & Hn & Hx)]; [done|]. rewrite Hv.
    rewrite decide_False; [done|]. intros Hx'. apply Hx. eapply unexpired_before; [|exact Hx']. apply Hclock. lia.
  - intros k v Hv. simpl in Hv. destruct (decide (unexpired (clock (w_tick W)) v)) as [|Hx]; [done|]. exfalso.
    rewrite (Hgone k v) in Hv; [done| |done]. by rewrite Hrange, elem_of_map_to_list; apply Hsub.
Qed.

(** A sweep of the janitor cannot be observed and leaves nothing behind that had
    expired when it began: clients see the same map before and after. *)
Theorem memory_sweep_invisible range_items W m :
  (forall m, range_items m ≡ₚ map_to_list m) -> stored W m ->
  exists W', run clock (rc_DeleteExpired range_items) W = (Done tt, W') /\ stored W' m /\
    forall k v, guards (w_state W') !! k = Some v -> unexpired (clock (w_tick W)) v.
Proof. apply run_rc_DeleteExpired. Qed.
End bodies.

(** ** Witnesses: a counter, and an item that has expired but is still there *)
Section witnesses.
Definition ms1 : MemoryStore := mkMemoryStore (newCache Minute).
Definition item_n : item := mkItem (VInt Int32 10) None.
Definition only_n : gmap string item := {["n" := item_n]}.
Definition w_items : world (guarded (gmap string item)) :=
  World (mkGuarded false (<["old" := mkItem (VString "x") (Some 5)]> only_n)) 0 [].

Lemma w_items_stored : stored clk w_items only_n.
Proof.
  split; [reflexivity|]. intros i Hi. apply map_eq. intros k. rewrite !lookup_visible. cbn [w_state w_items unguarded guards].
  rewrite lookup_insert. case_decide as Hk; [|done]. subst k. rewrite decide_False; [reflexivity|].
  unfold unexpired. cbn [Expiration]. unfold clk, Second. lia.
Qed.

(** The step is cut to the width of the counter before it is compared: decrementing an
    [int8] of 10 by 200 leaves 66. *)
Example memory_decrement_grows : exists W',
  run clk (cs_do ms1 (MDecrement "n" 200)) (World (mkGuarded false {["n" := mkItem (VInt Int8 10) None]}) 0 []) =
    (Done (ANum 66 None), W') /\ guards (w_state W') !! "n" = Some (mkItem (VInt Int8 66) None).
Proof. eexists. split; [vm_compute; reflexivity|vm_compute; reflexivity]. Qed.

Lemma memory_store_refines_witness : exists W',
  run clk (cs_do ms1 (MAdd "old" (VString "y") 0)) w_items = (Done (AErr None), W') /\
  exists m', stored clk W' m' /\ m' !! "n" = Some item_n.
Proof.
  destruct (memory_store_refines clk clk_monotone ms1 (MAdd "old" (VString "y") 0) w_items only_n w_items_stored)
    as (j & W' & _ & Hr). exists W'.
  assert (visible (clk (w_tick w_items)) only_n !! "old" = None) as Hno by (vm_compute; reflexivity).
  cbn [spec_pop] in Hr. rewrite Hno in Hr. destruct Hr as (Hr & Hw & _). split; [exact Hr|].
  eexists. split; [exact Hw|]. rewrite lookup_insert_ne by discriminate. vm_compute. reflexivity.
Defined.

Lemma memory_sweep_invisible_witness : exists W',
  run clk (rc_DeleteExpired map_to_list) w_items = (Done tt, W') /\ stored clk W' only_n.
Proof.
  destruct (memory_sweep_invisible clk clk_monotone map_to_list w_items only_n) as (W' & Hr & Hw & _);
    [reflexivity|apply w_items_stored|]. exists W'. split; [exact Hr|exact Hw].
Defined.
End witnesses.
