(* ===== verification/RobfigConc.v ===== *)
(** * persistence.InMemoryStore and concurrent callers

    Every method works under the mutex of robfig/go-cache: it is [atomically] a body
    over the items.  So any number of goroutines calling the store, with the janitor
    sweeping between them, get the answers of a map with deadlines that is asked one
    question at a time, and no increment is lost. *)

From stdpp Require Import gmap strings.
From Stdlib Require Import FunctionalExtensionality.
From S2P Require Import Prelude Interleave Mutex LruInterface GoValues GoFmt InMemory InMemoryProps MapStore RobfigCache RobfigProps.
Local Open Scope Z_scope.

(** ** Critical sections

    A method that takes the mutex first and releases it last is [atomically] some
    body, whether or not the release is deferred, provided the body cannot panic. *)
Fixpoint calm {E A} (p : prog E A) : Prop :=
  match p with
  | Ret _ => True
  | Panic _ => False
  | Now k => forall t, calm (k t)
  | Log _ k => calm k
  | Vis _ k => forall x, calm (k x)
  end.

Lemma calm_bind {E A B} (p : prog E A) (f : A -> prog E B) : calm p -> (forall a, calm (f a)) -> calm (p ≫= f).
Proof. intros Hp Hf. induction p as [a|msg|k IH|l k IH|X e k IH]; simpl in *; [apply Hf|done|intros; by apply IH|by apply IH|intros; by apply IH]. Qed.

Lemma defer_bind {E F A B} (fin : prog F unit) (g : forall X, E X -> F X) (p : prog E A) (f : A -> prog E B) : calm p ->
  defer fin (embed g (p ≫= f)) = embed g p ≫= fun a => defer fin (embed g (f a)).
Proof.
  intros Hp. induction p as [a|msg|k IH|l k IH|X e k IH]; simpl in *; [done|done|..].
  - f_equal. apply functional_extensionality. intros t. by apply IH.
  - f_equal. by apply IH.
  - f_equal. apply functional_extensionality. intros x. by apply IH.
Qed.

(** What is computed from the answer of a section may be computed inside it. *)
Lemma defer_ret {E F A B} (fin : prog F unit) (g : forall X, E X -> F X) (p : prog E A) (f : A -> B) : calm p ->
  (defer fin (embed g p) ≫= fun a => mret (f a)) = defer fin (embed g (p ≫= fun a => mret (f a))).
Proof.
  intros Hp. induction p as [a|msg|k IH|l k IH|X e k IH]; simpl in *; [|done|..].
  - clear. induction fin as [u|msg|k IH|l k IH|X e k IH]; simpl; f_equal; try done; apply functional_extensionality; exact IH.
  - f_equal. apply functional_extensionality. intros t. by apply IH.
  - f_equal. by apply IH.
  - f_equal. apply functional_extensionality. intros x. by apply IH.
Qed.

Lemma bind_assoc {E A B C} (p : prog E A) (f : A -> prog E B) (g : B -> prog E C) :
  ((p ≫= f) ≫= g) = (p ≫= fun a => f a ≫= g).
Proof.
  induction p as [a|msg|k IH|l k IH|X e k IH]; simpl; [done|done|..].
  - f_equal. apply functional_extensionality. exact IH.
  - f_equal. exact IH.
  - f_equal. apply functional_extensionality. exact IH.
Qed.

Section sections.
Implicit Types (c : MemoryStore) (k : string) (o : mop).

Lemma calm_Expired i : calm (item_Expired i).
Proof. unfold item_Expired. by destruct (Expiration i). Qed.

Lemma calm_set (c : cache) k x d : calm (rc_set c k x d).
Proof. unfold rc_set. cbn zeta. by destruct (0 <? _). Qed.

Lemma calm_get k : calm (rc_get k).
Proof. intros [i|]; [|done]. apply calm_bind; [apply calm_Expired|]. by intros []. Qed.

Lemma calm_change f k : calm (rc_change f k).
Proof. intros [i|]; [|done]. apply calm_bind; [apply calm_Expired|]. intros []; [done|]. by destruct (Object i). Qed.

(** The body of each method, up to its answer. *)
Definition body c o : prog itemE answer :=
  match o with
  | MGet k value =>
      r ← rc_get k; finished (if snd r : bool then assigned value (fst r) else Done (AVal (Some ErrCacheMiss) value))
  | MSet k v exp => _ ← rc_set (ms_cache c) k v exp; mret (AErr None)
  | MAdd k v exp =>
      r ← rc_get k;
      if snd r : bool then mret (AErr (Some ErrNotStored)) else _ ← rc_set (ms_cache c) k v exp; mret (AErr None)
  | MReplace k v exp =>
      r ← rc_get k;
      if negb (snd r) then mret (AErr (Some ErrNotStored)) else _ ← rc_set (ms_cache c) k v exp; mret (AErr None)
  | MDelete k =>
      r ← rc_get k; _ ← call (ItemDelete k); mret (AErr (if negb (snd r) then Some ErrCacheMiss else None))
  | MIncrement k n =>
      r ← rc_change (fun t v => incremented t v n) k; mret (ANum (fst (pm_number r)) (snd (pm_number r)))
  | MDecrement k n =>
      r ← rc_change (fun t v => decremented t v n) k; mret (ANum (fst (pm_number r)) (snd (pm_number r)))
  | MFlush => _ ← call ItemsNew; mret (AErr None)
  end.

(** A step of a critical section. *)
Lemma section_step {A B} (p : prog itemE A) (f : A -> prog itemE B) (f' : A -> prog (lockE itemE) B) : calm p ->
  (forall a, f' a = defer (call Unlock) (inLock (f a))) -> (inLock p ≫= f') = defer (call Unlock) (inLock (p ≫= f)).
Proof.
  intros Hp Hf. unfold inLock. rewrite defer_bind by done. f_equal. apply functional_extensionality. exact Hf.
Qed.

Lemma enter_section {A} (p : prog (lockE itemE) A) (q : prog itemE A) :
  p = defer (call Unlock) (inLock q) -> (call Lock ≫= fun _ => p) = atomically q.
Proof. by intros ->. Qed.

Lemma atomically_ret {A B} (p : prog itemE A) (f : A -> B) : calm p ->
  (atomically p ≫= fun a => mret (f a)) = atomically (p ≫= fun a => mret (f a)).
Proof. intros Hp. unfold atomically. rewrite bind_assoc. apply enter_section. by apply defer_ret. Qed.

Lemma cs_do_atomically c o : cs_do c o = atomically (body c o).
Proof.
  destruct o as [k v|k v exp|k v exp|k v exp|k|k n|k n|];
    cbn [cs_do cs_Get cs_Set cs_Add cs_Replace cs_Delete cs_Increment cs_Decrement cs_Flush MemoryStore_CacheStore body];
    unfold pm_Get, pm_Set, pm_Add, pm_Replace, pm_Delete, pm_Increment, pm_Decrement, pm_Flush,
      rc_Get, rc_Set, rc_Add, rc_Replace, rc_Delete, rc_Increment, rc_Decrement, rc_Flush.
  - rewrite !bind_call. apply enter_section. rewrite !bind_assoc. apply section_step; [apply calm_get|]. intros [x []]; [|done].
    cbn [fst snd negb]. destruct v; try done; simpl; case_bool_decide; try done. by destruct (same_type v x).
  - rewrite !bind_call. apply enter_section. rewrite !bind_assoc. by apply section_step; [apply calm_set|].
  - rewrite !bind_call. apply enter_section. rewrite !bind_assoc. apply section_step; [apply calm_get|]. intros [x []]; [done|].
    cbn [snd]. rewrite !bind_assoc. by apply section_step; [apply calm_set|].
  - rewrite !bind_call. apply enter_section. rewrite !bind_assoc. apply section_step; [apply calm_get|]. intros [x []]; [|done].
    cbn [snd negb]. rewrite !bind_assoc. by apply section_step; [apply calm_set|].
  - rewrite !bind_call. apply enter_section. rewrite !bind_assoc. apply section_step; [apply calm_get|]. by intros [x []].
  - rewrite bind_assoc. exact (atomically_ret _ (fun r => ANum (pm_number r).1 (pm_number r).2) (calm_change _ _)).
  - rewrite bind_assoc. exact (atomically_ret _ (fun r => ANum (pm_number r).1 (pm_number r).2) (calm_change _ _)).
  - done.
Qed.

Lemma calm_sweep l : calm (sweep l).
Proof.
  induction l as [|[k v] l IH]; [done|]. apply calm_bind; [apply calm_Expired|]. intros [].
  - intros []. exact IH.
  - exact IH.
Qed.

Context (range_items : gmap string item -> list (string * item)).

(** What a goroutine does: one call, or ([None]) one sweep of the janitor. *)
Definition job c (j : option mop) : prog (lockE itemE) answer :=
  match j with
  | Some o => cs_do c o
  | None => _ ← rc_DeleteExpired range_items; mret (AErr None)
  end.

Definition job_body c (j : option mop) : prog itemE answer :=
  match j with
  | Some o => body c o
  | None => m ← call ItemsAll; _ ← sweep (range_items m); mret (AErr None)
  end.

Lemma job_atomically c j : job c j = atomically (job_body c j).
Proof.
  destruct j as [o|]; [apply cs_do_atomically|]. cbn [job job_body]. unfold rc_DeleteExpired.
  rewrite !bind_call. apply enter_section. rewrite !bind_assoc. apply section_step; [done|]. intros m.
  rewrite !bind_assoc. by apply section_step; [apply calm_sweep|].
Qed.
End sections.


(** ** The reference: one question at a time

    [hist] lists who is served, with the times at which the key is looked up and a
    value is stored. *)
Definition spec_job (d t0 t1 : Z) (j : option mop) (m : gmap string item) : outcome answer * gmap string item :=
  match j with
  | Some o => spec_pop d t0 t1 o m
  | None => (Done (AErr None), m)
  end.

Fixpoint spec_hist (d : Z) (jobs : list (option mop)) (hist : list (nat * (Z * Z))) (m : gmap string item)
    : list (nat * outcome answer) * gmap string item :=
  match hist with
  | [] => ([], m)
  | (i, (t0, t1)) :: hist =>
      match jobs !! i with
      | Some j =>
          let '(a, m1) := spec_job d t0 t1 j m in
          let '(os, m2) := spec_hist d jobs hist m1 in ((i, a) :: os, m2)
      | None => spec_hist d jobs hist m
      end
  end.

(** Times never go back. *)
Fixpoint in_order (t : Z) (hist : list (nat * (Z * Z))) : Prop :=
  match hist with
  | [] => True
  | (_, (t0, t1)) :: hist => t <= t0 <= t1 /\ in_order t1 hist
  end.

Lemma in_order_later t t' hist : t' <= t -> in_order t hist -> in_order t' hist.
Proof. destruct hist as [|[i [t0 t1]] hist]; [done|]. intros Ht [[] ?]. split; [lia|done]. Qed.

Section concurrent.
Context (clock : nat -> Z) (Hclock : monotone clock).
Context (range_items : gmap string item -> list (string * item)).
Context (Hrange : forall m, range_items m ≡ₚ map_to_list m).
Implicit Types (c : MemoryStore) (m : gmap string item) (w : world (gmap string item)).

Lemma run_alone {A} (p : prog itemE A) w :
  run clock (atomically p) (relock false w) = let '(a, w1) := run clock p w in (a, relock false w1).
Proof.
  unfold atomically. rewrite run_Lock, run_defer, unguarded_relock.
  change (embed (fun X e => Inside e) p) with (inLock p). rewrite run_inLock. by destruct (run clock p w).
Qed.

Lemma stored_relock w m : stored clock (relock false w) m -> shows clock w m.
Proof. intros [_ Hw]. by rewrite unguarded_relock in Hw. Qed.

(** One job, alone. *)
Lemma run_job_body c j w m : shows clock w m ->
  exists n w', (n <= 1)%nat /\ (w_tick w + n <= w_tick w')%nat /\
    let '(a, m') := spec_job (cache_default (ms_cache c)) (clock (w_tick w)) (clock (w_tick w + n)) j m in
    run clock (job_body range_items c j) w = (a, w') /\ shows clock w' m'.
Proof.
  intros Hw. apply stored_unlocked in Hw. destruct (run clock (job_body range_items c j) w) as [a w1] eqn:Hr.
  assert (run clock (job range_items c j) (relock false w) = (a, relock false w1)) as Hr1 by by rewrite job_atomically, run_alone, Hr.
  destruct j as [o|].
  - destruct (refined_all clock Hclock c o _ m Hw) as (n & W' & Hn & Hj). exists n, w1. change (w_tick (relock false w)) with (w_tick w) in Hj.
    cbn [spec_job job] in *. destruct (spec_pop _ _ _ o m) as [a' m']. destruct Hj as (Hr2 & Hw' & Ht).
    rewrite Hr1 in Hr2. injection Hr2 as -> <-. apply stored_relock in Hw'. by split.
  - destruct (run_rc_DeleteExpired clock Hclock range_items _ m Hrange Hw) as (W' & Hr2 & Hw' & _). exists 0%nat, w1.
    cbn [spec_job job] in *. rewrite (run_bind_done _ _ _ _ _ _ Hr2), run_mret in Hr1. injection Hr1 as <- ->.
    apply stored_relock in Hw'. split; [lia|]. split; [|done].
    pose proof (run_tick clock (job_body range_items c None) w) as Ht. rewrite Hr in Ht. simpl in Ht. lia.
Qed.

Lemma serve_spec c jobs order w m : shows clock w m ->
  exists hist m', hist.*1 = order /\ in_order (clock (w_tick w)) hist /\
    spec_hist (cache_default (ms_cache c)) jobs hist m = ((serve clock (job_body range_items c <$> jobs) order w).1, m') /\
    shows clock (serve clock (job_body range_items c <$> jobs) order w).2 m'.
Proof.
  revert w m. induction order as [|i order IH]; intros w m Hw; [by exists [], m|]. cbn [serve].
  rewrite list_lookup_fmap. destruct (jobs !! i) as [j|] eqn:Hi; cbn [fmap option_fmap option_map].
  - destruct (run_job_body c j w m Hw) as (n & w1 & Hn & Ht & Hj).
    destruct (spec_job _ _ _ j m) as [a m1] eqn:Hspec. destruct Hj as [Hr Hw1]. rewrite Hr.
    destruct (IH w1 m1 Hw1) as (hist & m' & Ho & Htimes & Hh & Hs).
    exists ((i, (clock (w_tick w), clock (w_tick w + n))) :: hist), m'. split; [by f_equal/=|]. split; [|].
    + split; [split; [done|apply Hclock; lia]|]. eapply in_order_later; [|exact Htimes]. apply Hclock. lia.
    + cbn [spec_hist]. rewrite Hi, Hspec, Hh. by destruct (serve _ _ _ _).
  - destruct (IH w m Hw) as (hist & m' & Ho & Htimes & Hh & Hs).
    exists ((i, (clock (w_tick w), clock (w_tick w))) :: hist), m'. split; [by f_equal/=|].
    split; [split; [lia|done]|]. cbn [spec_hist]. by rewrite Hi.
Qed.

Lemma jobs_serialized c jobs (W W' : world (guarded (gmap string item))) m ps : stored clock W m ->
  rtc (lock_step clock) (W, job range_items c <$> jobs) (W', ps) -> nf (lock_step clock) (W', ps) ->
  exists hist os m', hist.*1 ≡ₚ seq 0 (length jobs) /\ in_order (clock (w_tick W)) hist /\
    spec_hist (cache_default (ms_cache c)) jobs hist m = (os, m') /\
    Forall (fun '(i, o) => ps !! i = Some (finished o)) os /\ stored clock W' m'.
Proof.
  intros [Hlock Hw] Hr Hnf.
  assert (W = relock false (unguarded W)) as HW by (destruct W as [[] ? ?]; simpl in Hlock; by subst).
  assert (job range_items c <$> jobs = atomically <$> (job_body range_items c <$> jobs)) as Hjobs.
  { rewrite <- list_fmap_compose. apply list_fmap_ext. intros i j _. apply job_atomically. }
  rewrite HW, Hjobs in Hr. destruct (lock_progress clock _ _ _ _ Hr) as [Hov|[x Hx]]; [|destruct Hnf; by exists x].
  destruct (lock_serializable clock _ _ _ _ Hr Hov) as (order & Hp & HW' & Hres). rewrite length_fmap in Hp.
  destruct (serve_spec c jobs order (unguarded W) m Hw) as (hist & m' & Ho & Ht & Hh & Hs).
  exists hist, (serve clock (job_body range_items c <$> jobs) order (unguarded W)).1, m'.
  split; [by rewrite Ho|]. split; [done|]. split; [done|]. split; [done|]. rewrite HW'. by apply stored_unlocked.
Qed.

(** C5. persistence.InMemoryStore is linearizable: whatever calls its goroutines
    make, with any number of janitor sweeps among them, and however they interleave,
    no schedule runs for ever, and where none of them can move every call has
    returned (or panicked) with the answer, and the store shows the contents, of the
    specified map asked one question at a time, in some order, at times that never go
    back. *)
Theorem memory_linearizable c jobs (W : world (guarded (gmap string item))) m : stored clock W m ->
  Acc (flip (lock_step clock)) (W, job range_items c <$> jobs) /\
  forall W' ps, rtc (lock_step clock) (W, job range_items c <$> jobs) (W', ps) -> nf (lock_step clock) (W', ps) ->
    exists hist os m', hist.*1 ≡ₚ seq 0 (length jobs) /\ in_order (clock (w_tick W)) hist /\
      spec_hist (cache_default (ms_cache c)) jobs hist m = (os, m') /\
      Forall (fun '(i, o) => ps !! i = Some (finished o)) os /\ stored clock W' m'.
Proof. intros Hw. split; [apply lock_step_acc|]. intros W' ps. by apply jobs_serialized. Qed.
End concurrent.

(** ** Counters *)
Section counters.
Context (clock : nat -> Z) (Hclock : monotone clock).
Implicit Types (c : MemoryStore) (m : gmap string item) (k : string) (t : inttype).

Lemma int_of_width_add t a b : int_of_width t (int_of_width t a + int_of_width t b) = int_of_width t (a + b).
Proof. destruct t; cbn [int_of_width]; auto using int64_add_both, uint64_add_both, wrapS_add, wrapU_add. Qed.

Lemma int_of_width_idem t a : int_of_width t (int_of_width t a) = int_of_width t a.
Proof.
  pose proof (int_of_width_add t a 0) as Ha. assert (int_of_width t 0 = 0) as H0 by (destruct t; vm_compute; reflexivity).
  by rewrite H0, !Z.add_0_r in Ha.
Qed.

Lemma int_of_width_add_l t a b : int_of_width t (int_of_width t a + b) = int_of_width t (a + b).
Proof. by rewrite <- int_of_width_add, int_of_width_idem, int_of_width_add. Qed.

Lemma incremented_in_range t x n : int_of_width t x = x -> incremented t x n = int_of_width t (x + n).
Proof. intros Hx. unfold incremented. by rewrite <- Hx at 1; rewrite int_of_width_add. Qed.

Definition total (l : list Z) : Z := foldr Z.add 0 l.
#[local] Instance total_perm : Proper ((≡ₚ) ==> (=)) total.
Proof. intros l l' Hp. induction Hp; simpl; lia. Qed.

(** The steps of a history, in its order. *)
Definition steps_of (ns : list Z) (hist : list (nat * (Z * Z))) : list Z := (fun i => default 0 (ns !! i)) <$> hist.*1.

Lemma steps_of_all ns hist : hist.*1 ≡ₚ seq 0 (length ns) -> total (steps_of ns hist) = total ns.
Proof.
  intros Hp. unfold steps_of. rewrite Hp. f_equal. apply list_eq. intros i. rewrite list_lookup_fmap.
  destruct (ns !! i) as [n|] eqn:Hi.
  - rewrite lookup_seq_lt by (by eapply lookup_lt_Some). simpl. by rewrite Hi.
  - rewrite lookup_seq_ge; [done|]. by apply lookup_ge_None.
Qed.

(** Increments of one item without a deadline, one at a time. *)
Lemma spec_increments d k t ns hist x m : m !! k = Some (mkItem (VInt t x) None) -> int_of_width t x = x ->
  Forall (fun i => is_Some (ns !! i)) hist.*1 ->
  let '(os, m') := spec_hist d ((fun n => Some (MIncrement k n)) <$> ns) hist m in
  m' !! k = Some (mkItem (VInt t (int_of_width t (x + total (steps_of ns hist)))) None) /\
  os.*1 = hist.*1 /\ Forall (fun '(_, o) => exists z, o = Done (ANum z None)) os.
Proof.
  revert x m. induction hist as [|[i [t0 t1]] hist IH]; intros x m Hk Hx Hv; cbn [spec_hist].
  - unfold steps_of. simpl. by rewrite Z.add_0_r, Hx.
  - apply Forall_cons in Hv as [[n Hn] Hv]. cbn [fst] in Hn. rewrite list_lookup_fmap, Hn. cbn [fmap option_fmap option_map spec_job spec_pop].
    unfold spec_number. rewrite lookup_visible, Hk. rewrite decide_True by done. cbn [Object Expiration].
    set (m1 := <[k := _]> m). specialize (IH (incremented t x n) m1).
    destruct (spec_hist _ _ hist m1) as [os m']. destruct IH as (Hm' & Hos & Hans); [apply lookup_insert_eq| |done|].
    { by rewrite incremented_in_range, int_of_width_idem. }
    split; [|split; [by f_equal/=|constructor; [by eexists|done]]]. rewrite Hm', incremented_in_range, int_of_width_add_l by done.
    do 4 f_equal. unfold steps_of. cbn [fmap list_fmap fst]. rewrite Hn. simpl. lia.
Qed.

(** C14. No increment is lost: when any number of goroutines increment one counter
    at the same time, of any integer type, without a deadline, every schedule comes to
    an end with each of them answered without an error and the counter at its old
    value plus the sum of all the steps, modulo the width of its type.  (Compare
    [concurrent_increment_lost] for inmemory.go.) *)
Theorem memory_increments_kept c k t x ns (W W' : world (guarded (gmap string item))) m ps :
  stored clock W m -> m !! k = Some (mkItem (VInt t x) None) -> int_of_width t x = x ->
  rtc (lock_step clock) (W, (fun n => cs_do c (MIncrement k n)) <$> ns) (W', ps) -> nf (lock_step clock) (W', ps) ->
  guards (w_state W') !! k = Some (mkItem (VInt t (int_of_width t (x + total ns))) None) /\
  forall i, (i < length ns)%nat -> exists z, ps !! i = Some (Ret (ANum z None)).
Proof.
  intros Hw Hk Hx Hr Hnf. set (jobs := (fun n => Some (MIncrement k n)) <$> ns).
  assert ((fun n => cs_do c (MIncrement k n)) <$> ns = job map_to_list c <$> jobs) as Hjobs by (unfold jobs; by rewrite <- list_fmap_compose).
  rewrite Hjobs in Hr. destruct (jobs_serialized clock Hclock map_to_list (fun _ => reflexivity _) c jobs W W' m ps Hw Hr Hnf) as (hist & os & m' & Hp & _ & Hh & Hos & [_ Hs]).
  unfold jobs in Hp. rewrite length_fmap in Hp.
  pose proof (spec_increments (cache_default (ms_cache c)) k t ns hist x m Hk Hx) as Hspec.
  fold jobs in Hspec. rewrite Hh in Hspec. destruct Hspec as (Hm' & Hfst & Hans).
  { rewrite Hp. apply Forall_forall. intros i Hi%elem_of_seq. apply lookup_lt_is_Some. lia. }
  rewrite steps_of_all in Hm' by done. split.
  - specialize (Hs (w_tick W') (Nat.le_refl _)). apply (f_equal (.!! k)) in Hs.
    rewrite !lookup_visible, Hm' in Hs. rewrite decide_True in Hs by done. simpl in Hs.
    destruct (guards (w_state W') !! k) as [i|]; [|done]. by destruct (decide _).
  - intros i Hi. assert (i ∈ os.*1) as ([i' o] & -> & Ho)%list_elem_of_fmap by (rewrite Hfst, Hp; apply elem_of_seq; lia).
    rewrite Forall_forall in Hos, Hans. destruct (Hans _ Ho) as [z ->]. exists z. apply (Hos _ Ho).
Qed.
End counters.

(** ** Witnesses: two increments and a sweep *)
Section witnesses.
Definition three_jobs : list (option mop) := [Some (MIncrement "n" 2); None; Some (MIncrement "n" 3)].
Definition a_schedule : list nat := concat (replicate 12 [0; 1; 2]%nat).
Definition jobs_end := lock_sched clk a_schedule w_items (job map_to_list ms1 <$> three_jobs).

Lemma jobs_over : nf (lock_step clk) (jobs_end.1, jobs_end.2).
Proof. apply over_nf, all_over. vm_compute. reflexivity. Qed.

Lemma memory_linearizable_witness : exists hist m',
  hist.*1 ≡ₚ seq 0 3 /\ (spec_hist Minute three_jobs hist only_n).2 = m' /\ stored clk jobs_end.1 m'.
Proof.
  destruct (memory_linearizable clk clk_monotone map_to_list (fun _ => reflexivity _) ms1 three_jobs w_items only_n w_items_stored)
    as [_ Hend]. destruct (Hend jobs_end.1 jobs_end.2 (lock_sched_end _ _ _ _) jobs_over) as (hist & os & m' & Hp & _ & Hh & _ & Hw).
  change (cache_default (ms_cache ms1)) with Minute in Hh.
  exists hist, m'. rewrite Hh. split; [exact Hp|]. split; [reflexivity|exact Hw].
Defined.

Definition counter_end := lock_sched clk a_schedule w_items ((fun n => cs_do ms1 (MIncrement "n" n)) <$> [2; 3]).

Lemma memory_increments_kept_witness : guards (w_state counter_end.1) !! "n" = Some (mkItem (VInt Int32 15) None).
Proof.
  apply (memory_increments_kept clk clk_monotone ms1 "n" Int32 10 [2; 3] w_items counter_end.1 only_n counter_end.2);
    [apply w_items_stored|reflexivity|reflexivity|apply lock_sched_end|].
  apply over_nf, all_over. vm_compute. reflexivity.
Defined.
End witnesses.
