(* ===== verification/RobfigUse.v ===== *)
(** * persistence.InMemoryStore behind its clients

    The store implements what the facade and the page cache ask of a store, so their
    theorems apply to it; a [GenericCache] in front of it refines the store's own
    specification.  The last part is the construction of the store, with the objects
    the garbage collector sees. *)

From stdpp Require Import gmap strings.
From Stdlib Require Import Strings.Byte.
From S2P Require Import Prelude Interleave Mutex LruInterface GoValues GoFmt InMemory InMemoryProps Generic GenericProps.
From S2P Require Import MapStore RobfigCache RobfigProps.
Local Open Scope Z_scope.

(** ** The interfaces of the facade and of the page cache *)
Section instance.
Implicit Types (c : MemoryStore) (W : world (guarded (gmap string item))) (k : string).

Definition ms_has c k (v : goval) (s : guarded (gmap string item)) : Prop :=
  locked s = false /\ guards s !! k = Some (mkItem v None).

Lemma run_found clock k v w : w_state w !! k = Some (mkItem v None) -> run clock (rc_get k) w = (Done (v, true), w).
Proof. intros Hk. unfold rc_get. by rewrite run_item_lookup, Hk. Qed.

Lemma ms_ryw_set c k v clock W : exists W', run clock (pm_Set c k v FOREVER) W = (Done None, W') /\ ms_has c k v (w_state W').
Proof. eexists. split; [reflexivity|]. split; [reflexivity|]. apply lookup_insert_eq. Qed.

Lemma ms_ryw_add c k v clock W : exists err W', run clock (pm_Add c k v FOREVER) W = (Done err, W') /\
  (err = None -> ms_has c k v (w_state W')).
Proof.
  unfold pm_Add, rc_Add. rewrite run_bind, run_Lock.
  destruct (run clock (rc_get k) (unguarded W)) as [[[x found]|msg] w1] eqn:Hr.
  - rewrite (run_inLock_done _ _ _ _ _ _ _ Hr). destruct found; [by eexists _, _|].
    eexists _, _. split; [reflexivity|]. intros _. split; [reflexivity|]. apply lookup_insert_eq.
  - exfalso. revert Hr. unfold rc_get. rewrite run_item_lookup. destruct (w_state (unguarded W) !! k) as [i|]; [|done].
    match goal with |- context [item_Expired i ≫= ?f] => destruct (run_item_Expired clock i f (unguarded W)) as (w2 & -> & _) end.
    by case_bool_decide.
Qed.

Lemma run_pm_Get_hit c k x value clock W : ms_has c k x (w_state W) ->
  run clock (pm_Get c k value) W =
    run clock (match assigned value x with Done (AVal err v) => Ret (err, v) | Done _ => Ret (None, VNil) | Crash msg => Panic msg end) W.
Proof.
  intros [Hl Hk]. unfold pm_Get, rc_Get. rewrite run_bind, run_Lock, (run_inLock_done _ _ _ _ _ _ _ (run_found clock k x (unguarded W) Hk)).
  rewrite run_Unlock, run_mret. assert (relock false (unguarded W) = W) as -> by (destruct W as [[] ? ?]; simpl in *; by subst).
  cbn [fst snd negb]. unfold assigned. destruct value; try done; case_bool_decide; try done. by destruct (same_type value x).
Qed.

#[global] Instance MemoryStore_ReadYourWrite : ReadYourWrite (lockE itemE) MemoryStore (guarded (gmap string item)).
Proof.
  refine {| ryw_ok c s := locked s = false; ryw_has := ms_has; ryw_reads c v := exists e, v = of_entry e |}.
  - intros c k v clock W _ _. apply ms_ryw_set.
  - intros c k v clock W _ _. apply ms_ryw_add.
  - by intros c k v s [Hl _].
  - intros c k r r0 clock W Hh. exists W. split; [|done]. cbn [cs_Get MemoryStore_CacheStore]. by rewrite (run_pm_Get_hit _ _ _ _ _ _ Hh).
  - intros c e. by exists e.
  - intros c k v e0 clock W Hh [e ->]. exists e, W. cbn [cs_Get MemoryStore_CacheStore]. by rewrite (run_pm_Get_hit _ _ _ _ _ _ Hh).
Defined.
End instance.

(** ** A [GenericCache] in front of it *)
Lemma spec_number_sentinel f k t m : sentinel (spec_number f k t m).1.
Proof. unfold spec_number. destruct (visible t m !! k) as [[[] ?]|]; done. Qed.

Lemma spec_pop_sentinel d t0 t1 o m : sentinel (spec_pop d t0 t1 o m).1.
Proof.
  destruct o as [k v|k v exp|k v exp|k v exp|k|k n|k n|]; cbn [spec_pop]; try apply spec_number_sentinel;
    try done; destruct (visible t0 m !! k) as [i|]; try done.
  cbn [fst]. unfold assigned. destruct v; try done; case_bool_decide; try done. by destruct (same_type v (Object i)).
Qed.

Section facade.
Context {R : Type} `{CacheStore (lockE itemE) R, !RedisOps (lockE itemE) R}.
Context (gob_encode : goval -> error + list byte) (gob_decode : list byte -> error + goval).
Context (clock : nat -> Z) (Hclock : monotone clock).
Implicit Types (g : GenericCache MemoryStore R) (W : world (guarded (gmap string item))) (m : gmap string item).
#[local] Instance memory_facade : CacheStore (lockE itemE) (GenericCache MemoryStore R) := GenericCache_CacheStore gob_encode gob_decode.

Lemma stored_same W W' m : w_state W' = w_state W -> (w_tick W <= w_tick W')%nat -> stored clock W m -> stored clock W' m.
Proof.
  intros Hs Ht [Hl Hw]. split; [by rewrite Hs|]. intros i Hi. simpl in *. rewrite Hs. apply Hw. simpl. lia.
Qed.

Lemma facade_memory g c o W m : Generic.Cache g = CStore c -> plain_call g o -> stored clock W m ->
  exists j W', (j <= 1)%nat /\
    let '(a, m') := spec_pop (cache_default (ms_cache c)) (clock (w_tick W)) (clock (w_tick W + j)) (passed g o) m in
    run clock (cs_do g o) W = (own_value o a, W') /\ stored clock W' m' /\ (w_tick W + j <= w_tick W')%nat.
Proof.
  intros Hc Ho Hw. destruct (facade_relays gob_encode gob_decode clock g c o Hc Ho W) as (W1 & Hs1 & Ht1 & Hrelay).
  apply (stored_same W W1) in Hw; [|done|lia].
  destruct (refined_all clock Hclock c (passed g o) W1 m Hw) as (j & W2 & Hj & Hr). exists j.
  rewrite Ht1 in Hr. pose proof (spec_pop_sentinel (cache_default (ms_cache c)) (clock (w_tick W)) (clock (w_tick W + j)) (passed g o) m) as Hsent.
  destruct (spec_pop _ _ _ _ m) as [a m']. destruct Hr as (Hr & Hw2 & Ht2).
  destruct (Hrelay a W2 Hr Hsent) as (W3 & Hr3 & Hs3 & Ht3). exists W3. split; [done|]. split; [done|].
  split; [by apply (stored_same W2)|lia].
Qed.

(** A [GenericCache] in front of persistence.InMemoryStore answers each call on
    plain strings and numbers (and on entries, if it does not encrypt) as the store's
    specification answers the call it passes on: its own default duration instead of
    0, errors handed on as they are, however much is logged on the way. *)
Theorem facade_memory_refines g c o W m : Generic.Cache g = CStore c -> plain_call g o -> stored clock W m ->
  exists j W', (j <= 1)%nat /\
    let '(a, m') := spec_pop (cache_default (ms_cache c)) (clock (w_tick W)) (clock (w_tick W + j)) (passed g o) m in
    run clock (cs_do g o) W = (own_value o a, W') /\ stored clock W' m' /\ (w_tick W + j <= w_tick W')%nat.
Proof. apply facade_memory. Qed.
End facade.

(** ** Construction

    What the garbage collector sees: the objects [New] and [NewInMemoryStore] allocate
    (the locations are the positions in [objs]), the finalizers, and the goroutines,
    each with the object it works on. *)
Inductive object :=
  | OCacheStruct (c : cache) (janitor : option Z)
  | OCache (inner : nat) (finalizer : bool)
  | OStore (inner : nat).

Record gcheap := mkGc { objs : list object; goroutines : list nat }.
Definition alloc (o : object) (h : gcheap) : nat * gcheap := (length (objs h), mkGc (objs h ++ [o]) (goroutines h)).
Definition put_obj (l : nat) (o : object) (h : gcheap) : gcheap := mkGc (<[l := o]> (objs h)) (goroutines h).

(** [c.janitor = &janitor{Interval: ci}; go j.Run(c)] *)
Definition rc_runJanitor (l : nat) (c : cache) (ci : Z) (h : gcheap) : gcheap :=
  let h := put_obj l (OCacheStruct c (Some ci)) h in
  mkGc (objs h) (goroutines h ++ [l]).

Definition rc_New (defaultExpiration cleanupInterval : Z) (h : gcheap) : nat * gcheap :=
  let c := newCache defaultExpiration in
  let '(l, h) := alloc (OCacheStruct c None) h in
  let '(C, h) := alloc (OCache l false) h in
  if 0 <? cleanupInterval then
    let h := rc_runJanitor l c cleanupInterval h in
    (C, put_obj C (OCache l true) h)
  else (C, h).

(** The struct behind the [*Cache] is copied into the store. *)
Definition pm_NewInMemoryStore (defaultExpiration : Z) (h : gcheap) : nat * gcheap :=
  let '(C, h) := rc_New defaultExpiration Minute h in
  match objs h !! C with
  | Some (OCache l _) => alloc (OStore l) h
  | _ => (C, h)
  end.

Definition refs (o : object) : list nat :=
  match o with OCacheStruct _ _ => [] | OCache l _ | OStore l => [l] end.
Definition points_to (h : gcheap) (a b : nat) : Prop := exists o, objs h !! a = Some o /\ b ∈ refs o.
Definition reachable (h : gcheap) (roots : list nat) (l : nat) : Prop :=
  exists r, r ∈ roots ++ goroutines h /\ rtc (points_to h) r l.

(** The references of a heap lead to its objects. *)
Definition closed (h : gcheap) : Prop :=
  Forall (fun o => Forall (fun l => (l < length (objs h))%nat) (refs o)) (objs h) /\
  Forall (fun l => (l < length (objs h))%nat) (goroutines h).

Section construction.
Context (de : Z) (h : gcheap).
Abbreviation n := (length (objs h)).

Lemma constructed : pm_NewInMemoryStore de h =
  ((2 + n)%nat, mkGc (objs h ++ [OCacheStruct (newCache de) (Some Minute); OCache n true; OStore n]) (goroutines h ++ [n])).
Proof.
  unfold pm_NewInMemoryStore, rc_New, alloc, rc_runJanitor, put_obj. cbn [objs goroutines]. change (0 <? Minute) with true. cbv iota.
  assert (length (objs h ++ [OCacheStruct (newCache de) None]) = Datatypes.S n) as Hlen by (rewrite length_app; simpl; lia).
  rewrite Hlen, <- (app_assoc (objs h)). cbn [app].
  assert (forall a b c d, <[Datatypes.S n := d]> (<[n := c]> (objs h ++ [a; b])) = objs h ++ [c; d]) as Hput.
  { intros a b c d. rewrite insert_app_r_alt by lia. rewrite Nat.sub_diag. cbn [insert list_insert].
    rewrite insert_app_r_alt by lia. by replace (Datatypes.S n - n)%nat with 1%nat by lia. }
  rewrite Hput. cbn [objs]. rewrite lookup_app_r by lia. replace (Datatypes.S n - n)%nat with 1%nat by lia. cbn.
  rewrite <- app_assoc. f_equal. rewrite length_app. simpl. lia.
Qed.

(** No path leads to the [*Cache] whose finalizer stops the janitor. *)
Lemma not_pointed_at h' a : closed h -> h' = (pm_NewInMemoryStore de h).2 -> points_to h' a (Datatypes.S n) -> False.
Proof.
  intros [Hc _] -> (o & Ho & Hl). rewrite constructed in Ho. cbn [objs snd] in Ho.
  destruct (decide (a < n)%nat) as [Ha|Ha].
  - rewrite lookup_app_l in Ho by lia. rewrite Forall_lookup in Hc. specialize (Hc a o Ho).
    rewrite Forall_forall in Hc. specialize (Hc _ Hl). lia.
  - rewrite lookup_app_r in Ho by lia. destruct (a - n)%nat as [|[|[|i]]]; simpl in Ho; simplify_eq; simpl in Hl;
      apply list_elem_of_singleton in Hl || apply not_elem_of_nil in Hl; lia || done.
Qed.

(** C30. persistence.NewInMemoryStore copies the [cache.Cache] of robfig/go-cache, and
    the copy is not the object with the finalizer: once the constructor has returned,
    that object cannot be reached from the store, from the janitor goroutine or from
    anything that existed before, though the finalizer is meant to run when the store
    is no longer used.  The first garbage collection can stop the janitor of a store
    that is in use. *)
Theorem memory_finalizer_unreachable roots : closed h -> Forall (fun l => (l < n)%nat) roots ->
  let '(s, h') := pm_NewInMemoryStore de h in
  exists C c, objs h' !! C = Some (OCache c true) /\ objs h' !! s = Some (OStore c) /\
    objs h' !! c = Some (OCacheStruct (newCache de) (Some Minute)) /\ c ∈ goroutines h' /\
    reachable h' (s :: roots) c /\ ~ reachable h' (s :: roots) C.
Proof.
  intros Hc Hroots. destruct (pm_NewInMemoryStore de h) as [s h'] eqn:Hnew. pose proof Hnew as Heq. rewrite constructed in Heq.
  injection Heq as <- <-. exists (Datatypes.S n), n. cbn [objs goroutines].
  rewrite !lookup_app_r by lia. rewrite Nat.sub_diag.
  replace (Datatypes.S n - n)%nat with 1%nat by lia. change (2 + n)%nat with (Datatypes.S (Datatypes.S n)).
  replace (Datatypes.S (Datatypes.S n) - n)%nat with 2%nat by lia. split; [done|]. split; [done|]. split; [done|].
  assert (n ∈ goroutines h ++ [n]) as Hin by set_solver. split; [done|]. split.
  - exists n. split; [|apply rtc_refl]. cbn [goroutines]. set_solver.
  - intros (r & Hr & Hpath). apply rtc_inv_r in Hpath as [->|(a & _ & Ha)].
    + cbn [goroutines] in Hr. apply elem_of_app in Hr as [[Hr|Hr]%elem_of_cons|[Hr|Hr%list_elem_of_singleton]%elem_of_app].
      * lia.
      * rewrite Forall_forall in Hroots. specialize (Hroots _ Hr). lia.
      * destruct Hc as [_ Hg]. rewrite Forall_forall in Hg. specialize (Hg _ Hr). lia.
      * lia.
    + eapply not_pointed_at; [done|by rewrite Hnew|exact Ha].
Qed.
End construction.

(** ** Witnesses *)
Section witnesses.
Definition gm1 : GenericCache MemoryStore Empty_set :=
  NewCacheWithPool (CStore ms1) Writable L1 "secret-must-be-min-16chars" 30 None false.

Lemma facade_memory_refines_witness : exists W',
  run clk (cs_do (H := GenericCache_CacheStore enc1 dec1) gm1 (MIncrement "n" 5)) w_items = (Done (ANum 15 None), W') /\
  exists m', stored clk W' m' /\ m' !! "n" = Some (mkItem (VInt Int32 15) None).
Proof.
  destruct (facade_memory_refines enc1 dec1 clk clk_monotone gm1 ms1 (MIncrement "n" 5) w_items only_n) as (j & W' & _ & Hr & Hw & _);
    [reflexivity|exact I|apply w_items_stored|].
  exists W'. split; [exact Hr|]. eexists. split; [exact Hw|]. vm_compute. reflexivity.
Defined.

Lemma memory_finalizer_unreachable_witness : exists C c,
  objs (pm_NewInMemoryStore 30 (mkGc [] [])).2 !! C = Some (OCache c true) /\
  ~ reachable (pm_NewInMemoryStore 30 (mkGc [] [])).2 [2%nat] C.
Proof.
  destruct (memory_finalizer_unreachable 30 (mkGc [] []) []) as (C & c & HC & _ & _ & _ & _ & Hun); [by split|constructor|].
  exists C, c. split; [exact HC|exact Hun].
Defined.
End witnesses.
