(* ===== verification/TestStore.v ===== *)
(** * generic_test_store.go: the store test suites

    The suites are programs over a store: [TStore] is a call of the store,
    [TErrorf] and [TLogf] report to the [testing.T] (format and operands),
    [TSleep u] ends a sleep that lasts until the time [u].  What other goroutines
    (a janitor) do while a suite sleeps is the parameter [others]. *)

From stdpp Require Import gmap strings.
From Stdlib Require Import Strings.Byte.
From S2P Require Import Prelude LruInterface GoValues GoFmt Bytes InMemory Generic.
Local Open Scope Z_scope.

(** An operand of [Errorf]. *)
Inductive arg := ArgErr (e : option error) | ArgInt (n : Z) | ArgStr (s : string) | ArgVal (v : goval).

Inductive testE (E : Type -> Type) : Type -> Type :=
  | TStore X (e : E X) : testE E X
  | TErrorf (format : string) (args : list arg) : testE E unit
  | TLogf (format : string) (args : list arg) : testE E unit
  | TSleep (until : Z) : testE E unit.
Arguments TStore {E X} e.
Arguments TErrorf {E} format args.
Arguments TLogf {E} format args.
Arguments TSleep {E} until.

(** The state of the store, the errors reported and the lines logged. *)
Record tstate (S : Type) := mkT {
  ts_store : S;
  ts_errors : list (string * list arg);
  ts_logs : list (string * list arg) }.
Arguments mkT {S} _ _ _.
Arguments ts_store {S} _.
Arguments ts_errors {S} _.
Arguments ts_logs {S} _.

Definition put_tstore {S} (s : tstate S) (x : S) : tstate S := mkT x (ts_errors s) (ts_logs s).

#[global] Instance testE_handler {E S} `{Handler E S} : Handler (testE E) (tstate S) := fun X e s =>
  match e in testE _ X return X * tstate S with
  | TStore e => let '(x, t) := handle e (ts_store s) in (x, put_tstore s t)
  | TErrorf format args => (tt, mkT (ts_store s) (ts_errors s ++ [(format, args)]) (ts_logs s))
  | TLogf format args => (tt, mkT (ts_store s) (ts_errors s) (ts_logs s ++ [(format, args)]))
  | TSleep _ => (tt, s)
  end.

Definition Hour : Z := 60 * Minute.

Section suites.
Context {E : Type -> Type} {T : Type} `{CacheStore E T}.
Context (others : Z -> Z -> prog (testE E) unit).

Abbreviation test := (prog (testE E)).

Definition tstore {A} (p : prog E A) : test A := embed (fun X e => TStore e) p.

(** [if bad { t.Errorf(format, args...) }] *)
Definition check (bad : bool) (format : string) (args : list arg) : test unit :=
  if bad then call (TErrorf format args) else mret tt.

Definition time_Sleep (d : Z) : test unit :=
  now ← time_Now;
  _ ← others now d;
  call (TSleep (now + d)).

(** What a destination holds afterwards. *)
Definition int_in (v : goval) : Z := match v with VPtr (VInt _ n) => n | _ => 0 end.
Definition string_in (v : goval) : string := match v with VPtr (VString s) => s | _ => EmptyString end.

Definition failed (err : option error) : bool := match err with Some _ => true | None => false end.
Definition is_not (err : option error) (e : error) : bool := negb (bool_decide (err = Some e)).

(** [newCache(t, d)] *)
Definition cacheFactory : Type := Z -> test T.

Definition incrDecr (newCache : cacheFactory) : test unit :=
  cache ← newCache Hour;
  err ← tstore (cs_Set cache "int" (VInt Int 10) DEFAULT);
  _ ← check (failed err) "Error setting int: %s" [ArgErr err];
  r ← tstore (cs_Increment cache "int" 50);
  _ ← check (failed (snd r)) "Error incrementing int: %s" [ArgErr (snd r)];
  _ ← check (negb (fst r =? 60)) "Expected 60, was %d" [ArgInt (fst r)];
  r ← tstore (cs_Decrement cache "int" 50);
  _ ← check (failed (snd r)) "Error decrementing: %s" [ArgErr (snd r)];
  _ ← check (negb (fst r =? 10)) "Expected 10, was %d" [ArgInt (fst r)];
  r ← tstore (cs_Increment cache "int" (2 ^ 64 - 1 - 5));
  _ ← check (failed (snd r)) "Error wrapping around: %s" [ArgErr (snd r)];
  _ ← check (negb (fst r =? 4)) "Expected wraparound 4, got %d" [ArgInt (fst r)];
  r ← tstore (cs_Decrement cache "int" 25);
  _ ← check (failed (snd r)) "Error decrementing below 0: %s" [ArgErr (snd r)];
  check (negb (fst r =? 0)) "Expected capped at 0, got %d" [ArgInt (fst r)].

Definition expiration (newCache : cacheFactory) : test unit :=
  cache ← newCache Second;
  let value := VInt Int 777 in
  _ ← tstore (cs_Set cache "int" value Second);
  _ ← time_Sleep (2 * Second);
  r ← tstore (cs_Get cache "int" (VPtr (VInt Int 0)));
  _ ← check (is_not (fst r) ErrCacheMiss) "Expected CacheMiss, but got: %s - %v" [ArgErr (fst r); ArgInt (int_in (snd r))];
  _ ← tstore (cs_Set cache "int" value Second);
  _ ← time_Sleep (2 * Second);
  r ← tstore (cs_Get cache "int" (snd r));
  _ ← check (is_not (fst r) ErrCacheMiss) "Expected CacheMiss, but got: %s" [ArgErr (fst r)];
  _ ← tstore (cs_Set cache "int" value Hour);
  _ ← time_Sleep (2 * Second);
  r ← tstore (cs_Get cache "int" (snd r));
  _ ← check (failed (fst r)) "Expected to get the value, but got: %s" [ArgErr (fst r)];
  _ ← tstore (cs_Set cache "int" value FOREVER);
  _ ← time_Sleep (2 * Second);
  r ← tstore (cs_Get cache "int" (snd r));
  check (failed (fst r)) "Expected to get the value, but got: %s" [ArgErr (fst r)].

Definition emptyCache (newCache : cacheFactory) : test unit :=
  cache ← newCache Hour;
  r ← tstore (cs_Get cache "notexist" (VInt Int 0));
  _ ← check (negb (failed (fst r))) "Error expected for non-existent key" [];
  _ ← check (is_not (fst r) ErrCacheMiss) "Expected ErrCacheMiss for non-existent key: %s" [ArgErr (fst r)];
  err ← tstore (cs_Delete cache "notexist");
  _ ← check (is_not err ErrCacheMiss) "Expected ErrCacheMiss for non-existent key: %s" [ArgErr err];
  r ← tstore (cs_Increment cache "notexist" 1);
  _ ← check (is_not (snd r) ErrCacheMiss) "Expected cache miss incrementing non-existent key: %s" [ArgErr (snd r)];
  r ← tstore (cs_Decrement cache "notexist" 1);
  check (is_not (snd r) ErrCacheMiss) "Expected cache miss decrementing non-existent key: %s" [ArgErr (snd r)].

(** Up to the sleep, and from it. *)
Definition testReplace_before (newCache : cacheFactory) : test (T * goval) :=
  cache ← newCache Hour;
  err ← tstore (cs_Replace cache "notexist" (VInt Int 1) FOREVER);
  _ ← check (is_not err ErrNotStored && is_not err ErrCacheMiss)
    "Replace in empty cache: expected ErrNotStored or ErrCacheMiss, got: %s" [ArgErr err];
  err ← tstore (cs_Set cache "int" (VInt Int 1) Second);
  _ ← check (failed err) "Unexpected error: %s" [ArgErr err];
  err ← tstore (cs_Replace cache "int" (VInt Int 2) Second);
  _ ← check (failed err) "Unexpected error: %s" [ArgErr err];
  r ← tstore (cs_Get cache "int" (VPtr (VInt Int 0)));
  _ ← check (failed (fst r)) "Unexpected error getting a replaced item: %s" [ArgErr (fst r)];
  _ ← check (negb (int_in (snd r) =? 2)) "Expected 2, got %d" [ArgInt (int_in (snd r))];
  mret (cache, snd r).

Definition testReplace_after (cache : T) (i : goval) : test unit :=
  _ ← time_Sleep (5 * Second);
  err ← tstore (cs_Replace cache "int" (VInt Int 3) Second);
  _ ← check (is_not err ErrNotStored && is_not err ErrCacheMiss)
    "Expected ErrNotStored or ErrCacheMiss, got: %s" [ArgErr err];
  r ← tstore (cs_Get cache "int" i);
  check (is_not (fst r) ErrCacheMiss) "Expected cache miss, got: %s" [ArgErr (fst r)].

Definition testReplace (newCache : cacheFactory) : test unit :=
  x ← testReplace_before newCache;
  testReplace_after (fst x) (snd x).

Definition testAdd (newCache : cacheFactory) : test unit :=
  cache ← newCache Hour;
  err ← tstore (cs_Add cache "int" (VInt Int 1) Second);
  _ ← check (failed err) "Unexpected error adding to empty cache: %s" [ArgErr err];
  err ← tstore (cs_Add cache "int" (VInt Int 2) Second);
  _ ← check (is_not err ErrNotStored) "Expected ErrNotStored adding dupe to cache: %s" [ArgErr err];
  _ ← time_Sleep (2 * Second);
  err ← tstore (cs_Add cache "int" (VInt Int 3) Second);
  _ ← check (failed err) "Unexpected error adding to cache: %s" [ArgErr err];
  r ← tstore (cs_Get cache "int" (VPtr (VInt Int 0)));
  _ ← check (failed (fst r)) "Unexpected error: %s" [ArgErr (fst r)];
  check (negb (int_in (snd r) =? 3)) "Expected 3, got: %d" [ArgInt (int_in (snd r))].
End suites.

(** ** The suites for [GenericCache] *)
Section generic_suites.
Context {E : Type -> Type} {T R U : Type} `{CacheStore E T, CacheStore E R, !RedisOps E R, CacheStore E U}.
Context (gob_encode : goval -> error + list byte) (gob_decode : list byte -> error + goval).
Context (others : Z -> Z -> prog (testE E) unit).
(** The assertion [c.( *GenericCache )] on a value of the interface, and
    [time.Time.String]. *)
Context (as_generic : U -> option (GenericCache T R)) (time_String : Z -> string).

Abbreviation test := (prog (testE E)).

Definition entry_in (v : goval) : GenericCacheEntry :=
  match v with VPtr (VEntry d a x) => mkEntry d a x | _ => zero_entry end.

Definition typicalGetSet (newCache : cacheFactory (E := E) (T := U)) : test unit :=
  c ← newCache Hour;
  err ← tstore (cs_Set c "value" (VString "foo") DEFAULT);
  _ ← check (failed err) "Error setting a value: %s" [ArgErr err];
  _ ← tstore (cs_Get c "value" (VPtr (VString EmptyString)));
  g ← assert_some (as_generic c) (not_a "*cache.GenericCache");
  r ← tstore (g_Get gob_decode g "value" (VPtr (VString EmptyString)));
  _ ← check (failed (fst r)) "Error getting a value: %s" [ArgErr (fst r)];
  _ ← check (negb (String.eqb (string_in (snd r)) "foo")) "Expected to get foo back, got %s" [ArgStr (string_in (snd r))];
  let exp := 3 * Minute in
  g ← assert_some (as_generic c) (not_a "*cache.GenericCache");
  entry ← tstore (NewGenericCacheEntry g (VString "encrypted-data") exp);
  err ← tstore (cs_Set c "value" (of_entry entry) exp);
  _ ← check (failed err) "Error setting a value: %s" [ArgErr err];
  r ← tstore (cs_Get c "value" (VPtr (of_entry zero_entry)));
  _ ← check (failed (fst r)) "Error getting a value: %s" [ArgErr (fst r)];
  check (negb (bool_decide (Data (entry_in (snd r)) = VString "encrypted-data")))
    "Expected to get encrypted-data back, got %v" [ArgVal (of_entry (entry_in (snd r)))].

Definition genericCacheFactory : Type := Z -> test (GenericCache T R).

(** [uint64(time.Now().Unix() + s)] *)
Definition unix_in (s : Z) : test Z := now ← time_Now; mret (uint64 (int64 (Unix now + s))).

Definition incrRedisAtomicAndExpireAt (newStore : genericCacheFactory) : test unit :=
  store ← newStore Hour;
  err ← tstore (g_Set gob_encode store "int" (VInt Int 10) DEFAULT);
  _ ← check (failed err) "Error setting int: %s" [ArgErr err];
  r ← tstore (s ← the_redis store; rs_IncrementAtomic s "int" 50);
  _ ← check (failed (snd r)) "Error incrementing int: %s" [ArgErr (snd r)];
  _ ← tstore (the_redis store);
  at30 ← unix_in 30;
  err ← tstore (s ← the_redis store; rs_ExpireAt s "int" at30);
  _ ← check (failed err) "Error setting expire at for 'int': %s" [ArgErr err];
  _ ← check (negb (fst r =? 60)) "Expected 60, was %d" [ArgInt (fst r)];
  r ← tstore (s ← the_redis store; rs_IncrementCheckSet s "int" 50);
  _ ← check (failed (snd r)) "Error incrementing int: %s" [ArgErr (snd r)];
  _ ← check (negb (fst r =? 110)) "Expected 110, was %d" [ArgInt (fst r)];
  r ← tstore (s ← the_redis store; rs_IncrementCheckSet s "badkey" 50);
  _ ← check (is_not (snd r) ErrCacheMiss) "Error incrementing badkey.. should have been ErrCacheMiss" [];
  r ← tstore (s ← the_redis store; rs_IncrementAtomic s "newInt" 2);
  _ ← check (failed (snd r)) "Error incrementing int: %s" [ArgErr (snd r)];
  _ ← check (negb (fst r =? 2)) "Expected 2, was %d" [ArgInt (fst r)];
  _ ← tstore (the_redis store);
  at1 ← unix_in 1;
  err ← tstore (s ← the_redis store; rs_ExpireAt s "newInt" at1);
  _ ← check (failed err) "Error setting expire at for 'int': %s" [ArgErr err];
  _ ← time_Sleep others (2 * Second);
  r ← tstore (g_Get gob_decode store "newInt" (VPtr (VInt Uint64 (fst r))));
  check (is_not (fst r) ErrCacheMiss) "Expected cache miss" [].

Definition testRedisGetExpiresIn (newCache : genericCacheFactory) : test unit :=
  now ← time_Now;
  let key := "get-expires-in-" +:+ time_String now in
  cache ← newCache Minute;
  err ← tstore (g_Add cache key (VInt Int 1) Second);
  _ ← check (failed err) "Unexpected error adding to empty cache: %s" [ArgErr err];
  r ← tstore (RedisGetExpiresIn cache key);
  _ ← match snd r with
      | Some err => call (TErrorf "unexpected error == %s" [ArgStr (Error err)])
      | None => mret tt
      end;
  _ ← check ((fst r <? 500) || (1000 <? fst r)) "unexpected value for ttl == %d" [ArgInt (fst r)];
  call (TLogf "ttl == %d" [ArgInt (fst r)]).
End generic_suites.
