(* ===== verification/TestProps.v ===== *)
(** * The stores pass the test suites

    Each suite of generic_test_store.go, run on any [MapStore], ends without an
    error reported: on [InMemoryStore] and on a [GenericCache] in front of it.  The
    suites that wait for an entry to expire before they [Add] or [Replace] it pass
    because of the janitor, and fail without one. *)

From stdpp Require Import gmap strings.
From S2P Require Import Prelude LruInterface GoValues GoFmt Bytes InMemory InMemoryProps Generic GenericProps.
From S2P Require Import MapStore TestStore.
Local Open Scope Z_scope.

(** ** Time

    In a run every sleep until [u] ends in a world where [u] is [reached]: by the clock
    of the program (a timely run), or by that of a server. *)
Section sleeps.
Context {E : Type -> Type} {S : Type} `{Handler E S} (clock : nat -> Z).
Context (reached : Z -> world (tstate S) -> Prop).

Definition woken {X} (e : testE E X) (w : world (tstate S)) : Prop :=
  match e with TSleep u => reached u w | _ => True end.

Fixpoint sleeps {A} (p : prog (testE E) A) (w : world (tstate S)) : Prop :=
  match p with
  | Ret _ | Panic _ => True
  | Now k => sleeps (k (clock (w_tick w))) (tick w)
  | Log l k => sleeps k (add_log w l)
  | Vis e k => woken e w /\ let '(x, s) := handle e (w_state w) in sleeps (k x) (set_state w s)
  end.

Lemma sleeps_fst {A B} (p : prog (testE E) A) (f : A -> prog (testE E) B) w : sleeps (p ≫= f) w -> sleeps p w.
Proof.
  revert w. induction p as [x|msg|k IH|l k IH|X e k IH]; intros w; simpl; try done.
  - apply (IH (clock (w_tick w)) (tick w)).
  - apply (IH (add_log w l)).
  - intros [He Ht]. split; [done|]. destruct (handle e (w_state w)) as [x s]. by apply (IH x (set_state w s)).
Qed.

Lemma sleeps_snd {A B} (p : prog (testE E) A) (f : A -> prog (testE E) B) w a w1 :
  run clock p w = (Done a, w1) -> sleeps (p ≫= f) w -> sleeps (f a) w1.
Proof.
  revert w. induction p as [x|msg|k IH|l k IH|X e k IH]; intros w; simpl; intros Hr Ht; simplify_eq; try done.
  - by apply (IH (clock (w_tick w)) (tick w)).
  - by apply (IH (add_log w l)).
  - destruct Ht as [He Ht]. destruct (handle e (w_state w)) as [x s]. by apply (IH x (set_state w s)).
Qed.
End sleeps.

(** A run is timely if every sleep has lasted at least as long as it should. *)
Definition on_time {S} (clock : nat -> Z) (u : Z) (w : world (tstate S)) : Prop := u <= clock (w_tick w).
Definition timely {E S} `{Handler E S} (clock : nat -> Z) {A} (p : prog (testE E) A) (w : world (tstate S)) : Prop :=
  sleeps clock (on_time clock) p w.

Section harness.
Context {E : Type -> Type} {T S : Type} `{MS : MapStore E T S} (clock : nat -> Z).
Implicit Types (w : world (tstate S)) (k : string).

(** The store's part of the world. *)
Definition t_inner w : world S := World (ts_store (w_state w)) (w_tick w) (w_log w).
Definition t_outer w (w1 : world S) : world (tstate S) :=
  World (put_tstore (w_state w) (w_state w1)) (w_tick w1) (w_log w1).

Lemma run_tstore {A} (p : prog E A) w :
  run clock (tstore p) w = let '(o, w1) := run clock p (t_inner w) in (o, t_outer w w1).
Proof.
  unfold tstore, t_inner, t_outer. apply (run_embed clock (fun X e => TStore e) ts_store put_tstore); try done.
  by destruct w as [[]].
Qed.

(** [p] ran to [w1] with answer [a] and reported the errors [errs]; or none. *)
Definition ran {A} (p : prog (testE E) A) w (a : A) w1 errs : Prop :=
  run clock p w = (Done a, w1) /\ ts_errors (w_state w1) = ts_errors (w_state w) ++ errs /\ (w_tick w <= w_tick w1)%nat.
Definition silent {A} (p : prog (testE E) A) w (a : A) w1 : Prop := ran p w a w1 [].

(** An assumption on a run that holds of its later parts too: none, that its
    sleeps last, or that it takes no reading after the [n]-th. *)
Record guard := {
  guards :> forall B, prog (testE E) B -> world (tstate S) -> Prop;
  guards_rest A B (p : prog (testE E) A) (f : A -> prog (testE E) B) w a w1 :
    run clock p w = (Done a, w1) -> guards B (p ≫= f) w -> guards B (f a) w1 }.

Definition always : guard.
Proof. by refine {| guards B p w := True |}. Defined.

Definition slept (reached : Z -> world (tstate S) -> Prop) : guard.
Proof.
  refine {| guards B p w := sleeps clock reached p w |}. intros A B p f w a w1. apply sleeps_snd.
Defined.
Definition timed : guard := slept (on_time clock).

Definition quick (n : nat) : guard.
Proof.
  refine {| guards B p w := (w_tick (run clock p w).2 <= n)%nat |}.
  intros A B p f w a w1 Hp. by rewrite (run_bind_done _ _ _ _ _ _ Hp).
Defined.

(** In a run that satisfies [G], [p] ends with [b] in a world with [Q], reporting [errs]. *)
Definition ends (G : guard) {B} (p : prog (testE E) B) w (b : B) errs (Q : world (tstate S) -> Prop) : Prop :=
  G B p w -> exists w', ran p w b w' errs /\ Q w'.

Lemma ends_silent (G : guard) (p : prog (testE E) unit) w : G unit p w -> ends G p w tt [] (fun _ => True) ->
  exists w', silent p w tt w'.
Proof. intros HG Hp. destruct (Hp HG) as (w' & Hr & _). by exists w'. Qed.

Lemma ends_quick n {B} (p : prog (testE E) B) w b errs Q :
  ((w_tick w <= n)%nat -> ends (quick n) p w b errs Q) -> ends (quick n) p w b errs Q.
Proof. intros Hp Hq. apply Hp; [|done]. simpl in Hq. pose proof (run_tick clock p w). lia. Qed.

Lemma ends_bind (G : guard) {A B} (p : prog (testE E) A) (f : A -> prog (testE E) B) w a w1 b errs errs' Q :
  ran p w a w1 errs -> ends G (f a) w1 b errs' Q -> ends G (p ≫= f) w b (errs ++ errs') Q.
Proof.
  intros (Hp & He & Ht) Hf HG. destruct Hf as (w2 & (Hf & He' & Ht') & HQ); [by apply (guards_rest G _ _ p f w a w1)|].
  exists w2. split; [|done]. split; [by rewrite (run_bind_done _ _ _ _ _ _ Hp)|]. split; [|lia].
  by rewrite He', He, app_assoc.
Qed.

Lemma ends_then (G : guard) {A B} (p : prog (testE E) A) (f : A -> prog (testE E) B) w a w1 b errs Q :
  silent p w a w1 -> ends G (f a) w1 b errs Q -> ends G (p ≫= f) w b errs Q.
Proof. apply (ends_bind G p f w a w1 b [] errs). Qed.

Lemma ran_check bad format args w :
  exists w1, ran (check bad format args) w tt w1 (if bad then [(format, args)] else []) /\ t_inner w1 = t_inner w.
Proof.
  destruct bad; [|exists w; split; [split; [done|]; by rewrite app_nil_r|done]].
  eexists. split; [split; [done|]; simpl; split; [done|lia]|]. done.
Qed.

(** A check reports its error exactly when the condition holds. *)
Lemma ends_check (G : guard) {B} bad format args (f : unit -> prog (testE E) B) w b errs Q :
  (forall w1, t_inner w1 = t_inner w -> ends G (f tt) w1 b errs Q) ->
  ends G (check bad format args ≫= f) w b ((if bad then [(format, args)] else []) ++ errs) Q.
Proof. intros Hf. destruct (ran_check bad format args w) as (w1 & Hr & Hi). eapply ends_bind; [exact Hr|by apply Hf]. Qed.

Lemma ends_last_check (G : guard) bad format args w :
  ends G (check bad format args) w tt (if bad then [(format, args)] else []) (fun _ => True).
Proof. intros _. destruct (ran_check bad format args w) as (w1 & Hr & _). by exists w1. Qed.

Lemma ends_check_ok (G : guard) {B} bad format args (f : unit -> prog (testE E) B) w b errs Q :
  bad = false -> ends G (f tt) w b errs Q -> ends G (check bad format args ≫= f) w b errs Q.
Proof. intros ->. apply ends_then. split; [done|]. by rewrite app_nil_r. Qed.

Context (t : T).

(** A call of the store in a suite. *)
Lemma ends_call (G : guard) {A B} (p : prog E A) (f : A -> prog (testE E) B) w k a e b errs Q :
  answers clock t p (t_inner w) k a e ->
  (forall w1, at_key t (t_inner w1) k e -> (w_tick w <= w_tick w1)%nat -> ends G (f a) w1 b errs Q) ->
  ends G (tstore p ≫= f) w b errs Q.
Proof.
  intros (w' & Hr & Hk & Ht) Hf. eapply (ends_then _ _ _ _ _ (t_outer w w')); [|by apply Hf].
  split; [by rewrite run_tstore, Hr|]. simpl. by rewrite app_nil_r.
Qed.

(** The calls the suites make, with whole numbers. *)
Definition int_call (o : mop) : bool :=
  match o with
  | MGet _ (VPtr (VInt Int _)) | MGet _ (VInt Int _) => true
  | MSet _ (VInt Int _) _ | MAdd _ (VInt Int _) _ | MReplace _ (VInt Int _) _ => true
  | MDelete _ | MIncrement _ _ | MDecrement _ _ => true
  | _ => false
  end.
Context (Haccepts : forall o, int_call o = true -> ms_accepts t o).

(** One step of a suite: the call whose answer lemma is [lem], or a check. *)
Ltac store_step lem w1 Hk := eapply ends_call; [first [eapply lem; try done; try (by apply Haccepts)]|];
  let Ht := fresh "Ht" in intros w1 Hk Ht; cbv beta.
Ltac get_step lem tac w1 Hk := eapply ends_call; [eapply lem; [by apply Haccepts|eassumption|tac..]|];
  let Ht := fresh "Ht" in intros w1 Hk Ht; cbv beta.
Ltac check_step := apply ends_check_ok; [done|]; cbv beta.

(** The suite incrDecr passes on every store that behaves as a map: it sets,
    adds, subtracts, wraps around at 2^64 and stops at zero, and reports no error. *)
Theorem suite_incrDecr newCache w w0 e : silent (newCache Hour) w t w0 -> at_key t (t_inner w0) "int" e ->
  exists w', silent (incrDecr newCache) w tt w'.
Proof.
  intros Hnew He. apply (ends_silent always); [done|].
  unfold incrDecr. eapply ends_then; [exact Hnew|]. cbv beta.
  store_step (key_Set clock t) w1 Hk. check_step. store_step (key_Increment clock t) w2 Hk2. check_step. check_step.
  store_step (key_Decrement clock t) w3 Hk3. check_step. check_step.
  store_step (key_Increment clock t) w4 Hk4. check_step. check_step.
  store_step (key_Decrement clock t) w5 Hk5. check_step. by apply (ends_last_check _ false).
Qed.

(** The suite emptyCache passes on a store without the key: every method that
    needs the key answers ErrCacheMiss. *)
Theorem suite_emptyCache newCache w w0 : silent (newCache Hour) w t w0 -> at_key t (t_inner w0) "notexist" None ->
  exists w', silent (emptyCache newCache) w tt w'.
Proof.
  intros Hnew He. apply (ends_silent always); [done|].
  unfold emptyCache. eapply ends_then; [exact Hnew|]. cbv beta.
  store_step (key_Get_miss clock t) w1 Hk. check_step. check_step.
  store_step (key_Delete clock t) w2 Hk2. check_step.
  store_step (proj1 (key_arith_miss clock t "notexist" 1 (t_inner w2) (Haccepts (MIncrement _ _) eq_refl) (Haccepts (MDecrement _ _) eq_refl) Hk2)) w3 Hk3.
  check_step.
  store_step (proj2 (key_arith_miss clock t "notexist" 1 (t_inner w3) (Haccepts (MIncrement _ _) eq_refl) (Haccepts (MDecrement _ _) eq_refl) Hk3)) w4 Hk4.
  by apply (ends_last_check _ false).
Qed.

(** *** Sleeping *)
Context (others : Z -> Z -> prog (testE E) unit).

Lemma ends_asleep reached {B} d (f : unit -> prog (testE E) B) w b errs Q :
  let now := clock (w_tick w) in
  (sleeps clock reached (others now d) (tick w) -> exists w1, silent (others now d) (tick w) tt w1 /\
     (reached (now + d) w1 -> ends (slept reached) (f tt) w1 b errs Q)) ->
  ends (slept reached) (time_Sleep others d ≫= f) w b errs Q.
Proof.
  intros now Hf Htm. set (q := others now d ≫= fun _ => call (TSleep (now + d))).
  change (sleeps clock reached (q ≫= f) (tick w)) in Htm.
  change (exists w', ran (time_Now ≫= fun now => (others now d ≫= fun _ => call (TSleep (now + d))) ≫= f) w b w' errs /\ Q w').
  pose proof (sleeps_fst clock reached _ _ _ Htm) as Hq.
  destruct (Hf (sleeps_fst clock reached _ _ _ Hq)) as (w1 & (Hr & He & Ht) & Hrest).
  destruct (sleeps_snd clock reached _ _ _ _ _ Hr Hq) as [Hwake _]. simpl in Ht, Hwake.
  assert (run clock q (tick w) = (Done tt, w1)) as Hrun.
  { unfold q. rewrite (run_bind_done _ _ _ _ _ _ Hr). cbn [call run]. unfold handle, testE_handler. by destruct w1. }
  destruct (Hrest Hwake) as (w2 & (Hf2 & He2 & Ht2) & HQ); [by apply (sleeps_snd clock reached _ _ _ _ _ Hrun)|].
  exists w2. split; [|done]. split; [|split; [simpl in He; rewrite He2, He; by rewrite app_nil_r|lia]].
  rewrite run_time_Now. by rewrite (run_bind_done _ _ _ _ _ _ Hrun).
Qed.

Context (Hclock : monotone clock) (Hrange : forall i, Second <= clock i < 2 ^ 62).

(** While the suite sleeps the others report nothing, and entry [e] of [k] may
    become [e']. *)
Definition meanwhile (R : Z -> option GenericCacheEntry -> option GenericCacheEntry -> Prop) k : Prop :=
  forall now d w e, at_key t (t_inner w) k e -> timely clock (others now d) w ->
    exists w' e', silent (others now d) w tt w' /\ at_key t (t_inner w') k e' /\ R (now + d) e e'.

Lemma ends_sleep R {B} d (f : unit -> prog (testE E) B) w k e b errs Q : meanwhile R k -> at_key t (t_inner w) k e ->
  (forall w1 e', at_key t (t_inner w1) k e' -> R (clock (w_tick w) + d) e e' ->
     (w_tick w <= w_tick w1)%nat -> clock (w_tick w) + d <= clock (w_tick w1) -> ends timed (f tt) w1 b errs Q) ->
  ends timed (time_Sleep others d ≫= f) w b errs Q.
Proof.
  intros Hothers Hk Hf. apply ends_asleep. intros Hs. destruct (Hothers _ d (tick w) e Hk Hs) as (w1 & e' & Hr & Hk1 & HR).
  exists w1. split; [done|]. intros Hwake. apply (Hf w1 e' Hk1 HR); [|done]. destruct Hr as (_ & _ & Ht). simpl in Ht. lia.
Qed.

(** Nobody else runs. *)
Lemma nobody_same k : (forall now d, others now d = mret tt) -> meanwhile (fun _ e e' => e' = e) k.
Proof.
  intros Hn now d w e Hk _. exists w, e. rewrite Hn. split; [|done]. split; [done|]. by rewrite app_nil_r.
Qed.

Lemma meanwhile_mono (R R' : Z -> option GenericCacheEntry -> option GenericCacheEntry -> Prop) k :
  (forall u e e', R u e e' -> R' u e e') -> meanwhile R k -> meanwhile R' k.
Proof. intros HR Hm now d w e Hk Ht. destruct (Hm now d w e Hk Ht) as (w' & e' & ? & ? & ?). exists w', e'. auto. Qed.

(** The others leave a live entry alone. *)
Definition keeps (u : Z) (e e' : option GenericCacheEntry) : Prop :=
  e' = e \/ (e' = None /\ forall x, e = Some x -> exists i, (i : Z) <= u /\ live i x = false).

Lemma keeps_later u u' e e' : u <= u' -> keeps u e e' -> keeps u' e e'.
Proof.
  intros Hu [->|[-> Hd]]; [by left|]. right. split; [done|]. intros x Hx. destruct (Hd x Hx) as (i & Hi & Hl).
  exists i. split; [lia|done].
Qed.

(** An entry with a second to live, two seconds later. *)
Lemma second_gone c v n n' u e' : (n <= n')%nat -> clock n' + 2 * Second <= u ->
  keeps u (Some (stamp c v Second (clock n))) e' -> forall x, e' = Some x -> live u x = false.
Proof.
  intros Hn Hu [->|[-> _]] x Hx; [|done]. injection Hx as <-. apply stamp_dead; [unfold Second; lia|apply Hrange|].
  pose proof (Hclock n n' Hn). unfold Second in *. lia.
Qed.

(** An entry that is live at [u] is kept. *)
Lemma live_kept u x e' : keeps u (Some x) e' -> live u x = true -> e' = Some x.
Proof.
  intros [->|[_ Hd]] Hl; [done|]. destruct (Hd x eq_refl) as (i & Hi & Hdead).
  by rewrite (live_antitone i u x Hi Hl) in Hdead.
Qed.

(** C37. The suite expiration passes in a timely run that takes less than an hour: a
    value with one second to live is gone after two seconds, one with an hour and one
    without deadline are still there. *)
Theorem suite_expiration newCache w w0 e : meanwhile keeps "int" ->
  silent (newCache Second) w t w0 -> at_key t (t_inner w0) "int" e ->
  timely clock (expiration others newCache) w ->
  (forall i, clock i + 4 * Second < clock (w_tick w) + Hour) ->
  exists w', silent (expiration others newCache) w tt w'.
Proof.
  intros Hothers Hnew He Htm Hhour. apply (ends_silent timed); [done|].
  unfold expiration. eapply ends_then; [exact Hnew|]. cbv beta zeta.
  store_step (key_Set clock t) w1 Hk1. eapply ends_sleep; [exact Hothers|exact Hk1|].
  intros w2 e2 Hk2 HR2 Ht2 Hslept2. cbv beta.
  get_step (key_Get_miss clock t) ltac:(by eapply second_gone; [|exact Hslept2|exact (keeps_later _ _ _ _ Hslept2 HR2)]) w3 Hk3.
  check_step. store_step (key_Set clock t) w4 Hk4. eapply ends_sleep; [exact Hothers|exact Hk4|].
  intros w5 e5 Hk5 HR5 Ht5 Hslept5. cbv beta.
  get_step (key_Get_miss clock t) ltac:(by eapply second_gone; [|exact Hslept5|exact (keeps_later _ _ _ _ Hslept5 HR5)]) w6 Hk6.
  check_step. store_step (key_Set clock t) w7 Hk7. eapply ends_sleep; [exact Hothers|exact Hk7|].
  intros w8 e8 Hk8 HR8 Ht8 Hslept8. cbv beta.
  match type of HR8 with keeps _ (Some ?x) _ => assert (live (clock (w_tick w8)) x = true) as Hlive8 end.
  { apply stamp_live; [unfold Hour, Minute, Second; lia|apply Hrange|]. specialize (Hhour (w_tick w8)).
    destruct Hnew as (_ & _ & Htn). assert (w_tick w <= w_tick w6)%nat as Hle by lia. apply Hclock in Hle.
    change (clock (w_tick (t_inner w6))) with (clock (w_tick w6)). unfold Second in *. lia. }
  apply (live_kept _ _ _ (keeps_later _ _ _ _ Hslept8 HR8)) in Hlive8 as Heq; subst e8.
  get_step (key_Get_hit clock t) ltac:(first [exact Hlive8|reflexivity]) w9 Hk9.
  check_step. store_step (key_Set clock t) w10 Hk10. eapply ends_sleep; [exact Hothers|exact Hk10|].
  intros w11 e11 Hk11 HR11 Ht11 Hslept11. cbv beta.
  apply live_kept in HR11; [|apply stamp_forever]. subst e11.
  get_step (key_Get_hit clock t) ltac:(first [apply stamp_forever|reflexivity]) w12 Hk12.
  by apply (ends_last_check _ false).
Qed.

(** *** Suites that wait for an entry to go away *)
Lemma empty_Replace v k k' exp (w : world S) : ms_accepts t (MReplace k v exp) -> ms_holds t (w_state w) ∅ ->
  answers clock t (cs_Replace t k v exp) w k' (Some ErrNotStored) None.
Proof.
  intros Ho Hm. destruct (ms_step t (MReplace k v exp) clock w ∅ Ho Hm) as (w' & m' & Hr & Hm' & Hsub & _).
  unfold spec_mop in Hr, Hsub. cbn [op_of spec_op] in Hr, Hsub. rewrite lookup_empty in Hr, Hsub.
  destruct (run_wrap clock (cs_Replace t k v exp) AErr _ _ _ Hr) as [(r & Hp & Hf)|(msg & _ & Hf)]; [|done].
  injection Hf as <-. exists w'. split; [exact Hp|]. split.
  - exists m'. split; [done|]. eapply lookup_weaken_None; [|done]. apply lookup_empty.
  - pose proof (run_tick clock (cs_Replace t k v exp) w) as Ht. by rewrite Hp in Ht.
Qed.

(** The janitor has looked at every entry in the last second before [u]. *)
Definition sweeps (u : Z) (e e' : option GenericCacheEntry) : Prop :=
  (e' = e \/ e' = None) /\ forall x, e' = Some x -> exists i, u - Second < i /\ live i x = true.

(** So an entry with a second to live is gone after a sleep of two seconds or more. *)
Lemma second_swept c v n n' d e' : (n <= n')%nat -> 2 * Second <= d ->
  sweeps (clock n' + d) (Some (stamp c v Second (clock n))) e' -> e' = None.
Proof.
  intros Hn Hd ([Heq|Heq] & Hl); [|done]. subst e'. destruct (Hl _ eq_refl) as (i & Hi & Hlive). pose proof (Hclock n n' Hn).
  rewrite stamp_dead in Hlive; [done|unfold Second; lia|apply Hrange|]. unfold Second in *. lia.
Qed.

(** The suite testAdd passes when a janitor with an interval of one second runs:
    the second [Add] is refused, and after two seconds the key can be added again (the
    calls that follow the sleep fall in one second of the clock). *)
Theorem suite_testAdd newCache w w0 : meanwhile sweeps "int" ->
  silent (newCache Hour) w t w0 -> at_key t (t_inner w0) "int" None ->
  timely clock (testAdd others newCache) w ->
  (forall i j, clock (w_tick w) + 2 * Second <= clock i -> (i <= j)%nat -> clock j / Second = clock i / Second) ->
  exists w', silent (testAdd others newCache) w tt w'.
Proof.
  intros Hothers Hnew He Htm Hprompt. apply (ends_silent timed); [done|].
  unfold testAdd. eapply ends_then; [exact Hnew|]. cbv beta.
  store_step (key_Add clock t) w1 Hk1. check_step. store_step (key_Add clock t) w2 Hk2. check_step.
  eapply ends_sleep; [exact Hothers|exact Hk2|]. intros w3 e3 Hk3 HR3 Ht3 Hslept3. cbv beta.
  apply second_swept in HR3 as ->; [|simpl; lia|lia].
  store_step (key_Add clock t) w4 Hk4. check_step.
  cbv iota in Hk4. match type of Hk4 with at_key _ _ _ (Some ?x) => assert (live (clock (w_tick w4)) x = true) as Hlive4 end.
  { destruct Hnew as (_ & _ & Htn). assert (w_tick w <= w_tick w2)%nat as Hle by lia. apply Hclock in Hle.
    apply stamp_live_second; [unfold Second; lia|apply Hrange|]. apply Hprompt; [|done]. simpl. lia. }
  get_step (key_Get_hit clock t) ltac:(first [exact Hlive4|reflexivity]) w5 Hk5.
  check_step. by apply (ends_last_check _ false).
Qed.

(** Without a janitor the suite testAdd fails on a store that behaves as the
    in-memory store: the expired entry still blocks the [Add], although [Get] does not
    find it, and three errors are reported. *)
Theorem suite_testAdd_without_janitor newCache w w0 :
  (forall now d, others now d = mret tt) ->
  silent (newCache Hour) w t w0 -> at_key t (t_inner w0) "int" None ->
  timely clock (testAdd others newCache) w ->
  exists w', run clock (testAdd others newCache) w = (Done tt, w') /\
    ts_errors (w_state w') = ts_errors (w_state w) ++
      [("Unexpected error adding to cache: %s", [ArgErr (Some ErrNotStored)]);
       ("Unexpected error: %s", [ArgErr (Some ErrCacheMiss)]);
       ("Expected 3, got: %d", [ArgInt 0])].
Proof.
  intros Hnobody Hnew He Htm.
  enough (ends timed (testAdd others newCache) w tt
    [("Unexpected error adding to cache: %s", [ArgErr (Some ErrNotStored)]);
     ("Unexpected error: %s", [ArgErr (Some ErrCacheMiss)]); ("Expected 3, got: %d", [ArgInt 0])] (fun _ => True)) as Hp.
  { destruct (Hp Htm) as (w' & (Hr & Herr & _) & _). by exists w'. }
  unfold testAdd. eapply ends_then; [exact Hnew|]. cbv beta.
  store_step (key_Add clock t) w1 Hk1. check_step. store_step (key_Add clock t) w2 Hk2. check_step.
  eapply ends_sleep; [exact (nobody_same "int" Hnobody)|exact Hk2|]. intros w3 e3 Hk3 -> Ht3 Hslept3. cbv beta.
  store_step (key_Add clock t) w4 Hk4. apply (ends_check _ true). intros w5 Hw5.
  eapply ends_call.
  { eapply (key_Get_miss clock t "int"); [by apply Haccepts|rewrite Hw5; exact Hk4|]. intros x [= <-].
    rewrite Hw5. apply stamp_dead; [unfold Second; lia|apply Hrange|]. simpl.
    assert (clock (w_tick w0) <= clock (w_tick w2)) by (apply Hclock; lia).
    assert (clock (w_tick w3) <= clock (w_tick w4)) by (by apply Hclock). unfold Second in *. lia. }
  intros w6 Hk6 Ht6. apply (ends_check _ true). intros w7 Hw7. apply (ends_last_check _ true).
Qed.

(** Up to the sleep: within one second of the clock the value replaced is found. *)
Lemma testReplace_before_ends newCache w w0 n : silent (newCache Hour) w t w0 -> ms_holds t (ts_store (w_state w0)) ∅ ->
  clock n / Second = clock (w_tick w) / Second ->
  ends (quick n) (testReplace_before newCache) w (t, VPtr (VInt Int 2)) [] (fun w1 => exists c v i, (i <= w_tick w1)%nat /\
    at_key t (t_inner w1) "int" (Some (stamp c v Second (clock i)))).
Proof.
  intros Hnew He Hn.
  assert (forall i j, (w_tick w <= i <= n)%nat -> (w_tick w <= j <= n)%nat -> clock i / Second = clock j / Second) as Hsame.
  { assert (forall i, (w_tick w <= i <= n)%nat -> clock i / Second = clock n / Second) as Hone.
    { intros i Hi. pose proof (Z.div_le_mono (clock (w_tick w)) (clock i) Second eq_refl (Hclock (w_tick w) i ltac:(lia))).
      pose proof (Z.div_le_mono (clock i) (clock n) Second eq_refl (Hclock i n ltac:(lia))). lia. }
    intros i j Hi Hj. by rewrite (Hone i), (Hone j). }
  unfold testReplace_before. eapply ends_then; [exact Hnew|]. cbv beta.
  eapply ends_call; [apply (empty_Replace (VInt Int 1) "notexist" "int"); [by apply Haccepts|done]|].
  intros w1 Hk1 Ht1. check_step.
  store_step (key_Set clock t) w2 Hk2. check_step. store_step (key_Replace clock t) w3 Hk3. check_step. cbv iota in Hk3.
  apply ends_quick. intros Htick.
  match type of Hk3 with at_key _ _ _ (Some ?x) => assert (live (clock (w_tick w3)) x = true) as Hlive3 end.
  { destruct Hnew as (_ & _ & Htn). apply stamp_live_second; [unfold Second; lia|apply Hrange|].
    apply Hsame; simpl; lia. }
  get_step (key_Get_hit clock t) ltac:(first [exact Hlive3|reflexivity]) w4 Hk4.
  check_step. check_step. intros _. exists w4. split; [split; [done|]; by rewrite app_nil_r|].
  eexists _, _, (w_tick w2). split; [lia|exact Hk4].
Qed.

(** The suite testReplace passes when a janitor runs and the part before the
    sleep stays within one second of the clock: [Replace] needs an entry, and after
    five seconds there is none. *)
Theorem suite_testReplace newCache w w0 : meanwhile sweeps "int" ->
  silent (newCache Hour) w t w0 -> ms_holds t (ts_store (w_state w0)) ∅ ->
  timely clock (testReplace others newCache) w ->
  clock (w_tick (run clock (testReplace_before newCache) w).2) / Second = clock (w_tick w) / Second ->
  exists w', silent (testReplace others newCache) w tt w'.
Proof.
  intros Hothers Hnew He Htm Hprompt. apply (ends_silent timed); [done|]. unfold testReplace.
  destruct (testReplace_before_ends newCache w w0 _ Hnew He Hprompt (le_n _)) as (w1 & Hr & c & v & i & Hi & Hk).
  eapply ends_then; [exact Hr|]. cbn [fst snd]. unfold testReplace_after.
  eapply ends_sleep; [exact Hothers|exact Hk|]. intros w2 e2 Hk2 HR2 Ht2 Hslept2. cbv beta.
  apply second_swept in HR2 as ->; [|done|unfold Second; lia].
  store_step (key_Replace clock t) w3 Hk3. check_step.
  get_step (key_Get_miss clock t) ltac:(done) w4 Hk4. by apply (ends_last_check _ false).
Qed.
End harness.

(** ** The facade's own suite *)
Section typical.
Context {E : Type -> Type} {T R S : Type} `{Handler E S, CacheStore E T, CacheStore E R, !RedisOps E R, !MapStore E T S}.
Context (gob_encode : goval -> error + list byte) (gob_decode : list byte -> error + goval).
Context (clock : nat -> Z) (Hclock : monotone clock) (Hrange : forall i, Second <= clock i < 2 ^ 62).
#[local] Instance facade_cs : CacheStore E (GenericCache T R) := GenericCache_CacheStore gob_encode gob_decode.
#[local] Instance facade_ms : MapStore E (GenericCache T R) S := facade_MapStore gob_encode gob_decode.
Implicit Types (g : GenericCache T R) (w : world (tstate S)).

Lemma stamp_default d v t0 : d <> 0 -> d <> FOREVER ->
  stamp (mkInMemoryStore 0 d) v DEFAULT t0 = stamp (mkInMemoryStore 0 d) v d t0.
Proof.
  intros Hz Hf. unfold stamp, expires_at, DEFAULT. cbn [DefaultExp]. by rewrite (proj2 (Z.eqb_neq d FOREVER) Hf), (proj2 (Z.eqb_neq d 0) Hz).
Qed.

(** [NewGenericCacheEntry] only reads the clock. *)
Lemma silent_entry g v exp w : exists w1 e, silent clock (tstore (NewGenericCacheEntry g v exp)) w e w1 /\
  Data e = v /\ ts_store (w_state w1) = ts_store (w_state w) /\ (w_tick w <= w_tick w1)%nat.
Proof.
  eexists _, _. split; [split; [done|]; simpl; rewrite app_nil_r; split; [done|lia]|]. simpl. split; [done|]. split; [done|lia].
Qed.

(** The suite typicalGetSet passes on a [GenericCache] without encryption in
    front of any store that behaves as a map, when it takes less than the default
    duration and three minutes: a string and an entry are read back as written. *)
Theorem suite_typicalGetSet newCache w w0 g e :
  silent clock (newCache Hour) w g w0 -> at_key g (t_inner w0) "value" e ->
  EncryptData g = false -> 0 < gDefaultExp g < 2 ^ 62 ->
  (forall o t, Cache g = CStore t -> ms_accepts t o) ->
  (forall i, clock i + 2 * Second <= clock (w_tick w) + Z.min (gDefaultExp g) (3 * Minute)) ->
  exists w', silent clock (typicalGetSet (U := GenericCache T R) gob_decode Some newCache) w tt w'.
Proof.
  intros Hnew He Henc Hd Hinner Hquick. apply (ends_silent clock (always clock)); [done|].
  assert (gDefaultExp g <> FOREVER) as Hf by (unfold FOREVER; lia).
  assert (forall o, plain_call g o -> ms_accepts g o) as Hacc by (intros o Ho; split; [done|]; split; [done|]; auto).
  assert (exists c, Cache g = CStore c) as [c Hc] by (destruct He as (m & (c & Hc & _) & _); by exists c).
  assert (ms_default g = gDefaultExp g) as Hdef.
  { unfold ms_default, facade_ms, facade_MapStore. rewrite Hc. unfold facade_default.
    by rewrite (proj2 (Z.eqb_neq (gDefaultExp g) 0)) by lia. }
  assert (forall w1 v d t1, (w_tick w <= w_tick w1)%nat -> 0 < d < 2 ^ 62 -> Z.min (gDefaultExp g) (3 * Minute) <= d ->
    live (clock t1) (stamp (mkInMemoryStore 0 (ms_default g)) v d (clock (w_tick w1))) = true) as Hlive.
  { intros w1 v d t1 Hw1 Hd1 Hmin. apply stamp_live; [done|apply Hrange|]. specialize (Hquick t1). apply Hclock in Hw1. lia. }
  pose proof Hnew as (_ & _ & Ht0). unfold typicalGetSet. eapply ends_then; [exact Hnew|]. cbv beta.
  eapply ends_call; [eapply (key_Set clock g); [by apply Hacc|done|exact He]|]. intros w1 Hk1 Ht1. cbv beta.
  rewrite Hdef, stamp_default in Hk1 by (unfold FOREVER; lia). rewrite Hdef in Hlive.
  apply ends_check_ok; [done|].
  eapply ends_call; [eapply (key_Get_hit clock g); [by apply Hacc|exact Hk1|apply (Hlive w0); lia|reflexivity]|].
  intros w2 Hk2 Ht2. cbv beta. rewrite bind_assert_Some.
  change (g_Get gob_decode g "value" (VPtr (VString EmptyString))) with (cs_Get g "value" (VPtr (VString EmptyString))).
  eapply ends_call; [eapply (key_Get_hit clock g); [by apply Hacc|exact Hk2|apply (Hlive w0); lia|reflexivity]|].
  intros w3 Hk3 Ht3. cbv beta zeta. apply ends_check_ok; [done|]. apply ends_check_ok; [done|]. rewrite bind_assert_Some.
  destruct (silent_entry g (VString "encrypted-data") (3 * Minute) w3) as (w4 & x & Hsil & Hx & Hst & Ht4).
  eapply ends_then; [exact Hsil|]. cbv beta.
  assert (at_key g (t_inner w4) "value" (Some (stamp (mkInMemoryStore 0 (gDefaultExp g)) (VString "foo") (gDefaultExp g) (clock (w_tick (t_inner w0)))))) as Hk4.
  { destruct Hk3 as (m & Hm & Hk). exists m. cbn [t_inner w_state] in *. by rewrite Hst. }
  eapply ends_call; [eapply (key_Set clock g); [by apply Hacc|done|exact Hk4]|]. intros w5 Hk5 Ht5. cbv beta.
  apply ends_check_ok; [done|]. rewrite Hdef in Hk5.
  eapply ends_call; [eapply (key_Get_hit clock g); [by apply Hacc|exact Hk5|apply (Hlive w4); unfold Minute, Second; lia|reflexivity]|].
  intros w6 Hk6 Ht6. cbv beta. apply ends_check_ok; [done|].
  replace (negb _) with false; [apply (ends_last_check _ _ false)|]. simpl. rewrite Hx. done.
Qed.
End typical.

(** ** The stacks the tests run on *)
Section stacks.
Context (clock : nat -> Z) (Hclock : monotone clock).
Implicit Types (w : world (tstate mem)).

(** The janitor of a store looks at it once in the last [interval] of every sleep. *)
Definition janitor (l : nat) (interval : Z) (now d : Z) : prog (testE memE) unit :=
  _ ← call (TSleep (now + d - interval + 1));
  tstore (DeleteExpired l).

Lemma janitor_run c now d w m : represents (ts_store (w_state w)) (lru c) m ->
  timely clock (janitor (lru c) Second now d) w ->
  exists w' m', silent clock (janitor (lru c) Second now d) w tt w' /\ represents (ts_store (w_state w')) (lru c) m' /\
    m' ⊆ m /\ forall k e, m' !! k = Some e -> exists i, now + d - Second < i /\ live i e = true.
Proof.
  intros Hm [Hwake _]. unfold woken, on_time in Hwake.
  destruct (run_DeleteExpired clock Hclock c (t_inner w) m Hm) as (w1 & m' & Hr & Hm' & Hsub & _ & Hlive & _).
  exists (t_outer w w1), m'.
  assert (run clock (janitor (lru c) Second now d) w = (Done tt, t_outer w w1)) as Hrun.
  { transitivity (run clock (tstore (DeleteExpired (lru c))) w); [by destruct w|]. by rewrite run_tstore, Hr. }
  split; [split; [done|]; simpl; rewrite app_nil_r; split; [done|]|].
  - pose proof (run_tick clock (janitor (lru c) Second now d) w) as Ht. by rewrite Hrun in Ht.
  - split; [done|]. split; [done|]. intros k e Hk. exists (clock (w_tick w)). split; [lia|]. by apply (Hlive k e).
Qed.

Lemma janitor_sweeps c k : meanwhile clock c (janitor (lru c) Second) sweeps k.
Proof.
  intros now d w e (m & Hm & He) Ht.
  destruct (janitor_run c now d w m Hm Ht) as (w' & m' & Hs & Hm' & Hsub & Hl).
  exists w', (m' !! k). split; [done|]. split; [by exists m'|]. split; [|by apply Hl].
  destruct (m' !! k) as [x|] eqn:Hx; [|by right]. left. rewrite <- He. symmetry. by eapply lookup_weaken.
Qed.

Lemma facade_janitor_sweeps gob_encode gob_decode (g : GenericCache InMemoryStore Empty_set) c k : Cache g = CStore c ->
  meanwhile (MS := facade_MapStore gob_encode gob_decode) clock g (janitor (lru c) Second) sweeps k.
Proof.
  intros Hg now d w e (m & (c' & Hc' & Hm) & He) Ht. rewrite Hg in Hc'. injection Hc' as <-.
  destruct (janitor_run c now d w m Hm Ht) as (w' & m' & Hs & Hm' & Hsub & Hl).
  exists w', (m' !! k). split; [done|]. split; [exists m'; split; [by exists c|done]|]. split; [|by apply Hl].
  destruct (m' !! k) as [x|] eqn:Hx; [|by right]. left. rewrite <- He. symmetry. by eapply lookup_weaken.
Qed.

(** The factories: a store of size 100 with a janitor, and a facade in front of it. *)
Definition new_lru (d : Z) : prog (testE memE) InMemoryStore :=
  r ← tstore (NewInMemoryStore 100 d Second true EmptyString);
  match r with
  | inl err => Panic ("can't create inmemory store: " +:+ err)
  | inr c => mret c
  end.

Definition new_facade (d : Z) : prog (testE memE) (GenericCache InMemoryStore Empty_set) :=
  c ← new_lru Second;
  mret (NewCacheWithPool (CStore c) Writable L2 "seekrit" 30 (Some (bytes_of_string "test")) false).

Definition w_suite : world (tstate mem) := World (mkT (mkMem ∅ [] []) [] []) 0 [].
Definition lru0 (d : Z) : InMemoryStore := mkInMemoryStore 0 d.
Definition facade0 : GenericCache InMemoryStore Empty_set :=
  NewCacheWithPool (CStore (lru0 Second)) Writable L2 "seekrit" 30 (Some (bytes_of_string "test")) false.

Lemma new_lru_silent d : exists w0, silent clock (new_lru d) w_suite (lru0 d) w0 /\ represents (ts_store (w_state w0)) 0 ∅.
Proof.
  destruct (run_NewInMemoryStore clock 100 d Second true EmptyString (t_inner w_suite)) as (c & w1 & Hr & _ & _ & Hm & _); [lia|].
  assert ((run clock (NewInMemoryStore 100 d Second true EmptyString) (t_inner w_suite)).1 = Done (inr (lru0 d))) as Hc by reflexivity.
  rewrite Hr in Hc. cbn [fst] in Hc. injection Hc as ->. exists (t_outer w_suite w1). split; [|exact Hm].
  assert (run clock (tstore (NewInMemoryStore 100 d Second true EmptyString)) w_suite = (Done (inr (lru0 d)), t_outer w_suite w1)) as Ht.
  { by rewrite run_tstore, Hr. }
  split; [unfold new_lru; by rewrite (run_bind_done _ _ _ _ _ _ Ht)|]. split; [done|]. simpl. lia.
Qed.

Lemma new_facade_silent d : exists w0, silent clock (new_facade d) w_suite facade0 w0 /\ represents (ts_store (w_state w0)) 0 ∅.
Proof.
  destruct (new_lru_silent Second) as (w0 & (Hr & He & Ht) & Hm). exists w0. split; [|done].
  split; [unfold new_facade; by rewrite (run_bind_done _ _ _ _ _ _ Hr)|done].
Qed.
End stacks.

(** ** Instances *)
Section witnesses.
#[local] Instance facade0_cs : CacheStore memE (GenericCache InMemoryStore Empty_set) := GenericCache_CacheStore enc1 dec1.
#[local] Instance facade0_ms : MapStore memE (GenericCache InMemoryStore Empty_set) mem := facade_MapStore enc1 dec1.

Lemma facade0_accepts o : int_call o = true -> ms_accepts facade0 o.
Proof.
  intros Ho. split; [done|]. split; [|done].
  unfold int_call, plain_call in *. repeat case_match; done.
Qed.

(** The clock shows [start] for the readings up to the [n]-th, [start + a] at the
    next and [start + b] from then on. *)
Definition start_time : Z := 1700000000 * Second.
Definition jump (n : nat) (a b : Z) (i : nat) : Z :=
  start_time + (if (i <=? n)%nat then 0 else if (i =? S n)%nat then a else b).

Lemma jump_monotone n a b : 0 <= a <= b -> monotone (jump n a b).
Proof.
  intros Hab i j Hij. unfold jump. destruct (Nat.leb_spec i n), (Nat.leb_spec j n); try lia;
    destruct (Nat.eqb_spec i (S n)), (Nat.eqb_spec j (S n)); lia.
Qed.

Lemma jump_range n a b i : 0 <= a <= b -> b < 2 ^ 60 -> Second <= jump n a b i < 2 ^ 62.
Proof.
  intros Hab Hb. unfold jump, start_time, Second. destruct (i <=? n)%nat, (i =? S n)%nat; lia.
Qed.

(** Three seconds pass with each of the first thousand readings. *)
Definition walk (i : nat) : Z := start_time + 3 * Second * Z.of_nat (Nat.min i 1000).

Lemma suite_incrDecr_witness : exists w', silent clk (incrDecr new_facade) w_suite tt w'.
Proof.
  destruct (new_facade_silent clk Hour) as (w0 & Hnew & Hm).
  apply (suite_incrDecr clk facade0 facade0_accepts new_facade w_suite w0 None Hnew).
  exists ∅. split; [exists (lru0 Second); split; [reflexivity|exact Hm]|reflexivity].
Defined.

Lemma suite_emptyCache_witness : exists w', silent clk (emptyCache new_facade) w_suite tt w'.
Proof.
  destruct (new_facade_silent clk Hour) as (w0 & Hnew & Hm).
  apply (suite_emptyCache clk facade0 facade0_accepts new_facade w_suite w0 Hnew).
  exists ∅. split; [exists (lru0 Second); split; [reflexivity|exact Hm]|reflexivity].
Defined.

Lemma suite_expiration_witness : exists w', silent walk (expiration (fun _ _ => mret tt) new_facade) w_suite tt w'.
Proof.
  destruct (new_facade_silent walk Second) as (w0 & Hnew & Hm).
  apply (suite_expiration walk facade0 facade0_accepts) with (w0 := w0) (e := None).
  - intros i j Hij. unfold walk, Second. lia.
  - intros i. unfold walk, start_time, Second. lia.
  - apply (meanwhile_mono walk facade0 _ (fun _ e e' => e' = e)); [by left|by apply nobody_same].
  - exact Hnew.
  - exists ∅. split; [exists (lru0 Second); split; [reflexivity|exact Hm]|reflexivity].
  - vm_compute. repeat split; discriminate.
  - intros i. unfold walk, start_time, Hour, Minute, Second. simpl. lia.
Defined.

Lemma suite_testAdd_witness : exists w', silent (jump 1 (3 * Second / 2) (2 * Second)) (testAdd (janitor 0 Second) new_lru) w_suite tt w'.
Proof.
  set (clock := jump 1 (3 * Second / 2) (2 * Second)).
  destruct (new_lru_silent clock Hour) as (w0 & Hnew & Hm).
  apply (suite_testAdd clock (lru0 Hour)) with (w0 := w0).
  - done.
  - apply jump_monotone. vm_compute. split; discriminate.
  - intros i. apply jump_range; vm_compute; [split; discriminate|reflexivity].
  - apply (janitor_sweeps clock). apply jump_monotone. vm_compute. split; discriminate.
  - exact Hnew.
  - exists ∅. split; [exact Hm|reflexivity].
  - vm_compute. repeat split; discriminate.
  - intros [|[|[|i]]] [|[|[|j]]] Hi Hij; try (by vm_compute in Hi); try lia; reflexivity.
Defined.

Lemma suite_testAdd_without_janitor_witness : exists w',
  run walk (testAdd (fun _ _ => mret tt) new_lru) w_suite = (Done tt, w') /\ length (ts_errors (w_state w')) = 3%nat.
Proof.
  destruct (new_lru_silent walk Hour) as (w0 & Hnew & Hm).
  destruct (suite_testAdd_without_janitor walk (lru0 Hour)) with (newCache := new_lru) (w := w_suite) (w0 := w0)
    (others := fun _ _ : Z => mret (M := prog (testE memE)) tt) as (w' & Hr & He).
  - done.
  - intros i j Hij. unfold walk, Second. lia.
  - intros i. unfold walk, start_time, Second. lia.
  - done.
  - exact Hnew.
  - exists ∅. split; [exact Hm|reflexivity].
  - vm_compute. repeat split; discriminate.
  - exists w'. split; [exact Hr|]. rewrite He. reflexivity.
Defined.

Lemma suite_testReplace_witness : exists w', silent (jump 3 (9 * Second / 2) (5 * Second)) (testReplace (janitor 0 Second) new_facade) w_suite tt w'.
Proof.
  set (clock := jump 3 (9 * Second / 2) (5 * Second)).
  destruct (new_facade_silent clock Hour) as (w0 & Hnew & Hm).
  apply (suite_testReplace clock facade0 facade0_accepts) with (w0 := w0).
  - apply jump_monotone. vm_compute. split; discriminate.
  - intros i. apply jump_range; vm_compute; [split; discriminate|reflexivity].
  - apply (facade_janitor_sweeps clock) with (c := lru0 Second); [|reflexivity]. apply jump_monotone. vm_compute. split; discriminate.
  - exact Hnew.
  - exists (lru0 Second). split; [reflexivity|exact Hm].
  - vm_compute. repeat split; discriminate.
  - vm_compute. reflexivity.
Defined.

Lemma suite_typicalGetSet_witness : exists w',
  silent (jump 1 0 0) (typicalGetSet (U := GenericCache InMemoryStore Empty_set) dec1 Some new_facade) w_suite tt w'.
Proof.
  destruct (new_facade_silent (jump 1 0 0) Hour) as (w0 & Hnew & Hm).
  apply (suite_typicalGetSet enc1 dec1 (jump 1 0 0)) with (w0 := w0) (g := facade0) (e := None).
  - apply jump_monotone. lia.
  - intros i. apply jump_range; lia.
  - exact Hnew.
  - exists ∅. split; [exists (lru0 Second); split; [reflexivity|exact Hm]|reflexivity].
  - reflexivity.
  - vm_compute. split; reflexivity.
  - intros o t _. exact I.
  - intros i. unfold jump. destruct (i <=? 1)%nat, (i =? 2)%nat; vm_compute; discriminate.
Defined.
End witnesses.
