(* ===== verification/GinCache.v ===== *)
(** * galapagos_gin/cache/cache.go: the page cache middleware

    A request is served by a gin handler writing to a [gin.ResponseWriter].  On a
    miss [CachePage] gives the handler a [cachedWriter], which stores every chunk it
    writes; on a hit it replays the stored response.

    Header maps and byte slices are references: the state holds a heap of both, and
    [ResponseCache] holds locations, so what a handler changes after writing is
    visible in a store that keeps the value itself.  A handler is a program over
    [wE]: what it does to its response and to its own buffers. *)

From stdpp Require Import gmap strings.
From Stdlib Require Import Strings.Byte Strings.Ascii.
From S2P Require Import Prelude LruInterface GoValues GoFmt Bytes Sha1.
From S2P Require Import InMemory.
Local Open Scope Z_scope.

(** ** [http.Header] *)
Abbreviation http_Header := (gmap string (list string)).

Definition is_upper (c : ascii) : bool := between "A" "Z" c.
Definition is_lower (c : ascii) : bool := between "a" "z" c.
Definition to_upper (c : ascii) : ascii := if is_lower c then ascii_of_N (N_of_ascii c - 32) else c.
Definition to_lower (c : ascii) : ascii := if is_upper c then ascii_of_N (N_of_ascii c + 32) else c.

(** The bytes of an HTTP token. *)
Definition token_char (c : ascii) : bool :=
  is_upper c || is_lower c || between "0" "9" c ||
  existsb (Ascii.eqb c) (String.list_ascii_of_string "!#$%&'*+-.^_`|~").

Fixpoint canonical_from (upper : bool) (s : string) : string :=
  match s with
  | EmptyString => EmptyString
  | String c s => String (if upper then to_upper c else to_lower c) (canonical_from (Ascii.eqb c "-") s)
  end.

(** [textproto.CanonicalMIMEHeaderKey]: a key with other bytes is left as it is. *)
Definition CanonicalHeaderKey (k : string) : string :=
  if forallb token_char (String.list_ascii_of_string k) then canonical_from true k else k.

Definition hdr_Add (h : http_Header) (k v : string) : http_Header :=
  let k := CanonicalHeaderKey k in <[k := default [] (h !! k) ++ [v]]> h.
Definition hdr_Set (h : http_Header) (k v : string) : http_Header := <[CanonicalHeaderKey k := [v]]> h.
Definition hdr_Del (h : http_Header) (k : string) : http_Header := delete (CanonicalHeaderKey k) h.
Definition hdr_Get (h : http_Header) (k : string) : string :=
  match h !! CanonicalHeaderKey k with Some (v :: _) => v | _ => EmptyString end.

(** An assignment to the map itself, if the key has no value. *)
Definition hdr_Default (h : http_Header) (k v : string) : http_Header :=
  match h !! k with Some (_ :: _) => h | _ => <[k := [v]]> h end.

Example canonical_okay : CanonicalHeaderKey "x-okay-to-cache" = "X-Okay-To-Cache".
Proof. reflexivity. Qed.

(** ** gin's [responseWriter] over the connection

    [wire_head] is what was sent as status line and header, [wire_body] the body
    bytes sent; a broken connection fails every write. *)
Record response := mkResp {
  rw_header : nat; rw_size : Z; rw_status : Z;
  wire_head : option (Z * http_Header); wire_body : list byte; broken : bool }.

Definition noWritten : Z := -1.
Definition new_response (hdr : nat) (broken : bool) : response :=
  mkResp hdr noWritten 200 None [] broken.

Definition rw_Written (r : response) : bool := negb (rw_size r =? noWritten).

Definition rw_WriteHeader (r : response) (code : Z) : response :=
  if (0 <? code) && negb (rw_status r =? code) then
    mkResp (rw_header r) (rw_size r) code (wire_head r) (wire_body r) (broken r)
  else r.

Definition rw_WriteHeaderNow (h : http_Header) (r : response) : response :=
  if rw_Written r then r
  else mkResp (rw_header r) 0 (rw_status r) (Some (rw_status r, h)) (wire_body r) (broken r).

Definition connection_error : error := ErrMsg "write: broken pipe".

Definition rw_Write (h : http_Header) (r : response) (data : list byte) : (Z * option error) * response :=
  let r := rw_WriteHeaderNow h r in
  if broken r then ((0, Some connection_error), r)
  else
    let n := Z.of_nat (length data) in
    ((n, None), mkResp (rw_header r) (rw_size r + n) (rw_status r) (wire_head r) (wire_body r ++ data) (broken r)).

(** ** State and effects *)

(** A value of [gin.Context.Keys]: a span, a pointer to a [persistence.CacheStore],
    or something else. *)
Inductive ctxval := CtxSpan (n : nat) | CtxStore (p : option nat) | CtxOther.

Inductive span_event := SpanStarted (n : nat) (parent : option nat) (op method path : string) | SpanFinished (n : nat).

Record hstate (S : Type) := mkH {
  hs_store : S;
  hdrs : gmap nat http_Header;
  bufs : gmap nat (list byte);
  resp : response;
  keys : gmap string ctxval;
  spans : list span_event }.
Arguments mkH {S} _ _ _ _ _ _.
Arguments hs_store {S} _.
Arguments hdrs {S} _.
Arguments bufs {S} _.
Arguments resp {S} _.
Arguments keys {S} _.
Arguments spans {S} _.

Inductive pageE (E : Type -> Type) : Type -> Type :=
  | PStore X (e : E X) : pageE E X
  | PHeader : pageE E nat
  | PHdr (l : nat) : pageE E http_Header
  | PHdrPut (l : nat) (h : http_Header) : pageE E unit
  | PNewBuf (b : list byte) : pageE E nat
  | PBuf (l : nat) : pageE E (list byte)
  | PBufPut (l : nat) (b : list byte) : pageE E unit
  | PWriteHeader (code : Z) : pageE E unit
  | PWriteHeaderNow : pageE E unit
  | PWrite (b : list byte) : pageE E (Z * option error)
  | PStatus : pageE E Z
  | PWritten : pageE E bool
  | PCtxGet (k : string) : pageE E (option ctxval)
  | PCtxSet (k : string) (v : ctxval) : pageE E unit
  | PStartSpan (parent : option nat) (op method path : string) : pageE E nat
  | PFinishSpan (n : nat) : pageE E unit.
Arguments PStore {E X} e.
Arguments PHeader {E}.
Arguments PHdr {E} l.
Arguments PHdrPut {E} l h.
Arguments PNewBuf {E} b.
Arguments PBuf {E} l.
Arguments PBufPut {E} l b.
Arguments PWriteHeader {E} code.
Arguments PWriteHeaderNow {E}.
Arguments PWrite {E} b.
Arguments PStatus {E}.
Arguments PWritten {E}.
Arguments PCtxGet {E} k.
Arguments PCtxSet {E} k v.
Arguments PStartSpan {E} parent op method path.
Arguments PFinishSpan {E} n.

Section state.
Context {S : Type}.
Implicit Types (s : hstate S).

Definition the_hdr s (l : nat) : http_Header := default ∅ (hdrs s !! l).
Definition the_buf s (l : nat) : list byte := default [] (bufs s !! l).
Definition put_resp s (r : response) : hstate S := mkH (hs_store s) (hdrs s) (bufs s) r (keys s) (spans s).
Definition put_hdr s (l : nat) (h : http_Header) : hstate S :=
  mkH (hs_store s) (<[l := h]> (hdrs s)) (bufs s) (resp s) (keys s) (spans s).
Definition put_buf s (l : nat) (b : list byte) : hstate S :=
  mkH (hs_store s) (hdrs s) (<[l := b]> (bufs s)) (resp s) (keys s) (spans s).
Definition put_store s (t : S) : hstate S := mkH t (hdrs s) (bufs s) (resp s) (keys s) (spans s).
Definition put_keys s (ks : gmap string ctxval) : hstate S :=
  mkH (hs_store s) (hdrs s) (bufs s) (resp s) ks (spans s).

End state.

(** A store that keeps Go values as they are acts on its own part of the state; one that
    encodes them follows the references in a value. *)
Class StoreHandler (E : Type -> Type) (S : Type) := {
  store_handle X : E X -> hstate S -> X * hstate S;
  store_handle_spans X (e : E X) s : spans (store_handle X e s).2 = spans s }.
Arguments store_handle {E S _ X} e s.
Arguments store_handle_spans {E S _ X} e s.

#[global] Instance own_part {E S} `{Handler E S} : StoreHandler E S.
Proof.
  refine {| store_handle X e s := let '(x, t) := handle e (hs_store s) in (x, put_store s t) |}.
  intros X e s. by destruct (handle e (hs_store s)).
Defined.

Section page_handler.
Context {E : Type -> Type} {S : Type} `{StoreHandler E S}.

#[global] Instance pageE_handler : Handler (pageE E) (hstate S) := fun X e s =>
  match e in pageE _ X return X * hstate S with
  | PStore e => store_handle e s
  | PHeader => (rw_header (resp s), s)
  | PHdr l => (the_hdr s l, s)
  | PHdrPut l h => (tt, put_hdr s l h)
  | PNewBuf b => let l := fresh (dom (bufs s)) in (l, put_buf s l b)
  | PBuf l => (the_buf s l, s)
  | PBufPut l b => (tt, put_buf s l b)
  | PWriteHeader code => (tt, put_resp s (rw_WriteHeader (resp s) code))
  | PWriteHeaderNow => (tt, put_resp s (rw_WriteHeaderNow (the_hdr s (rw_header (resp s))) (resp s)))
  | PWrite b => let '(r, w) := rw_Write (the_hdr s (rw_header (resp s))) (resp s) b in (r, put_resp s w)
  | PStatus => (rw_status (resp s), s)
  | PWritten => (rw_Written (resp s), s)
  | PCtxGet k => (keys s !! k, s)
  | PCtxSet k v => (tt, put_keys s (<[k := v]> (keys s)))
  | PStartSpan parent op method path =>
      let n := length (spans s) in
      (n, mkH (hs_store s) (hdrs s) (bufs s) (resp s) (keys s) (spans s ++ [SpanStarted n parent op method path]))
  | PFinishSpan n =>
      (tt, mkH (hs_store s) (hdrs s) (bufs s) (resp s) (keys s) (spans s ++ [SpanFinished n]))
  end.
End page_handler.

(** ** What a gin handler does

    [WHeaderDefault] sets a header that has no value; [WCtxStatus] is
    [gin.Context.Status], which calls [WriteHeader] of the context's own writer, not
    of the writer a middleware has put in its place. *)
Inductive wE : Type -> Type :=
  | WHeaderAdd (k v : string) : wE unit
  | WHeaderSet (k v : string) : wE unit
  | WHeaderDel (k : string) : wE unit
  | WHeaderDefault (k v : string) : wE unit
  | WWriteHeader (code : Z) : wE unit
  | WWriteHeaderNow : wE unit
  | WCtxStatus (code : Z) : wE unit
  | WWrite (buf : nat) : wE (Z * option error)
  | WWriteString (s : string) : wE (Z * option error)
  | WStatus : wE Z
  | WWritten : wE bool
  | WNewBuf (b : list byte) : wE nat
  | WBufPut (l : nat) (b : list byte) : wE unit.

Definition HandlerFunc : Type := prog wE unit.

(** The request, as far as the middleware looks at it; [req_span] is the parent
    span the tracer extracts from its header. *)
Record request := mkRequest {
  req_method : string; req_path : string; RequestURI : string; req_span : option nat }.

Section middleware.
Context {E : Type -> Type} {T : Type} `{CacheStore E T}.
(** The order in which a map is ranged over. *)
Context (range_hdr : http_Header -> list (string * list string)).

Abbreviation page := (prog (pageE E)).

Definition store_call {A} (p : prog E A) : page A := embed (fun X e => PStore e) p.

Definition log_Println (msg : string) : page unit := log (LogLine SinkStdLog LInfo msg).

Definition PageCachePrefix : string := "gincontrib.page.cache".

Definition urlEscape (prefix u : string) : string :=
  let key := QueryEscape u in
  let key := if Nat.ltb 200 (String.length key) then string_of_bytes (sha1 (bytes_of_string u)) else key in
  prefix +:+ ":" +:+ key.

(** *** The plain writer of gin *)
Definition change_header (f : http_Header -> http_Header) : page unit :=
  l ← call PHeader;
  h ← call (PHdr l);
  call (PHdrPut l (f h)).

Definition plain {X} (e : wE X) : page X :=
  match e with
  | WHeaderAdd k v => change_header (fun h => hdr_Add h k v)
  | WHeaderSet k v => change_header (fun h => hdr_Set h k v)
  | WHeaderDel k => change_header (fun h => hdr_Del h k)
  | WHeaderDefault k v => change_header (fun h => hdr_Default h k v)
  | WWriteHeader code => call (PWriteHeader code)
  | WWriteHeaderNow => call PWriteHeaderNow
  | WCtxStatus code => call (PWriteHeader code)
  | WWrite buf => b ← call (PBuf buf); call (PWrite b)
  | WWriteString s => call (PWrite (bytes_of_string s))
  | WStatus => call PStatus
  | WWritten => call PWritten
  | WNewBuf b => call (PNewBuf b)
  | WBufPut l b => call (PBufPut l b)
  end.

Fixpoint run_plain {A} (p : prog wE A) : page A :=
  match p with
  | Ret a => Ret a
  | Panic msg => Panic msg
  | Now k => Now (fun t => run_plain (k t))
  | Log l k => Log l (run_plain k)
  | Vis e k => x ← plain e; run_plain (k x)
  end.

(** *** [cachedWriter] *)
Record cachedWriter := mkCW { cw_status : Z; cw_written : bool; cw_store : T; cw_expire : Z; cw_key : string }.

Definition newCachedWriter (store : T) (expire : Z) (key : string) : cachedWriter :=
  mkCW 0 false store expire key.

Definition cw_WriteHeader (w : cachedWriter) (code : Z) : page (unit * cachedWriter) :=
  let w := mkCW code true (cw_store w) (cw_expire w) (cw_key w) in
  _ ← call (PWriteHeader code);
  mret (tt, w).

Definition cw_Write (w : cachedWriter) (data : nat) : page (Z * option error) :=
  b ← call (PBuf data);
  r ← call (PWrite b);
  match snd r with
  | None =>
      h ← call PHeader;
      let val := mkResponse (cw_status w) (Some h) (Some data) in
      _ ← store_call (cs_Set (cw_store w) (cw_key w) (VResponse val) (cw_expire w));
      mret r
  | Some err => mret r
  end.

Definition cw_WriteString (w : cachedWriter) (data : string) : page (Z * option error) :=
  r ← call (PWrite (bytes_of_string data));
  match snd r with
  | None =>
      h ← call PHeader;
      copy ← call (PNewBuf (bytes_of_string data));
      let val := mkResponse (cw_status w) (Some h) (Some copy) in
      err ← store_call (cs_Set (cw_store w) (cw_key w) (VResponse val) (cw_expire w));
      match err with
      | Some err => mret (0, Some err)
      | None => mret r
      end
  | Some err => mret r
  end.

Definition cached (w : cachedWriter) {X} (e : wE X) : page (X * cachedWriter) :=
  match e in wE X return page (X * cachedWriter) with
  | WWriteHeader code => cw_WriteHeader w code
  | WWrite buf => r ← cw_Write w buf; mret (r, w)
  | WWriteString s => r ← cw_WriteString w s; mret (r, w)
  | WHeaderAdd k v => r ← plain (WHeaderAdd k v); mret (r, w)
  | WHeaderSet k v => r ← plain (WHeaderSet k v); mret (r, w)
  | WHeaderDel k => r ← plain (WHeaderDel k); mret (r, w)
  | WHeaderDefault k v => r ← plain (WHeaderDefault k v); mret (r, w)
  | WWriteHeaderNow => r ← plain WWriteHeaderNow; mret (r, w)
  | WCtxStatus code => r ← plain (WCtxStatus code); mret (r, w)
  | WStatus => r ← plain WStatus; mret (r, w)
  | WWritten => r ← plain WWritten; mret (r, w)
  | WNewBuf b => r ← plain (WNewBuf b); mret (r, w)
  | WBufPut l b => r ← plain (WBufPut l b); mret (r, w)
  end.

Fixpoint run_cached {A} (w : cachedWriter) (p : prog wE A) : page A :=
  match p with
  | Ret a => Ret a
  | Panic msg => Panic msg
  | Now k => Now (fun t => run_cached w (k t))
  | Log l k => Log l (run_cached w k)
  | Vis e k => x ← cached w e; run_cached (snd x) (k (fst x))
  end.

(** *** Replaying a stored response *)
Definition header_of (h : option nat) : page http_Header :=
  match h with Some l => call (PHdr l) | None => mret ∅ end.
Definition data_of (b : option nat) : page (list byte) :=
  match b with Some l => call (PBuf l) | None => mret [] end.

Definition add_values (h : http_Header) (kvs : string * list string) : http_Header :=
  foldl (fun h v => hdr_Add h (fst kvs) v) h (snd kvs).

Definition replay (cache : ResponseCache) : page unit :=
  _ ← call (PWriteHeader (Status cache));
  src ← header_of (Header cache);
  l ← call PHeader;
  h ← call (PHdr l);
  _ ← call (PHdrPut l (foldl add_values h (range_hdr src)));
  b ← data_of (RData cache);
  r ← call (PWrite b);
  match snd r with
  | Some err => log_Println (Error err)
  | None => mret tt
  end.

(** *** [Cache] in a chain: it offers a pointer to the store to the handlers after it. *)
Definition CACHE_MIDDLEWARE_KEY : string := "gincontrib.cache".

Definition Cache (store : option nat) (next : page unit) : page unit :=
  _ ← call (PCtxSet CACHE_MIDDLEWARE_KEY (CtxStore store));
  next.

(** *** [SiteCache] in a chain

    gin runs the rest of the chain when the middleware calls [c.Next()], and after
    it returns if it did not. *)
Definition zero_response : ResponseCache := mkResponse 0 None None.

Definition SiteCache (store : T) (req : request) (next : page unit) : page unit :=
  let key := urlEscape PageCachePrefix (RequestURI req) in
  r ← store_call (cs_Get store key (VPtr (VResponse zero_response)));
  match fst r with
  | Some err => next
  | None =>
      cache ← assert_some (as_ptr as_response (snd r)) (not_a "*cache.ResponseCache");
      _ ← replay cache;
      next
  end.

(** *** Tracing *)
Definition startSpanWithParent (parent : option nat) (op method path : string) : page nat :=
  call (PStartSpan parent op method path).

Definition startSpanWithHeader (req : request) (op : string) : page nat :=
  startSpanWithParent (req_span req) op (req_method req) (req_path req).

(** *** [CachePage]

    The decorated handler after the span has been put into the context. *)
Definition cached_or_handle (store : T) (expire : Z) (handle : HandlerFunc) (req : request) : page unit :=
  let key := urlEscape PageCachePrefix (RequestURI req) in
  r ← store_call (cs_Get store key (VPtr (VResponse zero_response)));
  match fst r with
  | Some err =>
      _ ← log_Println (Error err);
      run_cached (newCachedWriter store expire key) handle
  | None =>
      cache ← assert_some (as_ptr as_response (snd r)) (not_a "*cache.ResponseCache");
      h ← header_of (Header cache);
      if String.eqb (hdr_Get h "x-okay-to-cache") EmptyString then
        _ ← log_Println "not okay to cache";
        run_cached (newCachedWriter store expire key) handle
      else replay cache
  end.

Definition CachePage (store : T) (expire : Z) (handle : HandlerFunc) (req : request) : page unit :=
  let op := "api-request-cache-page" in
  cspan ← call (PCtxGet "tracing-context");
  span ← match cspan with
         | Some (CtxSpan n) => startSpanWithParent (Some n) op (req_method req) (req_path req)
         | Some _ => Panic (not_a "opentracing.Span")
         | None => startSpanWithHeader req op
         end;
  defer (call (PFinishSpan span)) (
    _ ← call (PCtxSet "tracing-context" (CtxSpan span));
    cached_or_handle store expire handle req).
End middleware.
