(* ===== verification/GinProps.v ===== *)
(** * What the page cache guarantees

    Theorems about [CachePage] and [SiteCache] over any store that implements
    [PageStore], each with an instance on [InMemoryStore]. *)

From stdpp Require Import gmap strings.
From Stdlib Require Import Strings.Byte Strings.Ascii.
From S2P Require Import Prelude Interleave LruInterface SimpleLru Arc GoValues GoFmt Bytes Sha1.
From S2P Require Import InMemory InMemoryProps Generic GenericProps GinCache.
Local Open Scope Z_scope.

(** ** Canonical header keys *)
Section canonical.
Lemma to_upper_props c : token_char (to_upper c) = token_char c /\
  Ascii.eqb (to_upper c) "-" = Ascii.eqb c "-" /\ to_upper (to_upper c) = to_upper c.
Proof. destruct c as [[] [] [] [] [] [] [] []]; done. Qed.

Lemma to_lower_props c : token_char (to_lower c) = token_char c /\
  Ascii.eqb (to_lower c) "-" = Ascii.eqb c "-" /\ to_lower (to_lower c) = to_lower c.
Proof. destruct c as [[] [] [] [] [] [] [] []]; done. Qed.

Lemma canonical_from_idem b k : canonical_from b (canonical_from b k) = canonical_from b k /\
  forallb token_char (String.list_ascii_of_string (canonical_from b k)) =
    forallb token_char (String.list_ascii_of_string k).
Proof.
  revert b. induction k as [|c k IH]; intros b; [done|]. simpl.
  destruct (to_upper_props c) as (U1 & U2 & U3), (to_lower_props c) as (L1 & L2 & L3).
  destruct (IH (Ascii.eqb c "-")) as [I1 I2].
  destruct b; [rewrite U1, U2, U3|rewrite L1, L2, L3]; by rewrite I1, I2.
Qed.

Lemma CanonicalHeaderKey_idem k : CanonicalHeaderKey (CanonicalHeaderKey k) = CanonicalHeaderKey k.
Proof.
  unfold CanonicalHeaderKey. destruct (canonical_from_idem true k) as [H1 H2].
  destruct (forallb token_char (String.list_ascii_of_string k)) eqn:Hk; [|by rewrite Hk].
  by rewrite H2, H1.
Qed.
End canonical.

Section effects.
Context {E : Type -> Type} {S : Type} `{StoreHandler E S} (clock : nat -> Z).
Implicit Types (w : world (hstate S)).

(** One lemma per effect: what it answers and the world it leaves. *)
Lemma set_state_same w : set_state w (w_state w) = w.
Proof. by destruct w. Qed.

Lemma run_PHeader {B} (f : nat -> prog (pageE E) B) w :
  run clock (call PHeader ≫= f) w = run clock (f (rw_header (resp (w_state w)))) w.
Proof. rewrite run_call. simpl. by destruct w. Qed.

Lemma run_PHdr {B} l (f : http_Header -> prog (pageE E) B) w :
  run clock (call (PHdr l) ≫= f) w = run clock (f (the_hdr (w_state w) l)) w.
Proof. rewrite run_call. simpl. by destruct w. Qed.

Lemma run_PHdrPut {B} l h (f : unit -> prog (pageE E) B) w :
  run clock (call (PHdrPut l h) ≫= f) w = run clock (f tt) (set_state w (put_hdr (w_state w) l h)).
Proof. done. Qed.

Lemma run_PNewBuf {B} b (f : nat -> prog (pageE E) B) w :
  run clock (call (PNewBuf b) ≫= f) w =
    run clock (f (fresh (dom (bufs (w_state w)))))
      (set_state w (put_buf (w_state w) (fresh (dom (bufs (w_state w)))) b)).
Proof. done. Qed.

Lemma run_PBuf {B} l (f : list byte -> prog (pageE E) B) w :
  run clock (call (PBuf l) ≫= f) w = run clock (f (the_buf (w_state w) l)) w.
Proof. rewrite run_call. simpl. by destruct w. Qed.

Lemma run_PBufPut {B} l b (f : unit -> prog (pageE E) B) w :
  run clock (call (PBufPut l b) ≫= f) w = run clock (f tt) (set_state w (put_buf (w_state w) l b)).
Proof. done. Qed.

Lemma run_PWriteHeader {B} code (f : unit -> prog (pageE E) B) w :
  run clock (call (PWriteHeader code) ≫= f) w =
    run clock (f tt) (set_state w (put_resp (w_state w) (rw_WriteHeader (resp (w_state w)) code))).
Proof. done. Qed.

(** A write on a connection that is not broken. *)
Definition after_write (s : hstate S) (b : list byte) : response :=
  let r := rw_WriteHeaderNow (the_hdr s (rw_header (resp s))) (resp s) in
  mkResp (rw_header r) (rw_size r + Z.of_nat (length b)) (rw_status r) (wire_head r) (wire_body r ++ b) (broken r).

Lemma run_PWrite {B} b (f : Z * option error -> prog (pageE E) B) w : broken (resp (w_state w)) = false ->
  run clock (call (PWrite b) ≫= f) w =
    run clock (f (Z.of_nat (length b), None)) (set_state w (put_resp (w_state w) (after_write (w_state w) b))).
Proof.
  intros Hb. rewrite run_call. unfold handle, pageE_handler, rw_Write, after_write. cbn zeta.
  assert (broken (rw_WriteHeaderNow (the_hdr (w_state w) (rw_header (resp (w_state w)))) (resp (w_state w))) = false) as ->.
  { unfold rw_WriteHeaderNow. by destruct (rw_Written _). }
  done.
Qed.

Lemma run_PCtxGet {B} k (f : option ctxval -> prog (pageE E) B) w :
  run clock (call (PCtxGet k) ≫= f) w = run clock (f (keys (w_state w) !! k)) w.
Proof. rewrite run_call. simpl. by destruct w. Qed.
End effects.

(** A store call runs in the store's part of the world. *)
Definition inner {S} (w : world (hstate S)) : world S := World (hs_store (w_state w)) (w_tick w) (w_log w).
Definition outer {S} (w : world (hstate S)) (w1 : world S) : world (hstate S) :=
  World (put_store (w_state w) (w_state w1)) (w_tick w1) (w_log w1).

Section store_calls.
Context {E : Type -> Type} {S : Type} `{Handler E S} (clock : nat -> Z).
Implicit Types (w : world (hstate S)).

Lemma run_store_call {A} (p : prog E A) w :
  run clock (store_call p) w = let '(o, w1) := run clock p (inner w) in (o, outer w w1).
Proof.
  unfold store_call, inner, outer. apply (run_embed clock (fun X e => PStore e) hs_store put_store); try done.
  by destruct w as [[]].
Qed.

Lemma run_store_done {A B} (p : prog E A) (f : A -> prog (pageE E) B) a w (w1 : world S) :
  run clock p (inner w) = (Done a, w1) ->
  run clock (store_call p ≫= f) w = run clock (f a) (outer w w1).
Proof. intros Hp. apply run_bind_done. by rewrite run_store_call, Hp. Qed.

End store_calls.

Section pages.
Context {E : Type -> Type} {T S : Type} `{StoreHandler E S, CacheStore E T}.
Context (range_hdr : http_Header -> list (string * list string)) (clock : nat -> Z).
Implicit Types (w : world (hstate S)) (s : hstate S) (t : T).

(** The span in the context, if any. *)
Definition tracing s : option ctxval := keys s !! "tracing-context".
Definition span_ctx (v : option ctxval) : bool :=
  match v with Some (CtxSpan _) | None => true | _ => false end.

(** Everything but the tracing. *)
Definition page_same s s' : Prop :=
  hs_store s = hs_store s' /\ hdrs s = hdrs s' /\ bufs s = bufs s' /\ resp s = resp s'.

(** *** Tracing *)
Definition span_contract (sp : list span_event) : contract (pageE E) (hstate S) := {|
  inv := fun s => spans s = sp;
  pre := fun X e => match e with PStartSpan _ _ _ _ | PFinishSpan _ => False | _ => True end;
  post := fun X e x => True |}.

Lemma span_honoured sp : honoured (span_contract sp).
Proof.
  intros X e s Hs Hpre. destruct e; try done; unfold handle, pageE_handler.
  - pose proof (store_handle_spans e s) as Hsp. destruct (store_handle e s). simpl in *. split; [congruence|done].
  - by destruct (rw_Write _ _ _).
Qed.

(** The effects of [CachePage] once the span is in the context. *)
Definition body_effect {X} (e : pageE E X) : Prop :=
  match e with PStartSpan _ _ _ _ | PFinishSpan _ | PCtxGet _ | PCtxSet _ _ => False | _ => True end.

Section body.
Context (C : contract (pageE E) (hstate S)) (HC : forall X (e : pageE E X), body_effect e -> pre C e).

Lemma conforms_store_call {A} (p : prog E A) : conforms C (fun _ => True) (store_call p).
Proof. unfold store_call. induction p; simpl; auto. split; [by apply HC|auto]. Qed.

Lemma conforms_seq {A B} (p : prog (pageE E) A) (f : A -> prog (pageE E) B) :
  conforms C (fun _ => True) p -> (forall a, conforms C (fun _ => True) (f a)) ->
  conforms C (fun _ => True) (p ≫= f).
Proof. intros Hp Hf. apply conforms_bind. eapply conforms_mono; [|exact Hp]. intros [a|msg]; auto. Qed.

Lemma conforms_cached {X} (cw : cachedWriter (T := T)) (e : wE X) :
  conforms C (fun _ => True) (cached cw e).
Proof.
  destruct e; cbn [cached plain]; try (by repeat (split; [by apply HC|]; intros)).
  - unfold cw_Write. apply conforms_seq; [|done]. split; [by apply HC|]. intros b _. split; [by apply HC|]. intros [n [err|]] _; [done|].
    split; [by apply HC|]. intros l _. apply conforms_seq; [apply conforms_store_call|done].
  - unfold cw_WriteString. apply conforms_seq; [|done]. split; [by apply HC|]. intros [n [err|]] _; [done|].
    split; [by apply HC|]. intros l _. split; [by apply HC|]. intros l' _.
    apply conforms_seq; [apply conforms_store_call|]. by intros [].
Qed.

Lemma conforms_run_cached {A} (cw : cachedWriter (T := T)) (p : prog wE A) :
  conforms C (fun _ => True) (run_cached cw p).
Proof.
  revert cw. induction p as [a|msg|k IH|l k IH|X e k IH]; intros cw; simpl; auto.
  apply conforms_seq; [apply conforms_cached|auto].
Qed.

Lemma conforms_location {B} (e : nat -> pageE E B) (b : B) (l : option nat) : (forall l, body_effect (e l)) ->
  conforms C (fun _ => True) (match l with Some l => call (e l) | None => mret b end).
Proof. intros He. destruct l; [|done]. split; [by apply HC|done]. Qed.

Lemma conforms_replay cache : conforms C (fun _ => True) (replay range_hdr cache).
Proof.
  unfold replay. split; [by apply HC|]. intros [] _. apply conforms_seq; [by apply (conforms_location PHdr)|].
  intros src. split; [by apply HC|]. intros l _. split; [by apply HC|]. intros h _. split; [by apply HC|]. intros [] _.
  apply conforms_seq; [by apply (conforms_location PBuf)|]. intros b. split; [by apply HC|]. by intros [n []].
Qed.

Lemma conforms_cached_or_handle t expire handle req :
  conforms C (fun _ => True) (cached_or_handle range_hdr t expire handle req).
Proof.
  unfold cached_or_handle. apply conforms_seq; [apply conforms_store_call|]. intros [[err|] v]; cbn [fst snd].
  - apply conforms_run_cached.
  - apply conforms_seq; [by destruct (as_ptr as_response v)|]. intros cache.
    apply conforms_seq; [by apply (conforms_location PHdr)|]. intros h.
    destruct (String.eqb _ _); [apply conforms_run_cached|apply conforms_replay].
Qed.

End body.

(** How [CachePage] runs its body: in the same page, with the span in the context. *)
Lemma run_CachePage t expire handle req w : span_ctx (tracing (w_state w)) = true ->
  exists w1, page_same (w_state w1) (w_state w) /\ w_tick w1 = w_tick w /\ w_log w1 = w_log w /\
    exists started n parent, spans (w_state w1) = spans (w_state w) ++ [started] /\
      started = SpanStarted n parent "api-request-cache-page" (req_method req) (req_path req) /\
    exists w3, run clock (CachePage range_hdr t expire handle req) w =
        ((run clock (cached_or_handle range_hdr t expire handle req) w1).1, w3) /\
      page_same (w_state w3) (w_state (run clock (cached_or_handle range_hdr t expire handle req) w1).2) /\
      spans (w_state w3) = spans (w_state w) ++ [started; SpanFinished n].
Proof.
  intros Htr. unfold CachePage. rewrite run_PCtxGet.
  set (n := length (spans (w_state w))).
  assert (forall tr, span_ctx tr = true -> exists parent, forall f, run clock ((match tr with
      | Some (CtxSpan n) => startSpanWithParent (Some n) "api-request-cache-page" (req_method req) (req_path req)
      | Some _ => Panic (not_a "opentracing.Span")
      | None => startSpanWithHeader req "api-request-cache-page" end) ≫= f) w =
    run clock (f n : prog (pageE E) unit) (set_state w (mkH (hs_store (w_state w)) (hdrs (w_state w)) (bufs (w_state w))
      (resp (w_state w)) (keys (w_state w))
      (spans (w_state w) ++ [SpanStarted n parent "api-request-cache-page" (req_method req) (req_path req)]))))
    as Hspan.
  { intros [[m|p|]|] Hne; [by exists (Some m)|done|done|by exists (req_span req)]. }
  destruct (Hspan _ Htr) as (parent & Hstart). rewrite Hstart. set (w0 := set_state w _).
  exists (set_state w0 (mkH (hs_store (w_state w)) (hdrs (w_state w)) (bufs (w_state w)) (resp (w_state w))
    (<["tracing-context" := CtxSpan n]> (keys (w_state w))) (spans (w_state w0)))).
  split; [done|]. split; [done|]. split; [done|]. eexists _, n, parent. split; [done|]. split; [done|].
  rewrite run_defer. match goal with |- context [run clock (call (PCtxSet "tracing-context" (CtxSpan n)) ≫= ?f) w0] =>
    change (run clock (call (PCtxSet "tracing-context" (CtxSpan n)) ≫= f) w0) with (run clock (f tt)
      (set_state w0 (mkH (hs_store (w_state w)) (hdrs (w_state w)) (bufs (w_state w)) (resp (w_state w))
         (<["tracing-context" := CtxSpan n]> (keys (w_state w))) (spans (w_state w0))))) end. cbv beta.
  set (w1 := set_state w0 (mkH _ _ _ _ (<[_ := CtxSpan n]> _) _)).
  destruct (run_conforms (span_contract (spans (w_state w1))) clock (span_honoured _) (fun _ => True)
    (cached_or_handle range_hdr t expire handle req) w1) as [Hsp _];
    [by apply conforms_cached_or_handle; intros X []|done|].
  destruct (run clock (cached_or_handle range_hdr t expire handle req) w1) as [o w2]. simpl in Hsp. simpl.
  eexists. split; [done|]. split; [done|]. simpl. rewrite Hsp. simpl. by rewrite <- app_assoc.
Qed.

(** C24. Tracing is balanced: whatever the handler does, also when it panics,
    [CachePage] starts exactly one span and finishes it. *)
Theorem page_span_balanced t expire handle req w : span_ctx (tracing (w_state w)) = true ->
  exists n parent, spans (w_state (run clock (CachePage range_hdr t expire handle req) w).2) =
    spans (w_state w) ++
      [SpanStarted n parent "api-request-cache-page" (req_method req) (req_path req); SpanFinished n].
Proof.
  intros Htr. destruct (run_CachePage t expire handle req w Htr)
    as (w1 & _ & _ & _ & started & n & parent & _ & -> & w3 & -> & _ & Hsp). by exists n, parent.
Qed.

(** *** Replaying headers *)
Context (range_perm : forall h, range_hdr h ≡ₚ map_to_list h).

(** A header as [Set] and [Add] make it: canonical keys, no empty lists. *)
Definition header_ok (h : http_Header) : Prop :=
  forall k vs, h !! k = Some vs -> CanonicalHeaderKey k = k /\ vs <> [].

Lemma add_all_values (h : http_Header) k vs : CanonicalHeaderKey k = k -> vs <> [] ->
  add_values h (k, vs) = <[k := default [] (h !! k) ++ vs]> h.
Proof.
  intros Hk. unfold add_values. cbn [fst snd]. revert h. induction vs as [|v vs IH]; intros h Hvs; [done|].
  cbn [foldl]. destruct vs as [|v' vs].
  - cbn [foldl]. unfold hdr_Add. by rewrite Hk.
  - rewrite IH by done. unfold hdr_Add. rewrite Hk. cbn zeta. rewrite lookup_insert_eq, insert_insert_eq. simpl.
    by rewrite <- app_assoc.
Qed.

Lemma add_values_union l (h : http_Header) : NoDup l.*1 ->
  (forall k vs, (k, vs) ∈ l -> CanonicalHeaderKey k = k /\ vs <> [] /\ h !! k = None) ->
  foldl add_values h l = list_to_map l ∪ h.
Proof.
  revert h. induction l as [|[k vs] l IH]; intros h Hnd Hl; cbn [foldl].
  - cbn [list_to_map foldr]. by rewrite (left_id_L ∅ (∪)).
  - apply NoDup_cons in Hnd as [Hk Hnd]. destruct (Hl k vs) as (Hc & Hne & Hh); [left|].
    rewrite add_all_values, Hh by done. cbn [default app]. rewrite IH; [|done|].
    + cbn [list_to_map foldr]. cbn [fst snd]. rewrite <- insert_union_r; [by rewrite insert_union_l|].
      by apply not_elem_of_list_to_map.
    + intros k' vs' Hin. destruct (Hl k' vs') as (? & ? & ?); [by right|]. split; [done|]. split; [done|].
      rewrite lookup_insert_ne; [done|]. intros <-. apply Hk. apply list_elem_of_fmap. by exists (k, vs').
Qed.

Lemma replay_header (h : http_Header) : header_ok h -> foldl add_values ∅ (range_hdr h) = h.
Proof.
  intros Hok. rewrite add_values_union.
  - rewrite (right_id_L ∅ (∪)). rewrite (list_to_map_proper _ (map_to_list h)).
    + apply list_to_map_to_list.
    + rewrite range_perm. apply NoDup_fst_map_to_list.
    + apply range_perm.
  - rewrite range_perm. apply NoDup_fst_map_to_list.
  - intros k vs Hin. rewrite range_perm, elem_of_map_to_list in Hin. destruct (Hok k vs Hin). by rewrite lookup_empty.
Qed.

(** The status a fresh response has after [WriteHeader]. *)
Definition status_of (code : Z) : Z := if 0 <? code then code else 200.

Lemma WriteHeader_fresh l b code :
  rw_WriteHeader (new_response l b) code = mkResp l noWritten (status_of code) None [] b.
Proof.
  unfold rw_WriteHeader, status_of. cbn [rw_status new_response].
  destruct (0 <? code); [|done]. cbn [andb]. by destruct (Z.eqb_spec 200 code) as [<-|].
Qed.

(** What replaying a stored response sends. *)
Lemma run_replay st lh lb l w :
  resp (w_state w) = new_response l false -> the_hdr (w_state w) l = ∅ -> l <> lh ->
  header_ok (the_hdr (w_state w) lh) ->
  exists w', run clock (replay range_hdr (mkResponse st (Some lh) (Some lb))) w = (Done tt, w') /\
    wire_head (resp (w_state w')) = Some (status_of st, the_hdr (w_state w) lh) /\
    wire_body (resp (w_state w')) = the_buf (w_state w) lb /\
    rw_Written (resp (w_state w')) = true /\ rw_header (resp (w_state w')) = l /\
    broken (resp (w_state w')) = false /\
    hs_store (w_state w') = hs_store (w_state w) /\ bufs (w_state w') = bufs (w_state w) /\
    forall l', l' <> l -> the_hdr (w_state w') l' = the_hdr (w_state w) l'.
Proof.
  intros Hr Hh Hne Hok. unfold replay. cbn [Status Header RData header_of data_of].
  rewrite run_PWriteHeader, Hr, WriteHeader_fresh. rewrite run_PHdr, run_PHeader. cbn [rw_header resp w_state set_state put_resp].
  rewrite run_PHdr, run_PHdrPut, run_PBuf.
  change (the_hdr (w_state (set_state w _)) l) with (the_hdr (w_state w) l).
  change (the_hdr (w_state (set_state w _)) lh) with (the_hdr (w_state w) lh). rewrite Hh, replay_header by done.
  rewrite run_PWrite by done. cbn [snd]. eexists. split; [done|].
  unfold after_write. cbn [w_state set_state put_resp put_hdr resp rw_header rw_WriteHeaderNow rw_Written].
  unfold rw_WriteHeaderNow. simpl. unfold the_hdr at 1. simpl. rewrite lookup_insert_eq. simpl.
  split; [done|]. split; [done|]. unfold rw_Written, noWritten.
  split; [apply negb_true_iff, Z.eqb_neq; cbn [rw_size]; lia|].
  split; [done|]. split; [done|]. split; [done|]. split; [done|].
  intros l' Hl'. unfold the_hdr. simpl. by rewrite lookup_insert_ne.
Qed.

(** *** Headers set by a handler *)
Fixpoint set_headers (hs : list (string * string)) : HandlerFunc :=
  match hs with
  | [] => mret tt
  | (k, v) :: hs => _ ← call (WHeaderSet k v); set_headers hs
  end.

Definition headers_of (hs : list (string * string)) (h : http_Header) : http_Header :=
  foldl (fun h kv => hdr_Set h kv.1 kv.2) h hs.

Lemma run_set_headers (cw : cachedWriter (T := T)) hs (p : HandlerFunc) w :
  exists w', run clock (run_cached cw (_ ← set_headers hs; p)) w = run clock (run_cached cw p) w' /\
    hs_store (w_state w') = hs_store (w_state w) /\ bufs (w_state w') = bufs (w_state w) /\
    resp (w_state w') = resp (w_state w) /\
    the_hdr (w_state w') (rw_header (resp (w_state w))) = headers_of hs (the_hdr (w_state w) (rw_header (resp (w_state w)))) /\
    (forall l, l <> rw_header (resp (w_state w)) -> the_hdr (w_state w') l = the_hdr (w_state w) l).
Proof.
  revert w. induction hs as [|[k v] hs IH]; intros w; [by exists w|].
  set (l := rw_header (resp (w_state w))).
  set (w1 := set_state w (put_hdr (w_state w) l (hdr_Set (the_hdr (w_state w) l) k v))).
  destruct (IH w1) as (w2 & Hrun & Hst & Hbufs & Hresp & Hl & Ho).
  exists w2. split.
  - transitivity (run clock (run_cached cw (_ ← set_headers hs; p)) w1); [|done].
    transitivity (run clock (x ← (r ← change_header (fun h => hdr_Set h k v); mret (r, cw));
      run_cached (snd x) (_ ← set_headers hs; p)) w); [done|].
    unfold change_header. rewrite run_bind, run_bind, run_PHeader, run_PHdr. done.
  - split; [done|]. split; [done|]. split; [done|]. cbn [headers_of foldl fst snd].
    change (rw_header (resp (w_state w1))) with l in Hl, Ho. split.
    + rewrite Hl. unfold the_hdr at 1. simpl. by rewrite lookup_insert_eq.
    + intros l' Hne. rewrite Ho by done. unfold the_hdr. simpl. by rewrite lookup_insert_ne.
Qed.

Lemma headers_of_ok hs (h : http_Header) : header_ok h -> header_ok (headers_of hs h).
Proof.
  revert h. induction hs as [|[k v] hs IH]; intros h Hh; [done|]. cbn [headers_of foldl fst snd]. apply IH.
  intros k' vs. unfold hdr_Set. rewrite lookup_insert. case_decide as Hk; [|apply Hh].
  intros [= <-]. subst k'. split; [apply CanonicalHeaderKey_idem|done].
Qed.

(** A miss runs the handler with a cached writer. *)
Lemma run_CachePage_missed t expire handler req w : span_ctx (tracing (w_state w)) = true ->
  exists wa, page_same (w_state wa) (w_state w) /\ w_tick wa = w_tick w /\ w_log wa = w_log w /\
    forall err v wb wd,
      run clock (store_call (cs_Get t (urlEscape PageCachePrefix (RequestURI req)) (VPtr (VResponse zero_response)))) wa =
        (Done (Some err, v), wb) ->
      run clock (run_cached (newCachedWriter t expire (urlEscape PageCachePrefix (RequestURI req))) handler)
        (add_log wb (LogLine SinkStdLog LInfo (Error err))) = (Done tt, wd) ->
      exists w1, run clock (CachePage range_hdr t expire handler req) w = (Done tt, w1) /\ page_same (w_state w1) (w_state wd).
Proof.
  intros Htr. destruct (run_CachePage t expire handler req w Htr)
    as (wa & Hsame & Ht & Hl & _ & _ & _ & _ & _ & w1 & Hrun1 & Hsame1 & _).
  exists wa. split; [done|]. split; [done|]. split; [done|]. intros err v wb wd Hmiss Hrun. exists w1.
  assert (run clock (cached_or_handle range_hdr t expire handler req) wa = (Done tt, wd)) as Hbody.
  { unfold cached_or_handle. cbn zeta. by rewrite (run_bind_done _ _ _ _ _ _ Hmiss). }
  by rewrite Hbody in Hrun1, Hsame1.
Qed.

(** A hit replays the stored response. *)
Lemma run_CachePage_hit t expire handler req w : span_ctx (tracing (w_state w)) = true ->
  exists wa, page_same (w_state wa) (w_state w) /\ w_tick wa = w_tick w /\ w_log wa = w_log w /\
    forall st lh lb l wb,
      run clock (store_call (cs_Get t (urlEscape PageCachePrefix (RequestURI req)) (VPtr (VResponse zero_response)))) wa =
        (Done (None, VPtr (VResponse (mkResponse st (Some lh) (Some lb)))), wb) ->
      hdr_Get (the_hdr (w_state wb) lh) "x-okay-to-cache" <> EmptyString -> header_ok (the_hdr (w_state wb) lh) ->
      resp (w_state wb) = new_response l false -> the_hdr (w_state wb) l = ∅ -> l <> lh ->
      exists w1, run clock (CachePage range_hdr t expire handler req) w = (Done tt, w1) /\
        wire_head (resp (w_state w1)) = Some (status_of st, the_hdr (w_state wb) lh) /\
        wire_body (resp (w_state w1)) = the_buf (w_state wb) lb.
Proof.
  intros Htr. destruct (run_CachePage t expire handler req w Htr)
    as (wa & Hsame & Ht & Hl & _ & _ & _ & _ & _ & w1 & Hrun1 & (_ & _ & _ & Hr1) & _).
  exists wa. split; [done|]. split; [done|]. split; [done|]. intros st lh lb l wb Hget Hokay Hhok Hr Hh Hne. exists w1.
  destruct (run_replay st lh lb l wb Hr Hh Hne Hhok) as (wc & Hrun & Hhead & Hbody & _).
  assert (run clock (cached_or_handle range_hdr t expire handler req) wa = (Done tt, wc)) as Hbdy.
  { unfold cached_or_handle. cbn zeta. rewrite (run_bind_done _ _ _ _ _ _ Hget). cbn [fst snd as_ptr as_response].
    rewrite bind_assert_Some. cbn [Header header_of]. rewrite run_PHdr.
    by destruct (String.eqb_spec (hdr_Get (the_hdr (w_state wb) lh) "x-okay-to-cache") EmptyString). }
  rewrite Hbdy in Hrun1, Hr1. by rewrite Hr1.
Qed.

(** A page that was not marked is computed again. *)
Lemma run_CachePage_unmarked t expire handler req w : span_ctx (tracing (w_state w)) = true ->
  exists wa, page_same (w_state wa) (w_state w) /\ w_tick wa = w_tick w /\ w_log wa = w_log w /\
    forall st lh lb wb,
      run clock (store_call (cs_Get t (urlEscape PageCachePrefix (RequestURI req)) (VPtr (VResponse zero_response)))) wa =
        (Done (None, VPtr (VResponse (mkResponse st (Some lh) lb))), wb) ->
      hdr_Get (the_hdr (w_state wb) lh) "x-okay-to-cache" = EmptyString ->
      let again := run clock (run_cached (newCachedWriter t expire (urlEscape PageCachePrefix (RequestURI req))) handler)
        (add_log wb (LogLine SinkStdLog LInfo "not okay to cache")) in
      exists w1, run clock (CachePage range_hdr t expire handler req) w = (again.1, w1) /\ page_same (w_state w1) (w_state again.2).
Proof.
  intros Htr. destruct (run_CachePage t expire handler req w Htr)
    as (wa & Hsame & Ht & Hl & _ & _ & _ & _ & _ & w1 & Hrun1 & Hsame1 & _).
  exists wa. split; [done|]. split; [done|]. split; [done|]. intros st lh lb wb Hget Hno again. exists w1.
  assert (run clock (cached_or_handle range_hdr t expire handler req) wa = again) as Hbdy.
  { unfold cached_or_handle. cbn zeta. rewrite (run_bind_done _ _ _ _ _ _ Hget). cbn [fst snd as_ptr as_response].
    rewrite bind_assert_Some. cbn [Header header_of]. rewrite run_PHdr, Hno. done. }
  by rewrite Hbdy in Hrun1, Hsame1.
Qed.

(** The state when the next request arrives, its header map at [l]. *)
Definition next_request s (l : nat) : hstate S :=
  mkH (hs_store s) (<[l := ∅]> (hdrs s)) (bufs s) (new_response l false) ∅ (spans s).

End pages.

Section with_store.
Context {E : Type -> Type} {T S : Type} `{Handler E S, CacheStore E T, !PageStore E T S}.
Context (range_hdr : http_Header -> list (string * list string)) (clock : nat -> Z).
Context (range_perm : forall h, range_hdr h ≡ₚ map_to_list h).
Implicit Types (w : world (hstate S)) (s : hstate S) (t : T).

Lemma run_hit t expire handle req st lh lb l w :
  pg_has t (urlEscape PageCachePrefix (RequestURI req)) (mkResponse st (Some lh) (Some lb))
    (hs_store (w_state w)) ->
  hdr_Get (the_hdr (w_state w) lh) "x-okay-to-cache" <> EmptyString ->
  resp (w_state w) = new_response l false -> the_hdr (w_state w) l = ∅ -> l <> lh ->
  header_ok (the_hdr (w_state w) lh) ->
  exists w', run clock (cached_or_handle range_hdr t expire handle req) w = (Done tt, w') /\
    wire_head (resp (w_state w')) = Some (status_of st, the_hdr (w_state w) lh) /\
    wire_body (resp (w_state w')) = the_buf (w_state w) lb /\
    pg_has t (urlEscape PageCachePrefix (RequestURI req)) (mkResponse st (Some lh) (Some lb))
      (hs_store (w_state w')) /\
    bufs (w_state w') = bufs (w_state w) /\
    forall l', l' <> l -> the_hdr (w_state w') l' = the_hdr (w_state w) l'.
Proof.
  intros Hhas Hokay Hr Hh Hne Hhok. unfold cached_or_handle. cbn zeta.
  destruct (pg_get t _ _ zero_response clock (inner w) Hhas) as (w1 & Hget & Hhas1).
  rewrite (run_store_done _ _ _ _ _ _ Hget). cbn [fst snd as_ptr as_response]. rewrite bind_assert_Some.
  cbn [Header header_of]. rewrite run_PHdr. change (the_hdr (w_state (outer w w1)) lh) with (the_hdr (w_state w) lh).
  destruct (String.eqb_spec (hdr_Get (the_hdr (w_state w) lh) "x-okay-to-cache") EmptyString); [done|].
  destruct (run_replay range_hdr clock range_perm st lh lb l (outer w w1) Hr Hh Hne Hhok) as (w2 & Hrun & Hhead & Hbody & _ & _ & _ & Hst & Hbf & Ho).
  exists w2. split; [done|]. split; [done|]. split; [done|]. split; [by rewrite Hst|]. done.
Qed.

(** *** What a handler leaves in the cache *)
Fixpoint write_chunks (ds : list (list byte)) : HandlerFunc :=
  match ds with
  | [] => mret tt
  | d :: ds => l ← call (WNewBuf d); _ ← call (WWrite l); write_chunks ds
  end.

Lemma run_chunk (cw : cachedWriter (T := T)) d (p : nat -> HandlerFunc) w :
  broken (resp (w_state w)) = false -> pg_ok (cw_store cw) (hs_store (w_state w)) -> cw_expire cw = FOREVER ->
  exists w' lb, run clock (run_cached cw (l ← call (WNewBuf d); _ ← call (WWrite l); p l)) w =
      run clock (run_cached cw (p lb)) w' /\
    pg_has (cw_store cw) (cw_key cw)
      (mkResponse (cw_status cw) (Some (rw_header (resp (w_state w)))) (Some lb)) (hs_store (w_state w')) /\
    bufs (w_state w) !! lb = None /\ bufs (w_state w') = <[lb := d]> (bufs (w_state w)) /\
    hdrs (w_state w') = hdrs (w_state w) /\
    resp (w_state w') = after_write (w_state w) d.
Proof.
  intros Hb Hok Hexp. set (lb := fresh (dom (bufs (w_state w)))).
  set (w1 := set_state w (put_buf (w_state w) lb d)).
  assert (the_buf (w_state w1) lb = d) as Hbuf.
  { unfold the_buf. simpl. by rewrite lookup_insert_eq. }
  set (w2 := set_state w1 (put_resp (w_state w1) (after_write (w_state w1) d))).
  set (val := mkResponse (cw_status cw) (Some (rw_header (resp (w_state w)))) (Some lb)).
  destruct (pg_set (cw_store cw) (cw_key cw) val clock (inner w2) Hok) as (w3 & Hset & Hhas).
  exists (outer w2 w3), lb. split; [|split; [exact Hhas|]].
  - transitivity (run clock (r ← (r ← cw_Write cw lb; mret (r, cw)); run_cached (snd r) (p lb)) w1); [done|].
    unfold cw_Write. rewrite run_bind, run_bind, run_PBuf, Hbuf, run_PWrite by done. cbn [snd]. fold w2.
    rewrite run_PHeader. change (rw_header (resp (w_state w2))) with (rw_header (after_write (w_state w1) d)).
    assert (rw_header (after_write (w_state w1) d) = rw_header (resp (w_state w))) as ->.
    { unfold after_write, rw_WriteHeaderNow. simpl. by destruct (rw_Written _). }
    fold val. rewrite Hexp. rewrite (run_store_done _ _ _ _ _ _ Hset). done.
  - split; [apply not_elem_of_dom, is_fresh|]. split; [done|]. split; [done|]. done.
Qed.

(** Further chunks only extend the body, and each replaces the cached one. *)
Lemma run_more_chunks (cw : cachedWriter (T := T)) ds lb dl w :
  broken (resp (w_state w)) = false -> 0 <= rw_size (resp (w_state w)) -> cw_expire cw = FOREVER ->
  pg_has (cw_store cw) (cw_key cw)
    (mkResponse (cw_status cw) (Some (rw_header (resp (w_state w)))) (Some lb)) (hs_store (w_state w)) ->
  bufs (w_state w) !! lb = Some dl ->
  exists w' lb' dl', run clock (run_cached cw (write_chunks ds)) w = (Done tt, w') /\
    last (dl :: ds) = Some dl' /\
    pg_has (cw_store cw) (cw_key cw)
      (mkResponse (cw_status cw) (Some (rw_header (resp (w_state w)))) (Some lb')) (hs_store (w_state w')) /\
    bufs (w_state w') !! lb' = Some dl' /\ hdrs (w_state w') = hdrs (w_state w) /\
    wire_head (resp (w_state w')) = wire_head (resp (w_state w)) /\
    wire_body (resp (w_state w')) = wire_body (resp (w_state w)) ++ concat ds.
Proof.
  revert lb dl w. induction ds as [|d ds IH]; intros lb dl w Hb Hsz Hexp Hhas Hbuf.
  - exists w, lb, dl. cbn [write_chunks concat]. by rewrite app_nil_r.
  - destruct (run_chunk cw d (fun _ => write_chunks ds) w Hb (pg_has_ok _ _ _ _ Hhas) Hexp)
      as (w1 & lb1 & Hrun & Hhas1 & _ & Hbufs1 & Hhdrs1 & Hresp1).
    assert (rw_Written (resp (w_state w)) = true) as Hwr.
    { unfold rw_Written, noWritten. apply negb_true_iff, Z.eqb_neq. lia. }
    unfold after_write, rw_WriteHeaderNow in Hresp1. rewrite Hwr in Hresp1.
    destruct (IH lb1 d w1) as (w2 & lb2 & dl2 & Hrun2 & Hlast & Hhas2 & Hbuf2 & Hhdrs2 & Hhead & Hbody).
    + by rewrite Hresp1.
    + rewrite Hresp1. simpl. lia.
    + done.
    + by rewrite Hresp1.
    + rewrite Hbufs1. apply lookup_insert_eq.
    + exists w2, lb2, dl2. cbn [write_chunks]. rewrite Hrun, Hrun2. split; [done|]. split; [done|].
      rewrite Hresp1 in Hhas2, Hhead, Hbody. simpl in Hhas2, Hhead, Hbody. split; [done|]. split; [done|].
      split; [congruence|]. split; [done|]. rewrite Hbody. simpl. by rewrite <- app_assoc.
Qed.

(** The handler's header lines, then its status, then the body in chunks. *)
Definition page_handler (hs : list (string * string)) (code : Z) (ds : list (list byte)) : HandlerFunc :=
  _ ← set_headers hs; _ ← call (WWriteHeader code); write_chunks ds.

(** The page a handler sends through a [cachedWriter], and what the store then has. *)
Lemma run_page_handler t key hs code d ds l w :
  resp (w_state w) = new_response l false -> pg_ok t (hs_store (w_state w)) ->
  exists w' lb dl, run clock (run_cached (newCachedWriter t FOREVER key) (page_handler hs code (d :: ds))) w = (Done tt, w') /\
    last (d :: ds) = Some dl /\
    pg_has t key (mkResponse code (Some l) (Some lb)) (hs_store (w_state w')) /\
    the_buf (w_state w') lb = dl /\ the_hdr (w_state w') l = headers_of hs (the_hdr (w_state w) l) /\
    wire_head (resp (w_state w')) = Some (status_of code, headers_of hs (the_hdr (w_state w) l)) /\
    wire_body (resp (w_state w')) = concat (d :: ds) /\
    forall l', l' <> l -> the_hdr (w_state w') l' = the_hdr (w_state w) l'.
Proof.
  intros Hr Hok. unfold page_handler.
  destruct (run_set_headers clock (newCachedWriter t FOREVER key) hs
    (_ ← call (WWriteHeader code); write_chunks (d :: ds)) w) as (w1 & Hrun1 & Hst1 & Hb1 & Hr1 & Hl1 & Ho1).
  rewrite Hrun1. rewrite Hr in Hr1, Hl1, Ho1. cbn [rw_header new_response] in Hl1.
  set (cw := mkCW code true t FOREVER key).
  set (w2 := set_state w1 (put_resp (w_state w1) (rw_WriteHeader (resp (w_state w1)) code))).
  change (run clock _ w1) with (run clock (run_cached cw (write_chunks (d :: ds))) w2).
  assert (resp (w_state w2) = mkResp l noWritten (status_of code) None [] false) as Hr2.
  { simpl. by rewrite Hr1, WriteHeader_fresh. }
  destruct (run_chunk cw d (fun _ => write_chunks ds) w2) as (w3 & lb & Hrun3 & Hhas & _ & Hbufs & Hhdrs & Hresp);
    [by rewrite Hr2|simpl; by rewrite Hst1|done|].
  unfold after_write in Hresp. rewrite Hr2 in Hresp, Hhas. cbn [rw_header rw_WriteHeaderNow] in Hresp, Hhas.
  change (the_hdr (w_state w2) l) with (the_hdr (w_state w1) l) in Hresp. rewrite Hl1 in Hresp.
  unfold rw_WriteHeaderNow in Hresp. simpl in Hresp.
  destruct (run_more_chunks cw ds lb d w3) as (w4 & lb' & dl & Hrun4 & Hlast & Hhas4 & Hbuf4 & Hhdrs4 & Hhead & Hbody).
  - by rewrite Hresp.
  - rewrite Hresp. simpl. lia.
  - done.
  - by rewrite Hresp.
  - rewrite Hbufs. apply lookup_insert_eq.
  - exists w4, lb', dl. cbn [write_chunks]. rewrite Hrun3, Hrun4. split; [done|]. split; [done|].
    rewrite Hresp in Hhas4, Hhead, Hbody. simpl in Hhas4, Hhead, Hbody. split; [done|].
    assert (forall l', the_hdr (w_state w4) l' = the_hdr (w_state w1) l') as Hsame4.
    { intros l'. unfold the_hdr. by rewrite Hhdrs4, Hhdrs. }
    unfold the_buf. rewrite Hbuf4. split; [done|]. split; [by rewrite Hsame4|]. split; [done|]. split; [done|].
    intros l' Hl'. rewrite Hsame4. by apply Ho1.
Qed.

Lemma inner_same w w1 : page_same (w_state w1) (w_state w) -> w_tick w1 = w_tick w -> w_log w1 = w_log w ->
  inner w1 = inner w.
Proof. intros (Hs & _) Ht Hl. unfold inner. by rewrite Hs, Ht, Hl. Qed.

(** A miss of a store that acts on its own part only leaves headers and response as they
    were. *)
Lemma run_CachePage_miss t handler req err v w (w0 : world S) :
  span_ctx (tracing (w_state w)) = true ->
  run clock (cs_Get t (urlEscape PageCachePrefix (RequestURI req)) (VPtr (VResponse zero_response))) (inner w) =
    (Done (Some err, v), w0) ->
  exists wb, hs_store (w_state wb) = w_state w0 /\ hdrs (w_state wb) = hdrs (w_state w) /\ resp (w_state wb) = resp (w_state w) /\
    forall wd, run clock (run_cached (newCachedWriter t FOREVER (urlEscape PageCachePrefix (RequestURI req))) handler) wb = (Done tt, wd) ->
      exists w1, run clock (CachePage range_hdr t FOREVER handler req) w = (Done tt, w1) /\ page_same (w_state w1) (w_state wd).
Proof.
  intros Htr Hmiss. destruct (run_CachePage_missed range_hdr clock t FOREVER handler req w Htr) as (wa & Hsame & Ht & Hl & Hpage).
  rewrite <- (inner_same _ _ Hsame Ht Hl) in Hmiss. destruct Hsame as (_ & Hhdrs & _ & Hresp).
  exists (add_log (outer wa w0) (LogLine SinkStdLog LInfo (Error err))). split; [done|]. split; [done|]. split; [done|].
  intros wd. apply (Hpage err v). by rewrite run_store_call, Hmiss.
Qed.

(** The next request for a stored page is a replay. *)
Lemma run_next_request t handle2 req st l lb l2 w :
  pg_has t (urlEscape PageCachePrefix (RequestURI req)) (mkResponse st (Some l) (Some lb)) (hs_store (w_state w)) ->
  hdr_Get (the_hdr (w_state w) l) "x-okay-to-cache" <> EmptyString -> header_ok (the_hdr (w_state w) l) -> l2 <> l ->
  exists w2, run clock (CachePage range_hdr t FOREVER handle2 req) (set_state w (next_request (w_state w) l2)) = (Done tt, w2) /\
    wire_head (resp (w_state w2)) = Some (status_of st, the_hdr (w_state w) l) /\
    wire_body (resp (w_state w2)) = the_buf (w_state w) lb.
Proof.
  intros Hhas Hokay Hhok Hne. set (w' := set_state w (next_request (w_state w) l2)).
  destruct (run_CachePage_hit range_hdr clock range_perm t FOREVER handle2 req w') as (wa & Hsame & Ht & Hl & Hpage); [done|].
  change (hs_store (w_state w)) with (w_state (inner w')) in Hhas. rewrite <- (inner_same _ _ Hsame Ht Hl) in Hhas.
  destruct (pg_get t _ _ zero_response clock (inner wa) Hhas) as (w1 & Hget & _).
  pose proof Hsame as (_ & Hd & Hb & Hr).
  assert (the_hdr (w_state (outer wa w1)) l = the_hdr (w_state w) l) as Hhc.
  { unfold the_hdr. simpl. rewrite Hd. simpl. by rewrite lookup_insert_ne. }
  assert (the_buf (w_state (outer wa w1)) lb = the_buf (w_state w) lb) as Hbc by (unfold the_buf; simpl; by rewrite Hb).
  rewrite <- Hhc, <- Hbc. apply (Hpage st l lb l2); [by rewrite run_store_call, Hget|by rewrite Hhc|by rewrite Hhc|done| |done].
  unfold the_hdr. simpl. rewrite Hd. simpl. by rewrite lookup_insert_eq.
Qed.

(** Unless it was not marked: then its handler runs on the fresh response. *)
Lemma run_next_unmarked t handle2 req st l lb l2 w :
  pg_has t (urlEscape PageCachePrefix (RequestURI req)) (mkResponse st (Some l) (Some lb)) (hs_store (w_state w)) ->
  hdr_Get (the_hdr (w_state w) l) "x-okay-to-cache" = EmptyString -> l2 <> l ->
  exists wb w2, resp (w_state wb) = new_response l2 false /\ the_hdr (w_state wb) l2 = ∅ /\
    let again := run clock (run_cached (newCachedWriter t FOREVER (urlEscape PageCachePrefix (RequestURI req))) handle2) wb in
    run clock (CachePage range_hdr t FOREVER handle2 req) (set_state w (next_request (w_state w) l2)) = (again.1, w2) /\
    page_same (w_state w2) (w_state again.2).
Proof.
  intros Hhas Hno Hne. set (w' := set_state w (next_request (w_state w) l2)).
  destruct (run_CachePage_unmarked range_hdr clock t FOREVER handle2 req w') as (wa & Hsame & Ht & Hl & Hpage); [done|].
  change (hs_store (w_state w)) with (w_state (inner w')) in Hhas. rewrite <- (inner_same _ _ Hsame Ht Hl) in Hhas.
  destruct (pg_get t _ _ zero_response clock (inner wa) Hhas) as (w1 & Hget & _). pose proof Hsame as (_ & Hd & Hb & Hr).
  destruct (Hpage st l (Some lb) (outer wa w1)) as (w2 & Hrun & Hs2); [by rewrite run_store_call, Hget| |].
  { unfold the_hdr. simpl. rewrite Hd. simpl. by rewrite lookup_insert_ne. }
  eexists _, w2. split; [|split; [|split; [exact Hrun|exact Hs2]]]; [exact Hr|].
  unfold the_hdr. simpl. rewrite Hd. simpl. by rewrite lookup_insert_eq.
Qed.

(** A miss: what the client gets and what the store then has. *)
Lemma run_page_miss t req hs code d ds l err v w (w0 : world S) :
  span_ctx (tracing (w_state w)) = true ->
  resp (w_state w) = new_response l false -> the_hdr (w_state w) l = ∅ ->
  run clock (cs_Get t (urlEscape PageCachePrefix (RequestURI req)) (VPtr (VResponse zero_response))) (inner w) =
    (Done (Some err, v), w0) -> pg_ok t (w_state w0) ->
  exists w1 lb, run clock (CachePage range_hdr t FOREVER (page_handler hs code (d :: ds)) req) w = (Done tt, w1) /\
    wire_head (resp (w_state w1)) = Some (status_of code, headers_of hs ∅) /\
    wire_body (resp (w_state w1)) = concat (d :: ds) /\
    pg_has t (urlEscape PageCachePrefix (RequestURI req)) (mkResponse code (Some l) (Some lb)) (hs_store (w_state w1)) /\
    Some (the_buf (w_state w1) lb) = last (d :: ds) /\ the_hdr (w_state w1) l = headers_of hs ∅.
Proof.
  intros Htr Hr Hh Hmiss Hok.
  destruct (run_CachePage_miss t (page_handler hs code (d :: ds)) req err v w w0 Htr Hmiss) as (wb & Hsb & Hdb & Hrb & Hpage).
  destruct (run_page_handler t (urlEscape PageCachePrefix (RequestURI req)) hs code d ds l wb)
    as (wd & lb & dl & Hrun & Hlast & Hhas & Hbuf & Hhdr & Hhead & Hwire & _); [by rewrite Hrb|by rewrite Hsb|].
  assert (the_hdr (w_state wb) l = ∅) as Hempty by (unfold the_hdr; by rewrite Hdb).
  rewrite Hempty in Hhdr, Hhead. destruct (Hpage wd Hrun) as (w1 & Hrun1 & Hs1 & Hd1 & Hb1 & Hr1).
  exists w1, lb. rewrite Hr1, Hs1, Hlast, <- Hbuf.
  split; [done|]. split; [done|]. split; [done|]. split; [exact Hhas|]. unfold the_buf, the_hdr. rewrite Hb1, Hd1. by split.
Qed.

(** C22. What the page cache replays, for pages kept without expiry: after a miss on
    which the handler set its headers, its status and wrote its body in chunks, the
    client got the whole page.  If the headers mark the page with x-okay-to-cache, the
    next request, whatever its handler, gets the same status and headers without the
    handler running, but only the last chunk as its body (the replay is exact for a page
    written in one piece).  If they do not, the page was stored for nothing: the handler
    of the next request runs on the fresh response. *)
Theorem page_replays_last_chunk t handle2 req hs code d ds l l2 err v w (w0 : world S) :
  span_ctx (tracing (w_state w)) = true ->
  resp (w_state w) = new_response l false -> the_hdr (w_state w) l = ∅ -> l2 <> l ->
  run clock (cs_Get t (urlEscape PageCachePrefix (RequestURI req)) (VPtr (VResponse zero_response))) (inner w) =
    (Done (Some err, v), w0) -> pg_ok t (w_state w0) ->
  exists w1, run clock (CachePage range_hdr t FOREVER (page_handler hs code (d :: ds)) req) w = (Done tt, w1) /\
    wire_head (resp (w_state w1)) = Some (status_of code, headers_of hs ∅) /\
    wire_body (resp (w_state w1)) = concat (d :: ds) /\
    let second := run clock (CachePage range_hdr t FOREVER handle2 req) (set_state w1 (next_request (w_state w1) l2)) in
    if String.eqb (hdr_Get (headers_of hs ∅) "x-okay-to-cache") EmptyString then
      exists wb, resp (w_state wb) = new_response l2 false /\ the_hdr (w_state wb) l2 = ∅ /\
        let again := run clock (run_cached (newCachedWriter t FOREVER (urlEscape PageCachePrefix (RequestURI req))) handle2) wb in
        second.1 = again.1 /\ page_same (w_state second.2) (w_state again.2)
    else second.1 = Done tt /\ wire_head (resp (w_state second.2)) = wire_head (resp (w_state w1)) /\
      Some (wire_body (resp (w_state second.2))) = last (d :: ds).
Proof.
  intros Htr Hr Hh Hne Hmiss Hok.
  destruct (run_page_miss t req hs code d ds l err v w w0 Htr Hr Hh Hmiss Hok)
    as (w1 & lb & Hrun & Hhead & Hwire & Hhas & Hbuf & Hhdr).
  exists w1. split; [done|]. split; [done|]. split; [done|]. cbn zeta.
  destruct (String.eqb_spec (hdr_Get (headers_of hs ∅) "x-okay-to-cache") EmptyString) as [Hno|Hokay].
  - destruct (run_next_unmarked t handle2 req code l lb l2 w1 Hhas) as (wb & w2 & Hrb & Hhb & Hrun2 & Hs2); [by rewrite Hhdr|done|].
    exists wb. by rewrite Hrun2.
  - destruct (run_next_request t handle2 req code l lb l2 w1 Hhas) as (w2 & Hrun2 & Hhead2 & Hwire2); [by rewrite Hhdr| |done|].
    { rewrite Hhdr. apply headers_of_ok. intros k vs. by rewrite lookup_empty. }
    rewrite Hrun2. cbn [fst snd]. split; [done|]. split; [by rewrite Hhead2, Hhead, Hhdr|]. by rewrite Hwire2, <- Hbuf.
Qed.

(** C25. A site-cache hit does not end the request: [SiteCache] replays the stored
    page but does not abort the chain, so the page handler still runs and its output
    follows the cached body. *)
Theorem sitecache_hit_runs_handler t req st lh lb l d w :
  pg_has t (urlEscape PageCachePrefix (RequestURI req)) (mkResponse st (Some lh) (Some lb))
    (hs_store (w_state w)) ->
  resp (w_state w) = new_response l false -> the_hdr (w_state w) l = ∅ -> l <> lh ->
  header_ok (the_hdr (w_state w) lh) ->
  exists w', run clock (SiteCache range_hdr t req (run_plain (write_chunks [d]))) w = (Done tt, w') /\
    wire_head (resp (w_state w')) = Some (status_of st, the_hdr (w_state w) lh) /\
    wire_body (resp (w_state w')) = the_buf (w_state w) lb ++ d.
Proof.
  intros Hhas Hr Hh Hne Hhok. unfold SiteCache. cbn zeta.
  destruct (pg_get t _ _ zero_response clock (inner w) Hhas) as (w1 & Hget & _).
  rewrite (run_store_done _ _ _ _ _ _ Hget). cbn [fst snd as_ptr as_response]. rewrite bind_assert_Some.
  destruct (run_replay range_hdr clock range_perm st lh lb l (outer w w1) Hr Hh Hne Hhok) as (w2 & Hrun & Hhead & Hbody & Hwr & _ & Hb & _).
  rewrite (run_bind_done _ _ _ _ _ _ Hrun).
  set (lb2 := fresh (dom (bufs (w_state w2)))). set (w3 := set_state w2 (put_buf (w_state w2) lb2 d)).
  change (run clock (run_plain (write_chunks [d])) w2) with
    (run clock (x ← (b ← call (PBuf lb2); call (PWrite b)); run_plain (mret tt)) w3).
  rewrite run_bind, run_PBuf. unfold the_buf at 1. cbn [w_state set_state w3 put_buf bufs].
  rewrite lookup_insert_eq. cbn [default id].
  change (call (PWrite d)) with (call (PWrite d) ≫= mret (M := prog (pageE E))). rewrite run_PWrite by done.
  eexists. split; [done|]. unfold after_write, rw_WriteHeaderNow. simpl. rewrite Hwr. simpl. by rewrite Hhead, Hbody.
Qed.

(** The writer keeps the caller's buffer: if a handler reuses the buffer it
    wrote, the client has received the old bytes but the cached page reads as the
    new ones. *)
Theorem page_buffer_reuse t key d1 d2 l w :
  resp (w_state w) = new_response l false -> pg_ok t (hs_store (w_state w)) ->
  exists w' lb, run clock (run_cached (newCachedWriter t FOREVER key)
      (b ← call (WNewBuf d1); _ ← call (WWrite b); call (WBufPut b d2))) w = (Done tt, w') /\
    wire_body (resp (w_state w')) = d1 /\
    pg_has t key (mkResponse 0 (Some l) (Some lb)) (hs_store (w_state w')) /\
    the_buf (w_state w') lb = d2.
Proof.
  intros Hr Hok. set (cw := newCachedWriter t FOREVER key).
  destruct (run_chunk cw d1 (fun b => call (WBufPut b d2)) w) as (w1 & lb & Hrun & Hhas & _ & _ & _ & Hresp);
    [by rewrite Hr|done|done|].
  exists (set_state w1 (put_buf (w_state w1) lb d2)), lb. rewrite Hrun. split; [done|].
  cbn [w_state set_state put_buf hs_store resp]. rewrite Hr in Hhas. rewrite Hresp. unfold after_write. rewrite Hr.
  split; [done|]. split; [exact Hhas|].
  unfold the_buf. simpl. by rewrite lookup_insert_eq.
Qed.
End with_store.

(** Page keys: two URIs whose escaped forms have at most 200 characters get the
    same key only if they are equal. *)
Theorem page_keys_injective prefix u1 u2 :
  (String.length (QueryEscape u1) <= 200)%nat -> (String.length (QueryEscape u2) <= 200)%nat ->
  urlEscape prefix u1 = urlEscape prefix u2 -> u1 = u2.
Proof.
  intros L1 L2. unfold urlEscape.
  destruct (Nat.ltb_spec 200 (String.length (QueryEscape u1))); [lia|].
  destruct (Nat.ltb_spec 200 (String.length (QueryEscape u2))); [lia|].
  intros Heq. apply (inj (String.app prefix)) in Heq. apply (inj (String.app ":")) in Heq.
  by rewrite <- (QueryUnescape_QueryEscape u1), Heq, QueryUnescape_QueryEscape.
Qed.

(** ** Instances *)
Section witnesses.
Definition by_key (h : http_Header) : list (string * list string) := map_to_list h.
Lemma by_key_perm h : by_key h ≡ₚ map_to_list h.
Proof. done. Qed.

(** A server with the empty store of size 2 and a fresh request whose header map is
    at location 7. *)
Definition page_world (m : mem) (bs : gmap nat (list byte)) (hm : gmap nat http_Header) : world (hstate mem) :=
  World (mkH m hm bs (new_response 7 false) ∅ []) 0 [].
Definition w_page : world (hstate mem) := page_world (w_state w_empty) ∅ {[7%nat := ∅]}.
Definition req1 : request := mkRequest "GET" "/p" "/p?x=1" None.
Definition ok_headers : list (string * string) := [("content-type", "text/html"); ("x-okay-to-cache", "true")].

(** The store is still a store after the miss. *)
Lemma w_empty_miss : pg_ok (E := memE) c2 (w_state
  (run clk (cs_Get c2 (urlEscape PageCachePrefix "/p?x=1") (VPtr (VResponse zero_response))) w_empty).2).
Proof.
  destruct (do_op_refines clk c2 (OGet (urlEscape PageCachePrefix "/p?x=1") (VPtr (VResponse zero_response)))
    w_empty ∅) as (w' & m' & Hr & Hw' & _); [apply w_empty_holds|]. exists m'.
  unfold holds in Hw'. cbn [do_op] in Hr. rewrite run_bind in Hr.
  change (cs_Get c2) with (InMemoryStore_Get c2).
  destruct (run clk (InMemoryStore_Get c2 _ _) w_empty) as [[r|msg] w1]; simpl in Hr; by simplify_eq.
Qed.

Lemma page_span_balanced_witness :
  exists n parent, spans (w_state (run clk (CachePage by_key c2 FOREVER (Panic "boom") req1) w_page).2) =
    [SpanStarted n parent "api-request-cache-page" "GET" "/p"; SpanFinished n].
Proof. apply (page_span_balanced by_key clk c2 FOREVER (Panic "boom") req1 w_page). reflexivity. Defined.

Lemma page_replays_last_chunk_witness :
  exists w1, run clk (CachePage by_key c2 FOREVER (page_handler ok_headers 201 [[x61]; [x62]]) req1) w_page = (Done tt, w1) /\
    wire_body (resp (w_state w1)) = [x61; x62] /\
    let second := run clk (CachePage by_key c2 FOREVER (Panic "not run") req1) (set_state w1 (next_request (w_state w1) 8)) in
    second.1 = Done tt /\ wire_head (resp (w_state second.2)) = wire_head (resp (w_state w1)) /\
    Some (wire_body (resp (w_state second.2))) = Some [x62].
Proof.
  destruct (page_replays_last_chunk by_key clk by_key_perm c2 (Panic "not run") req1 ok_headers 201 [x61] [[x62]] 7 8
    ErrCacheMiss (VPtr (VResponse zero_response)) w_page
    (run clk (cs_Get c2 (urlEscape PageCachePrefix "/p?x=1") (VPtr (VResponse zero_response))) (inner w_page)).2)
    as (w1 & H1 & _ & H2 & H3);
    [reflexivity|reflexivity|reflexivity|discriminate|vm_compute; reflexivity|apply w_empty_miss|].
  exists w1. split; [exact H1|]. split; [exact H2|exact H3].
Defined.

(** A store that has a page for the key of [req1]. *)
Definition stored_page : ResponseCache := mkResponse 200 (Some 3%nat) (Some 4%nat).
Definition w_stored : world mem :=
  (run clk (InMemoryStore_Set c2 (urlEscape PageCachePrefix "/p?x=1") (VResponse stored_page) FOREVER) w_empty).2.
Definition w_hit : world (hstate mem) :=
  page_world (w_state w_stored) {[4%nat := [x61]]} (<[3%nat := headers_of ok_headers ∅]> {[7%nat := ∅]}).

Lemma w_hit_has : pg_has (E := memE) c2 (urlEscape PageCachePrefix "/p?x=1") stored_page (hs_store (w_state w_hit)).
Proof.
  destruct (im_set c2 (urlEscape PageCachePrefix "/p?x=1") (VResponse stored_page) clk w_empty w_empty_ok eq_refl)
    as (w' & Hr & Hh). cbn [w_hit page_world hs_store w_state]. unfold w_stored. rewrite Hr. exact Hh.
Qed.

Lemma sitecache_hit_runs_handler_witness :
  exists w', run clk (SiteCache by_key c2 req1 (run_plain (write_chunks [[x62]]))) w_hit = (Done tt, w') /\
    wire_body (resp (w_state w')) = [x61; x62].
Proof.
  destruct (sitecache_hit_runs_handler by_key clk by_key_perm c2 req1 200 3 4 7 [x62] w_hit)
    as (w' & Hr & _ & Hb); [apply w_hit_has|reflexivity|reflexivity|discriminate| |].
  { change (the_hdr (w_state w_hit) 3) with (headers_of ok_headers ∅). apply headers_of_ok. intros k vs. by rewrite lookup_empty. }
  exists w'. split; [exact Hr|exact Hb].
Defined.

Lemma page_buffer_reuse_witness :
  exists w' lb, run clk (run_cached (newCachedWriter c2 FOREVER "k")
      (b ← call (WNewBuf [x61]); _ ← call (WWrite b); call (WBufPut b [x62]))) w_page = (Done tt, w') /\
    wire_body (resp (w_state w')) = [x61] /\ the_buf (w_state w') lb = [x62].
Proof.
  destruct (page_buffer_reuse clk c2 "k" [x61] [x62] 7 w_page) as (w' & lb & Hr & Hb & _ & Hbuf);
    [reflexivity|apply w_empty_ok|].
  exists w', lb. split; [exact Hr|]. split; [exact Hb|exact Hbuf].
Defined.

Lemma page_keys_injective_witness : "/p?x=1" = "/p?x=1".
Proof. apply (page_keys_injective "p" "/p?x=1" "/p?x=1"); [vm_compute; lia|vm_compute; lia|reflexivity]. Defined.
End witnesses.
