(* ===== verification/PageFacade.v ===== *)
(** * The page cache over a [GenericCache]

    A [GenericCache] in front of a store that keeps pages keeps pages too, whether it
    encrypts or not: what the page cache guarantees over a plain store it guarantees
    over the facade, and over a facade of a facade's store.  What it keeps is in the
    clear. *)

From stdpp Require Import gmap strings.
From Stdlib Require Import Strings.Byte.
From S2P Require Import Prelude LruInterface GoValues GoFmt Bytes InMemory InMemoryProps Generic GenericProps MapStore.
From S2P Require Import GinCache GinProps.
Local Open Scope Z_scope.

(** A response through the facade, in front of any store: one call of the store. *)
Section responses.
Context {E : Type -> Type} {T R S : Type} `{Handler E S, CacheStore E T, CacheStore E R, !RedisOps E R}.
Context (gob_encode : goval -> error + list byte) (gob_decode : list byte -> error + goval).
Context (clock : nat -> Z) (g : GenericCache T R) (st : T + R).
Context (Hnil : is_nil (Generic.Cache g) = false) (Hst : the_store (E := E) g = mret st).
Implicit Types (w : world S).

Lemma run_g_Set_response k r exp w :
  exists w1, w_state w1 = w_state w /\ w_tick w1 = w_tick w /\ forall w2,
    run clock (st_Set st k (VResponse r) (g_resolve g exp)) w1 = (Done None, w2) ->
    run clock (g_Set gob_encode g k (VResponse r) exp) w = (Done None, w2).
Proof.
  unfold g_Set. rewrite Hnil.
  match goal with |- context [logDebug g ?m ≫= ?f] => destruct (run_logDebug clock g m f w) as (w1 & -> & Hs1 & Ht1) end.
  cbn zeta. fold (g_resolve g exp).
  assert (forall w3 w2, run clock (st_Set st k (VResponse r) (g_resolve g exp)) w3 = (Done None, w2) ->
    run clock (set_store g k (VResponse r) (g_resolve g exp)) w3 = (Done None, w2)) as Hset.
  { intros w3 w2 Hr. unfold set_store. rewrite Hst, bind_mret. by rewrite (run_bind_done _ _ _ _ _ _ Hr). }
  destruct (EncryptData g); [|exists w1; auto].
  match goal with |- context [run clock (logDebug g ?m ≫= ?f) w1] =>
    destruct (run_logDebug clock g m f w1) as (w2 & -> & Hs2 & Ht2) end.
  exists w2. split; [congruence|]. split; [congruence|]. apply Hset.
Qed.

Lemma run_g_Get_response k r0 w :
  exists w1, w_state w1 = w_state w /\ w_tick w1 = w_tick w /\ forall e v w2,
    run clock (st_Get st k (VPtr (VResponse r0))) w1 = (Done (e, v), w2) -> e = None \/ e = Some ErrCacheMiss ->
    run clock (g_Get gob_decode g k (VPtr (VResponse r0))) w = (Done (e, v), w2).
Proof.
  unfold g_Get. rewrite Hnil. cbn zeta.
  match goal with |- context [logDebug g ?m ≫= ?f] => destruct (run_logDebug clock g m f w) as (w1 & -> & Hs1 & Ht1) end.
  exists w1. split; [done|]. split; [done|]. intros e v w2 Hr He.
  change (typeof (VPtr (VResponse r0))) with "*cache.ResponseCache".
  cbn [String.eqb Ascii.eqb Bool.eqb as_ptr as_response]. rewrite bind_assert_Some, Hst, bind_mret.
  rewrite (run_bind_done _ _ _ _ _ _ Hr). by destruct He as [-> | ->].
Qed.
End responses.

Section facade_pages.
Context {E : Type -> Type} {T R S : Type} `{Handler E S, CacheStore E T, CacheStore E R, !RedisOps E R, !PageStore E T S}.
Context (gob_encode : goval -> error + list byte) (gob_decode : list byte -> error + goval).
Implicit Types (g : GenericCache T R) (w : world S).

Definition facade_ok g (s : S) : Prop := exists t, Generic.Cache g = CStore t /\ pg_ok t s.
Definition facade_has g k r (s : S) : Prop := exists t, Generic.Cache g = CStore t /\ pg_has t k r s.

Lemma facade_pg_set g k r clock w : facade_ok g (w_state w) ->
  exists w', run clock (g_Set gob_encode g k (VResponse r) FOREVER) w = (Done None, w') /\ facade_has g k r (w_state w').
Proof.
  intros (t & Hc & Hw).
  destruct (run_g_Set_response gob_encode clock g (inl t) (not_nil g t Hc) (the_store_eq g t Hc) k r FOREVER w) as (w1 & Hs1 & _ & Hset).
  rewrite <- Hs1 in Hw. destruct (pg_set t k r clock w1 Hw) as (w' & Hr & Hh). exists w'. split; [by apply Hset|by exists t].
Qed.

Lemma facade_pg_get g k r r0 clock w : facade_has g k r (w_state w) ->
  exists w', run clock (g_Get gob_decode g k (VPtr (VResponse r0))) w = (Done (None, VPtr (VResponse r)), w') /\
    facade_has g k r (w_state w').
Proof.
  intros (t & Hc & Hw).
  destruct (run_g_Get_response gob_decode clock g (inl t) (not_nil g t Hc) (the_store_eq g t Hc) k r0 w) as (w1 & Hs1 & _ & Hget).
  rewrite <- Hs1 in Hw. destruct (pg_get t k r r0 clock w1 Hw) as (w' & Hr & Hh). exists w'. split; [|by exists t].
  apply Hget; [exact Hr|by left].
Qed.

Lemma facade_has_ok g k r (s : S) : facade_has g k r s -> facade_ok g s.
Proof. intros (t & Hc & Hh). exists t. split; [done|]. by eapply pg_has_ok. Qed.

Definition facade_PageStore : @PageStore E (GenericCache T R) S _ (GenericCache_CacheStore gob_encode gob_decode).
Proof.
  refine {| pg_ok := facade_ok; pg_has := facade_has; pg_has_ok := facade_has_ok |}.
  - apply facade_pg_set.
  - apply facade_pg_get.
Defined.

Context (range_hdr : http_Header -> list (string * list string)) (clock : nat -> Z).
#[local] Instance facade_store : CacheStore E (GenericCache T R) := GenericCache_CacheStore gob_encode gob_decode.
#[local] Instance pages_of_facade : PageStore E (GenericCache T R) S := facade_PageStore.

(** C26. Pages are stored in the clear: when a page goes through the page cache into
    an encrypting [GenericCache], the client gets the page, and the store behind the
    cache then has its status, its headers and its last chunk as they are. *)
Theorem page_stored_in_clear g t req hs code d ds l err v (w : world (hstate S)) (w0 : world S) :
  EncryptData g = true -> Generic.Cache g = CStore t ->
  span_ctx (tracing (w_state w)) = true ->
  resp (w_state w) = new_response l false -> the_hdr (w_state w) l = ∅ ->
  run clock (g_Get gob_decode g (urlEscape PageCachePrefix (RequestURI req)) (VPtr (VResponse zero_response))) (inner w) =
    (Done (Some err, v), w0) -> pg_ok t (w_state w0) ->
  exists (w1 : world (hstate S)) lb, run clock (CachePage range_hdr g FOREVER
      (page_handler hs code (d :: ds)) req) w = (Done tt, w1) /\
    wire_head (resp (w_state w1)) = Some (status_of code, headers_of hs ∅) /\
    wire_body (resp (w_state w1)) = concat (d :: ds) /\
    pg_has t (urlEscape PageCachePrefix (RequestURI req)) (mkResponse code (Some l) (Some lb)) (hs_store (w_state w1)) /\
    the_hdr (w_state w1) l = headers_of hs ∅ /\ Some (the_buf (w_state w1) lb) = last (d :: ds).
Proof.
  intros _ Hc Htr Hr Hh Hmiss Hok.
  pose proof (run_page_miss range_hdr clock g req hs code d ds l err v w w0 Htr Hr Hh Hmiss) as Hpage.
  destruct Hpage as (w1 & lb & Hrun & Hhead & Hbody & (t' & Hc' & Hhas) & Hbuf & Hhdr); [by exists t|].
  rewrite Hc in Hc'. injection Hc' as <-. exists w1, lb. split; [exact Hrun|]. done.
Qed.
End facade_pages.

(** ** Instances *)
Section witnesses.
Lemma page_stored_in_clear_witness : exists w1 lb,
  run clk (CachePage (H := GenericCache_CacheStore enc1 dec1) by_key gc1 FOREVER
    (page_handler ok_headers 201 [[x61]; [x62]]) req1) w_page = (Done tt, w1) /\
  pg_has c2 (urlEscape PageCachePrefix "/p?x=1") (mkResponse 201 (Some 7%nat) (Some lb)) (hs_store (w_state w1)) /\
  Some (the_buf (w_state w1) lb) = Some [x62].
Proof.
  pose proof (page_stored_in_clear enc1 dec1 by_key clk gc1 c2 req1 ok_headers 201 [x61] [[x62]] 7 ErrCacheMiss
    (VPtr (VResponse zero_response)) w_page
    (run clk (g_Get dec1 gc1 (urlEscape PageCachePrefix "/p?x=1") (VPtr (VResponse zero_response))) (inner w_page)).2) as Hp.
  destruct Hp as (w1 & lb & H1 & _ & _ & H2 & _ & H3);
    [reflexivity|reflexivity|reflexivity|reflexivity|reflexivity|vm_compute; reflexivity|apply w_empty_miss|].
  exists w1, lb. split; [exact H1|]. split; [exact H2|exact H3].
Defined.
End witnesses.
