(* ===== verification/PageAtomic.v ===== *)
(** * [CachePageAtomic] and concurrent requests

    gin serves every request in a goroutine of its own.  [server] is what those
    goroutines share (the store, the heaps, the tracer) and, for each request, its
    response writer and context keys; [At i e] is the atomic call [e] made for
    request [i].  [CachePageAtomic] wraps [CachePage] in one mutex. *)

From stdpp Require Import gmap strings.
From Stdlib Require Import Strings.Byte.
From S2P Require Import Prelude Interleave Mutex LruInterface GoValues GoFmt Bytes.
From S2P Require Import InMemory InMemoryProps GenericProps GinCache GinProps.
Local Open Scope Z_scope.

Record server (S : Type) := mkServer {
  sv_store : S;
  sv_hdrs : gmap nat http_Header;
  sv_bufs : gmap nat (list byte);
  sv_spans : list span_event;
  sv_reqs : gmap nat (response * gmap string ctxval) }.
Arguments mkServer {S} _ _ _ _ _.
Arguments sv_store {S} _.
Arguments sv_hdrs {S} _.
Arguments sv_bufs {S} _.
Arguments sv_spans {S} _.
Arguments sv_reqs {S} _.

Inductive reqE (E : Type -> Type) : Type -> Type :=
  | At (i : nat) X (e : pageE E X) : reqE E X.
Arguments At {E} i {X} e.

Section server.
Context {E : Type -> Type} {S : Type} `{Handler E S}.
Implicit Types (s : server S).

(** What request [i] sees of the server. *)
Definition view (i : nat) s : hstate S :=
  let '(r, ks) := default (new_response i false, ∅) (sv_reqs s !! i) in
  mkH (sv_store s) (sv_hdrs s) (sv_bufs s) r ks (sv_spans s).

Definition update (i : nat) s (h : hstate S) : server S :=
  mkServer (hs_store h) (hdrs h) (bufs h) (spans h) (<[i := (resp h, keys h)]> (sv_reqs s)).

#[global] Instance reqE_handler : Handler (reqE E) (server S) := fun X e s =>
  match e in reqE _ X return X * server S with
  | At i e => let '(x, h) := handle e (view i s) in (x, update i s h)
  end.

(** The world as request [i] sees it, and back. *)
Definition view_world (i : nat) (w : world (server S)) : world (hstate S) :=
  World (view i (w_state w)) (w_tick w) (w_log w).
Definition update_world (i : nat) (w : world (server S)) (w1 : world (hstate S)) : world (server S) :=
  World (update i (w_state w) (w_state w1)) (w_tick w1) (w_log w1).

Lemma view_update i s h : view i (update i s h) = h.
Proof. unfold view, update. simpl. rewrite lookup_insert_eq. by destruct h. Qed.

Lemma update_update i s h1 h2 : update i (update i s h1) h2 = update i s h2.
Proof. unfold update. simpl. by rewrite insert_insert_eq. Qed.

Lemma update_view i s : is_Some (sv_reqs s !! i) -> update i s (view i s) = s.
Proof.
  intros [[r ks] Hi]. unfold update, view. rewrite Hi. simpl. rewrite insert_id by done. by destruct s.
Qed.

(** A request's program runs in the request's view. *)
Lemma run_at clock {A} i (p : prog (pageE E) A) (w : world (server S)) : is_Some (sv_reqs (w_state w) !! i) ->
  run clock (embed (fun X e => At i e) p) w =
    let '(o, w1) := run clock p (view_world i w) in (o, update_world i w w1).
Proof.
  intros Hi. apply (run_embed clock (fun X e => At i e) (view i) (update i)); [..|by apply update_view].
  - intros u s. apply view_update.
  - intros u s s'. apply update_update.
  - done.
Qed.
End server.

Section atomic.
Context {E : Type -> Type} {T S : Type} `{Handler E S, CacheStore E T}.
Context (range_hdr : http_Header -> list (string * list string)).

(** The handler [CachePageAtomic(store, expire, handle)] returns, called for request
    [i]: the mutex belongs to the decorated handler, so all its requests share it. *)
Definition CachePageAtomic (store : T) (expire : Z) (handle : HandlerFunc) (i : nat) (req : request)
    : prog (lockE (reqE E)) unit :=
  atomically (embed (fun X e => At i e) (CachePage range_hdr store expire handle req)).

Context (clock : nat -> Z) (t : T) (expire : Z) (handler : HandlerFunc) (reqs : list request).
Implicit Types (w : world (server S)).

Definition requests : list (prog (lockE (reqE E)) unit) := imap (CachePageAtomic t expire handler) reqs.
Definition arrived w : Prop := forall i, (i < length reqs)%nat -> is_Some (sv_reqs (w_state w) !! i).

(** The reference: a server that takes one request at a time. *)
Fixpoint serve_pages (order : list nat) w : list (nat * outcome unit) * world (server S) :=
  match order with
  | [] => ([], w)
  | i :: order =>
      match reqs !! i with
      | Some req =>
          let '(o, w1) := run clock (CachePage range_hdr t expire handler req) (view_world i w) in
          let '(os, w2) := serve_pages order (update_world i w w1) in ((i, o) :: os, w2)
      | None => serve_pages order w
      end
  end.

Definition page_bodies : list (prog (reqE E) unit) :=
  imap (fun i req => embed (fun X e => At i e) (CachePage range_hdr t expire handler req)) reqs.

Lemma requests_atomically : requests = atomically <$> page_bodies.
Proof. unfold requests, page_bodies. rewrite fmap_imap. done. Qed.

Lemma serve_serve_pages order w : arrived w -> serve clock page_bodies order w = serve_pages order w.
Proof.
  revert w. induction order as [|i order IH]; intros w Hw; [done|]. cbn [serve serve_pages].
  unfold page_bodies at 1. rewrite list_lookup_imap. destruct (reqs !! i) as [req|] eqn:Hi; cbn [fmap option_fmap option_map]; [|by apply IH].
  rewrite run_at by (apply Hw; by eapply lookup_lt_Some).
  destruct (run clock (CachePage range_hdr t expire handler req) (view_world i w)) as [o w1].
  rewrite IH; [done|]. intros j Hj. simpl. rewrite lookup_insert. case_decide; [by eexists|by apply Hw].
Qed.

Lemma serve_pages_fst order w : Forall (fun i => is_Some (reqs !! i)) order -> (serve_pages order w).1.*1 = order.
Proof.
  intros Ho. revert w. induction Ho as [|i order [req Hi] _ IH]; intros w; [done|]. cbn [serve_pages]. rewrite Hi.
  destruct (run clock _ _) as [o w1]. specialize (IH (update_world i w w1)).
  destruct (serve_pages order (update_world i w w1)). by f_equal/=.
Qed.

(** C7. Requests that share a [CachePageAtomic] handler are serializable: however
    their goroutines interleave, when all have been answered, the responses, the
    store, the heaps, the spans, the clock and the log are those of a server that
    serves the requests with [CachePage] one at a time, in some order, and each
    request ended (or panicked) as it does there; the mutex is free again. *)
Theorem page_atomic_serializable w (w' : world (guarded (server S))) ps :
  arrived w -> rtc (lock_step clock) (relock false w, requests) (w', ps) -> Forall (fun r => over r = true) ps ->
  exists order, order ≡ₚ seq 0 (length reqs) /\ w' = relock false (serve_pages order w).2 /\
    Forall (fun '(i, o) => ps !! i = Some (finished o)) (serve_pages order w).1.
Proof.
  intros Hw Hr Hov. rewrite requests_atomically in Hr.
  destruct (lock_serializable clock page_bodies w w' ps Hr Hov) as (order & Hp & Hw' & Hres).
  exists order. rewrite serve_serve_pages in Hw', Hres by done. unfold page_bodies in Hp. by rewrite length_imap in Hp.
Qed.

(** C15. No deadlock: in every state that concurrent requests to a [CachePageAtomic]
    handler can reach, also after handlers have panicked, either the mutex is taken by
    one request, which can go on, while every other one has been answered (or has
    panicked) or waits for it; or the mutex is free, and every request that is not over
    can go on.  So a request is never held up but by the handler of another one, and
    where nobody can move all have been answered or have panicked. *)
Theorem page_atomic_deadlock_free w (w' : world (guarded (server S))) ps :
  rtc (lock_step clock) (relock false w, requests) (w', ps) ->
  unblocked clock w' ps /\ (nf (lock_step clock) (w', ps) -> Forall (fun r => over r = true) ps).
Proof.
  intros Hr. rewrite requests_atomically in Hr. split; [by eapply lock_unblocked|]. intros Hnf.
  destruct (lock_progress clock page_bodies w w' ps Hr) as [Hov|[c Hc]]; [done|]. destruct Hnf. by exists c.
Qed.
End atomic.

(** ** A page is computed once *)
Section single_flight.
Context {E : Type -> Type} {T S : Type} `{Handler E S, CacheStore E T, !PageStore E T S}.
Context (range_hdr : http_Header -> list (string * list string)).
Context (range_perm : forall h, range_hdr h ≡ₚ map_to_list h).
Context (clock : nat -> Z) (t : T) (hs : list (string * string)) (code : Z) (d : list byte) (ds : list (list byte)).
Context (uri : string) (reqs : list request) (loc : nat -> nat).
Context (Huri : Forall (fun req => RequestURI req = uri) reqs).
Context (Hloc : forall i j, loc i = loc j -> i = j).
Context (Hokay : hdr_Get (headers_of hs ∅) "x-okay-to-cache" <> EmptyString).
Implicit Types (w : world (server S)).

Abbreviation page_of := (CachePage range_hdr t FOREVER (page_handler hs code (d :: ds))).
Abbreviation head := (Some (status_of code, headers_of hs ∅)).
Abbreviation page_key := (urlEscape PageCachePrefix uri).

(** Request [i] has arrived and nothing was written to it. *)
Definition fresh_req w (i : nat) : Prop :=
  sv_reqs (w_state w) !! i = Some (new_response (loc i) false, ∅) /\ default ∅ (sv_hdrs (w_state w) !! loc i) = ∅.

Definition answered w (i : nat) (hd : option (Z * http_Header)) (body : list byte) : Prop :=
  exists r ks, sv_reqs (w_state w) !! i = Some (r, ks) /\ wire_head r = hd /\ wire_body r = body.

(** The page of request [i] is in the store, and [waiting] are still to be served. *)
Definition hot w (i : nat) (dl : list byte) (waiting : list nat) : Prop :=
  (i ∉ waiting) /\ Forall (fresh_req w) waiting /\ exists lb,
    pg_has t page_key (mkResponse code (Some (loc i)) (Some lb)) (sv_store (w_state w)) /\
    default ∅ (sv_hdrs (w_state w) !! loc i) = headers_of hs ∅ /\ default [] (sv_bufs (w_state w) !! lb) = dl.

Lemma view_fresh w i : fresh_req w i ->
  resp (w_state (view_world i w)) = new_response (loc i) false /\
  the_hdr (w_state (view_world i w)) (loc i) = ∅ /\ tracing (w_state (view_world i w)) = None /\
  inner (view_world i w) = World (sv_store (w_state w)) (w_tick w) (w_log w).
Proof. intros [Hi Hh]. unfold view_world, view, the_hdr, tracing, inner. rewrite Hi. done. Qed.

(** What serving [i] leaves alone. *)
Lemma answered_frame w (w1 : world (hstate S)) i j hd body : j <> i -> answered w j hd body -> answered (update_world i w w1) j hd body.
Proof. intros Hne (r & ks & Hj & Hr). exists r, ks. split; [|done]. simpl. by rewrite lookup_insert_ne. Qed.

Lemma answered_own w (w1 : world (hstate S)) i : answered (update_world i w w1) i (wire_head (resp (w_state w1))) (wire_body (resp (w_state w1))).
Proof. eexists _, _. split; [simpl; apply lookup_insert_eq|done]. Qed.

Lemma fresh_frame w (w1 : world (hstate S)) i j : j <> i -> fresh_req w j ->
  (forall l, l <> loc i -> the_hdr (w_state w1) l = default ∅ (sv_hdrs (w_state w) !! l)) ->
  fresh_req (update_world i w w1) j.
Proof.
  intros Hne [Hj Hh] Hl. split; simpl; [by rewrite lookup_insert_ne|].
  change (the_hdr (w_state w1) (loc j) = ∅). rewrite Hl; [done|]. intros Heq. by apply Hne, Hloc.
Qed.

Lemma view_hdr w i l : the_hdr (w_state (view_world i w)) l = default ∅ (sv_hdrs (w_state w) !! l).
Proof. unfold view_world, view, the_hdr. by destruct (default _ (sv_reqs (w_state w) !! i)). Qed.

Lemma the_hdr_same (s s' : hstate S) l : page_same s s' -> the_hdr s l = the_hdr s' l.
Proof. intros (_ & Hd & _). unfold the_hdr. by rewrite Hd. Qed.

Lemma the_buf_same (s s' : hstate S) l : page_same s s' -> the_buf s l = the_buf s' l.
Proof. intros (_ & _ & Hb & _). unfold the_buf. by rewrite Hb. Qed.

(** The first request computes the page. *)
Lemma serve_miss w i waiting req err v (w0 : world S) :
  RequestURI req = uri -> fresh_req w i -> i ∉ waiting -> Forall (fresh_req w) waiting ->
  run clock (cs_Get t page_key (VPtr (VResponse zero_response)))
    (World (sv_store (w_state w)) (w_tick w) (w_log w)) = (Done (Some err, v), w0) -> pg_ok t (w_state w0) ->
  exists (w1 : world (hstate S)) dl, run clock (page_of req) (view_world i w) = (Done tt, w1) /\ last (d :: ds) = Some dl /\
    hot (update_world i w w1) i dl waiting /\
    answered (update_world i w w1) i head (concat (d :: ds)).
Proof.
  intros Hu Hf Hni Hwait Hmiss Hok. destruct (view_fresh w i Hf) as (Hr & Hh & Htr & Hin).
  set (wv := view_world i w) in *.
  rewrite <- Hin, <- Hu in Hmiss.
  destruct (run_CachePage_miss range_hdr clock t (page_handler hs code (d :: ds)) req err v wv w0)
    as (wb & Hsb & Hdb & Hrb & Hpage); [by rewrite Htr|done|]. rewrite Hu in Hpage.
  assert (the_hdr (w_state wb) = the_hdr (w_state wv)) as Hhb by (unfold the_hdr; by rewrite Hdb).
  destruct (run_page_handler clock t page_key hs code d ds (loc i) wb)
    as (wc & lb & dl & Hrun & Hlast & Hhas & Hbuf & Hhdr & Hhead & Hwire & Ho); [by rewrite Hrb|by rewrite Hsb|].
  rewrite Hhb, Hh in Hhdr, Hhead. destruct (Hpage wc Hrun) as (w1 & Hrun1 & Hsame1).
  exists w1, dl. split; [done|]. split; [done|]. split.
  - split; [done|]. split.
    + rewrite Forall_forall in Hwait |- *. intros j Hj. apply fresh_frame; [congruence|by apply Hwait|].
      intros l Hne. rewrite (the_hdr_same _ _ _ Hsame1), Ho, Hhb by done. apply view_hdr.
    + exists lb. pose proof Hsame1 as (Hs1 & _). simpl. rewrite Hs1. split; [done|]. split.
      * change (the_hdr (w_state w1) (loc i) = headers_of hs ∅). by rewrite (the_hdr_same _ _ _ Hsame1).
      * change (the_buf (w_state w1) lb = dl). by rewrite (the_buf_same _ _ _ Hsame1).
  - rewrite <- Hwire, <- Hhead. destruct Hsame1 as (_ & _ & _ & <-). apply answered_own.
Qed.

(** Every later one is answered from the store. *)
Lemma serve_hit w i dl j waiting req :
  RequestURI req = uri -> hot w i dl (j :: waiting) -> NoDup (j :: waiting) ->
  exists w1 : world (hstate S), run clock (page_of req) (view_world j w) = (Done tt, w1) /\
    hot (update_world j w w1) i dl waiting /\ answered (update_world j w w1) j head dl.
Proof.
  intros Hu (Hni & Hwait & lb & Hhas & Hhi & Hbi) Hnd. apply NoDup_cons in Hnd as [Hj Hnd].
  apply Forall_cons in Hwait as [Hf Hwait]. apply not_elem_of_cons in Hni as [Hij Hni].
  destruct (view_fresh w j Hf) as (Hr & Hh & Htr & Hin).
  assert (bufs (w_state (view_world j w)) = sv_bufs (w_state w) /\ hs_store (w_state (view_world j w)) = sv_store (w_state w)) as [Hbv Hsv].
  { unfold view_world, view. by destruct (default _ (sv_reqs (w_state w) !! j)). }
  pose proof (view_hdr w j) as Hhv. set (wv := view_world j w) in *.
  destruct (run_CachePage range_hdr clock t FOREVER (page_handler hs code (d :: ds)) req wv)
    as (wa & Hsame & Ht & Hl & _ & _ & _ & _ & _ & w1 & Hrun1 & Hsame1 & _); [by rewrite Htr|].
  pose proof Hsame as (Hsa & _ & Hba & Hra).
  destruct (run_hit range_hdr clock range_perm t FOREVER (page_handler hs code (d :: ds)) req code (loc i) lb (loc j) wa)
    as (wb & Hrun & Hhead & Hbody & Hhas1 & Hb1 & Ho).
  - by rewrite Hsa, Hu, Hsv.
  - by rewrite (the_hdr_same _ _ _ Hsame), Hhv, Hhi.
  - by rewrite Hra.
  - by rewrite (the_hdr_same _ _ _ Hsame).
  - intros Heq. by apply Hij, Hloc.
  - rewrite (the_hdr_same _ _ _ Hsame), Hhv, Hhi. apply headers_of_ok. intros k vs. by rewrite lookup_empty.
  - rewrite Hrun in Hrun1, Hsame1. cbn [fst snd] in Hrun1, Hsame1.
    assert (forall l, l <> loc j -> the_hdr (w_state w1) l = default ∅ (sv_hdrs (w_state w) !! l)) as Hl1.
    { intros l Hne. rewrite (the_hdr_same _ _ _ Hsame1), Ho, (the_hdr_same _ _ _ Hsame) by done. apply Hhv. }
    exists w1. split; [done|]. split; [split; [done|split]|].
    + rewrite Forall_forall in Hwait |- *. intros j' Hj'. apply fresh_frame; [congruence|by apply Hwait|done].
    + exists lb. pose proof Hsame1 as (Hs1 & _). simpl. rewrite Hs1. rewrite Hu in Hhas1. split; [done|]. split.
      * change (the_hdr (w_state w1) (loc i) = headers_of hs ∅). rewrite Hl1; [done|]. intros Heq. by apply Hij, Hloc.
      * change (the_buf (w_state w1) lb = dl). rewrite (the_buf_same _ _ _ Hsame1). unfold the_buf. by rewrite Hb1, Hba, Hbv.
    + rewrite (the_hdr_same _ _ _ Hsame), Hhv, Hhi in Hhead. unfold the_buf in Hbody. rewrite Hba, Hbv, Hbi in Hbody.
      rewrite <- Hhead, <- Hbody. destruct Hsame1 as (_ & _ & _ & <-). apply answered_own.
Qed.

Lemma req_uri i req : reqs !! i = Some req -> RequestURI req = uri.
Proof. intros Hi. rewrite Forall_lookup in Huri. by eapply Huri. Qed.

Abbreviation serve_all := (serve_pages range_hdr clock t FOREVER (page_handler hs code (d :: ds)) reqs).

Lemma serve_hits w i dl waiting :
  hot w i dl waiting -> NoDup waiting -> Forall (fun j => is_Some (reqs !! j)) waiting ->
  Forall (fun '(_, o) => o = Done tt) (serve_all waiting w).1 /\
  (forall j, j ∈ waiting -> answered (serve_all waiting w).2 j head dl) /\
  (forall j hd body, j ∉ waiting -> answered w j hd body -> answered (serve_all waiting w).2 j hd body).
Proof.
  revert w. induction waiting as [|j waiting IH]; intros w Hhot Hnd Hv.
  - split; [constructor|]. split; [|done]. intros j Hj. by apply not_elem_of_nil in Hj.
  - apply Forall_cons in Hv as [[req Hj] Hv]. cbn [serve_pages]. rewrite Hj.
    destruct (serve_hit w i dl j waiting req (req_uri j req Hj) Hhot Hnd) as (w1 & Hrun & Hhot1 & Hans).
    rewrite Hrun. apply NoDup_cons in Hnd as [Hni Hnd].
    destruct (IH _ Hhot1 Hnd Hv) as (Hos & Hin & Hout).
    destruct (serve_all waiting (update_world j w w1)) as [os w2]. cbn [fst snd] in *.
    split; [by constructor|]. split.
    + intros j' [->|Hj']%elem_of_cons; [by apply Hout|by apply Hin].
    + intros j' hd body [Hne Hni']%not_elem_of_cons Hans'. apply Hout; [done|]. by apply answered_frame.
Qed.

(** C16. A page is computed once: when requests for the same URI arrive together at a
    [CachePageAtomic] handler that marks its page x-okay-to-cache, and the store does
    not have the page, then however they interleave, every request is answered, one
    of them by the handler (the whole body), and all the others, with the same status
    and headers, from the store (the last chunk the handler wrote). *)
Theorem page_atomic_single_flight w (w' : world (guarded (server S))) ps err v (w0 : world S) dl :
  reqs <> [] -> (forall i, (i < length reqs)%nat -> fresh_req w i) ->
  run clock (cs_Get t page_key (VPtr (VResponse zero_response)))
    (World (sv_store (w_state w)) (w_tick w) (w_log w)) = (Done (Some err, v), w0) -> pg_ok t (w_state w0) ->
  last (d :: ds) = Some dl ->
  rtc (lock_step clock) (relock false w, requests range_hdr t FOREVER (page_handler hs code (d :: ds)) reqs) (w', ps) ->
  Forall (fun r => over r = true) ps ->
  exists i, (i < length reqs)%nat /\ answered (unguarded w') i head (concat (d :: ds)) /\
    forall j, (j < length reqs)%nat -> ps !! j = Some (Ret tt) /\ (j <> i -> answered (unguarded w') j head dl).
Proof.
  intros Hne Hfresh Hmiss Hok Hlast Hr Hov. rewrite requests_atomically in Hr.
  destruct (lock_serializable clock _ w w' ps Hr Hov) as (order & Hp & Hw' & Hres).
  unfold page_bodies in Hp at 1. rewrite length_imap in Hp.
  rewrite serve_serve_pages in Hw', Hres by (intros j Hj; destruct (Hfresh j Hj); by eexists).
  assert (NoDup order) as Hnd by (rewrite Hp; apply NoDup_seq).
  assert (forall j, j ∈ order <-> (j < length reqs)%nat) as Hin by (intros j; rewrite Hp, elem_of_seq; lia).
  assert (Forall (fun j => is_Some (reqs !! j)) order) as Hv.
  { apply Forall_forall. intros j Hj%Hin. by apply lookup_lt_is_Some. }
  destruct order as [|i waiting].
  { destruct reqs; [done|]. by apply Permutation_nil in Hp. }
  pose proof Hv as [[req Hi] Hv']%Forall_cons. pose proof Hnd as [Hni Hnd']%NoDup_cons.
  destruct (serve_miss w i waiting req err v w0 (req_uri i req Hi)) as (w1 & dl' & Hrun & Hlast' & Hhot & Hans);
    [apply Hfresh, Hin; left|done| |done|done|].
  { apply Forall_forall. intros j Hj. apply Hfresh, Hin. by right. }
  assert (dl' = dl) as -> by congruence.
  destruct (serve_hits _ i dl waiting Hhot Hnd' Hv') as (Hos & Hhits & Hkeep).
  cbn [serve_pages] in Hw', Hres. rewrite Hi, Hrun in Hw', Hres.
  pose proof (serve_pages_fst range_hdr clock t FOREVER (page_handler hs code (d :: ds)) reqs waiting (update_world i w w1) Hv') as Hfst.
  destruct (serve_all waiting (update_world i w w1)) as [os w2]. cbn [fst snd] in *.
  assert (unguarded w' = w2) as -> by (subst w'; by destruct w2).
  exists i. split; [apply Hin; left|]. split; [by apply Hkeep|]. intros j Hj. apply Hin in Hj.
  split; [|intros Hji; apply Hhits; by apply elem_of_cons in Hj as [->|]].
  assert (exists o, (j, o) ∈ (i, Done tt) :: os) as [o Ho].
  { apply elem_of_cons in Hj as [->|Hj]; [exists (Done tt); left|]. rewrite <- Hfst in Hj.
    apply list_elem_of_fmap in Hj as ([j' o] & -> & Hj). exists o. by right. }
  rewrite Forall_forall in Hres. pose proof (Hres _ Ho) as Hps. cbn beta iota in Hps.
  enough (o = Done tt) as -> by done. apply elem_of_cons in Ho as [|Ho]; [by simplify_eq|].
  rewrite Forall_forall in Hos. apply (Hos _ Ho).
Qed.
End single_flight.

(** ** The [Cache] middleware *)
Section cache_middleware.
Context {E : Type -> Type} {T S : Type} `{Handler E S, CacheStore E T}.
Context (range_hdr : http_Header -> list (string * list string)) (clock : nat -> Z).
Implicit Types (w : world (hstate S)).

Definition with_key (k : string) (v : ctxval) w : world (hstate S) :=
  set_state w (put_keys (w_state w) (<[k := v]> (keys (w_state w)))).

(** Calls that leave the context key [k] alone. *)
Definition ignores (k : string) : contract (pageE E) (hstate S) := {|
  inv := fun s => True;
  pre := fun X e => match e with PCtxGet k' | PCtxSet k' _ => k' <> k | _ => True end;
  post := fun X e x => True |}.

Lemma handle_other_key k v {X} (e : pageE E X) (s : hstate S) : pre (ignores k) e ->
  handle e (put_keys s (<[k := v]> (keys s))) =
    let '(x, s') := handle e s in (x, put_keys s' (<[k := v]> (keys s'))).
Proof.
  intros Hpre. destruct e; unfold handle, pageE_handler; simpl in *; try done.
  - by destruct (handle e (hs_store s)).
  - unfold the_hdr. simpl. by destruct (rw_Write _ _ _).
  - by rewrite lookup_insert_ne.
  - by rewrite insert_insert_ne.
Qed.

Lemma run_other_key {A} k v (p : prog (pageE E) A) w : conforms (ignores k) (fun _ => True) p ->
  run clock p (with_key k v w) = let '(o, w1) := run clock p w in (o, with_key k v w1).
Proof.
  revert w. induction p as [a|msg|f IH|l p IH|X e f IH]; intros w Hp; cbn [run conforms] in *; try done.
  - apply (IH _ (tick w)), Hp.
  - apply (IH (add_log w l)), Hp.
  - destruct Hp as [Hpre Hf]. cbn [with_key w_state set_state]. rewrite handle_other_key by done.
    destruct (handle e (w_state w)) as [x s]. by apply (IH x (set_state w s)), Hf.
Qed.

Lemma conforms_defer {A} k (fin : prog (pageE E) unit) (p : prog (pageE E) A) :
  conforms (ignores k) (fun _ => True) fin -> conforms (ignores k) (fun _ => True) p ->
  conforms (ignores k) (fun _ => True) (defer fin p).
Proof.
  intros Hf. induction p as [a|msg|f IH|l p IH|X e f IH]; intros Hp; cbn [defer conforms] in *; auto.
  - apply (conforms_seq (ignores k) fin); [done|by intros []].
  - apply (conforms_seq (ignores k) fin); [done|by intros []].
  - destruct Hp as [Hpre Hk]. auto.
Qed.

Lemma CachePage_ignores k (t : T) expire handler req : k <> "tracing-context" ->
  conforms (ignores k) (fun _ => True) (CachePage range_hdr t expire handler req).
Proof.
  intros Hk. unfold CachePage. split; [by apply not_eq_sym|]. intros cspan _.
  apply conforms_seq; [by destruct cspan as [[]|]|]. intros span.
  apply conforms_defer; [done|]. split; [by apply not_eq_sym|]. intros [] _.
  apply conforms_cached_or_handle. by intros X [].
Qed.

(** The [Cache] middleware is transparent: a page decorated by [CachePage] ends
    the same way behind it, with the same store, heaps, response, spans, clock
    readings and log; only the context key gincontrib.cache differs, and holds the
    pointer the middleware was given. *)
Theorem cache_middleware_transparent p (t : T) expire handler req w :
  run clock (Cache p (CachePage range_hdr t expire handler req)) w =
    let '(o, w1) := run clock (CachePage range_hdr t expire handler req) w in
    (o, with_key CACHE_MIDDLEWARE_KEY (CtxStore p) w1).
Proof.
  unfold Cache.
  change (run clock (CachePage range_hdr t expire handler req) (with_key CACHE_MIDDLEWARE_KEY (CtxStore p) w) =
    let '(o, w1) := run clock (CachePage range_hdr t expire handler req) w in
    (o, with_key CACHE_MIDDLEWARE_KEY (CtxStore p) w1)).
  apply run_other_key. by apply CachePage_ignores.
Qed.
End cache_middleware.

(** ** Instances *)
Section witnesses.
(** Two requests for the same page, with header maps at 7 and 8. *)
Definition w_pair : world (server mem) :=
  World (mkServer (w_state w_empty) (<[7%nat := ∅]> {[8%nat := ∅]}) ∅ []
    (<[0%nat := (new_response 7 false, ∅)]> {[1%nat := (new_response 8 false, ∅)]})) 0 [].
Definition pair_handler : HandlerFunc := page_handler ok_headers 201 [[x61]; [x62]].

(** They take turns until both are answered. *)
Definition pair_end :=
  lock_sched clk (concat (replicate 100 [0%nat; 1%nat])) (relock false w_pair)
    (requests by_key c2 FOREVER pair_handler [req1; req1]).

Lemma pair_over : Forall (fun r => over r = true) pair_end.2.
Proof. apply all_over. vm_compute. reflexivity. Qed.

Lemma page_atomic_serializable_witness : exists order, order ≡ₚ seq 0 2 /\
  pair_end.1 = relock false (serve_pages by_key clk c2 FOREVER pair_handler [req1; req1] order w_pair).2.
Proof.
  destruct (page_atomic_serializable by_key clk c2 FOREVER pair_handler [req1; req1] w_pair pair_end.1 pair_end.2)
    as (order & Hp & Hw & _).
  - intros [|[|i]] Hi; [eexists; reflexivity|eexists; reflexivity|simpl in Hi; lia].
  - apply lock_sched_end.
  - exact pair_over.
  - exists order. split; [exact Hp|exact Hw].
Defined.

(** Request 0 is inside, request 1 waits. *)
Definition pair_mid :=
  lock_sched clk [0%nat; 0%nat; 1%nat; 0%nat] (relock false w_pair) (requests by_key c2 FOREVER pair_handler [req1; req1]).

Lemma page_atomic_deadlock_free_witness : locked (w_state pair_mid.1) = true /\ unblocked clk pair_mid.1 pair_mid.2.
Proof.
  split; [vm_compute; reflexivity|].
  apply (page_atomic_deadlock_free by_key clk c2 FOREVER pair_handler [req1; req1] w_pair). apply lock_sched_end.
Defined.

Lemma page_atomic_single_flight_witness : exists i,
  answered (unguarded pair_end.1) i (Some (201, headers_of ok_headers ∅)) [x61; x62] /\
  forall j, (j < 2)%nat -> j <> i -> answered (unguarded pair_end.1) j (Some (201, headers_of ok_headers ∅)) [x62].
Proof.
  destruct (page_atomic_single_flight by_key by_key_perm clk c2 ok_headers 201 [x61] [[x62]] "/p?x=1" [req1; req1]
    (fun i => (7 + i)%nat)) with (w := w_pair) (w' := pair_end.1) (ps := pair_end.2) (err := ErrCacheMiss)
    (v := VPtr (VResponse zero_response)) (dl := [x62])
    (w0 := (run clk (cs_Get c2 (urlEscape PageCachePrefix "/p?x=1") (VPtr (VResponse zero_response))) w_empty).2)
    as (i & _ & Hi & Hj).
  - by repeat constructor.
  - intros i j. lia.
  - discriminate.
  - discriminate.
  - intros [|[|i]] Hi; [by split|by split|simpl in Hi; lia].
  - vm_compute. reflexivity.
  - apply w_empty_miss.
  - reflexivity.
  - apply lock_sched_end.
  - exact pair_over.
  - exists i. split; [exact Hi|]. intros j Hlt Hne. exact (proj2 (Hj j Hlt) Hne).
Defined.

(** Without the mutex both may compute it. *)
Example page_computed_twice : exists w ps,
  reaches clk (w_pair, page_bodies by_key c2 FOREVER pair_handler [req1; req1]) (w, ps) /\
  answered w 0 (Some (201, headers_of ok_headers ∅)) [x61; x62] /\
  answered w 1 (Some (201, headers_of ok_headers ∅)) [x61; x62].
Proof.
  pose proof (sched_reaches clk (concat (replicate 100 [0%nat; 1%nat])) w_pair
    (page_bodies by_key c2 FOREVER pair_handler [req1; req1])) as Hr.
  rewrite (surjective_pairing (sched clk _ w_pair _)) in Hr. eexists _, _. split; [exact Hr|]. clear Hr.
  split; eexists _, _; (split; [vm_compute; reflexivity|]; split; vm_compute; reflexivity).
Qed.
End witnesses.
