(* ===== verification/GinRender.v ===== *)
(** * gin's [Context.String] behind the page cache

    [c.String(code, text)] sets the status through [Context.Status], which bypasses
    the [cachedWriter]; the text is written through [cachedWriter.WriteString]. *)

From stdpp Require Import gmap strings.
From Stdlib Require Import Strings.Byte.
From S2P Require Import Prelude LruInterface GoValues GoFmt Bytes.
From S2P Require Import InMemory InMemoryProps GenericProps GinCache GinProps.
Local Open Scope Z_scope.

(** gin: [bodyAllowedForStatus], [Context.Render] of a [render.String] without values. *)
Definition bodyAllowedForStatus (status : Z) : bool :=
  negb ((100 <=? status) && (status <=? 199) || (status =? 204) || (status =? 304)).

Definition plainContentType : string := "text/plain; charset=utf-8".

Definition ctx_String (code : Z) (text : string) : HandlerFunc :=
  _ ← call (WCtxStatus code);
  _ ← call (WHeaderDefault "Content-Type" plainContentType);
  if negb (bodyAllowedForStatus code) then call WWriteHeaderNow
  else
    r ← call (WWriteString text);
    match snd r with
    | Some err => Panic (Error err)
    | None => mret tt
    end.

Lemma header_ok_default h k v : CanonicalHeaderKey k = k -> header_ok h -> header_ok (hdr_Default h k v).
Proof.
  intros Hk Hh. unfold hdr_Default. assert (header_ok (<[k := [v]]> h)) as Hins.
  { intros k' vs. rewrite lookup_insert. case_decide; [subst; by intros [= <-]|apply Hh]. }
  by destruct (h !! k) as [[|v' vs]|].
Qed.

Lemma hdr_Get_default h k v k' : k <> CanonicalHeaderKey k' -> hdr_Get (hdr_Default h k v) k' = hdr_Get h k'.
Proof.
  intros Hk. unfold hdr_Get, hdr_Default. destruct (h !! k) as [[|v' vs]|]; [|done|]; by rewrite lookup_insert_ne.
Qed.

(** A page written by [c.String] through a [cachedWriter]: what is sent before the store
    is called, and that the store call is the last of it. *)
Section writing.
Context {E : Type -> Type} {T S : Type} `{StoreHandler E S, CacheStore E T} (clock : nat -> Z).
Implicit Types (w : world (hstate S)).

Lemma run_ctx_String_store (cw : cachedWriter (T := T)) code text l w :
  resp (w_state w) = new_response l false -> bodyAllowedForStatus code = true ->
  let h := hdr_Default (the_hdr (w_state w) l) "Content-Type" plainContentType in
  exists w4 lb, hs_store (w_state w4) = hs_store (w_state w) /\ w_tick w4 = w_tick w /\ w_log w4 = w_log w /\
    the_hdr (w_state w4) l = h /\ the_buf (w_state w4) lb = bytes_of_string text /\
    wire_head (resp (w_state w4)) = Some (status_of code, h) /\ wire_body (resp (w_state w4)) = bytes_of_string text /\
    forall w5, run clock (store_call (cs_Set (cw_store cw) (cw_key cw)
        (VResponse (mkResponse (cw_status cw) (Some l) (Some lb))) (cw_expire cw))) w4 = (Done None, w5) ->
      run clock (run_cached cw (ctx_String code text)) w = (Done tt, w5).
Proof.
  intros Hr Hbody h. unfold ctx_String. rewrite Hbody. cbn [negb].
  set (w1 := set_state w (put_resp (w_state w) (rw_WriteHeader (resp (w_state w)) code))).
  assert (resp (w_state w1) = mkResp l noWritten (status_of code) None [] false) as Hr1.
  { simpl. by rewrite Hr, WriteHeader_fresh. }
  set (w2 := set_state w1 (put_hdr (w_state w1) l h)).
  set (finish := fun r : Z * option error => match snd r with Some err => Panic (Error err) | None => mret tt end : HandlerFunc).
  set (b := bytes_of_string text). set (lb := fresh (dom (bufs (w_state w2)))).
  set (w3 := set_state w2 (put_resp (w_state w2) (after_write (w_state w2) b))).
  set (w4 := set_state w3 (put_buf (w_state w3) lb b)).
  assert (the_hdr (w_state w2) l = h) as Hh2 by (unfold the_hdr; simpl; by rewrite lookup_insert_eq).
  assert (after_write (w_state w2) b = mkResp l (Z.of_nat (length b)) (status_of code) (Some (status_of code, h)) b false) as Haw.
  { unfold after_write. change (resp (w_state w2)) with (resp (w_state w1)). rewrite Hr1. cbn [rw_header]. by rewrite Hh2. }
  assert (broken (resp (w_state w2)) = false) as Hb2 by (change (broken (resp (w_state w1)) = false); by rewrite Hr1).
  exists w4, lb. change (resp (w_state w4)) with (after_write (w_state w2) b). rewrite Haw.
  split; [done|]. split; [done|]. split; [done|]. split; [exact Hh2|].
  split; [unfold the_buf; simpl; by rewrite lookup_insert_eq|]. split; [done|]. split; [done|]. intros w5 Hset.
  transitivity (run clock (run_cached cw (_ ← call (WHeaderDefault "Content-Type" plainContentType);
    r ← call (WWriteString text); finish r)) w1); [done|].
  transitivity (run clock (x ← (r ← change_header (fun h => hdr_Default h "Content-Type" plainContentType); mret (r, cw));
    run_cached (snd x) (r ← call (WWriteString text); finish r)) w1); [done|].
  unfold change_header. rewrite run_bind, run_bind, run_PHeader, run_PHdr, Hr1. cbn [rw_header].
  change (the_hdr (w_state w1) l) with (the_hdr (w_state w) l). fold h.
  transitivity (run clock (x ← (r ← cw_WriteString cw text; mret (r, cw)); run_cached (snd x) (finish (fst x))) w2); [done|].
  unfold cw_WriteString. fold b. rewrite run_bind, run_bind, run_PWrite by exact Hb2. fold w3. cbn [snd].
  rewrite run_PHeader. change (resp (w_state w3)) with (after_write (w_state w2) b). rewrite Haw. cbn [rw_header].
  rewrite run_PNewBuf. change (bufs (w_state w3)) with (bufs (w_state w2)). fold lb. fold w4.
  by rewrite (run_bind_done _ _ _ _ _ _ Hset).
Qed.
End writing.

Section rendering.
Context {E : Type -> Type} {T S : Type} `{Handler E S, CacheStore E T, !PageStore E T S}.
Context (range_hdr : http_Header -> list (string * list string)) (clock : nat -> Z).
Context (range_perm : forall h, range_hdr h ≡ₚ map_to_list h).
Implicit Types (w : world (hstate S)) (t : T).

(** With a store that keeps pages. *)
Lemma run_ctx_String (cw : cachedWriter (T := T)) code text l w :
  resp (w_state w) = new_response l false -> pg_ok (cw_store cw) (hs_store (w_state w)) ->
  cw_expire cw = FOREVER -> bodyAllowedForStatus code = true ->
  let h := hdr_Default (the_hdr (w_state w) l) "Content-Type" plainContentType in
  exists w' lb, run clock (run_cached cw (ctx_String code text)) w = (Done tt, w') /\
    pg_has (cw_store cw) (cw_key cw) (mkResponse (cw_status cw) (Some l) (Some lb)) (hs_store (w_state w')) /\
    the_buf (w_state w') lb = bytes_of_string text /\ the_hdr (w_state w') l = h /\
    wire_head (resp (w_state w')) = Some (status_of code, h) /\
    wire_body (resp (w_state w')) = bytes_of_string text.
Proof.
  intros Hr Hok Hexp Hbody h. destruct (run_ctx_String_store clock cw code text l w Hr Hbody)
    as (w4 & lb & Hs & _ & _ & Hh & Hb & Hhead & Hwire & Hrun).
  change (hs_store (w_state w4)) with (w_state (inner w4)) in Hs. rewrite <- Hs in Hok.
  destruct (pg_set (cw_store cw) (cw_key cw) (mkResponse (cw_status cw) (Some l) (Some lb)) clock (inner w4) Hok) as (w5 & Hset & Hhas).
  exists (outer w4 w5), lb. split; [|done]. apply Hrun. by rewrite run_store_call, Hexp, Hset.
Qed.

(** The status of a rendered page is lost: a handler that sets headers (among
    them x-okay-to-cache) and calls [c.String(code, text)] answers the first request
    with [code], but the page is stored with status 0, so that the next request gets
    the same headers and text with status 200, whatever [code] was. *)
Theorem page_status_lost t handle2 req hs code text l l2 err v w (w0 : world S) :
  span_ctx (tracing (w_state w)) = true ->
  resp (w_state w) = new_response l false -> the_hdr (w_state w) l = ∅ -> l2 <> l ->
  run clock (cs_Get t (urlEscape PageCachePrefix (RequestURI req)) (VPtr (VResponse zero_response))) (inner w) =
    (Done (Some err, v), w0) -> pg_ok t (w_state w0) ->
  hdr_Get (headers_of hs ∅) "x-okay-to-cache" <> EmptyString ->
  bodyAllowedForStatus code = true ->
  let h := hdr_Default (headers_of hs ∅) "Content-Type" plainContentType in
  exists w1 w2, run clock (CachePage range_hdr t FOREVER (_ ← set_headers hs; ctx_String code text) req) w = (Done tt, w1) /\
    wire_head (resp (w_state w1)) = Some (status_of code, h) /\ wire_body (resp (w_state w1)) = bytes_of_string text /\
    run clock (CachePage range_hdr t FOREVER handle2 req) (set_state w1 (next_request (w_state w1) l2)) = (Done tt, w2) /\
    wire_head (resp (w_state w2)) = Some (200, h) /\ wire_body (resp (w_state w2)) = bytes_of_string text.
Proof.
  intros Htr Hr Hh Hne Hmiss Hok Hokay Hbody h.
  destruct (run_CachePage_miss range_hdr clock t (_ ← set_headers hs; ctx_String code text) req err v w w0 Htr Hmiss)
    as (wb & Hsb & Hdb & Hrb & Hpage).
  set (key := urlEscape PageCachePrefix (RequestURI req)) in *.
  destruct (run_set_headers clock (newCachedWriter t FOREVER key) hs (ctx_String code text) wb)
    as (wc & Hset & Hst & Hbf & Hresp & Hhdr & _).
  assert (the_hdr (w_state wb) l = ∅) as Hhb by (unfold the_hdr; by rewrite Hdb).
  rewrite Hrb, Hr in Hresp, Hhdr. cbn [rw_header new_response] in Hhdr. rewrite Hhb in Hhdr.
  destruct (run_ctx_String (newCachedWriter t FOREVER key) code text l wc)
    as (wd & lb & Hrun & Hhas & Hbuf & Hhd & Hhead & Hwire); [done|by rewrite Hst, Hsb|done|done|].
  rewrite Hhdr in Hhd, Hhead. fold h in Hhd, Hhead.
  destruct (Hpage wd) as (w1 & Hrun1 & Hs1 & Hd1 & Hb1 & Hr1); [by rewrite Hset, Hrun|].
  assert (the_hdr (w_state w1) l = h) as Hh1 by (unfold the_hdr; by rewrite Hd1).
  destruct (run_next_request range_hdr clock range_perm t handle2 req 0 l lb l2 w1) as (w2 & Hrun2 & Hhead2 & Hwire2).
  - rewrite Hs1. exact Hhas.
  - rewrite Hh1. unfold h. by rewrite hdr_Get_default.
  - rewrite Hh1. apply header_ok_default; [reflexivity|]. apply headers_of_ok. intros k vs. by rewrite lookup_empty.
  - done.
  - exists w1, w2. rewrite Hr1. split; [done|]. split; [done|]. split; [done|]. split; [exact Hrun2|].
    rewrite Hhead2, Hh1. split; [done|]. rewrite Hwire2. unfold the_buf. rewrite Hb1. exact Hbuf.
Qed.
End rendering.

Section witnesses.
(** A page that answers 404, then 200 from the cache. *)
Lemma page_status_lost_witness : exists w1 w2,
  run clk (CachePage by_key c2 FOREVER (_ ← set_headers [("x-okay-to-cache", "true")]; ctx_String 404 "no such page") req1) w_page = (Done tt, w1) /\
  fst <$> wire_head (resp (w_state w1)) = Some 404 /\
  run clk (CachePage by_key c2 FOREVER (Panic "not run") req1) (set_state w1 (next_request (w_state w1) 8)) = (Done tt, w2) /\
  fst <$> wire_head (resp (w_state w2)) = Some 200.
Proof.
  destruct (page_status_lost by_key clk by_key_perm c2 (Panic "not run") req1 [("x-okay-to-cache", "true")] 404 "no such page" 7 8
    ErrCacheMiss (VPtr (VResponse zero_response)) w_page
    (run clk (cs_Get c2 (urlEscape PageCachePrefix "/p?x=1") (VPtr (VResponse zero_response))) (inner w_page)).2)
    as (w1 & w2 & Hr1 & Hh1 & _ & Hr2 & Hh2 & _);
    [reflexivity|reflexivity|reflexivity|discriminate|vm_compute; reflexivity|apply w_empty_miss|discriminate|reflexivity|].
  exists w1, w2. split; [exact Hr1|]. split; [rewrite Hh1; reflexivity|]. split; [exact Hr2|rewrite Hh2; reflexivity].
Defined.
End witnesses.
