(* ===== verification/Example.v ===== *)
(** * example/example.go: the example server

    Three routes answer with an entry of a [GenericCache]: on a miss they make a new
    entry, answer with it and store it in a goroutine of their own; [XGo] leaves that
    goroutine in [jobs].  A fourth serves a page through [CachePage]. *)

From stdpp Require Import gmap strings.
From Stdlib Require Import Strings.Byte Strings.Ascii.
From S2P Require Import Prelude LruInterface GoValues GoFmt Bytes InMemory InMemoryProps Generic GenericProps.
From S2P Require Import MapStore GinCache GinProps GinRender.
Local Open Scope Z_scope.

(** The constants the modelled part uses. *)
Definition sharedSecret_ : string := "secret-must-be-min-16chars".
Definition defExpSeconds : Z := 30.
Definition maxEntries : Z := 1000.

(** [TestEntry] and [getNewEntry]. *)
Definition getNewEntry : goval := VOther "main.TestEntry" "{Hi Mom! true}".

(** A pending [cache.Set(key, entry, exp)]. *)
Record job := mkJob { j_key : string; j_entry : GenericCacheEntry; j_exp : Z }.

Inductive exE (E : Type -> Type) : Type -> Type :=
  | XStore X (e : E X) : exE E X
  | XGo (j : job) : exE E unit
  | XJSON (code : Z) (entry : GenericCacheEntry) : exE E unit.
Arguments XStore {E X} e.
Arguments XGo {E} j.
Arguments XJSON {E} code entry.

(** The store, the goroutines not yet run, the answers sent. *)
Record exstate (S : Type) := mkEx { ex_store : S; jobs : list job; sent : list (Z * GenericCacheEntry) }.
Arguments mkEx {S} _ _ _.
Arguments ex_store {S} _.
Arguments jobs {S} _.
Arguments sent {S} _.

Definition put_ex {S} (s : exstate S) (x : S) : exstate S := mkEx x (jobs s) (sent s).

#[global] Instance exE_handler {E S} `{Handler E S} : Handler (exE E) (exstate S) := fun X e s =>
  match e in exE _ X return X * exstate S with
  | XStore e => let '(x, t) := handle e (ex_store s) in (x, put_ex s t)
  | XGo j => (tt, mkEx (ex_store s) (jobs s ++ [j]) (sent s))
  | XJSON code entry => (tt, mkEx (ex_store s) (jobs s) (sent s ++ [(code, entry)]))
  end.

Section handlers.
Context {E : Type -> Type} {T R : Type} `{CacheStore E T, CacheStore E R, !RedisOps E R}.
Context (gob_encode : goval -> error + list byte) (gob_decode : list byte -> error + goval).
Implicit Types (cache : GenericCache T R).

Definition xstore {A} (p : prog E A) : prog (exE E) A := embed (fun X e => XStore e) p.

Definition logrus_Errorf {F} (msg : string) : prog F unit := log (LogLine (SinkLogger "logrus") LError msg).

(** The body the three entry routes share. *)
Definition serve_entry cache (name : string) : prog (exE E) unit :=
  let key := GetKey cache (bytes_of_string name) in
  r ← xstore (g_Get gob_decode cache key (VPtr (of_entry zero_entry)));
  got ← assert_some (as_ptr as_entry (snd r)) (not_a "*cache.GenericCacheEntry");
  entry ← match fst r with
    | Some err =>
        _ ← logrus_Errorf ("Error getting a value: " +:+ Error err);
        let exp := 3 * Minute in
        entry ← xstore (NewGenericCacheEntry cache getNewEntry exp);
        _ ← call (XGo (mkJob key entry exp));
        mret entry
    | None => mret got
    end;
  call (XJSON 200 entry).

Definition cached_encrypted_entry (genericRedisCache : GenericCache T R) : prog (exE E) unit :=
  serve_entry genericRedisCache "cached-encrypted-entry".
Definition cached_in_memory_entry (genericInMemoryCache : GenericCache T R) : prog (exE E) unit :=
  serve_entry genericInMemoryCache "cached-in-memory-not-encrypted-entry".
Definition cached_in_memory_lru (lruExpiryCache : GenericCache T R) : prog (exE E) unit :=
  serve_entry lruExpiryCache "cached-in-memory-lru-with-expiry".

(** The goroutine of a job. *)
Definition set_entry cache (j : job) : prog E unit :=
  err ← g_Set gob_encode cache (j_key j) (of_entry (j_entry j)) (j_exp j);
  match err with
  | Some err => logrus_Errorf ("Error setting a value: " +:+ Error err)
  | None => mret tt
  end.
End handlers.

(** The handler behind "/cached-page". *)
Definition newline : string := String "010" EmptyString.
Definition cached_page : HandlerFunc :=
  _ ← call (WHeaderSet "x-okay-to-cache" "true");
  ctx_String 200 ("Cached Hello world!" +:+ newline).

(** [init]: the LRU store with expiry and the cache in front of it. *)
Definition init_lruExpiryCache {R} : prog memE (GenericCache InMemoryStore R) :=
  r ← NewInMemoryStore maxEntries defExpSeconds (1 * Minute) true "exampe_inmemory_store";
  match r with
  | inl err => Panic "Unable to allocate LRU w/expiry store"
  | inr store =>
      mret (NewCacheWithPool (CStore store) Writable L1 sharedSecret_ defExpSeconds (Some (bytes_of_string "mem")) false)
  end.

Section props.
Context {E : Type -> Type} {T R S : Type} `{Handler E S, CacheStore E T, CacheStore E R, !RedisOps E R, !MapStore E T S}.
Context (gob_encode : goval -> error + list byte) (gob_decode : list byte -> error + goval).
Context (clock : nat -> Z) (Hclock : monotone clock) (Hrange : forall i, Second <= clock i < 2 ^ 62).
#[local] Instance ex_cs : CacheStore E (GenericCache T R) := GenericCache_CacheStore gob_encode gob_decode.
#[local] Instance ex_ms : MapStore E (GenericCache T R) S := facade_MapStore gob_encode gob_decode.
Implicit Types (g : GenericCache T R) (w : world (exstate S)).

Definition x_inner w : world S := World (ex_store (w_state w)) (w_tick w) (w_log w).
Definition x_outer w (w1 : world S) : world (exstate S) := World (put_ex (w_state w) (w_state w1)) (w_tick w1) (w_log w1).

Lemma run_xstore {A} (p : prog E A) w : run clock (xstore p) w = let '(o, w1) := run clock p (x_inner w) in (o, x_outer w w1).
Proof.
  unfold xstore, x_inner, x_outer. apply (run_embed clock (fun X e => XStore e) ex_store put_ex); try done.
  by destruct w as [[]].
Qed.

Lemma run_xstore_done {A B} (p : prog E A) (f : A -> prog (exE E) B) a w (w1 : world S) :
  run clock p (x_inner w) = (Done a, w1) -> run clock (xstore p ≫= f) w = run clock (f a) (x_outer w w1).
Proof. intros Hp. apply run_bind_done. by rewrite run_xstore, Hp. Qed.

(** A cache that does not encrypt, in front of a store that behaves as a map. *)
Definition usable g : Prop :=
  EncryptData g = false /\ gDefaultExp g <> FOREVER /\ forall o t, Generic.Cache g = CStore t -> ms_accepts t o.

Lemma usable_accepts g o : usable g -> plain_call g o -> ms_accepts g o.
Proof. intros (He & Hf & Hi) Ho. split; [done|]. split; [done|auto]. Qed.

(** A route on a key without live entry. *)
Lemma serve_miss_entry g name w e : usable g -> at_key g (x_inner w) (GetKey g (bytes_of_string name)) e ->
  (forall x, e = Some x -> live (clock (w_tick w)) x = false) ->
  exists w' x, run clock (serve_entry gob_decode g name) w = (Done tt, w') /\
    at_key g (x_inner w') (GetKey g (bytes_of_string name)) None /\ Data x = getNewEntry /\
    jobs (w_state w') = jobs (w_state w) ++ [mkJob (GetKey g (bytes_of_string name)) x (3 * Minute)] /\
    sent (w_state w') = sent (w_state w) ++ [(200, x)] /\ (w_tick w <= w_tick w')%nat.
Proof.
  intros Hg He Hdead. set (key := GetKey g (bytes_of_string name)) in *. unfold serve_entry. cbn zeta. fold key.
  destruct (key_Get_miss clock g key (VPtr (of_entry zero_entry)) (x_inner w) e) as (w1 & Hget & Hk1 & Ht1);
    [apply usable_accepts; [done|split; [done|apply Hg]]|done|done|].
  rewrite (run_xstore_done _ _ _ _ _ Hget).
  eexists _, (mkEntry getNewEntry (Unix (clock (w_tick w1))) (int64 (Unix (clock (w_tick w1)) + seconds (3 * Minute)))).
  split; [reflexivity|]. simpl in *. split; [exact Hk1|]. split; [done|]. split; [done|]. split; [done|lia].
Qed.

(** The goroutine of a job stores its entry. *)
Lemma run_set_entry g j (w : world S) e : usable g -> at_key g w (j_key j) e ->
  exists w' : world S, run clock (set_entry gob_encode g j) w = (Done tt, w') /\ (w_tick w <= w_tick w')%nat /\
    at_key g w' (j_key j) (Some (stamp (mkInMemoryStore 0 (ms_default g)) (of_entry (j_entry j)) (j_exp j) (clock (w_tick w)))).
Proof.
  intros Hg He. destruct (key_Set clock g (j_key j) (of_entry (j_entry j)) (j_exp j) w e) as (w1 & Hset & Hk1 & Ht1);
    [apply usable_accepts; [done|apply Hg]|done|done|].
  exists w1. unfold set_entry. change (g_Set gob_encode g) with (cs_Set (E := E) g).
  by rewrite (run_bind_done _ _ _ _ _ _ Hset).
Qed.

(** A route on a key with a live entry. *)
Lemma serve_hit_entry g name w x : usable g -> at_key g (x_inner w) (GetKey g (bytes_of_string name)) (Some x) ->
  live (clock (w_tick w)) x = true ->
  exists w', run clock (serve_entry gob_decode g name) w = (Done tt, w') /\
    jobs (w_state w') = jobs (w_state w) /\ sent (w_state w') = sent (w_state w) ++ [(200, x)].
Proof.
  intros Hg He Hlive. set (key := GetKey g (bytes_of_string name)) in *. unfold serve_entry. cbn zeta. fold key.
  destruct (key_Get_hit clock g key (VPtr (of_entry zero_entry)) (x_inner w) x (VPtr (of_entry x))) as (w1 & Hget & _);
    [apply usable_accepts; [done|split; [done|apply Hg]]|done|done|done|].
  rewrite (run_xstore_done _ _ _ _ _ Hget). eexists. split; [reflexivity|]. simpl. by destruct x.
Qed.

(** The example's entry routes cache what they answer: the first request makes a
    new entry and answers with it at once; when its goroutine has run, a request
    within three minutes (less two seconds of rounding) is answered with an entry of
    the same data, and starts no goroutine. *)
Theorem example_entry_cached g name w : usable g -> at_key g (x_inner w) (GetKey g (bytes_of_string name)) None ->
  exists w1 x, run clock (serve_entry gob_decode g name) w = (Done tt, w1) /\ Data x = getNewEntry /\
    sent (w_state w1) = sent (w_state w) ++ [(200, x)] /\
    exists j w2, jobs (w_state w1) = jobs (w_state w) ++ [j] /\
      run clock (xstore (set_entry gob_encode g j)) w1 = (Done tt, w2) /\
      (clock (w_tick w2) + 2 * Second <= clock (w_tick w1) + 3 * Minute ->
       exists w3 y, run clock (serve_entry gob_decode g name) w2 = (Done tt, w3) /\ Data y = getNewEntry /\
         sent (w_state w3) = sent (w_state w2) ++ [(200, y)] /\ jobs (w_state w3) = jobs (w_state w2)).
Proof.
  intros Hg He. destruct (serve_miss_entry g name w None Hg He) as (w1 & x & Hr1 & Hk1 & Hx & Hj1 & Hs1 & Ht1); [done|].
  exists w1, x. split; [done|]. split; [done|]. split; [done|].
  set (j := mkJob (GetKey g (bytes_of_string name)) x (3 * Minute)) in *.
  destruct (run_set_entry g j (x_inner w1) None Hg Hk1) as (wb & Hset & Ht2 & Hk2).
  exists j, (x_outer w1 wb). split; [done|]. split; [by rewrite run_xstore, Hset|]. intros Htime.
  destruct (serve_hit_entry g name (x_outer w1 wb) _ Hg Hk2) as (w3 & Hr3 & Hj3 & Hs3).
  { apply stamp_live; [simpl; unfold Minute, Second; lia|apply Hrange|exact Htime]. }
  eexists w3, _. split; [done|]. split; [|done]. exact Hx.
Qed.
End props.

(** What [init] leaves: the LRU store's own default is 30 nanoseconds (the
    constant 30, meant as seconds, is passed as a [time.Duration]), and the cache in
    front of it, whose default is 30 seconds, never uses it: every entry set with the
    default duration gets 30 seconds. *)
Theorem example_init_lru {R} clock (w : world mem) :
  exists (g : GenericCache InMemoryStore R) c w', run clock init_lruExpiryCache w = (Done g, w') /\
    Generic.Cache g = CStore c /\ represents (w_state w') (lru c) ∅ /\ capacity (w_state w') (lru c) = 1000 /\
    DefaultExp c = 30 /\ gDefaultExp g = 30 * Second /\ EncryptData g = false /\
    janitors (w_state w') = janitors (w_state w) ++ [(lru c, 60 * Second)].
Proof.
  unfold init_lruExpiryCache.
  destruct (run_NewInMemoryStore clock maxEntries defExpSeconds (1 * Minute) true "exampe_inmemory_store" w)
    as (c & w' & Hr & _ & Hd & Hm & Hc & _ & Hj & _); [done|].
  eexists _, c, w'. rewrite (run_bind_done _ _ _ _ _ _ Hr). split; [reflexivity|].
  split; [reflexivity|]. split; [exact Hm|]. split; [exact Hc|]. split; [exact Hd|]. split; [reflexivity|].
  split; [reflexivity|exact Hj].
Qed.

(** ** Instances *)
Section witnesses.
Definition ex_clock (i : nat) : Z := (1700000000 + Z.of_nat (Nat.min i 1000)) * Second.
Definition ex_cache : GenericCache InMemoryStore Empty_set :=
  NewCacheWithPool (CStore c2) Writable L1 sharedSecret_ 30 (Some (bytes_of_string "mem")) false.
Definition w_ex : world (exstate mem) := World (mkEx (w_state w_empty) [] []) 0 [].

Lemma example_entry_cached_witness :
  exists w1 x, run ex_clock (serve_entry dec1 ex_cache "n") w_ex = (Done tt, w1) /\ Data x = getNewEntry /\
    exists j w2, jobs (w_state w1) = [j] /\ run ex_clock (xstore (set_entry enc1 ex_cache j)) w1 = (Done tt, w2).
Proof.
  assert (forall i, Second <= ex_clock i < 2 ^ 62) as Hrange by (intros i; unfold ex_clock, Second; lia).
  assert (usable ex_cache) as Hu by (split; [reflexivity|]; split; [discriminate|]; intros o t _; exact I).
  assert (forall k, at_key (MS := facade_MapStore enc1 dec1) ex_cache (x_inner w_ex) k None) as Hk.
  { intros k. exists ∅. split; [exists c2; split; [reflexivity|apply w_empty_holds]|apply lookup_empty]. }
  pose proof (example_entry_cached enc1 dec1 ex_clock Hrange ex_cache "n" w_ex Hu (Hk _)) as Hcached.
  destruct Hcached as (w1 & x & Hr1 & Hx & _ & j & w2 & Hj & Hr2 & _).
  exists w1, x. split; [exact Hr1|]. split; [exact Hx|]. exists j, w2. split; [exact Hj|exact Hr2].
Defined.
End witnesses.
