(* ===== verification/ExampleMemory.v ===== *)
(** * example/example.go: the routes over persistence.InMemoryStore, and "/hello"

    [init] puts a [GenericCache] that does not encrypt in front of a
    persistence.InMemoryStore; one entry route reads it. *)

From stdpp Require Import gmap strings.
From Stdlib Require Import Strings.Byte Strings.Ascii.
From S2P Require Import Prelude Interleave Mutex LruInterface GoValues GoFmt Bytes InMemory InMemoryProps Generic GenericProps.
From S2P Require Import MapStore RobfigCache RobfigProps RobfigUse GinCache GinProps GinRender Example.
Local Open Scope Z_scope.

(** The store at a location of the heap. *)
Definition store_at (h : gcheap) (s : nat) : option MemoryStore :=
  match objs h !! s with
  | Some (OStore l) => match objs h !! l with Some (OCacheStruct c _) => Some (mkMemoryStore c) | _ => None end
  | _ => None
  end.

(** [init]: the store and the cache in front of it. *)
Definition init_genericInMemoryCache {R} (h : gcheap) : option (GenericCache MemoryStore R) * gcheap :=
  let '(s, h) := pm_NewInMemoryStore defExpSeconds h in
  ((fun inMemoryStore => NewCacheWithPool (CStore inMemoryStore) Writable L1 sharedSecret_ defExpSeconds
      (Some (bytes_of_string "mem")) false) <$> store_at h s, h).

(** The handler behind "/hello". *)
Definition hello : HandlerFunc := ctx_String 200 ("Hello world!" +:+ newline).

Section routes.
Context {R : Type} `{CacheStore (lockE itemE) R, !RedisOps (lockE itemE) R}.
Context (gob_encode : goval -> error + list byte) (gob_decode : list byte -> error + goval).
Context (clock : nat -> Z) (Hclock : monotone clock).
Implicit Types (g : GenericCache MemoryStore R) (c : MemoryStore) (w : world (exstate (guarded (gmap string item)))).
#[local] Instance routes_cs : CacheStore (lockE itemE) (GenericCache MemoryStore R) := GenericCache_CacheStore gob_encode gob_decode.

Lemma unwrap {A} (p : prog (lockE itemE) A) (f : A -> answer) W a W' : Inj (=) (=) f ->
  run clock (r ← p; mret (f r)) W = (Done (f a), W') -> run clock p W = (Done a, W').
Proof.
  intros Hf Hr. destruct (run_wrap clock p f W _ _ Hr) as [(r & Hp & Hfr)|(msg & _ & Hm)]; [|done].
  injection Hfr as Hfr. apply Hf in Hfr. by subst.
Qed.

(** A read of an entry through the cache. *)
Lemma get_entry g c k W m : Generic.Cache g = CStore c -> EncryptData g = false -> stored clock W m ->
  forall r, match visible (clock (w_tick W)) m !! k with
    | None => r = (Some ErrCacheMiss, VPtr (of_entry zero_entry))
    | Some i => exists e, Object i = of_entry e /\ r = (None, VPtr (of_entry e)) end ->
  exists W', run clock (g_Get gob_decode g k (VPtr (of_entry zero_entry))) W = (Done r, W') /\ stored clock W' m /\
    (w_tick W <= w_tick W')%nat.
Proof.
  intros Hc He Hw r Hr. destruct (facade_memory gob_encode gob_decode clock Hclock g c (MGet k (VPtr (of_entry zero_entry))) W m Hc (conj eq_refl He) Hw)
    as (j & W' & Hj & Hrun). cbn [passed spec_pop] in Hrun. destruct Hrun as (Hrun & Hw' & Ht). exists W'.
  split; [|split; [done|lia]]. apply (unwrap (g_Get gob_decode g k (VPtr (of_entry zero_entry))) (fun r => AVal (fst r) (snd r)));
    [by intros [] [] [= -> ->]|].
  destruct (visible (clock (w_tick W)) m !! k) as [i|]; [|by subst r].
  destruct Hr as (e & Hi & ->). rewrite Hi in Hrun. exact Hrun.
Qed.

(** A request that finds nothing. *)
Lemma serve_memory_miss g c name w m : Generic.Cache g = CStore c -> EncryptData g = false -> stored clock (x_inner w) m ->
  let key := GetKey g (bytes_of_string name) in visible (clock (w_tick w)) m !! key = None ->
  exists w' x, run clock (serve_entry gob_decode g name) w = (Done tt, w') /\ stored clock (x_inner w') m /\
    Data x = getNewEntry /\ jobs (w_state w') = jobs (w_state w) ++ [mkJob key x (3 * Minute)] /\
    sent (w_state w') = sent (w_state w) ++ [(200, x)].
Proof.
  intros Hc He Hw key Hk. unfold serve_entry. cbn zeta. fold key.
  destruct (get_entry g c key (x_inner w) m Hc He Hw (Some ErrCacheMiss, VPtr (of_entry zero_entry))) as (W1 & Hget & Hw1 & Ht1).
  { change (w_tick (x_inner w)) with (w_tick w). by rewrite Hk. }
  rewrite (run_xstore_done _ _ _ _ _ _ Hget).
  eexists _, (mkEntry getNewEntry (Unix (clock (w_tick W1))) (int64 (Unix (clock (w_tick W1)) + seconds (3 * Minute)))).
  split; [reflexivity|]. split; [|by repeat split].
  eapply (stored_same clock W1); [done|simpl; lia|done].
Qed.

(** A request that finds an entry. *)
Lemma serve_memory_hit g c name w m i e : Generic.Cache g = CStore c -> EncryptData g = false -> stored clock (x_inner w) m ->
  visible (clock (w_tick w)) m !! GetKey g (bytes_of_string name) = Some i -> Object i = of_entry e ->
  exists w', run clock (serve_entry gob_decode g name) w = (Done tt, w') /\ stored clock (x_inner w') m /\
    jobs (w_state w') = jobs (w_state w) /\ sent (w_state w') = sent (w_state w) ++ [(200, e)].
Proof.
  intros Hc He Hw Hk Hi. unfold serve_entry. cbn zeta.
  destruct (get_entry g c (GetKey g (bytes_of_string name)) (x_inner w) m Hc He Hw (None, VPtr (of_entry e))) as (W1 & Hget & Hw1 & Ht1).
  { change (w_tick (x_inner w)) with (w_tick w). rewrite Hk. by exists e. }
  rewrite (run_xstore_done _ _ _ _ _ _ Hget). eexists. split; [reflexivity|]. simpl.
  split; [eapply (stored_same clock W1); [done|simpl; lia|done]|]. split; [done|]. by destruct e.
Qed.

(** The goroutine of a job. *)
Lemma set_memory g c j W m : Generic.Cache g = CStore c -> EncryptData g = false -> stored clock W m -> 0 < j_exp j ->
  exists W' t1, run clock (set_entry gob_encode g j) W = (Done tt, W') /\ clock (w_tick W) <= t1 /\
    stored clock W' (<[j_key j := mkItem (of_entry (j_entry j)) (Some (t1 + j_exp j))]> m).
Proof.
  intros Hc He Hw Hexp.
  destruct (facade_memory gob_encode gob_decode clock Hclock g c (MSet (j_key j) (of_entry (j_entry j)) (j_exp j)) W m Hc He Hw)
    as (n & W' & Hn & Hrun). cbn [passed spec_pop] in Hrun. destruct Hrun as (Hrun & Hw' & Ht).
  exists W', (clock (w_tick W + n)). split; [|split; [apply Hclock; lia|]].
  - apply (unwrap (g_Set gob_encode g (j_key j) (of_entry (j_entry j)) (j_exp j)) AErr) in Hrun; [|apply _].
    unfold set_entry. by rewrite (run_bind_done _ _ _ _ _ _ Hrun).
  - unfold fresh_item, g_resolve in Hw'. assert ((j_exp j =? 0) = false) as Hz by (apply Z.eqb_neq; lia).
    rewrite Hz in Hw'. cbn [negb] in Hw'. rewrite Hz in Hw'. cbn zeta in Hw'.
    assert ((0 <? j_exp j) = true) as Hpos by (apply Z.ltb_lt; lia). by rewrite Hpos in Hw'.
Qed.

(** C39. The example's route over persistence.InMemoryStore, with the cache its
    [init] makes: a first request, on an empty store, answers with a new entry; once
    its goroutine has run, a request within three minutes is answered with that very
    entry (no rounding), and starts no goroutine. *)
Theorem example_memory_cached h w : stored clock (x_inner w) ∅ ->
  exists g c, (init_genericInMemoryCache h).1 = Some g /\ Generic.Cache g = CStore c /\
    exists w1 x, run clock (cached_in_memory_entry gob_decode g) w = (Done tt, w1) /\ Data x = getNewEntry /\
      sent (w_state w1) = sent (w_state w) ++ [(200, x)] /\
      exists j w2, jobs (w_state w1) = jobs (w_state w) ++ [j] /\
        run clock (xstore (set_entry gob_encode g j)) w1 = (Done tt, w2) /\
        (clock (w_tick w2) <= clock (w_tick w1) + 3 * Minute ->
         exists w3, run clock (cached_in_memory_entry gob_decode g) w2 = (Done tt, w3) /\
           sent (w_state w3) = sent (w_state w2) ++ [(200, x)] /\ jobs (w_state w3) = jobs (w_state w2)).
Proof.
  intros Hw. set (c := mkMemoryStore (newCache defExpSeconds)).
  set (g := NewCacheWithPool (R := R) (CStore c) Writable L1 sharedSecret_ defExpSeconds (Some (bytes_of_string "mem")) false).
  assert ((init_genericInMemoryCache h).1 = Some g) as Hinit.
  { unfold init_genericInMemoryCache. rewrite constructed. cbn [fst]. unfold store_at. cbn [objs].
    rewrite lookup_app_r by lia. replace (2 + length (objs h) - length (objs h))%nat with 2%nat by lia. cbn [lookup list_lookup].
    rewrite lookup_app_r by lia. by rewrite Nat.sub_diag. }
  exists g, c. split; [done|]. split; [done|]. unfold cached_in_memory_entry.
  destruct (serve_memory_miss g c "cached-in-memory-not-encrypted-entry" w ∅) as (w1 & x & Hr1 & Hw1 & Hx & Hj1 & Hs1);
    [done|done|done|by rewrite lookup_visible, lookup_empty|].
  exists w1, x. split; [exact Hr1|]. split; [done|]. split; [done|].
  set (j := mkJob _ x (3 * Minute)) in *.
  destruct (set_memory g c j (x_inner w1) ∅) as (W2 & t1 & Hset & Ht1 & Hw2); [done|done|done|done|].
  exists j, (x_outer w1 W2). split; [done|]. split; [by rewrite run_xstore, Hset|]. intros Htime.
  destruct (serve_memory_hit g c "cached-in-memory-not-encrypted-entry" (x_outer w1 W2)
    (<[j_key j := mkItem (of_entry (j_entry j)) (Some (t1 + j_exp j))]> ∅) (mkItem (of_entry x) (Some (t1 + 3 * Minute))) x)
    as (w3 & Hr3 & _ & Hj3 & Hs3); [done|done| | |done|].
  - by apply (stored_same clock W2).
  - rewrite lookup_visible, lookup_insert_eq. rewrite decide_True; [done|]. unfold unexpired. simpl in *. lia.
  - by exists w3.
Qed.
End routes.

Section witnesses.
Definition w_ex_memory : world (exstate (guarded (gmap string item))) := World (mkEx (mkGuarded false ∅) [] []) 0 [].

Lemma example_memory_cached_witness : exists g : GenericCache MemoryStore Empty_set,
  (init_genericInMemoryCache (mkGc [] [])).1 = Some g /\
  exists w1 x, run clk (cached_in_memory_entry dec1 g) w_ex_memory = (Done tt, w1) /\ sent (w_state w1) = [(200, x)].
Proof.
  pose proof (example_memory_cached enc1 dec1 clk clk_monotone (R := Empty_set) (mkGc [] []) w_ex_memory) as Hcached.
  destruct Hcached as (g & c & Hg & _ & w1 & x & Hr & _ & Hs & _); [by split|].
  exists g. split; [exact Hg|]. exists w1, x. split; [exact Hr|exact Hs].
Defined.
End witnesses.
