(* ===== verification/GobRegistry.v ===== *)
(** * The registrations with encoding/gob

    gob sends the concrete type of an interface value by its registered name.  The
    registry is two tables; [Register] panics when a name or a type is taken by
    another.  generic.go's [init], [RegisterResponseCacheGob] and the example's [init]
    register the three types of this program. *)

From stdpp Require Import gmap strings.
From S2P Require Import Prelude GoValues InMemory Generic GinCache Example.
Local Open Scope Z_scope.

Record registry := mkRegistry {
  nameToConcreteType : gmap string string;
  concreteTypeToName : gmap string string }.

(** The name of a type: its import path and its name.  (A type of package main is
    printed as it is named.) *)
Definition gob_name (v : goval) : string :=
  match v with
  | VEntry _ _ _ => "github.com/Bose/go-cache.GenericCacheEntry"
  | VResponse _ => "github.com/Bose/go-cache/galapagos_gin/cache.ResponseCache"
  | _ => typeof v
  end.

(** [LoadOrStore] of a table: is there another value already? *)
Definition taken (m : gmap string string) (k v : string) : bool :=
  match m !! k with Some v' => negb (String.eqb v' v) | None => false end.

Definition gob_Register (value : goval) (r : registry) : string + registry :=
  let name := gob_name value in
  if taken (nameToConcreteType r) name (typeof value) then inl ("gob: registering duplicate types for " +:+ name)
  else if taken (concreteTypeToName r) (typeof value) name then inl ("gob: registering duplicate names for " +:+ typeof value)
  else inr (mkRegistry (<[name := typeof value]> (nameToConcreteType r)) (<[typeof value := name]> (concreteTypeToName r))).

(** generic.go, [init]. *)
Definition generic_init : registry -> string + registry := gob_Register (of_entry zero_entry).
(** galapagos_gin/cache. *)
Definition RegisterResponseCacheGob : registry -> string + registry := gob_Register (VResponse zero_response).
(** example.go. *)
Definition example_Register : registry -> string + registry := gob_Register getNewEntry.

(** gob's own registrations. *)
Definition basics : list string :=
  ["int"; "int8"; "int16"; "int32"; "int64"; "uint"; "uint8"; "uint16"; "uint32"; "uint64"; "uintptr";
   "float32"; "float64"; "complex64"; "complex128"; "bool"; "string"; "[]uint8"].
Definition registerBasics : registry :=
  let m := list_to_map ((fun t => (t, t)) <$> basics) in mkRegistry m m.

(** Can [Encode] send a value?  What an interface holds must be registered. *)
Definition registered (r : registry) (v : goval) : bool := bool_decide (is_Some (concreteTypeToName r !! typeof v)).
Fixpoint sendable (r : registry) (v : goval) : bool :=
  match v with
  | VNil => true
  | VEntry d _ _ => registered r v && sendable r d
  | VPtr v => sendable r v
  | _ => registered r v
  end.
Definition Encode_accepts (r : registry) (v : goval) : bool :=
  match v with VEntry d _ _ => sendable r d | _ => true end.

(** The program's registrations. *)
Definition own_types : list goval := [of_entry zero_entry; VResponse zero_response; getNewEntry].
Fixpoint register_all (vs : list goval) (r : registry) : string + registry :=
  match vs with
  | [] => inr r
  | v :: vs => match gob_Register v r with inl msg => inl msg | inr r => register_all vs r end
  end.

(** The names of the program's types are theirs or free. *)
Definition consistent (r : registry) : Prop :=
  forall v, v ∈ own_types -> taken (nameToConcreteType r) (gob_name v) (typeof v) = false /\
    taken (concreteTypeToName r) (typeof v) (gob_name v) = false.

Lemma consistent_basics : consistent registerBasics.
Proof. intros v Hv. repeat (apply elem_of_cons in Hv as [->|Hv]; [by vm_compute|]). by apply not_elem_of_nil in Hv. Qed.

Lemma taken_insert m k v k' v' : (k = k' -> v = v') -> taken m k' v' = false -> taken (<[k := v]> m) k' v' = false.
Proof.
  intros Hkv Hm. unfold taken. rewrite lookup_insert. case_decide as Hk; [|done]. rewrite (Hkv Hk). by rewrite String.eqb_refl.
Qed.

(** Among the program's types, the name determines the type and conversely. *)
Lemma own_names v v' : v ∈ own_types -> v' ∈ own_types -> gob_name v = gob_name v' <-> typeof v = typeof v'.
Proof.
  intros Hv Hv'. repeat (apply elem_of_cons in Hv as [->|Hv]); try by apply not_elem_of_nil in Hv.
  all: repeat (apply elem_of_cons in Hv' as [->|Hv']); try by apply not_elem_of_nil in Hv'.
  all: split; intros Heq; try reflexivity; exfalso; revert Heq; vm_compute; discriminate.
Qed.

Lemma register_own r v : consistent r -> v ∈ own_types ->
  exists r', gob_Register v r = inr r' /\ consistent r' /\ registered r' v = true /\
    forall v', registered r v' = true -> registered r' v' = true.
Proof.
  intros Hr Hv. destruct (Hr v Hv) as [Hn Ht]. unfold gob_Register. cbn zeta. rewrite Hn, Ht. eexists. split; [done|].
  assert (forall v', registered (mkRegistry (<[gob_name v := typeof v]> (nameToConcreteType r))
    (<[typeof v := gob_name v]> (concreteTypeToName r))) v' = true <-> typeof v = typeof v' \/ registered r v' = true) as Hreg.
  { intros v'. unfold registered. cbn [concreteTypeToName]. rewrite !bool_decide_eq_true, lookup_insert_is_Some'. done. }
  split; [|split; [apply Hreg; by left|intros v' Hv'; apply Hreg; by right]].
  intros v' Hv'. destruct (Hr v' Hv') as [Hn' Ht']. split; apply taken_insert; try done; by apply own_names.
Qed.

Lemma register_all_own r vs : consistent r -> Forall (fun v => v ∈ own_types) vs ->
  exists r', register_all vs r = inr r' /\ (forall v, v ∈ vs -> registered r' v = true) /\
    forall v, registered r v = true -> registered r' v = true.
Proof.
  intros Hr Hvs. revert r Hr. induction Hvs as [|v vs Hv _ IH]; intros r Hr.
  - exists r. split; [done|]. split; [|done]. intros v Hv. by apply not_elem_of_nil in Hv.
  - destruct (register_own r v Hr Hv) as (r1 & Hr1 & Hc1 & Hv1 & Hk1). cbn [register_all]. rewrite Hr1.
    destruct (IH r1 Hc1) as (r2 & Hr2 & Hin & Hk2). exists r2. split; [done|]. split; [|auto].
    intros v' [->|Hv']%elem_of_cons; auto.
Qed.

(** The registrations never panic, in whatever order packages are initialised
    and however often they are repeated (a caller may call RegisterResponseCacheGob
    again), and afterwards gob sends an entry that holds any of the registered types,
    or a string or a number. *)
Theorem registrations_safe vs : Forall (fun v => v ∈ own_types) vs ->
  exists r, register_all vs registerBasics = inr r /\
    (forall v a x, v ∈ vs -> (forall d b y, v <> VEntry d b y) -> Encode_accepts r (VEntry v a x) = true) /\
    (forall s a x, Encode_accepts r (VEntry (VString s) a x) = true) /\
    (forall t n a x, Encode_accepts r (VEntry (VInt t n) a x) = true).
Proof.
  intros Hvs. destruct (register_all_own registerBasics vs consistent_basics Hvs) as (r & Hr & Hin & Hkeep).
  exists r. split; [done|]. split; [|split; [intros s a x; by apply (Hkeep (VString s))|intros t n a x; apply (Hkeep (VInt t n)); by destruct t]].
  intros v a x Hv Hne. specialize (Hin v Hv). cbn [Encode_accepts].
  rewrite Forall_forall in Hvs. specialize (Hvs v Hv).
  repeat (apply elem_of_cons in Hvs as [->|Hvs]); [by destruct (Hne VNil 0 0)|exact Hin|exact Hin|by apply not_elem_of_nil in Hvs].
Qed.

(** Without its own registration the example could not store its entry encrypted. *)
Example example_needs_Register : exists r, register_all [of_entry zero_entry; VResponse zero_response] registerBasics = inr r /\
  Encode_accepts r (VEntry getNewEntry 0 0) = false /\
  exists r', example_Register r = inr r' /\ Encode_accepts r' (VEntry getNewEntry 0 0) = true.
Proof. eexists. split; [reflexivity|]. split; [by vm_compute|]. eexists. split; [reflexivity|]. by vm_compute. Qed.

Lemma registrations_safe_witness : exists r,
  register_all [getNewEntry; of_entry zero_entry; getNewEntry] registerBasics = inr r /\ Encode_accepts r (VEntry getNewEntry 0 0) = true.
Proof.
  destruct (registrations_safe [getNewEntry; of_entry zero_entry; getNewEntry]) as (r & Hr & Hsend & _).
  { repeat constructor. }
  exists r. split; [exact Hr|]. apply Hsend; [left|discriminate].
Defined.
