(* ===== verification/RedisPool.v ===== *)
(** * redispool.go: connection pools and initialisation

    The pools are records whose [Dial] and [TestOnBorrow] are programs over the
    network and environment calls [netE].  The methods of [persistence.RedisStore]
    are used through [CacheStore]; [url.Parse] is the parameter [url_parse], of
    which the code uses the host. *)

From stdpp Require Import gmap strings.
From S2P Require Import Prelude LruInterface GoValues GoFmt Bytes.
From S2P Require Import InMemory.
Local Open Scope Z_scope.

(** The calls: [MasterAddr] asks the sentinels at [addrs], dialled with the given
    timeouts, for the master; a timeout of 0 is none, so [redis.Dial] is
    [DialTimeout] with zeros. *)
Inductive netE : Type -> Type :=
  | MasterAddr (addrs : list string) (master : string) (connect readwrite : Z) : netE (error + string)
  | DialTimeout (addr : string) (connect read write : Z) : netE (error + nat)
  | Do (c : nat) (cmd : string) (args : list goval) : netE (option error)
  | Close (c : nat) : netE unit
  | TestRole (c : nat) (role : string) : netE bool
  | Getenv (k : string) : netE string
  | LookupEnv (k : string) : netE (option string)
  | Setenv (k v : string) : netE unit
  | NewInClusterClient : netE (option error).

Record Pool := mkPool {
  MaxIdle : Z; MaxActive : Z; Wait : bool; IdleTimeout : Z;
  Dial : prog netE (error + nat);
  TestOnBorrow : nat -> Z -> prog netE (option error) }.

(** persistence: [RedisStore] and its two constructors. *)
Record RedisStore := mkRedisStore { rpool : Pool; defaultExpiration : Z }.

(** Send a command; close the connection when it fails. *)
Definition do_or_close (c : nat) (cmd : string) (args : list goval) (next : prog netE (error + nat))
    : prog netE (error + nat) :=
  err ← call (Do c cmd args);
  match err with
  | Some err => _ ← call (Close c); mret (inl err)
  | None => next
  end.

Definition select_db (c : nat) (db : Z) : prog netE (error + nat) :=
  if negb (db =? 0) then do_or_close c "SELECT" [VInt Int db] (mret (inr c)) else mret (inr c).

Definition NewRedisCache (host password : string) (exp db : Z) : RedisStore :=
  mkRedisStore
    (mkPool 5 0 false (240 * Second)
      (r ← call (DialTimeout host 0 0 0);
       match r with
       | inl err => mret (inl err)
       | inr c =>
           if Nat.ltb 0 (String.length password) then do_or_close c "AUTH" [VString password] (select_db c db)
           else do_or_close c "PING" [] (select_db c db)
       end)
      (fun c t => call (Do c "PING" [])))
    exp.

Definition NewRedisCacheWithPool (pool : Pool) (exp : Z) : RedisStore := mkRedisStore pool exp.

(** ** [NewSentinelPool] *)
Definition millis (n : Z) : Z := int64 (n * Millisecond).

Definition sentinel_dial (addrs : list string) (master : string) (password : option string)
    (connTimeout rwTimeout db : Z) : prog netE (error + nat) :=
  addr ← call (MasterAddr addrs master connTimeout rwTimeout);
  match addr with
  | inl err => mret (inl err)
  | inr addr =>
      r ← call (DialTimeout addr connTimeout rwTimeout rwTimeout);
      match r with
      | inl err => mret (inl err)
      | inr c =>
          match password with
          | Some pw => do_or_close c "AUTH" [VString pw] (select_db c db)
          | None => select_db c db
          end
      end
  end.

(** The idle test of both pools: nothing within a minute of the last use. *)
Definition idle_test (check : nat -> prog netE (option error)) (c : nat) (t : Z) : prog netE (option error) :=
  now ← time_Now;
  if now - t <? Minute then mret None else check c.

Definition NewSentinelPool (sentinelAddrs : list string) (masterIdentifier : option string)
    (redisPassword : option string) (connectionTimeoutMilliseconds readWriteTimeoutMilliseconds selectDatabase : Z)
    : Pool :=
  let master := default "mymaster" masterIdentifier in
  let connTimeout := millis connectionTimeoutMilliseconds in
  let readWriteTimeout := millis readWriteTimeoutMilliseconds in
  mkPool 3 64 true (240 * Second)
    (sentinel_dial sentinelAddrs master redisPassword connTimeout readWriteTimeout selectDatabase)
    (idle_test (fun c =>
       ok ← call (TestRole c "master");
       mret (if negb ok then Some (ErrMsg "Role check failed") else None))).

(** ** Environment *)
Section init.
Context (url_parse : string -> error + string).
Context `{CacheStore netE RedisStore}.
(** [logger] is the name of the [logrus.Entry]. *)
Context (logger : string).

Definition Infof (msg : string) : prog netE unit := log (LogLine (SinkLogger logger) LInfo msg).
Definition Debugf (msg : string) : prog netE unit := log (LogLine (SinkLogger logger) LDebug msg).
Definition Errorf (msg : string) : prog netE unit := log (LogLine (SinkLogger logger) LError msg).

Definition inCluster : prog netE bool :=
  namespace ← call (Getenv "MY_POD_NAMESPACE");
  _ ← Infof ("inCluster: env == " +:+ namespace);
  err ← call NewInClusterClient;
  match err with
  | Some _ => _ ← Infof "inCluster: false"; mret false
  | None => _ ← Infof "inCluster: true"; mret true
  end.

(** [testCache]: write a value, read it back. *)
Definition testCache (c : RedisStore) (k v : string) (exp : Z) : prog netE (error + string) :=
  err ← cs_Set c k (VString v) exp;
  match err with
  | Some err => mret (inl err)
  | None =>
      r ← cs_Get c k (VPtr (VString EmptyString));
      match fst r with
      | Some err => mret (inl err)
      | None =>
          tValue ← assert_some (as_ptr as_string (snd r)) (not_a "*string");
          mret (inr tValue)
      end
  end.

(** The result of the initialisers: an interface that may be nil, and an error. *)
Abbreviation made := (option RedisStore * option error)%type.

Record RedisConnectionInfo := mkInfo {
  MasterIdentifier : string; Password : string; SentinelURL : string; RedisURL : string;
  UseSentinel : bool; DefaultExpSeconds : Z; ConnectionTimeoutMilliseconds : Z;
  ReadWriteTimeoutMilliseconds : Z; SelectDatabase : Z }.

Definition set_MasterIdentifier (i : RedisConnectionInfo) (m : string) : RedisConnectionInfo :=
  mkInfo m (Password i) (SentinelURL i) (RedisURL i) (UseSentinel i) (DefaultExpSeconds i)
    (ConnectionTimeoutMilliseconds i) (ReadWriteTimeoutMilliseconds i) (SelectDatabase i).

Definition no_host (what url : string) : string :=
  "InitRedisReadOnlyPool: Unable to parse " +:+ what +:+ " " +:+ url +:+
  " - url.Host is empty after parsing format should be: redis://<host-name>:6379".

(** The sentinel address of [RedisConnectionInfo.New]. *)
Definition sentinel_host (i : RedisConnectionInfo) : prog netE (error + string) :=
  if Nat.eqb (String.length (SentinelURL i)) 0 then mret (inr "localhost:26379")
  else
    _ ← Infof ("RedisConnectionInfo.New: sentinel URL " +:+ SentinelURL i);
    match url_parse (SentinelURL i) with
    | inl e =>
        let err := "RedisConnectionInfo.New: Unable to parse sentinel URL " +:+ SentinelURL i +:+ " - " +:+ Error e in
        _ ← Errorf err; mret (inl (ErrMsg err))
    | inr host =>
        if Nat.eqb (String.length host) 0 then
          let err := no_host "sentinel URL" (SentinelURL i) in
          _ ← Errorf err; _ ← Errorf "InitReadOnlyRedisCache: Can't initialize cache"; mret (inl (ErrMsg err))
        else mret (inr host)
    end.

(** The Redis address of [RedisConnectionInfo.New] without sentinel. *)
Definition redis_host (i : RedisConnectionInfo) : prog netE (error + string) :=
  if Nat.eqb (String.length (RedisURL i)) 0 then mret (inr "redis:6379")
  else
    match url_parse (RedisURL i) with
    | inl e =>
        let err := "RedisConnectionInfo.New: Unable to parse redis URL " +:+ RedisURL i +:+ " - " +:+ Error e in
        _ ← Errorf err; _ ← Errorf "RedisConnectionInfo.New: Can't initialize cache"; mret (inl (ErrMsg err))
    | inr host =>
        if Nat.eqb (String.length host) 0 then
          let err := no_host "redis URL" (RedisURL i) in
          _ ← Errorf err; _ ← Errorf "InitReadOnlyRedisCache: Can't initialize cache"; mret (inl (ErrMsg err))
        else mret (inr host)
    end.

(** The write-read test, [who] being the prefix of its log lines; [kept] is what is
    returned beside the error. *)
Definition test_write_read (who : string) (cache : RedisStore) (kept : option RedisStore) (storeExp : Z)
    : prog netE made :=
  v ← testCache cache "testing" "1,2,3.." storeExp;
  match v with
  | inl err => _ ← Errorf (who +:+ ": cache test failed: " +:+ Error err); mret (kept, Some err)
  | inr v => _ ← Infof (who +:+ ": cache test success: " +:+ v); mret (Some cache, None)
  end.

Definition first_set (who : string) (cache : RedisStore) (storeExp : Z) (next : prog netE made) : prog netE made :=
  err ← cs_Set cache "test" (VString "this") storeExp;
  match err with
  | Some err => _ ← Errorf (who +:+ ": cache test failed: " +:+ Error err); mret (None, Some err)
  | None => next
  end.

(** [RedisConnectionInfo.New]; the receiver comes back, its master name filled in. *)
Definition New (i : RedisConnectionInfo) (testWriteRead : bool) : prog netE (made * RedisConnectionInfo) :=
  i ← (if Nat.eqb (String.length (MasterIdentifier i)) 0 then
         _ ← Infof "RedisConnectionInfo.New: master identifier is not defined, using mymaster";
         mret (set_MasterIdentifier i "mymaster")
       else mret i);
  _ ← Infof ("RedisConnectionInfo.New: masterIdentifier: " +:+ MasterIdentifier i);
  redisPassword ← (if Nat.eqb (String.length (Password i)) 0 then
      _ ← Infof "RedisConnectionInfo.New: redis password is not defined, so no authentication used to validate connection to REDIS";
      mret None
    else
      _ ← Infof ("RedisConnectionInfo.New: redisPassword len: " +:+ fmt_int (Z.of_nat (String.length (Password i))));
      mret (Some (Password i)));
  host ← sentinel_host i;
  match host with
  | inl err => mret ((None, Some err), i)
  | inr sentinelHost =>
      _ ← Infof ("RedisConnectionInfo.New: using sentinel host " +:+ sentinelHost);
      let storeExp := int64 (DefaultExpSeconds i * Second) in
      _ ← Infof ("RedisConnectionInfo.New: using default cache expiration: " +:+ duration_String storeExp);
      if negb (UseSentinel i) then
        _ ← Debugf "RedisConnectionInfo.New: setting up redis without sentinel";
        dns ← redis_host i;
        match dns with
        | inl err => mret ((None, Some err), i)
        | inr storeDNS =>
            inside ← inCluster;
            let storeDNS := if negb inside then "localhost:6379" else storeDNS in
            _ ← Infof ("RedisConnectionInfo.New: using cache at: " +:+ storeDNS);
            let cache := NewRedisCache storeDNS (Password i) storeExp 0 in
            if testWriteRead : bool then
              r ← test_write_read "RedisConnectionInfo.New" cache None storeExp; mret (r, i)
            else mret ((Some cache, None), i)
        end
      else
        let sntlPool := NewSentinelPool [sentinelHost] (Some (MasterIdentifier i)) redisPassword
          (ConnectionTimeoutMilliseconds i) (ReadWriteTimeoutMilliseconds i) (SelectDatabase i) in
        let cache := NewRedisCacheWithPool sntlPool storeExp in
        if testWriteRead then
          r ← first_set "RedisConnectionInfo.New" cache storeExp
                (test_write_read "RedisConnectionInfo.New" cache (Some cache) storeExp);
          mret (r, i)
        else mret ((Some cache, None), i)
  end.

(** ** [InitRedisCache] *)
Definition InitRedisCache (useSentinel : bool) (defaultExpSeconds : Z) (redisPassword : option string)
    (connectionTimeoutMilliseconds readWriteTimeoutMilliseconds selectDatabase : Z) : prog netE made :=
  m ← call (Getenv "REDIS_MASTER_IDENTIFIER");
  masterIdentifier ← (if Nat.eqb (String.length m) 0 then
      _ ← Infof "Env REDIS_MASTER_IDENTIFIER is not defined, using mymaster"; mret "mymaster"
    else mret m);
  _ ← Infof ("masterIdentifier: " +:+ masterIdentifier);
  redisPassword ← match redisPassword with
    | Some p => mret (Some p)
    | None =>
        p ← call (Getenv "REDIS_PASSWORD");
        if Nat.eqb (String.length p) 0 then
          _ ← Infof "Env REDIS_PASSWORD is not defined";
          _ ← Infof "No authentication used to validate connection to REDIS";
          mret None
        else
          _ ← Infof "Env REDIS_PASSWORD is set"; mret (Some p)
    end;
  _ ← Infof ("redisPassword len: " +:+ fmt_int (Z.of_nat (String.length (default EmptyString redisPassword))));
  env ← call (LookupEnv "REDIS_SENTINEL_ADDRESS");
  host ← match env with
    | Some redisHost =>
        _ ← Infof ("Env REDIS_SENTINEL_ADDRESS: " +:+ redisHost);
        match url_parse redisHost with
        | inl e =>
            let err := "initCache: Unable to parse URL REDIS_SENTINEL_ADDRESS - " +:+ Error e in
            _ ← Errorf err; mret (inl (ErrMsg err))
        | inr host => mret (inr host)
        end
    | None =>
        _ ← Infof "InitCache: environment variable REDIS_SENTINEL_ADDRESS is not defined";
        mret (inr "localhost:26379")
    end;
  match host with
  | inl err => mret (None, Some err)
  | inr redisHost =>
      _ ← Infof ("InitCache: redisHost: " +:+ redisHost);
      let storeExp := int64 (defaultExpSeconds * Second) in
      _ ← Infof ("InitCache: using cache expiration: " +:+ duration_String storeExp);
      if negb useSentinel then
        _ ← Debugf "InitCache: setting up redis without sentinel";
        inside ← inCluster;
        let storeDNS := if negb inside then "localhost:6379" else "redis:6379" in
        _ ← Infof ("InitCache: using cache at: " +:+ storeDNS);
        let cache := NewRedisCache storeDNS (default EmptyString redisPassword) storeExp selectDatabase in
        test_write_read "initCache" cache None storeExp
      else
        let sntlPool := NewSentinelPool [redisHost] (Some masterIdentifier) redisPassword
          connectionTimeoutMilliseconds readWriteTimeoutMilliseconds selectDatabase in
        let cache := NewRedisCacheWithPool sntlPool storeExp in
        first_set "initCache" cache storeExp (test_write_read "initCache" cache (Some cache) storeExp)
  end.

(** ** [InitReadOnlyRedisCache] *)
Definition defConnectionTimeoutMilliseconds : Z := 500.
Definition defReadWriteTimeoutMilliseconds : Z := 50.

Definition readonly_dial (host password : string) (connTimeout rwTimeout db : Z) : prog netE (error + nat) :=
  _ ← Debugf ("InitReadOnlyRedisCache: using addr " +:+ host);
  r ← call (DialTimeout host connTimeout rwTimeout rwTimeout);
  match r with
  | inl err => mret (inl err)
  | inr c =>
      let select :=
        if negb (db =? 0) then
          _ ← Debugf ("InitReadOnlyRedisCache: select database " +:+ fmt_int db);
          do_or_close c "SELECT" [VInt Int db] (mret (inr c))
        else mret (inr c) in
      if Nat.ltb 0 (String.length password) then
        _ ← Debugf "InitReadOnlyRedisCache: authenticating";
        do_or_close c "AUTH" [VString password] select
      else do_or_close c "PING" [] select
  end.

Definition InitReadOnlyRedisCache (readOnlyCacheURL cachePassword : string)
    (connectionTimeoutMilliseconds readWriteTimeoutMilliseconds defaultExpMinutes maxConnections selectDatabase : Z)
    : prog netE made :=
  _ ← Debugf "InitReadOnlyRedisCache: trying to init read-only redis cache";
  let defExpSeconds := int64 (60 * defaultExpMinutes) in
  match url_parse readOnlyCacheURL with
  | inl e =>
      let err := "InitRedisReadOnlyPool: Unable to parse URL read-only cache address " +:+ readOnlyCacheURL
                 +:+ " - " +:+ Error e in
      _ ← Errorf err; _ ← Errorf "InitReadOnlyRedisCache: Can't initialize read-only redis cache";
      mret (None, Some (ErrMsg err))
  | inr host =>
      if Nat.eqb (String.length host) 0 then
        let err := no_host "URL read-only cache address" readOnlyCacheURL in
        _ ← Errorf err; _ ← Errorf "InitReadOnlyRedisCache: Can't initialize read-only redis cache";
        mret (None, Some (ErrMsg err))
      else
        let connMs := if connectionTimeoutMilliseconds <=? 0 then defConnectionTimeoutMilliseconds
                      else connectionTimeoutMilliseconds in
        let rwMs := if readWriteTimeoutMilliseconds <=? 0 then defReadWriteTimeoutMilliseconds
                    else readWriteTimeoutMilliseconds in
        let pool := mkPool maxConnections maxConnections false (240 * Second)
          (readonly_dial host cachePassword (millis connMs) (millis rwMs) selectDatabase)
          (idle_test (fun c => call (Do c "PING" []))) in
        mret (Some (NewRedisCacheWithPool pool (int64 (defExpSeconds * Second))), None)
  end.
End init.

(** ** An arbitrary network

    The network answers each call as it likes, depending on everything that
    happened; the state is that history. *)
Inductive netevent :=
  | EvMaster (r : error + string) | EvDial (addr : string) (r : error + nat)
  | EvDo (c : nat) (cmd : string) (args : list goval) (r : option error) | EvClose (c : nat)
  | EvRole (c : nat) (ok : bool) | EvEnv (k : string) | EvSetenv (k v : string) | EvCluster (r : option error).

Record network := mkNetwork {
  n_master : list netevent -> list string -> string -> error + string;
  n_dial : list netevent -> string -> error + nat;
  n_do : list netevent -> nat -> string -> list goval -> option error;
  n_role : list netevent -> nat -> string -> bool;
  n_env : string -> option string;
  n_cluster : option error }.

(** The environment: what the process was started with, and its own changes. *)
Definition env_now (N : network) (h : list netevent) (k : string) : option string :=
  fold_left (fun r ev => match ev with EvSetenv k' v => if String.eqb k' k then Some v else r | _ => r end) h (n_env N k).

Definition net_handler (N : network) : Handler netE (list netevent) := fun X e h =>
  match e in netE X return X * list netevent with
  | MasterAddr addrs master _ _ => let r := n_master N h addrs master in (r, h ++ [EvMaster r])
  | DialTimeout addr _ _ _ => let r := n_dial N h addr in (r, h ++ [EvDial addr r])
  | Do c cmd args => let r := n_do N h c cmd args in (r, h ++ [EvDo c cmd args r])
  | Close c => (tt, h ++ [EvClose c])
  | TestRole c role => let r := n_role N h c role in (r, h ++ [EvRole c r])
  | Getenv k => (default EmptyString (env_now N h k), h ++ [EvEnv k])
  | LookupEnv k => (env_now N h k, h ++ [EvEnv k])
  | Setenv k v => (tt, h ++ [EvSetenv k v])
  | NewInClusterClient => (n_cluster N, h ++ [EvCluster (n_cluster N)])
  end.
