(* ===== verification/RedisProps.v ===== *)
(** * What the Redis pools and initialisers guarantee

    Theorems about the dial sequences under an arbitrary network, and about the
    addresses and stores the initialisers choose. *)

From stdpp Require Import gmap strings.
From S2P Require Import Prelude LruInterface GoValues GoFmt Bytes InMemory RedisPool.
Local Open Scope Z_scope.

Section network.
Context (N : network) (clock : nat -> Z).
#[local] Instance the_network : Handler netE (list netevent) := net_handler N.
Implicit Types (w : world (list netevent)) (ev : list netevent).

(** Commands with their arguments, sent on [c] in this order and each answered without
    an error. *)
Definition accepted (c : nat) (cmds : list (string * list goval)) : list netevent :=
  (fun x => EvDo c x.1 x.2 None) <$> cmds.

(** The whole history of a dial that has the commands [cmds] to send, when the address
    is found by the events [opening pre addr].  It returns a connection exactly if that
    was opened and accepted all the commands; otherwise its error is that of the first
    step that failed (the question for the address, the connection, or a command),
    nothing is asked after that, and a connection that was opened is closed. *)
Definition dial_outcome (opening : list netevent -> string -> Prop) (cmds : list (string * list goval)) w
    (r : outcome (error + nat) * world (list netevent)) : Prop :=
  exists ev, w_state r.2 = w_state w ++ ev /\
    match r.1 with
    | Done (inr c) => exists pre addr, opening pre addr /\ ev = pre ++ EvDial addr (inr c) :: accepted c cmds
    | Done (inl err) =>
        ev = [EvMaster (inl err)] \/
        (exists pre addr, opening pre addr /\ ev = pre ++ [EvDial addr (inl err)]) \/
        (exists pre addr c sent cmd args rest, opening pre addr /\ cmds = sent ++ (cmd, args) :: rest /\
           ev = pre ++ EvDial addr (inr c) :: accepted c sent ++ [EvDo c cmd args (Some err); EvClose c])
    | Crash _ => False
    end.

(** A dial that has opened [c], on which [sent] was accepted. *)
Definition dialled (opening : list netevent -> string -> Prop) (sent : list (string * list goval)) (c : nat)
    (h0 h : list netevent) : Prop :=
  exists pre addr, opening pre addr /\ h = h0 ++ pre ++ EvDial addr (inr c) :: accepted c sent.

Lemma dialled_snoc opening sent c h0 h cmd args : dialled opening sent c h0 h ->
  dialled opening (sent ++ [(cmd, args)]) c h0 (h ++ [EvDo c cmd args None]).
Proof.
  intros (pre & addr & Ho & ->). exists pre, addr. split; [done|]. unfold accepted. rewrite fmap_app. simpl.
  by rewrite <- !app_assoc.
Qed.

Lemma dialled_done opening sent c w w1 : dialled opening sent c (w_state w) (w_state w1) ->
  dial_outcome opening sent w (Done (inr c), w1).
Proof. intros (pre & addr & Ho & Hev). eexists. split; [exact Hev|]. by exists pre, addr. Qed.

(** A command after [sent]: it succeeds and the dial goes on, or the connection is
    closed and the dial fails. *)
Lemma run_do_or_close opening sent rest c cmd args next w w1 : dialled opening sent c (w_state w) (w_state w1) ->
  (forall w2, dialled opening (sent ++ [(cmd, args)]) c (w_state w) (w_state w2) ->
     dial_outcome opening (sent ++ (cmd, args) :: rest) w (run clock next w2)) ->
  dial_outcome opening (sent ++ (cmd, args) :: rest) w (run clock (do_or_close c cmd args next) w1).
Proof.
  intros Hd Hnext. unfold do_or_close. rewrite run_call. unfold handle at 1, the_network, net_handler. cbn zeta.
  destruct (n_do N (w_state w1) c cmd args) as [err|] eqn:Hdo.
  - destruct Hd as (pre & addr & Ho & Hev). simpl. eexists. simpl. rewrite Hev, <- !app_assoc. split; [done|].
    right. right. exists pre, addr, c, sent, cmd, args, rest. split; [done|]. split; [done|]. reflexivity.
  - apply Hnext. simpl. by apply dialled_snoc.
Qed.

Definition select_cmd (db : Z) : list (string * list goval) := if db =? 0 then [] else [("SELECT", [VInt Int db])].

Lemma run_select_db opening sent c db w w1 : dialled opening sent c (w_state w) (w_state w1) ->
  dial_outcome opening (sent ++ select_cmd db) w (run clock (select_db c db) w1).
Proof.
  intros Hd. unfold select_db, select_cmd. destruct (db =? 0); cbn [negb].
  - rewrite app_nil_r. by apply dialled_done.
  - apply (run_do_or_close opening sent []); [done|]. intros w2 Hd2. by apply dialled_done.
Qed.

(** C31. The sentinel dialer, against any network: it asks the sentinels, dials the
    address they give, and on that connection sends AUTH with the password if there is
    one, then SELECT with the database number if that is not 0, and nothing else.  It
    returns the connection exactly if all these were answered without an error; the
    first error ends the dial, is the one returned, and a connection that was opened
    has then been closed. *)
Theorem sentinel_dial_safe addrs master password ct rt db w :
  dial_outcome (fun pre addr => pre = [EvMaster (inr addr)])
    ((if password is Some pw then [("AUTH", [VString pw])] else []) ++ select_cmd db) w
    (run clock (sentinel_dial addrs master password ct rt db) w).
Proof.
  unfold sentinel_dial. rewrite run_call. unfold handle at 1, the_network, net_handler. cbn zeta.
  destruct (n_master N (w_state w) addrs master) as [err|addr].
  { exists [EvMaster (inl err)]. split; [done|]. by left. }
  rewrite run_call. unfold handle at 1, the_network, net_handler. cbn zeta. cbn [w_state set_state].
  set (opening := fun (pre : list netevent) (addr : string) => _).
  destruct (n_dial N _ addr) as [err|c].
  { exists [EvMaster (inr addr); EvDial addr (inl err)]. split; [by simpl; rewrite <- app_assoc|].
    right. left. by exists [EvMaster (inr addr)], addr. }
  set (w1 := set_state _ _).
  assert (dialled opening [] c (w_state w) (w_state w1)) as Hd.
  { exists [EvMaster (inr addr)], addr. split; [done|]. by simpl; rewrite <- app_assoc. }
  destruct password as [pw|]; [|by apply (run_select_db opening [])].
  apply (run_do_or_close opening []); [done|]. intros w2 Hd2. by apply (run_select_db opening [("AUTH", [VString pw])]).
Qed.

(** The read-only dialer: the same discipline, with a PING instead of AUTH when
    there is no password. *)
Theorem readonly_dial_safe logger host password ct rt db w :
  dial_outcome (fun pre addr => pre = [] /\ addr = host)
    ((if Nat.ltb 0 (String.length password) then [("AUTH", [VString password])] else [("PING", [])]) ++ select_cmd db) w
    (run clock (readonly_dial logger host password ct rt db) w).
Proof.
  unfold readonly_dial, Debugf. rewrite run_log, run_call. unfold handle at 1, the_network, net_handler. cbn zeta.
  cbn [w_state add_log]. set (opening := fun (pre : list netevent) (addr : string) => _).
  destruct (n_dial N (w_state w) host) as [err|c].
  { exists [EvDial host (inl err)]. split; [done|]. right. left. by exists [], host. }
  set (w1 := set_state _ _).
  assert (dialled opening [] c (w_state w) (w_state w1)) as Hd by (by exists [], host).
  set (select := if negb (db =? 0) then _ else _).
  assert (forall sent w2, dialled opening sent c (w_state w) (w_state w2) ->
    dial_outcome opening (sent ++ select_cmd db) w (run clock select w2)) as Hsel.
  { intros sent w2 Hd2. unfold select, select_cmd. destruct (db =? 0) eqn:Hdb; cbn [negb].
    - rewrite app_nil_r. by apply dialled_done.
    - rewrite run_log. apply (run_do_or_close opening sent []); [done|]. intros w3 Hd3. by apply dialled_done. }
  destruct (Nat.ltb 0 (String.length password)).
  - rewrite run_log. apply (run_do_or_close opening []); [done|].
    intros w2 Hd2. by apply (Hsel [("AUTH", [VString password])]).
  - apply (run_do_or_close opening []); [done|]. intros w2 Hd2. by apply (Hsel [("PING", [])]).
Qed.
End network.

Section initialisers.
Context (url_parse : string -> error + string) `{CacheStore netE RedisStore} (logger : string).
Context (N : network) (clock : nat -> Z).
#[local] Instance the_network' : Handler netE (list netevent) := net_handler N.
Implicit Types (w : world (list netevent)) (i : RedisConnectionInfo).

(** The address [RedisURL] stands for. *)
Definition configured i (host : string) : Prop :=
  (RedisURL i = EmptyString /\ host = "redis:6379") \/
  (RedisURL i <> EmptyString /\ url_parse (RedisURL i) = inr host /\ host <> EmptyString).

Lemma run_Infof {B} m (f : unit -> prog netE B) w :
  run clock (Infof logger m ≫= f) w = run clock (f tt) (add_log w (LogLine (SinkLogger logger) LInfo m)).
Proof. done. Qed.

Lemma run_Debugf {B} m (f : unit -> prog netE B) w :
  run clock (Debugf logger m ≫= f) w = run clock (f tt) (add_log w (LogLine (SinkLogger logger) LDebug m)).
Proof. done. Qed.

Lemma run_Errorf {B} m (f : unit -> prog netE B) w :
  run clock (Errorf logger m ≫= f) w = run clock (f tt) (add_log w (LogLine (SinkLogger logger) LError m)).
Proof. done. Qed.

Lemma nonempty_length (s : string) : s <> EmptyString -> Nat.eqb (String.length s) 0 = false.
Proof. by destruct s. Qed.

Lemma run_redis_host i host w : configured i host -> run clock (redis_host url_parse logger i) w = (Done (inr host), w).
Proof.
  unfold redis_host. intros [[-> ->]|(Hne & -> & Hh)]; [done|].
  by rewrite (nonempty_length _ Hne), (nonempty_length _ Hh).
Qed.

Lemma run_Getenv {B} k (f : string -> prog netE B) w :
  run clock (call (Getenv k) ≫= f) w =
    run clock (f (default EmptyString (env_now N (w_state w) k))) (set_state w (w_state w ++ [EvEnv k])).
Proof. done. Qed.

Lemma run_cluster_client {B} (f : option error -> prog netE B) w :
  run clock (call NewInClusterClient ≫= f) w =
    run clock (f (n_cluster N)) (set_state w (w_state w ++ [EvCluster (n_cluster N)])).
Proof. done. Qed.

Lemma run_inCluster w : exists w', run clock (inCluster logger) w =
  (Done (match n_cluster N with None => true | Some _ => false end), w').
Proof.
  unfold inCluster. rewrite run_Getenv, run_Infof, run_cluster_client.
  destruct (n_cluster N); rewrite run_Infof; by eexists.
Qed.

(** Without sentinel, [New] connects to the configured address only inside the
    cluster and to localhost:6379 otherwise; the database number of the connection
    info is not used (database 0), nor are its timeouts. *)
Theorem new_direct_address i host w :
  UseSentinel i = false -> SentinelURL i = EmptyString -> configured i host ->
  exists w' i', run clock (New url_parse logger i false) w =
    (Done ((Some (NewRedisCache (match n_cluster N with None => host | Some _ => "localhost:6379" end)
                   (Password i) (int64 (DefaultExpSeconds i * Second)) 0), None), i'), w').
Proof.
  intros Hs Hu Hc. unfold New.
  assert (exists i1 w1, run clock (if Nat.eqb (String.length (MasterIdentifier i)) 0 then
         _ ← Infof logger "RedisConnectionInfo.New: master identifier is not defined, using mymaster";
         mret (set_MasterIdentifier i "mymaster") else mret i) w = (Done i1, w1) /\
    UseSentinel i1 = false /\ SentinelURL i1 = EmptyString /\ configured i1 host /\ Password i1 = Password i /\
    DefaultExpSeconds i1 = DefaultExpSeconds i) as (i1 & w1 & Hr & Hs1 & Hu1 & Hc1 & Hp1 & He1).
  { destruct (Nat.eqb _ 0); eexists _, _; (split; [reflexivity|]); done. }
  rewrite (run_bind_done _ _ _ _ _ _ Hr), run_Infof.
  match goal with |- context [run clock ((if Nat.eqb (String.length (Password i1)) 0 then ?a else ?b) ≫= ?f) ?w2] =>
    assert (exists pw w3, run clock (if Nat.eqb (String.length (Password i1)) 0 then a else b) w2 = (Done pw, w3))
      as (pw & w3 & Hr3) end.
  { destruct (Nat.eqb (String.length (Password i1)) 0); eexists _, _; reflexivity. }
  rewrite (run_bind_done _ _ _ _ _ _ Hr3). unfold sentinel_host. rewrite Hu1. cbn [String.length Nat.eqb].
  rewrite bind_mret, run_Infof. cbn zeta. rewrite run_Infof, Hs1. cbn [negb].
  rewrite run_Debugf, (run_bind_done _ _ _ _ _ _ (run_redis_host i1 host _ Hc1)).
  match goal with |- context [run clock (inCluster logger ≫= _) ?w4] =>
    destruct (run_inCluster w4) as (w5 & Hr5) end.
  rewrite (run_bind_done _ _ _ _ _ _ Hr5), run_Infof, Hp1, He1.
  destruct (n_cluster N); by eexists _, _.
Qed.

(** The self-test: it fails exactly when the write or the read of the store
    fails, with that error; whatever string the store gives back counts as success,
    the value written is not compared. *)
Theorem selftest_outcome who cache kept exp w w1 w2 serr gerr s :
  run clock (cs_Set cache "testing" (VString "1,2,3..") exp) w = (Done serr, w1) ->
  run clock (cs_Get cache "testing" (VPtr (VString EmptyString))) w1 = (Done (gerr, VPtr (VString s)), w2) ->
  (run clock (test_write_read logger who cache kept exp) w).1 =
    Done (match serr, gerr with
          | Some err, _ | None, Some err => (kept, Some err)
          | None, None => (Some cache, None)
          end).
Proof.
  intros Hset Hget. unfold test_write_read, testCache.
  rewrite run_bind, (run_bind_done _ _ _ _ _ _ Hset). destruct serr as [err|].
  { rewrite run_mret. by rewrite run_Errorf. }
  rewrite (run_bind_done _ _ _ _ _ _ Hget). cbn [fst snd as_ptr as_string]. destruct gerr as [err|].
  { rewrite run_mret. by rewrite run_Errorf. }
  rewrite bind_assert_Some, run_mret. by rewrite run_Infof.
Qed.
End initialisers.

(** ** Instances *)
Section witnesses.
(** A network where everything works, outside a cluster. *)
Definition net1 : network :=
  mkNetwork (fun _ _ _ => inr "10.0.0.1:6379") (fun h _ => inr (length h)) (fun _ _ _ _ => None)
    (fun _ _ _ => true) (fun _ => None) (Some (ErrMsg "not in cluster")).
Definition info1 : RedisConnectionInfo := mkInfo "" "" "" "redis://cache:6379" false 60 0 0 5.
Definition host1 (u : string) : error + string := inr "cache:6379".

(** A store that gives back the same string to every read. *)
#[local] Instance parrot : CacheStore netE RedisStore := {|
  cs_Get t k v := mret (None, VPtr (VString "wrong")); cs_Set t k v exp := mret None;
  cs_Add t k v exp := mret None; cs_Replace t k v exp := mret None; cs_Delete t k := mret None;
  cs_Increment t k n := mret (0, None); cs_Decrement t k n := mret (0, None); cs_Flush t := mret None |}.

Lemma new_direct_address_witness :
  exists w' i', run (H := net_handler net1) (fun _ => 0) (New host1 "main" info1 false) (World [] 0 []) =
    (Done ((Some (NewRedisCache "localhost:6379" "" (60 * Second) 0), None), i'), w').
Proof.
  apply (new_direct_address host1 "main" net1 (fun _ => 0) info1 "cache:6379" (World [] 0 []));
    [reflexivity|reflexivity|right; repeat split; discriminate].
Defined.

Lemma selftest_outcome_witness :
  (run (H := net_handler net1) (fun _ => 0)
     (test_write_read "main" "initCache" (NewRedisCache "h" "" 0 0) None 0) (World [] 0 [])).1 =
    Done (Some (NewRedisCache "h" "" 0 0), None).
Proof.
  apply (selftest_outcome "main" net1 (fun _ => 0) "initCache" (NewRedisCache "h" "" 0 0) None 0
    (World [] 0 []) (World [] 0 []) (World [] 0 []) None None "wrong"); reflexivity.
Defined.
End witnesses.
