(* ===== verification/RedisCommands.v ===== *)
(** * persistence/redis.go: the methods of [RedisStore]

    Translation of vendor/github.com/Bose/cache/persistence/redis.go and of
    utils.Serialize and utils.Deserialize.  The atomic calls [redisE] are those of
    the Redis client: taking a connection from the pool, one command, giving the
    connection back.  A command answers an [interface{}] and an error, as redigo's
    [Do]: integers are [int64], bulk strings [[]byte], a server error is both the
    value and the error, and a failed connection gives nil and the error. *)

From stdpp Require Import gmap strings.
From S2P Require Import Prelude LruInterface GoValues GoFmt Strconv Bytes InMemory.
From S2P Require Import Generic RedisPool.
Local Open Scope Z_scope.

Inductive redisE : Type -> Type :=
  | PoolGet (p : Pool) : redisE nat
  | ConnDo (c : nat) (cmd : string) (args : list goval) : redisE (goval * option error)
  | ConnClose (c : nat) : redisE unit.

Definition ErrCacheNoTTL : error := ErrMsg "cache: key has no TTL.".

(** ** redigo: conversion of replies *)
Definition ErrNil : error := ErrMsg "redigo: nil returned".
Definition redis_Error : string := "redis.Error".
Definition unexpected (what : string) (reply : goval) : error :=
  ErrMsg ("redigo: unexpected type for " +:+ what +:+ ", got type " +:+ typeof reply).

(** The cases the converters have in common: no value, an error reply, another type. *)
Definition not_converted (what : string) (reply : goval) : error :=
  match reply with
  | VNil => ErrNil
  | VOther t msg => if String.eqb t redis_Error then ErrMsg msg else unexpected what reply
  | _ => unexpected what reply
  end.

Definition ParseBool (quote : string -> string) (s : string) : error + bool :=
  if bool_decide (s ∈ ["1"; "t"; "T"; "TRUE"; "true"; "True"]) then inr true
  else if bool_decide (s ∈ ["0"; "f"; "F"; "FALSE"; "false"; "False"]) then inr false
  else inl (parse_message quote "ParseBool" s ErrSyntax).

Section store.
(** [strconv.Quote] and encoding/gob; [gob_into b dest] is what [Decode] of [b] into
    [dest] leaves there, with its error. *)
Context (quote : string -> string).
Context (gob_encode : goval -> error + list byte) (gob_into : list byte -> goval -> option error * goval).

Definition redis_Int64 (r : goval * option error) : error + Z :=
  match r with
  | (_, Some err) => inl err
  | (VInt Int64 n, None) => inr n
  | (VBytes b, None) => ParseInt quote (string_of_bytes b)
  | (reply, None) => inl (not_converted "Int64" reply)
  end.

Definition redis_Bytes (r : goval * option error) : error + list byte :=
  match r with
  | (_, Some err) => inl err
  | (VBytes b, None) => inr b
  | (VString s, None) => inr (bytes_of_string s)
  | (reply, None) => inl (not_converted "Bytes" reply)
  end.

Definition redis_Bool (r : goval * option error) : error + bool :=
  match r with
  | (_, Some err) => inl err
  | (VInt Int64 n, None) => inr (negb (n =? 0))
  | (VBytes b, None) => ParseBool quote (string_of_bytes b)
  | (reply, None) => inl (not_converted "Bool" reply)
  end.

(** ** utils: serialization *)
Definition signed (t : inttype) : option bool :=
  match t with
  | Int | Int8 | Int16 | Int32 | Int64 => Some true
  | Uint | Uint8 | Uint16 | Uint32 | Uint64 => Some false
  | Uintptr => None
  end.

Definition Serialize (value : goval) : error + list byte :=
  match value with
  | VBytes b => inr b
  | VInt t n => match signed t with Some _ => inr (bytes_of_string (fmt_int n)) | None => gob_encode value end
  | _ => gob_encode value
  end.

Definition Deserialize (byt : list byte) (ptr : goval) : option error * goval :=
  match ptr with
  | VPtr (VBytes _) => (None, VPtr (VBytes byt))
  | VPtr (VInt t _) =>
      match signed t with
      | Some sgn =>
          match (if sgn then ParseInt quote else ParseUint quote) (string_of_bytes byt) with
          | inl err => (Some err, ptr)
          | inr i => (None, VPtr (VInt t (int_of_width t i)))
          end
      | None => gob_into byt ptr
      end
  | _ => gob_into byt ptr
  end.

(** ** The methods *)
Implicit Types (c : RedisStore) (conn : nat) (key : string).

(** [conn := c.pool.Get(); defer conn.Close()] *)
Definition with_conn {A} c (body : nat -> prog redisE A) : prog redisE A :=
  conn ← call (PoolGet (rpool c));
  defer (call (ConnClose conn)) (body conn).

Definition Do_ conn (cmd : string) (args : list goval) : prog redisE (goval * option error) :=
  call (ConnDo conn cmd args).

Definition invoke c conn key (value : goval) (expires : Z) : prog redisE (option error) :=
  let expires :=
    if expires =? DEFAULT then defaultExpiration c else if expires =? FOREVER then 0 else expires in
  match Serialize value with
  | inl err => mret (Some err)
  | inr b =>
      if 0 <? expires then
        r ← Do_ conn "SETEX" [VString key; VInt Int32 (int32 (seconds expires)); VBytes b]; mret (snd r)
      else
        r ← Do_ conn "SET" [VString key; VBytes b]; mret (snd r)
  end.

Definition exists_ conn key : prog redisE (error + bool) :=
  r ← Do_ conn "EXISTS" [VString key];
  mret (redis_Bool r).

(** [if exists, err := exists(conn, key); !exists { ... }]: the error of [EXISTS] or
    [missing]; otherwise [next]. *)
Definition if_exists {A} conn key (missing : error -> A) (none : A) (next : prog redisE A) : prog redisE A :=
  ex ← exists_ conn key;
  match ex with
  | inl err => mret (missing err)
  | inr false => mret none
  | inr true => next
  end.

Definition rs_Set c key (value : goval) (expires : Z) : prog redisE (option error) :=
  with_conn c (fun conn => invoke c conn key value expires).

Definition rs_Add c key (value : goval) (expires : Z) : prog redisE (option error) :=
  with_conn c (fun conn =>
    ex ← exists_ conn key;
    match ex with
    | inl err => mret (Some err)
    | inr true => mret (Some ErrNotStored)
    | inr false => invoke c conn key value expires
    end).

Definition rs_Replace c key (value : goval) (expires : Z) : prog redisE (option error) :=
  with_conn c (fun conn =>
    if_exists conn key Some (Some ErrNotStored) (
      err ← invoke c conn key value expires;
      mret (if bool_decide (value = VNil) then Some ErrNotStored else err))).

Definition rs_Get c key (ptrValue : goval) : prog redisE (option error * goval) :=
  with_conn c (fun conn =>
    r ← Do_ conn "GET" [VString key];
    if bool_decide (fst r = VNil) then mret (Some ErrCacheMiss, ptrValue)
    else
      match redis_Bytes r with
      | inl err => mret (Some err, ptrValue)
      | inr item => mret (Deserialize item ptrValue)
      end).

Definition rs_Delete c key : prog redisE (option error) :=
  with_conn c (fun conn =>
    if_exists conn key Some (Some ErrCacheMiss) (
      r ← Do_ conn "DEL" [VString key];
      mret (snd r))).

(** The body [Increment] and [IncrementCheckSet] share. *)
Definition get_and_set conn key (delta : Z) : prog redisE (Z * option error) :=
  r ← Do_ conn "GET" [VString key];
  let '(val, err) := r in
  if bool_decide (val = VNil) then mret (0, Some ErrCacheMiss)
  else
    match err with
    | Some err => mret (0, Some err)
    | None =>
        match redis_Int64 (val, None) with
        | inl err => mret (0, Some err)
        | inr currentVal =>
            let sum := int64 (currentVal + int64 delta) in
            r ← Do_ conn "SET" [VString key; VInt Int64 sum];
            match snd r with
            | Some err => mret (0, Some err)
            | None => mret (uint64 sum, None)
            end
        end
    end.

Definition rs_Increment c key (delta : Z) : prog redisE (Z * option error) :=
  with_conn c (fun conn => get_and_set conn key delta).

Definition IncrementCheckSet c key (delta : Z) : prog redisE (Z * option error) :=
  with_conn c (fun conn =>
    r ← Do_ conn "WATCH" [VString key];
    match snd r with
    | Some err => mret (0, Some err)
    | None =>
        defer (_ ← Do_ conn "UNWATCH" [VString key]; mret tt) (get_and_set conn key delta)
    end).

Definition IncrementAtomic c key (delta : Z) : prog redisE (Z * option error) :=
  with_conn c (fun conn =>
    r ← Do_ conn "INCRBY" [VString key; VInt Uint64 delta];
    match snd r with
    | Some err => mret (0, Some err)
    | None =>
        newValue ← assert_some (match fst r with VInt Int64 n => Some n | _ => None end) (not_a "int64");
        mret (uint64 newValue, None)
    end).

(** [ret == 0] compares an [interface{}] with the [int] 0. *)
Definition ExpireAt c key (epoc : Z) : prog redisE (option error) :=
  with_conn c (fun conn =>
    r ← Do_ conn "EXPIREAT" [VString key; VInt Uint64 epoc];
    let '(ret, err) := r in
    if bool_decide (ret = VInt Int 0) then mret (Some ErrCacheMiss)
    else mret err).

Definition GetExpiresIn c key : prog redisE (Z * option error) :=
  with_conn c (fun conn =>
    r ← Do_ conn "PTTL" [VString key];
    match snd r with
    | Some err => mret (0, Some err)
    | None =>
        ttl ← assert_some (match fst r with VInt Int64 n => Some n | _ => None end) (not_a "int64");
        if ttl =? -2 then mret (0, Some ErrCacheMiss)
        else if ttl =? -1 then mret (0, Some ErrCacheNoTTL)
        else mret (ttl, None)
    end).

(** [uint64(tempint), err] for [tempint, err := redis.Int64(...)].  The number beside
    an error is 0 unless the reply is a bulk string out of range, which [DECRBY]
    does not send. *)
Definition uint64_result (r : error + Z) : Z * option error :=
  match r with inl err => (0, Some err) | inr n => (uint64 n, None) end.

Definition rs_Decrement c key (delta : Z) : prog redisE (Z * option error) :=
  with_conn c (fun conn =>
    if_exists conn key (fun err => (0, Some err)) (0, Some ErrCacheMiss) (
      cur ← Do_ conn "GET" [VString key];
      let by_delta :=
        r ← Do_ conn "DECRBY" [VString key; VInt Uint64 delta];
        mret (uint64_result (redis_Int64 r)) in
      match redis_Int64 cur with
      | inr currentVal =>
          if uint64 currentVal <? delta then
            r ← Do_ conn "DECRBY" [VString key; VInt Int64 currentVal];
            mret (uint64_result (redis_Int64 r))
          else by_delta
      | inl _ => by_delta
      end)).

Definition rs_Flush c : prog redisE (option error) :=
  with_conn c (fun conn =>
    r ← Do_ conn "FLUSHALL" [];
    mret (snd r)).

#[global] Instance RedisStore_CacheStore : CacheStore redisE RedisStore := {|
  cs_Get := rs_Get; cs_Set := rs_Set; cs_Add := rs_Add; cs_Replace := rs_Replace;
  cs_Delete := rs_Delete; cs_Increment := rs_Increment; cs_Decrement := rs_Decrement;
  cs_Flush := rs_Flush |}.

#[global] Instance RedisStore_RedisOps : RedisOps redisE RedisStore := {|
  rs_ExpireAt := ExpireAt; rs_GetExpiresIn := GetExpiresIn;
  rs_IncrementAtomic := IncrementAtomic; rs_IncrementCheckSet := IncrementCheckSet |}.
End store.
