(* ===== verification/RedisServer.v ===== *)
(** * What the store relies on: the commands of a Redis server

    The server is not part of the sources.  [redis_spec] states what the command
    reference documents for the commands the store sends, on string keys; the class
    [RedisServer] says that a server answers so.  Time is that of the server's own
    clock, in milliseconds; a key whose deadline has come does not exist. *)

From stdpp Require Import gmap strings.
From S2P Require Import Prelude LruInterface GoValues GoFmt Strconv Bytes.
From S2P Require Import InMemory RedisPool RedisCommands.
Local Open Scope Z_scope.

(** A string value and its deadline. *)
Abbreviation redis_db := (gmap string (list byte * option Z)).

Definition alive (t : Z) (v : list byte * option Z) : Prop :=
  match snd v with None => True | Some d => t < d end.
#[global] Instance alive_dec t v : Decision (alive t v).
Proof. unfold alive. destruct (snd v); apply _. Defined.

(** The database as seen at time [t]. *)
Definition seen (t : Z) (m : redis_db) : redis_db := filter (fun kv => alive t kv.2) m.

(** The replies; the text of an error is not documented. *)
Inductive sreply := SNil | SInt (n : Z) | SBulk (b : list byte) | SStatus | SErr.

(** The integers the server accepts are those in canonical decimal form. *)
Definition redis_int (b : list byte) : option Z :=
  match parse_int (string_of_bytes b) with
  | inr z => if String.eqb (fmt_int z) (string_of_bytes b) then Some z else None
  | inl _ => None
  end.

(** The value under [k] plus [n]; the deadline stays. *)
Definition incr_by (k : string) (n : Z) (m : redis_db) : sreply * redis_db :=
  let '(b, d) := default (bytes_of_string "0", None) (m !! k) in
  match redis_int b with
  | Some z =>
      if bool_decide (in_int64 (z + n)) then (SInt (z + n), <[k := (bytes_of_string (fmt_int (z + n)), d)]> m)
      else (SErr, m)
  | None => (SErr, m)
  end.

Definition redis_spec (t : Z) (cmd : string) (args : list (list byte)) (m : redis_db) : option (sreply * redis_db) :=
  match args with
  | [] => if String.eqb cmd "FLUSHALL" then Some (SStatus, ∅) else None
  | k :: args =>
      let k := string_of_bytes k in
      match args with
      | [] =>
          if String.eqb cmd "GET" then
            Some (match m !! k with Some (b, _) => SBulk b | None => SNil end, m)
          else if String.eqb cmd "EXISTS" then
            Some (SInt (match m !! k with Some _ => 1 | None => 0 end), m)
          else if String.eqb cmd "DEL" then
            Some (SInt (match m !! k with Some _ => 1 | None => 0 end), delete k m)
          else if String.eqb cmd "PTTL" then
            Some (SInt (match m !! k with None => -2 | Some (_, None) => -1 | Some (_, Some d) => d - t end), m)
          else if String.eqb cmd "WATCH" then Some (SStatus, m)
          else if String.eqb cmd "UNWATCH" then Some (SErr, m)
          else None
      | [x] =>
          if String.eqb cmd "SET" then Some (SStatus, <[k := (x, None)]> m)
          else if String.eqb cmd "INCRBY" then
            Some (match redis_int x with Some n => incr_by k n m | None => (SErr, m) end)
          else if String.eqb cmd "DECRBY" then
            Some (match redis_int x with
                  | Some n => if bool_decide (in_int64 (- n)) then incr_by k (- n) m else (SErr, m)
                  | None => (SErr, m)
                  end)
          else if String.eqb cmd "EXPIREAT" then
            Some (match redis_int x with
                  | None => (SErr, m)
                  | Some s =>
                      match m !! k with
                      | None => (SInt 0, m)
                      | Some (b, _) =>
                          (SInt 1, if decide (t < s * 1000) then <[k := (b, Some (s * 1000))]> m else delete k m)
                      end
                  end)
          else None
      | [x; y] =>
          if String.eqb cmd "SETEX" then
            Some (match redis_int x with
                  | Some s => if 0 <? s then (SStatus, <[k := (y, Some (t + s * 1000))]> m) else (SErr, m)
                  | None => (SErr, m)
                  end)
          else None
      | _ => None
      end
  end.

(** How redigo presents a reply. *)
Definition presents (r : sreply) (a : goval * option error) : Prop :=
  match r with
  | SNil => a = (VNil, None)
  | SInt n => a = (VInt Int64 n, None)
  | SBulk b => a = (VBytes b, None)
  | SStatus => exists s, a = (VString s, None)
  | SErr => exists msg, a = (VOther redis_Error msg, Some (ErrMsg msg))
  end.

(** redigo's [writeArg] for the types the store sends. *)
Definition wire_arg (v : goval) : option (list byte) :=
  match v with
  | VString s => Some (bytes_of_string s)
  | VBytes b => Some b
  | VInt _ n => Some (bytes_of_string (fmt_int n))
  | VNil => Some []
  | _ => None
  end.

Class RedisServer (S : Type) := {
  srv_do : Z -> string -> list goval -> S -> (goval * option error) * S;
  srv_db : S -> redis_db;
  srv_documented t cmd args ws s r m' :
    mapM wire_arg args = Some ws -> redis_spec t cmd ws (seen t (srv_db s)) = Some (r, m') ->
    presents r (srv_do t cmd args s).1 /\ seen t (srv_db (srv_do t cmd args s).2) = m' }.

(** A server that does just that: it exists. *)
Definition reference_answer (r : sreply) : goval * option error :=
  match r with
  | SNil => (VNil, None)
  | SInt n => (VInt Int64 n, None)
  | SBulk b => (VBytes b, None)
  | SStatus => (VString "OK", None)
  | SErr => (VOther redis_Error "ERR", Some (ErrMsg "ERR"))
  end.

Definition reference_do (t : Z) (cmd : string) (args : list goval) (m : redis_db)
    : (goval * option error) * redis_db :=
  match mapM wire_arg args with
  | Some ws =>
      match redis_spec t cmd ws (seen t m) with
      | Some (r, m') => (reference_answer r, m')
      | None => (reference_answer SErr, m)
      end
  | None => (reference_answer SErr, m)
  end.

(** *** Integers on the wire *)
Lemma redis_int_fmt z : in_int64 z -> redis_int (bytes_of_string (fmt_int z)) = Some z.
Proof. intros Hz. unfold redis_int. rewrite string_bytes_string, parse_int_fmt, String.eqb_refl by done. done. Qed.

Lemma redis_int_fmt_large z : in_uint64 z -> ~ in_int64 z -> redis_int (bytes_of_string (fmt_int z)) = None.
Proof.
  intros Hu Hn. unfold redis_int. rewrite string_bytes_string, parse_int_fmt_large by done. done.
Qed.

Lemma redis_int_ParseInt quote b z : redis_int b = Some z -> ParseInt quote (string_of_bytes b) = inr z.
Proof. unfold redis_int, ParseInt. by repeat case_match; intros; simplify_eq. Qed.

(** *** Views *)
Section views.
Implicit Types (m : redis_db) (k : string) (t : Z).

Lemma lookup_seen t m k : seen t m !! k = match m !! k with Some v => if decide (alive t v) then Some v else None | None => None end.
Proof.
  unfold seen. apply option_eq. intros v. rewrite map_lookup_filter_Some. simpl.
  destruct (m !! k) as [v'|]; [|naive_solver]. destruct (decide (alive t v')); naive_solver.
Qed.

Lemma seen_id t m : seen t m = m <-> forall k v, m !! k = Some v -> alive t v.
Proof.
  split.
  - intros Hm k v Hk. pose proof (lookup_seen t m k) as Hl. rewrite Hm, Hk in Hl. by destruct (decide (alive t v)).
  - intros Hm. apply map_eq. intros k. rewrite lookup_seen. destruct (m !! k) as [v|] eqn:Hk; [|done].
    by rewrite decide_True by eauto.
Qed.

Lemma alive_before t t' v : t <= t' -> alive t' v -> alive t v.
Proof. unfold alive. destruct (snd v); [lia|done]. Qed.

Lemma seen_seen t t' m : t <= t' -> seen t' (seen t m) = seen t' m.
Proof.
  intros Ht. apply map_eq. intros k. rewrite !lookup_seen. destruct (m !! k) as [v|]; [|done].
  destruct (decide (alive t v)) as [|Hn]; [done|]. rewrite decide_False; [done|].
  intros Ha. by apply Hn, (alive_before t t').
Qed.

Lemma seen_before t t' m : t <= t' -> seen t' m = m -> seen t m = m.
Proof. rewrite !seen_id. intros Ht Hm k v Hk. by apply (alive_before t t'), (Hm k). Qed.

Lemma seen_insert t m k v : alive t v -> seen t m = m -> seen t (<[k := v]> m) = <[k := v]> m.
Proof. rewrite !seen_id. intros Hv Hm k' v' [[_ <-]|[_ Hk]]%lookup_insert_Some; [done|by apply (Hm k')]. Qed.

Lemma seen_delete t m k : seen t m = m -> seen t (delete k m) = delete k m.
Proof. rewrite !seen_id. intros Hm k' v' [_ Hk]%lookup_delete_Some. by apply (Hm k'). Qed.

Lemma seen_incr_by t k n m : seen t m = m -> seen t (incr_by k n m).2 = (incr_by k n m).2.
Proof.
  intros Hm. unfold incr_by. destruct (default _ (m !! k)) as [b d] eqn:Hd.
  destruct (redis_int b) as [z|]; [|done]. case_bool_decide; [|done]. apply seen_insert; [|done].
  destruct (m !! k) as [v|] eqn:Hk; simpl in Hd; [|by injection Hd as <- <-].
  subst v. change (alive t (b, d)). by apply (proj1 (seen_id t m) Hm k).
Qed.

(** The documented commands leave nothing that is past its deadline. *)
Lemma redis_spec_seen t cmd ws m r m' : seen t m = m -> redis_spec t cmd ws m = Some (r, m') -> seen t m' = m'.
Proof.
  intros Hm Hs. unfold redis_spec in Hs. repeat case_match; simplify_eq; auto using seen_delete, seen_insert.
  all: try match goal with He : incr_by ?k ?n ?m = (_, ?m') |- _ =>
    pose proof (seen_incr_by t k n m Hm) as Hi; by rewrite He in Hi end.
  all: apply seen_insert; [|done]; unfold alive; simpl; lia.
Qed.
End views.

#[global] Instance reference_server : RedisServer redis_db.
Proof.
  refine {| srv_do := reference_do; srv_db := id |}.
  intros t cmd args ws s r m' Hws Hspec. unfold reference_do. rewrite Hws. simpl in Hspec. rewrite Hspec. simpl.
  split; [destruct r; simpl; eauto|]. eapply redis_spec_seen; [|exact Hspec]. apply seen_seen. lia.
Defined.
