(* ===== verification/RedisRefine.v ===== *)
(** * [RedisStore] over a Redis server

    The store's methods run against a server that behaves as documented, over a
    network that works; every method is shown to act on the database as its
    specification [spec_rop] says. *)

From stdpp Require Import gmap strings.
From S2P Require Import Prelude Interleave LruInterface GoValues GoFmt Strconv Bytes InMemory.
From S2P Require Import Generic RedisPool RedisCommands RedisServer.
Local Open Scope Z_scope.

(** The server, the number of commands it has executed, and of connections taken. *)
Record redis_state (S : Type) := mkRS { rs_srv : S; rs_cmds : nat; rs_conns : nat }.
Arguments mkRS {S} _ _ _.
Arguments rs_srv {S} _.
Arguments rs_cmds {S} _.
Arguments rs_conns {S} _.

(** [sclock i] is the server's time when it executes command [i]. *)
Definition server_handler {S} `{RedisServer S} (sclock : nat -> Z) : Handler redisE (redis_state S) :=
  fun X e s =>
  match e in redisE X return X * redis_state S with
  | PoolGet _ => (rs_conns s, mkRS (rs_srv s) (rs_cmds s) (Datatypes.S (rs_conns s)))
  | ConnDo _ cmd args =>
      let '(a, t) := srv_do (sclock (rs_cmds s)) cmd args (rs_srv s) in
      (a, mkRS t (Datatypes.S (rs_cmds s)) (rs_conns s))
  | ConnClose _ => (tt, s)
  end.

(** ** Methods and their specification *)
Inductive rop :=
  | RGet (k : string) (dest : goval) | RSet (k : string) (v : goval) (exp : Z)
  | RAdd (k : string) (v : goval) (exp : Z) | RReplace (k : string) (v : goval) (exp : Z)
  | RDelete (k : string) | RIncrement (k : string) (n : Z) | RDecrement (k : string) (n : Z) | RFlush
  | RIncrementAtomic (k : string) (n : Z) | RIncrementCheckSet (k : string) (n : Z)
  | RExpireAt (k : string) (epoc : Z) | RGetExpiresIn (k : string).

Definition is_error (a : answer) : Prop :=
  match a with AErr (Some _) | ANum 0 (Some _) => True | _ => False end.

Section refinement.
Context (quote : string -> string).
Context (gob_encode : goval -> error + list byte) (gob_into : list byte -> goval -> option error * goval).

Definition do_rop (c : RedisStore) (o : rop) : prog redisE answer :=
  match o with
  | RGet k dest => r ← rs_Get quote gob_into c k dest; mret (AVal (fst r) (snd r))
  | RSet k v exp => r ← rs_Set gob_encode c k v exp; mret (AErr r)
  | RAdd k v exp => r ← rs_Add quote gob_encode c k v exp; mret (AErr r)
  | RReplace k v exp => r ← rs_Replace quote gob_encode c k v exp; mret (AErr r)
  | RDelete k => r ← rs_Delete quote c k; mret (AErr r)
  | RIncrement k n => r ← rs_Increment quote c k n; mret (ANum (fst r) (snd r))
  | RDecrement k n => r ← rs_Decrement quote c k n; mret (ANum (fst r) (snd r))
  | RFlush => r ← rs_Flush c; mret (AErr r)
  | RIncrementAtomic k n => r ← IncrementAtomic c k n; mret (ANum (fst r) (snd r))
  | RIncrementCheckSet k n => r ← IncrementCheckSet quote c k n; mret (ANum (fst r) (snd r))
  | RExpireAt k epoc => r ← ExpireAt c k epoc; mret (AErr r)
  | RGetExpiresIn k => r ← GetExpiresIn c k; mret (ANum (fst r) (snd r))
  end.

Implicit Types (m : redis_db) (k : string) (c : RedisStore) (ts : nat -> Z).

(** The duration a method is given, resolved. *)
Definition resolve c (exp : Z) : Z :=
  if exp =? DEFAULT then defaultExpiration c else if exp =? FOREVER then 0 else exp.

(** Storing a value at time [t].  No answer stands for an error of the server. *)
Definition spec_store c (t : Z) k (v : goval) (exp : Z) m : option answer * redis_db :=
  match Serialize gob_encode v with
  | inl err => (Some (AErr (Some err)), m)
  | inr b =>
      if 0 <? resolve c exp then
        let s := int32 (seconds (resolve c exp)) in
        if 0 <? s then (Some (AErr None), <[k := (b, Some (t + s * 1000))]> m) else (None, m)
      else (Some (AErr None), <[k := (b, None)]> m)
  end.

Definition spec_incr k (n : Z) m : option answer * redis_db :=
  match incr_by k n m with
  | (SInt z, m') => (Some (ANum (uint64 z) None), m')
  | _ => (None, m)
  end.

Definition spec_get_and_set k (n : Z) m : option answer * redis_db :=
  match m !! k with
  | None => (Some (ANum 0 (Some ErrCacheMiss)), m)
  | Some (b, _) =>
      match ParseInt quote (string_of_bytes b) with
      | inl err => (Some (ANum 0 (Some err)), m)
      | inr z =>
          let sum := int64 (z + int64 n) in
          (Some (ANum (uint64 sum) None), <[k := (bytes_of_string (fmt_int sum), None)]> m)
      end
  end.

(** [ts i] is the time of the [i]-th command of the method. *)
Definition spec_rop c (o : rop) ts m : option answer * redis_db :=
  match o with
  | RGet k dest =>
      (Some match m !! k with
       | None => AVal (Some ErrCacheMiss) dest
       | Some (b, _) => let r := Deserialize quote gob_into b dest in AVal (fst r) (snd r)
       end, m)
  | RSet k v exp => spec_store c (ts 0%nat) k v exp m
  | RAdd k v exp =>
      match m !! k with
      | Some _ => (Some (AErr (Some ErrNotStored)), m)
      | None => spec_store c (ts 1%nat) k v exp m
      end
  | RReplace k v exp =>
      match m !! k with
      | None => (Some (AErr (Some ErrNotStored)), m)
      | Some _ =>
          let '(a, m') := spec_store c (ts 1%nat) k v exp m in
          (if bool_decide (v = VNil) then Some (AErr (Some ErrNotStored)) else a, m')
      end
  | RDelete k =>
      match m !! k with
      | None => (Some (AErr (Some ErrCacheMiss)), m)
      | Some _ => (Some (AErr None), delete k m)
      end
  | RIncrement k n | RIncrementCheckSet k n => spec_get_and_set k n m
  | RDecrement k n =>
      match m !! k with
      | None => (Some (ANum 0 (Some ErrCacheMiss)), m)
      | Some (b, _) =>
          let n := match ParseInt quote (string_of_bytes b) with
                   | inr z => if uint64 z <? n then z else n
                   | inl _ => n
                   end in
          if bool_decide (in_int64 n /\ in_int64 (- n)) then spec_incr k (- n) m else (None, m)
      end
  | RFlush => (Some (AErr None), ∅)
  | RIncrementAtomic k n => if bool_decide (in_int64 n) then spec_incr k n m else (None, m)
  | RExpireAt k epoc =>
      if bool_decide (in_int64 epoc) then
        (Some (AErr None),
         match m !! k with
         | None => m
         | Some (b, _) => if decide (ts 0%nat < epoc * 1000) then <[k := (b, Some (epoc * 1000))]> m else delete k m
         end)
      else (None, m)
  | RGetExpiresIn k =>
      (Some match m !! k with
       | None => ANum 0 (Some ErrCacheMiss)
       | Some (_, None) => ANum 0 (Some ErrCacheNoTTL)
       | Some (_, Some d) => ANum (d - ts 0%nat) None
       end, m)
  end.

(** ** Refinement *)
Context {S : Type} `{RedisServer S} (sclock : nat -> Z) (clock : nat -> Z).
Context (sclock_mono : forall i j, (i <= j)%nat -> sclock i <= sclock j).
#[local] Instance the_server : Handler redisE (redis_state S) := server_handler sclock.
Implicit Types (w : world (redis_state S)) (conn : nat).

Definition cmds w : nat := rs_cmds (w_state w).

(** From the next command on, clients of the server see [m]. *)
Definition tracks w m : Prop :=
  forall t, sclock (cmds w) <= t -> seen t (srv_db (rs_srv (w_state w))) = seen t m.

(** Commands are counted up. *)
Lemma run_cmds {A} (p : prog redisE A) w : (cmds w <= cmds (run clock p w).2)%nat.
Proof.
  revert w. induction p as [a|msg|k IH|l k IH|X e k IH]; intros w; simpl; try done.
  - apply (IH _ (tick w)).
  - apply (IH (add_log w l)).
  - destruct (handle e (w_state w)) as [x s] eqn:He. etransitivity; [|apply (IH x (set_state w s))].
    unfold handle, the_server, server_handler in He. unfold cmds. simpl.
    destruct e; simpl in He; [|destruct (srv_do _ _ _ _)|]; simplify_eq/=; lia.
Qed.

Lemma tracks_state (w w1 : world (redis_state S)) m : w_state w1 = w_state w -> tracks w m -> tracks w1 m.
Proof. unfold tracks, cmds. by intros ->. Qed.

Lemma run_with_conn {A} c (body : nat -> prog redisE A) w :
  exists w', run clock (with_conn c body) w = run clock (body (rs_conns (w_state w))) w' /\
    rs_srv (w_state w') = rs_srv (w_state w) /\ cmds w' = cmds w.
Proof.
  unfold with_conn. rewrite run_call. unfold handle at 1, the_server, server_handler. cbn iota beta.
  exists (set_state w (mkRS (rs_srv (w_state w)) (rs_cmds (w_state w)) (Datatypes.S (rs_conns (w_state w))))).
  split; [|done]. rewrite run_defer. destruct (run clock (body _) _) as [o w1]. simpl. f_equal. by destruct w1.
Qed.

Lemma bind_Do {A B} conn cmd args (f : _ -> prog redisE A) (g : A -> prog redisE B) :
  ((Do_ conn cmd args ≫= f) ≫= g) = (Do_ conn cmd args ≫= fun r => f r ≫= g).
Proof. done. Qed.

Lemma bind_exists {A B} conn k (f : _ -> prog redisE A) (g : A -> prog redisE B) :
  ((exists_ quote conn k ≫= f) ≫= g) = (exists_ quote conn k ≫= fun r => f r ≫= g).
Proof. done. Qed.

Lemma handle_Do conn cmd args ws w m r m' :
  tracks w m -> mapM wire_arg args = Some ws ->
  redis_spec (sclock (cmds w)) cmd ws (seen (sclock (cmds w)) m) = Some (r, m') ->
  exists a s, handle (ConnDo conn cmd args) (w_state w) = (a, s) /\
    presents r a /\ tracks (set_state w s) m' /\ cmds (set_state w s) = Datatypes.S (cmds w).
Proof.
  intros Ht Hws Hs. unfold handle at 1, the_server, server_handler.
  rewrite <- Ht in Hs by lia. destruct (srv_documented _ _ _ _ _ _ _ Hws Hs) as [Hp Hm].
  unfold cmds in *. destruct (srv_do _ cmd args _) as [a t]. simpl in *. eexists a, _. split; [reflexivity|].
  split; [done|]. split; [|done]. intros u Hu. unfold cmds in Hu. simpl in *.
  assert (sclock (rs_cmds (w_state w)) <= u) by (etransitivity; [|exact Hu]; apply sclock_mono; lia).
  by rewrite <- (seen_seen (sclock (rs_cmds (w_state w))) u), Hm.
Qed.

Lemma run_Do {B} conn cmd args ws (f : _ -> prog redisE B) w m r m' :
  tracks w m -> mapM wire_arg args = Some ws ->
  redis_spec (sclock (cmds w)) cmd ws (seen (sclock (cmds w)) m) = Some (r, m') ->
  exists a w', run clock (Do_ conn cmd args ≫= f) w = run clock (f a) w' /\
    presents r a /\ tracks w' m' /\ cmds w' = Datatypes.S (cmds w).
Proof.
  intros Ht Hws Hs. destruct (handle_Do conn cmd args ws w m r m' Ht Hws Hs) as (a & s & He & Hp & Ht' & Hc).
  exists a, (set_state w s). unfold Do_. by rewrite (run_call_eq _ _ _ _ _ _ He).
Qed.

(** Apply a lemma about the first action of the program that runs. *)
Ltac at_run tac := match goal with |- context [run clock (_ ≫= ?f) ?w] => tac f w end.

(** *** Single commands *)
Lemma run_GET {B} conn k (f : _ -> prog redisE B) w m : tracks w m -> seen (sclock (cmds w)) m = m ->
  exists w', run clock (Do_ conn "GET" [VString k] ≫= f) w =
      run clock (f (match m !! k with Some (b, _) => VBytes b | None => VNil end, None)) w' /\
    tracks w' m /\ cmds w' = Datatypes.S (cmds w).
Proof.
  intros Ht Hm. edestruct (run_Do conn "GET" [VString k] [bytes_of_string k] f) as (a & w' & Hr & Hp & Ht' & Hc); [exact Ht|reflexivity|reflexivity|].
  exists w'. rewrite Hr. rewrite Hm in *. rewrite string_bytes_string in Hp.
  by destruct (m !! k) as [[b d]|]; simpl in Hp; subst a.
Qed.

Lemma run_exists {B} conn k (f : _ -> prog redisE B) w m : tracks w m -> seen (sclock (cmds w)) m = m ->
  exists w', run clock (exists_ quote conn k ≫= f) w =
      run clock (f (inr (match m !! k with Some _ => true | None => false end))) w' /\
    tracks w' m /\ cmds w' = Datatypes.S (cmds w).
Proof.
  intros Ht Hm. unfold exists_.
  change ((r ← Do_ conn "EXISTS" [VString k]; mret (redis_Bool quote r)) ≫= f) with
    (Do_ conn "EXISTS" [VString k] ≫= fun r => f (redis_Bool quote r)).
  edestruct (run_Do conn "EXISTS" [VString k] [bytes_of_string k] (fun r => f (redis_Bool quote r))) as (a & w' & Hr & Hp & Ht' & Hc); [exact Ht|reflexivity|reflexivity|].
  exists w'. rewrite Hr. rewrite Hm in *. rewrite string_bytes_string in Hp. simpl in Hp. subst a.
  by destruct (m !! k).
Qed.

Lemma run_invoke c conn k v exp w m : tracks w m -> seen (sclock (cmds w)) m = m ->
  let '(a, m') := spec_store c (sclock (cmds w)) k v exp m in
  exists err w', run clock (invoke gob_encode c conn k v exp) w = (Done err, w') /\ tracks w' m' /\
    match a with Some b => AErr err = b | None => is_Some err end.
Proof.
  intros Ht Hm. unfold spec_store, invoke. fold (resolve c exp). cbn zeta.
  destruct (Serialize gob_encode v) as [err|b]; [by exists (Some err), w|].
  destruct (0 <? resolve c exp).
  - destruct (0 <? int32 (seconds (resolve c exp))) eqn:Hs.
    all: edestruct (run_Do conn "SETEX" [VString k; VInt Int32 (int32 (seconds (resolve c exp))); VBytes b]
      [bytes_of_string k; bytes_of_string (fmt_int (int32 (seconds (resolve c exp)))); b]
      (fun r => mret (snd r))) as (a & w' & Hr & Hp & Ht' & _); [exact Ht|reflexivity| |].
    1, 3: cbn [redis_spec String.eqb Ascii.eqb Bool.eqb];
      rewrite Hm, redis_int_fmt, string_bytes_string, Hs by apply int32_in_int64; reflexivity.
    all: rewrite Hr; destruct Hp as [s ->]; by eexists _, w'.
  - edestruct (run_Do conn "SET" [VString k; VBytes b] [bytes_of_string k; b] (fun r => mret (snd r)))
      as (a & w' & Hr & Hp & Ht' & _); [exact Ht|reflexivity|reflexivity|].
    destruct Hp as [s ->]. rewrite Hr. exists None, w'. rewrite string_bytes_string, Hm in Ht'. done.
Qed.

Lemma run_get_and_set {B} conn k n (f : Z * option error -> prog redisE B) w m :
  tracks w m -> seen (sclock (cmds w)) m = m -> seen (sclock (Datatypes.S (cmds w))) m = m ->
  let '(a, m') := spec_get_and_set k n m in
  exists r w', run clock (get_and_set quote conn k n ≫= f) w = run clock (f r) w' /\ tracks w' m' /\
    a = Some (ANum (fst r) (snd r)).
Proof.
  intros Ht Hm Hm1. unfold get_and_set. rewrite bind_Do.
  at_run ltac:(fun f w => destruct (run_GET conn k f w m Ht Hm) as (w1 & -> & Ht1 & Hc1)). unfold spec_get_and_set.
  destruct (m !! k) as [[b d]|]; cbn [bool_decide decide]; [|by eexists _, w1].
  rewrite bool_decide_eq_false_2 by done. cbn [redis_Int64].
  destruct (ParseInt quote (string_of_bytes b)) as [err|z]; [by eexists _, w1|].
  set (sum := int64 (z + int64 n)). rewrite bind_Do.
  at_run ltac:(fun f w =>
    edestruct (run_Do conn "SET" [VString k; VInt Int64 sum] [bytes_of_string k; bytes_of_string (fmt_int sum)] f w)
      as (a & w' & -> & Hp & Ht' & _); [exact Ht1|reflexivity|reflexivity|]).
  destruct Hp as [s ->]. rewrite string_bytes_string, Hc1, Hm1 in Ht'. by eexists _, w'.
Qed.

(** [INCRBY] by [n] is sent the argument [n], [DECRBY] the argument [-n]. *)
Lemma run_incr {B} conn cmd x n k ty (f : _ -> prog redisE B) w m : tracks w m -> seen (sclock (cmds w)) m = m ->
  in_uint64 x \/ in_int64 x -> cmd = "INCRBY" /\ n = x \/ cmd = "DECRBY" /\ n = - x ->
  exists r w', run clock (Do_ conn cmd [VString k; VInt ty x] ≫= f) w = run clock (f r) w' /\
    let '(a, m') := if bool_decide (in_int64 x /\ in_int64 n) then spec_incr k n m else (None, m) in
    tracks w' m' /\
    match a with
    | Some b => exists z, r = (VInt Int64 z, None) /\ b = ANum (uint64 z) None
    | None => exists msg, r = (VOther redis_Error msg, Some (ErrMsg msg))
    end.
Proof.
  intros Ht Hm Hx Hcmd.
  assert (redis_spec (sclock (cmds w)) cmd [bytes_of_string k; bytes_of_string (fmt_int x)] m =
    Some (if bool_decide (in_int64 x /\ in_int64 n) then incr_by k n m else (SErr, m))) as Hs.
  { destruct (decide (in_int64 x)) as [Hi|Hi].
    - destruct Hcmd as [[-> ->]|[-> ->]]; cbn [redis_spec String.eqb Ascii.eqb Bool.eqb];
        rewrite redis_int_fmt, string_bytes_string by done; repeat case_bool_decide; naive_solver.
    - destruct Hx as [Hx|]; [|done]. rewrite bool_decide_eq_false_2 by naive_solver.
      destruct Hcmd as [[-> ->]|[-> ->]]; cbn [redis_spec String.eqb Ascii.eqb Bool.eqb];
        by rewrite redis_int_fmt_large by done. }
  rewrite <- Hm in Hs at 1. unfold spec_incr. destruct (if bool_decide _ then incr_by k n m else _) as [r m'] eqn:Hr.
  destruct (run_Do conn cmd [VString k; VInt ty x] _ f w m r m' Ht eq_refl Hs) as (a & w' & Hrun & Hp & Ht' & _).
  exists a, w'. split; [done|].
  assert (r = SErr /\ m' = m \/ exists z, r = SInt z /\ bool_decide (in_int64 x /\ in_int64 n) = true) as Hcase.
  { case_bool_decide; [|left; by simplify_eq]. unfold incr_by in Hr. repeat case_match; simplify_eq; eauto. }
  destruct Hcase as [[-> ->]|(z & -> & Hb)].
  - case_bool_decide; [rewrite Hr|]; done.
  - rewrite Hb in *. rewrite Hr. split; [done|]. by exists z.
Qed.

(** *** Every method *)
Definition rop_ok (o : rop) : Prop :=
  match o with
  | RIncrement _ n | RDecrement _ n | RIncrementAtomic _ n | RIncrementCheckSet _ n | RExpireAt _ n => in_uint64 n
  | _ => True
  end.

Lemma run_method {A} c (body : nat -> prog redisE A) (g : A -> answer) w m : tracks w m ->
  exists conn w1, run clock (r ← with_conn c body; mret (g r)) w = run clock (r ← body conn; mret (g r)) w1 /\
    tracks w1 m /\ cmds w1 = cmds w.
Proof.
  intros Ht. destruct (run_with_conn c body w) as (w1 & Hr & Hs & Hc). exists (rs_conns (w_state w)), w1.
  split; [by rewrite !run_bind, Hr|]. split; [|done]. unfold tracks. by rewrite Hs, Hc.
Qed.

(** What the methods share: [m] is what the server holds, none of it expiring before
    the method's last command. *)
Definition settled w m : Prop := tracks w m /\ seen (sclock (cmds w + 3)) m = m.

Definition refined c o w m : Prop :=
  let '(a, m') := spec_rop c o (fun i => sclock (cmds w + i)) m in
  exists b w', run clock (do_rop c o) w = (Done b, w') /\ tracks w' m' /\
    match a with Some a => b = a | None => is_error b end.

Lemma settled_at w m i : settled w m -> (i <= 3)%nat -> seen (sclock (cmds w + i)) m = m.
Proof. intros [_ Hm] Hi. apply (seen_before _ (sclock (cmds w + 3))); [apply sclock_mono; lia|done]. Qed.

(** Enter the method's body: [w1] is the state after the connection was taken. *)
Ltac enter Hw conn w1 Ht1 Hm0 Hm1 Hm2 :=
  pose proof (settled_at _ _ 0 Hw ltac:(lia)) as Hm0; pose proof (settled_at _ _ 1 Hw ltac:(lia)) as Hm1;
  pose proof (settled_at _ _ 2 Hw ltac:(lia)) as Hm2;
  destruct Hw as [Ht1 _]; unfold refined; cbn [spec_rop do_rop];
  unfold rs_Get, rs_Set, rs_Add, rs_Replace, rs_Delete, rs_Increment, rs_Decrement, rs_Flush, IncrementAtomic,
    IncrementCheckSet, ExpireAt, GetExpiresIn;
  match goal with
  | |- context [run clock (with_conn ?c ?body ≫= ?f) ?w] =>
      match f with fun r => mret (@?g r) =>
        let Hc := fresh in let Hr := fresh in let Ht := fresh in
        destruct (run_method c body g w _ Ht1) as (conn & w1 & Hr & Ht & Hc);
        rewrite Hr; clear Hr; rewrite <- ?Hc; rewrite <- Hc in Hm0, Hm1, Hm2; clear Ht1; rename Ht into Ht1;
        clear Hc w end
  end;
  rewrite ?Nat.add_0_r in *; rewrite ?Nat.add_1_r in *; rewrite ?(Nat.add_comm _ 2) in *; cbn [Nat.add] in *.

Lemma refines_get c k dest w m : settled w m -> refined c (RGet k dest) w m.
Proof.
  intros Hw. enter Hw conn w1 Ht Hm0 Hm1 Hm2. rewrite bind_Do.
  at_run ltac:(fun f w => destruct (run_GET conn k f w m Ht Hm0) as (w2 & -> & Ht2 & _)).
  destruct (m !! k) as [[b d]|]; cbn [fst]; [|by eexists _, w2].
  rewrite bool_decide_eq_false_2 by done. cbn [redis_Bytes]. by eexists _, w2.
Qed.

Lemma refines_set c k v exp w m : settled w m -> refined c (RSet k v exp) w m.
Proof.
  intros Hw. enter Hw conn w1 Ht Hm0 Hm1 Hm2.
  pose proof (run_invoke c conn k v exp w1 m Ht Hm0) as Hi. destruct (spec_store c _ k v exp m) as [a m'].
  destruct Hi as (err & w2 & Hr & Ht2 & Ha). rewrite (run_bind_done _ _ _ _ _ _ Hr). exists (AErr err), w2.
  split; [done|]. split; [done|]. destruct a; [done|]. by destruct Ha as [? ->].
Qed.

(** [invoke] at the end of a method. *)
Lemma finish_invoke c conn k v exp (g : option error -> answer) w m :
  tracks w m -> seen (sclock (cmds w)) m = m ->
  let '(a, m') := spec_store c (sclock (cmds w)) k v exp m in
  exists err w', run clock (r ← invoke gob_encode c conn k v exp; mret (g r)) w = (Done (g err), w') /\
    tracks w' m' /\ match a with Some b => AErr err = b | None => is_Some err end.
Proof.
  intros Ht Hm. pose proof (run_invoke c conn k v exp w m Ht Hm) as Hi. destruct (spec_store _ _ k v exp m) as [a m'].
  destruct Hi as (err & w2 & Hr & Ht2 & Ha). exists err, w2. by rewrite (run_bind_done _ _ _ _ _ _ Hr).
Qed.

Lemma refines_add c k v exp w m : settled w m -> refined c (RAdd k v exp) w m.
Proof.
  intros Hw. enter Hw conn w1 Ht Hm0 Hm1 Hm2. rewrite bind_exists.
  at_run ltac:(fun f w => destruct (run_exists conn k f w m Ht Hm0) as (w2 & -> & Ht2 & Hc2)).
  destruct (m !! k); [by eexists _, w2|]. rewrite <- Hc2 in *.
  pose proof (finish_invoke c conn k v exp AErr w2 m Ht2 Hm1) as Hi. destruct (spec_store _ _ k v exp m) as [a m'].
  destruct Hi as (err & w3 & Hr & Ht3 & Ha). exists (AErr err), w3.
  split; [done|]. split; [done|]. destruct a; [done|]. by destruct Ha as [? ->].
Qed.

Lemma refines_replace c k v exp w m : settled w m -> refined c (RReplace k v exp) w m.
Proof.
  intros Hw. enter Hw conn w1 Ht Hm0 Hm1 Hm2. unfold if_exists. rewrite bind_exists.
  at_run ltac:(fun f w => destruct (run_exists conn k f w m Ht Hm0) as (w2 & -> & Ht2 & Hc2)).
  destruct (m !! k); [|by eexists _, w2]. rewrite <- Hc2 in *.
  pose proof (run_invoke c conn k v exp w2 m Ht2 Hm1) as Hi. destruct (spec_store _ _ k v exp m) as [a m'].
  destruct Hi as (err & w3 & Hr & Ht3 & Ha). rewrite run_bind, (run_bind_done _ _ _ _ _ _ Hr), run_mret.
  eexists _, w3. split; [done|]. split; [done|]. case_bool_decide; [done|].
  destruct a; [done|]. by destruct Ha as [? ->].
Qed.

Lemma refines_delete c k w m : settled w m -> refined c (RDelete k) w m.
Proof.
  intros Hw. enter Hw conn w1 Ht Hm0 Hm1 Hm2. unfold if_exists. rewrite bind_exists.
  at_run ltac:(fun f w => destruct (run_exists conn k f w m Ht Hm0) as (w2 & -> & Ht2 & Hc2)).
  destruct (m !! k) as [v|] eqn:Hk; [|by eexists _, w2]. rewrite <- Hc2 in *. rewrite bind_Do.
  at_run ltac:(fun f w =>
    edestruct (run_Do conn "DEL" [VString k] [bytes_of_string k] f w) as (a & w3 & -> & Hp & Ht3 & _);
      [exact Ht2|reflexivity|reflexivity|]).
  rewrite Hm1, string_bytes_string, ?Hk in *. simpl in Hp. subst a. by eexists _, w3.
Qed.

Lemma refines_flush c w m : settled w m -> refined c RFlush w m.
Proof.
  intros Hw. enter Hw conn w1 Ht Hm0 Hm1 Hm2. rewrite bind_Do.
  at_run ltac:(fun f w =>
    edestruct (run_Do conn "FLUSHALL" [] [] f w) as (a & w2 & -> & Hp & Ht2 & _);
      [exact Ht|reflexivity|reflexivity|]).
  destruct Hp as [s ->]. by eexists _, w2.
Qed.

Lemma refines_increment c k n w m : settled w m -> refined c (RIncrement k n) w m.
Proof.
  intros Hw. enter Hw conn w1 Ht Hm0 Hm1 Hm2.
  at_run ltac:(fun f w => pose proof (run_get_and_set conn k n f w m Ht Hm0 Hm1) as Hg).
  destruct (spec_get_and_set k n m) as [a m']. destruct Hg as (r & w2 & -> & Ht2 & ->). by eexists _, w2.
Qed.

Lemma refines_increment_atomic c k n w m : in_uint64 n -> settled w m -> refined c (RIncrementAtomic k n) w m.
Proof.
  intros Hn Hw. enter Hw conn w1 Ht Hm0 Hm1 Hm2. rewrite bind_Do.
  at_run ltac:(fun f w => destruct (run_incr conn "INCRBY" n n k Uint64 f w m Ht Hm0) as (r & w2 & -> & Hi); [by left..|]).
  rewrite (bool_decide_ext (in_int64 n /\ in_int64 n) (in_int64 n)) in Hi by naive_solver.
  destruct (if bool_decide (in_int64 n) then _ else _) as [a m'].
  destruct Hi as [Ht2 Hr]. destruct a as [b|].
  - destruct Hr as (z & -> & ->). by eexists _, w2.
  - destruct Hr as (msg & ->). by eexists _, w2.
Qed.

Lemma refines_expire_at c k n w m : in_uint64 n -> settled w m -> refined c (RExpireAt k n) w m.
Proof.
  intros Hn Hw. enter Hw conn w1 Ht Hm0 Hm1 Hm2. rewrite bind_Do.
  set (m' := match m !! k with Some _ => _ | None => m end).
  assert (exists r, redis_spec (sclock (cmds w1)) "EXPIREAT" [bytes_of_string k; bytes_of_string (fmt_int n)]
      (seen (sclock (cmds w1)) m) = Some (r, if bool_decide (in_int64 n) then m' else m) /\
    if bool_decide (in_int64 n) then exists z, r = SInt z else r = SErr) as (r & Hs & Hr).
  { cbn [redis_spec String.eqb Ascii.eqb Bool.eqb]. rewrite Hm0, string_bytes_string. case_bool_decide.
    - rewrite redis_int_fmt by done. subst m'. destruct (m !! k) as [[b d]|]; eauto.
    - rewrite redis_int_fmt_large by done. eauto. }
  at_run ltac:(fun f w => destruct (run_Do conn "EXPIREAT" [VString k; VInt Uint64 n] _ f w m r _ Ht eq_refl Hs)
    as (a & w2 & -> & Hp & Ht2 & _)).
  case_bool_decide.
  - destruct Hr as [z ->]. simpl in Hp. subst a. by eexists _, w2.
  - subst r. destruct Hp as [msg ->]. by eexists _, w2.
Qed.

Lemma refines_expires_in c k w m : settled w m -> refined c (RGetExpiresIn k) w m.
Proof.
  intros Hw. enter Hw conn w1 Ht Hm0 Hm1 Hm2. rewrite bind_Do.
  at_run ltac:(fun f w => edestruct (run_Do conn "PTTL" [VString k] [bytes_of_string k] f w)
    as (a & w2 & -> & Hp & Ht2 & _); [exact Ht|reflexivity|reflexivity|]).
  rewrite Hm0, string_bytes_string in *. simpl in Hp. subst a. cbn [fst snd].
  destruct (m !! k) as [[b [d|]]|] eqn:Hk; [|by eexists _, w2..].
  assert (alive (sclock (cmds w1)) (b, Some d)) as Hd by (by apply (proj1 (seen_id _ m) Hm0 k)).
  unfold alive in Hd. simpl in Hd. rewrite bind_assert_Some.
  destruct (Z.eqb_spec (d - sclock (cmds w1)) (-2)); [lia|].
  destruct (Z.eqb_spec (d - sclock (cmds w1)) (-1)); [lia|]. by eexists _, w2.
Qed.

Lemma refines_decrement c k n w m : in_uint64 n -> settled w m -> refined c (RDecrement k n) w m.
Proof.
  intros Hn Hw. enter Hw conn w1 Ht Hm0 Hm1 Hm2. unfold if_exists. rewrite bind_exists.
  at_run ltac:(fun f w => destruct (run_exists conn k f w m Ht Hm0) as (w2 & -> & Ht2 & Hc2)).
  destruct (m !! k) as [[b d]|] eqn:Hk; [|by eexists _, w2]. rewrite <- Hc2 in *. rewrite bind_Do.
  at_run ltac:(fun f w => destruct (run_GET conn k f w m Ht2 Hm1) as (w3 & -> & Ht3 & Hc3)).
  rewrite Hk. cbn [redis_Int64]. rewrite <- Hc3 in Hm2.
  assert (forall x ty, in_uint64 x \/ in_int64 x ->
    let '(a, m') := if bool_decide (in_int64 x /\ in_int64 (- x)) then spec_incr k (- x) m else (None, m) in
    exists r w', run clock ((r ← Do_ conn "DECRBY" [VString k; VInt ty x]; mret (uint64_result (redis_Int64 quote r)))
        ≫= fun r => mret (ANum (fst r) (snd r))) w3 = (Done r, w') /\ tracks w' m' /\
      match a with Some a => r = a | None => is_error r end) as Hdec.
  { intros x ty Hx. destruct (run_incr conn "DECRBY" x (- x) k ty
      (fun r => mret (uint64_result (redis_Int64 quote r)) ≫= fun r => mret (ANum (fst r) (snd r))) w3 m Ht3 Hm2 Hx)
      as (r & w4 & Hr & Hi); [by right|].
    destruct (if bool_decide _ then _ else _) as [a m']. destruct Hi as [Ht4 Ha]. rewrite bind_Do, Hr.
    destruct a; [destruct Ha as (z & -> & ->)|destruct Ha as (msg & ->)]; by eexists _, w4. }
  destruct (ParseInt quote (string_of_bytes b)) as [err|z] eqn:Hp; [by apply Hdec; left|].
  destruct (uint64 z <? n); [|by apply Hdec; left]. apply Hdec. right. by eapply ParseInt_range.
Qed.

Lemma refines_check_set c k n w m : settled w m -> refined c (RIncrementCheckSet k n) w m.
Proof.
  intros Hw. enter Hw conn w1 Ht Hm0 Hm1 Hm2. rewrite bind_Do.
  at_run ltac:(fun f w => edestruct (run_Do conn "WATCH" [VString k] [bytes_of_string k] f w)
    as (a & w2 & -> & Hp & Ht2 & Hc2); [exact Ht|reflexivity|reflexivity|]).
  destruct Hp as [s ->]. cbn [snd]. rewrite Hm0 in Ht2. rewrite <- Hc2 in *.
  pose proof (run_get_and_set conn k n mret w2 m Ht2 Hm1 Hm2) as Hg.
  destruct (spec_get_and_set k n m) as [a m']. destruct Hg as (r & w3 & Hr & Ht3 & ->).
  rewrite run_bind, run_defer. rewrite run_bind in Hr.
  destruct (run clock (get_and_set quote conn k n) w2) as [[r'|msg] w3']; [|done].
  rewrite run_mret in Hr. injection Hr as -> ->.
  edestruct (run_Do conn "UNWATCH" [VString k] [bytes_of_string k] (fun _ => mret tt) w3)
    as (a & w4 & -> & _ & Ht4 & Hc4); [exact Ht3|reflexivity|reflexivity|].
  eexists _, w4. split; [reflexivity|]. split; [|done].
  intros t Hl. rewrite Ht4 by done. apply seen_seen. etransitivity; [|exact Hl]. rewrite Hc4. apply sclock_mono. lia.
Qed.

Lemma do_rop_refines c o w m : rop_ok o -> settled w m -> refined c o w m.
Proof.
  destruct o; intros Ho Hw; auto using refines_get, refines_set, refines_add, refines_replace, refines_delete,
    refines_increment, refines_decrement, refines_flush, refines_increment_atomic, refines_check_set,
    refines_expire_at, refines_expires_in.
Qed.
(** *** [IncrementCheckSet] step by step

    The end of the method, after it has read the counter and computed [sum]. *)
Definition check_set_rest conn k (sum : Z) : prog redisE answer :=
  r ← defer (call (ConnClose conn)) (defer (_ ← Do_ conn "UNWATCH" [VString k]; mret tt) (
        r ← Do_ conn "SET" [VString k; VInt Int64 sum];
        match snd r with
        | Some err => mret (0, Some err)
        | None => mret (uint64 sum, None)
        end));
  mret (ANum (fst r) (snd r)).

Lemma run_check_set_rest conn k sum w m : tracks w m -> seen (sclock (cmds w)) m = m ->
  exists w', run clock (check_set_rest conn k sum) w = (Done (ANum (uint64 sum) None), w') /\
    tracks w' (<[k := (bytes_of_string (fmt_int sum), None)]> m) /\ cmds w' = (cmds w + 2)%nat.
Proof.
  intros Ht Hm. unfold check_set_rest. rewrite run_bind, run_defer, run_defer.
  at_run ltac:(fun f w => edestruct (run_Do conn "SET" [VString k; VInt Int64 sum]
    [bytes_of_string k; bytes_of_string (fmt_int sum)] f w) as (a & w1 & -> & Hp1 & Ht1 & Hc1);
    [exact Ht|reflexivity|reflexivity|]).
  destruct Hp1 as [s ->]. cbn [snd]. rewrite run_mret. rewrite Hm, string_bytes_string in Ht1.
  at_run ltac:(fun f w => edestruct (run_Do conn "UNWATCH" [VString k] [bytes_of_string k] f w)
    as (a & w2 & -> & _ & Ht2 & Hc2); [exact Ht1|reflexivity|reflexivity|]).
  eexists. split; [reflexivity|]. split; [|unfold cmds at 1; simpl; fold (cmds w2); lia]. simpl.
  intros t Hl. transitivity (seen t (seen (sclock (cmds w1)) (<[k := (bytes_of_string (fmt_int sum), None)]> m))).
  - by apply Ht2.
  - apply seen_seen. etransitivity; [|exact Hl]. unfold cmds at 2. simpl. fold (cmds w2). rewrite Hc2.
    apply sclock_mono. lia.
Qed.

(** Its beginning: the connection, [WATCH] and [GET] of goroutine [i]. *)
Definition check_set_from conn k (n : Z) (r : goval * option error) : prog redisE answer :=
  r ← defer (call (ConnClose conn))
        match snd r with
        | Some err => mret (0, Some err)
        | None => defer (_ ← Do_ conn "UNWATCH" [VString k]; mret tt) (get_and_set quote conn k n)
        end;
  mret (ANum (fst r) (snd r)).

Definition check_set_got conn k (n : Z) (r : goval * option error) : prog redisE answer :=
  r ← defer (call (ConnClose conn)) (defer (_ ← Do_ conn "UNWATCH" [VString k]; mret tt)
    (let '(val, err) := r in
     if bool_decide (val = VNil) then mret (0, Some ErrCacheMiss)
     else
       match err with
       | Some err => mret (0, Some err)
       | None =>
           match redis_Int64 quote (val, None) with
           | inl err => mret (0, Some err)
           | inr currentVal =>
               let sum := int64 (currentVal + int64 n) in
               r ← Do_ conn "SET" [VString k; VInt Int64 sum];
               match snd r with
               | Some err => mret (0, Some err)
               | None => mret (uint64 sum, None)
               end
           end
       end));
  mret (ANum (fst r) (snd r)).

Lemma check_set_got_eq conn k n z : in_int64 z ->
  check_set_got conn k n (VBytes (bytes_of_string (fmt_int z)), None) = check_set_rest conn k (int64 (z + int64 n)).
Proof.
  intros Hz. unfold check_set_got. rewrite bool_decide_eq_false_2 by done. cbn [redis_Int64].
  by rewrite string_bytes_string, ParseInt_fmt.
Qed.

Lemma reaches_check_set c k n z d i w ps m :
  ps !! i = Some (do_rop c (RIncrementCheckSet k n)) -> settled w m ->
  m !! k = Some (bytes_of_string (fmt_int z), d) -> in_int64 z ->
  exists conn w', reaches clock (w, ps) (w', <[i := check_set_rest conn k (int64 (z + int64 n))]> ps) /\
    tracks w' m /\ cmds w' = (cmds w + 2)%nat.
Proof.
  intros Hi Hw Hk Hz. pose proof (lookup_lt_Some _ _ _ Hi) as Hlt.
  pose proof (settled_at _ _ 0 Hw ltac:(lia)) as Hm0. pose proof (settled_at _ _ 1 Hw ltac:(lia)) as Hm1.
  rewrite Nat.add_0_r in Hm0. destruct Hw as [Ht _]. set (conn := rs_conns (w_state w)).
  set (w1 := set_state w (mkRS (rs_srv (w_state w)) (rs_cmds (w_state w)) (Datatypes.S conn))).
  assert (tracks w1 m) as Ht1 by exact Ht.
  destruct (handle_Do conn "WATCH" [VString k] [bytes_of_string k] w1 m SStatus m) as (a & s2 & He2 & [x ->] & Ht2 & Hc2);
    [done|done|change (cmds w1) with (cmds w); by rewrite Hm0|].
  destruct (handle_Do conn "GET" [VString k] [bytes_of_string k] (set_state w1 s2) m
    (SBulk (bytes_of_string (fmt_int z))) m) as (a & s3 & He3 & -> & Ht3 & Hc3); [done|done| |].
  { rewrite Hc2. change (cmds w1) with (cmds w). rewrite <- Nat.add_1_r, Hm1.
    cbn [redis_spec String.eqb Ascii.eqb Bool.eqb]. by rewrite string_bytes_string, Hk. }
  exists conn, (set_state (set_state w1 s2) s3). split; [|split; [done|]].
  - eapply (reaches_call clock i (PoolGet (rpool c)) (fun conn => Do_ conn "WATCH" [VString k] ≫= check_set_from conn k n));
      [exact Hi|reflexivity|].
    eapply (reaches_call clock i); [by apply list_lookup_insert_eq|exact He2|]. rewrite list_insert_insert_eq.
    eapply (reaches_call clock i _ (check_set_got conn k n)); [by apply list_lookup_insert_eq|exact He3|].
    rewrite list_insert_insert_eq, check_set_got_eq by done. apply rtc_refl.
  - rewrite Hc3, Hc2. change (cmds w1) with (cmds w). lia.
Qed.
End refinement.
