(* ===== verification/RedisStoreProps.v ===== *)
(** * What [RedisStore] guarantees

    Theorems about persistence/redis.go: against a server that behaves as
    documented, and against a client library that answers anything. *)

From stdpp Require Import gmap strings.
From S2P Require Import Prelude Interleave LruInterface GoValues GoFmt Strconv Bytes InMemory.
From S2P Require Import Generic RedisPool RedisCommands RedisServer RedisRefine.
Local Open Scope Z_scope.

Section server.
Context (quote : string -> string).
Context (gob_encode : goval -> error + list byte) (gob_into : list byte -> goval -> option error * goval).
Context {S : Type} `{RedisServer S} (sclock : nat -> Z) (clock : nat -> Z).
Context (sclock_mono : forall i j, (i <= j)%nat -> sclock i <= sclock j).
#[local] Instance this_server : Handler redisE (redis_state S) := the_server sclock.
Implicit Types (c : RedisStore) (w : world (redis_state S)) (m : redis_db) (k : string).

(** C4. Every method of [RedisStore] answers what its specification on the database
    says, on every branch, and leaves the database the specification says, provided
    that nothing expires while its commands run. *)
Theorem redis_refines_spec c o w m : rop_ok o -> tracks sclock w m -> seen (sclock (cmds w + 3)) m = m ->
  let '(a, m') := spec_rop quote gob_encode gob_into c o (fun i => sclock (cmds w + i)%nat) m in
  exists b w', run clock (do_rop quote gob_encode gob_into c o) w = (Done b, w') /\
    tracks sclock w' m' /\ match a with Some a => b = a | None => is_error b end.
Proof. intros Ho Ht Hm. apply (do_rop_refines quote gob_encode gob_into sclock clock sclock_mono c o w m Ho). by split. Qed.

(** *** Reading back *)
Lemma tracks_seen w m : tracks sclock w m -> tracks sclock w (seen (sclock (cmds w)) m).
Proof. intros Ht t Hl. by rewrite Ht, seen_seen. Qed.

Lemma run_rs_Get c k dest w m : tracks sclock w m ->
  exists w', run clock (rs_Get quote gob_into c k dest) w =
    (Done (match seen (sclock (cmds w)) m !! k with
           | Some (b, _) => Deserialize quote gob_into b dest
           | None => (Some ErrCacheMiss, dest)
           end), w') /\ tracks sclock w' (seen (sclock (cmds w)) m).
Proof.
  intros Ht. unfold rs_Get.
  match goal with |- context [with_conn c ?body] =>
    destruct (run_with_conn sclock clock c body w) as (w1 & Hr & Hs & Hc) end.
  setoid_rewrite Hr. cbv beta.
  assert (tracks sclock w1 (seen (sclock (cmds w)) m)) as Ht1.
  { unfold tracks. rewrite Hs, Hc. by apply tracks_seen. }
  match goal with |- context [Do_ ?conn _ _ ≫= ?f] =>
    destruct (run_GET sclock clock sclock_mono conn k f w1 _ Ht1) as (w2 & Hr2 & Ht2 & _) end.
  { rewrite Hc. apply seen_seen. lia. }
  setoid_rewrite Hr2. destruct (seen _ m !! k) as [[b d]|]; [|by exists w2].
  cbn [fst]. rewrite bool_decide_eq_false_2 by done. by exists w2.
Qed.

(** A value and a destination of its type: bytes, an integer within its width, or a
    value that gob encodes and decodes. *)
Definition serial (v dest : goval) : Prop :=
  match v with
  | VBytes _ => exists b, dest = VPtr (VBytes b)
  | VInt t n => signed t <> None /\ int_of_width t n = n /\ exists n0, dest = VPtr (VInt t n0)
  | _ => exists b, gob_encode v = inr b /\ gob_into b dest = (None, VPtr v) /\
      forall x, Deserialize quote gob_into x dest = gob_into x dest
  end.

Lemma int_of_width_range t z : match signed t with
  | Some true => in_int64 (int_of_width t z) | Some false => in_uint64 (int_of_width t z) | None => True end.
Proof.
  assert (forall n, 0 < n <= 32 -> in_int64 (wrapS n z) /\ in_uint64 (wrapU n z)) as Hw.
  { intros n Hn. unfold wrapS, wrapU, in_int64, in_uint64.
    assert (2 ^ n <= 2 ^ 32) by (apply Z.pow_le_mono_r; lia).
    assert (0 < 2 ^ (n - 1) <= 2 ^ 32) by (split; [apply Z.pow_pos_nonneg; lia|apply Z.pow_le_mono_r; lia]).
    assert (2 ^ 32 < 2 ^ 63 /\ 2 ^ 63 < 2 ^ 64) by done.
    pose proof (Z.mod_pos_bound (z + 2 ^ (n - 1)) (2 ^ n) ltac:(apply Z.pow_pos_nonneg; lia)).
    pose proof (Z.mod_pos_bound z (2 ^ n) ltac:(apply Z.pow_pos_nonneg; lia)). lia. }
  destruct t; simpl; try apply int64_range; try apply uint64_range; try done; by apply Hw.
Qed.

Lemma Serialize_Deserialize v dest : serial v dest ->
  exists b, Serialize gob_encode v = inr b /\ Deserialize quote gob_into b dest = (None, VPtr v).
Proof.
  assert ((exists b, gob_encode v = inr b /\ gob_into b dest = (None, VPtr v) /\
      forall x, Deserialize quote gob_into x dest = gob_into x dest) ->
    exists b, gob_encode v = inr b /\ Deserialize quote gob_into b dest = (None, VPtr v)) as Hgob.
  { intros (b & He & Hd & Hx). exists b. by rewrite Hx. }
  destruct v as [|s|t n|bits|b|data a e|r|tn rp|v|v]; cbn [serial Serialize]; auto.
  - intros (Hs & Hn & n0 & ->). pose proof (int_of_width_range t n) as Hr. rewrite Hn in Hr.
    cbn [Deserialize]. destruct (signed t) as [sgn|]; [|done]. eexists. split; [done|]. rewrite string_bytes_string.
    destruct sgn; [rewrite ParseInt_fmt by done|rewrite ParseUint_fmt by done]; by rewrite Hn.
  - intros (b0 & ->). by exists b.
Qed.

(** [Set] alone. *)
Lemma run_rs_Set c k v exp w m : tracks sclock w m ->
  let '(a, m') := spec_store gob_encode c (sclock (cmds w)) k v exp (seen (sclock (cmds w)) m) in
  exists err w', run clock (rs_Set gob_encode c k v exp) w = (Done err, w') /\ tracks sclock w' m' /\
    match a with Some b => AErr err = b | None => is_Some err end.
Proof.
  intros Ht. unfold rs_Set.
  destruct (run_with_conn sclock clock c (fun conn => invoke gob_encode c conn k v exp) w) as (w1 & Hr & Hs & Hc).
  assert (tracks sclock w1 (seen (sclock (cmds w)) m)) as Ht1 by (unfold tracks; rewrite Hs, Hc; by apply tracks_seen).
  pose proof (run_invoke gob_encode sclock clock sclock_mono c (rs_conns (w_state w)) k v exp w1 _ Ht1) as Hi.
  rewrite Hc in Hi. specialize (Hi (seen_seen _ _ m (Z.le_refl _))). destruct (spec_store _ c _ k v exp _) as [a m'].
  destruct Hi as (err & w' & Hi & ?). exists err, w'. split; [etransitivity; [exact Hr|exact Hi]|done].
Qed.

(** C20. What is set is read back: a value set with duration [exp] (resolved against
    the default, in whole seconds) is given back by [Get] until the server's clock
    has advanced by that many seconds and is a miss from then on; without a positive
    duration it stays. *)
Theorem redis_set_get c k v exp dest w m :
  tracks sclock w m -> serial v dest ->
  resolve c exp <= 0 \/ 0 < int32 (seconds (resolve c exp)) ->
  exists w1 w2, run clock (rs_Set gob_encode c k v exp) w = (Done None, w1) /\
    run clock (rs_Get quote gob_into c k dest) w1 =
      (Done (if decide (0 < resolve c exp /\
                 sclock (cmds w) + int32 (seconds (resolve c exp)) * 1000 <= sclock (cmds w1))
             then (Some ErrCacheMiss, dest) else (None, VPtr v)), w2).
Proof.
  intros Ht Hv He. destruct (Serialize_Deserialize v dest Hv) as (b & Hb & Hd).
  pose proof (run_rs_Set c k v exp w m Ht) as Hset. unfold spec_store in Hset. rewrite Hb in Hset. cbn zeta in Hset.
  set (m0 := seen (sclock (cmds w)) m) in *.
  assert (exists w1 d, run clock (rs_Set gob_encode c k v exp) w = (Done None, w1) /\
    tracks sclock w1 (<[k := (b, d)]> m0) /\
    d = if 0 <? resolve c exp then Some (sclock (cmds w) + int32 (seconds (resolve c exp)) * 1000) else None)
    as (w1 & d & Hr & Ht1 & ->).
  { destruct (Z.ltb_spec 0 (resolve c exp)); [destruct (Z.ltb_spec 0 (int32 (seconds (resolve c exp)))); [|lia]|];
      destruct Hset as (err & w1 & Hr & Ht1 & [= ->]); by eexists w1, _. }
  destruct (run_rs_Get c k dest w1 _ Ht1) as (w2 & Hg & _). exists w1, w2. split; [done|]. rewrite Hg.
  rewrite lookup_seen, lookup_insert_eq.
  destruct (Z.ltb_spec 0 (resolve c exp)).
  - unfold alive. cbn [snd]. destruct (decide (sclock (cmds w1) < _)); [rewrite decide_False by lia; by rewrite Hd|by rewrite decide_True by lia].
  - rewrite decide_True by done. rewrite decide_False by lia. by rewrite Hd.
Qed.

(** A duration of less than a second cannot be stored: the store sends [SETEX]
    with 0 seconds, the server refuses, and the value is not stored. *)
Theorem redis_subsecond_refused c k v b exp w m :
  tracks sclock w m -> 0 < exp < Second -> Serialize gob_encode v = inr b ->
  exists err w1, run clock (rs_Set gob_encode c k v exp) w = (Done (Some err), w1) /\
    tracks sclock w1 (seen (sclock (cmds w)) m).
Proof.
  intros Ht He Hb. pose proof (run_rs_Set c k v exp w m Ht) as Hset. unfold spec_store in Hset. rewrite Hb in Hset.
  assert (resolve c exp = exp) as Hres by (unfold resolve, DEFAULT, FOREVER; repeat case_match; lia).
  assert (seconds exp = 0) as Hsec by (apply Z.quot_small; lia).
  rewrite Hres, Hsec, (proj2 (Z.ltb_lt 0 exp)) in Hset by lia.
  destruct Hset as (err & w1 & Hr & Ht1 & [e ->]). by exists e, w1.
Qed.

(** [Increment] makes a counter permanent: it stores the sum with [SET], which
    discards the deadline, so the counter is there at every later time. *)
Theorem redis_increment_permanent c k n z d w m :
  in_uint64 n -> in_int64 z -> tracks sclock w m -> seen (sclock (cmds w + 3)) m = m ->
  m !! k = Some (bytes_of_string (fmt_int z), Some d) ->
  exists w', run clock (rs_Increment quote c k n) w = (Done (uint64 (z + n), None), w') /\
    forall t, sclock (cmds w') <= t ->
      seen t (srv_db (rs_srv (w_state w'))) !! k = Some (bytes_of_string (fmt_int (int64 (z + n))), None).
Proof.
  intros Hn Hz Ht Hm Hk.
  assert (settled sclock w m) as Hw by by split.
  pose proof (refines_increment quote gob_encode gob_into sclock clock sclock_mono c k n w m Hw) as Hr.
  unfold refined in Hr. cbn [spec_rop do_rop] in Hr. unfold spec_get_and_set in Hr.
  rewrite Hk, string_bytes_string, ParseInt_fmt in Hr by done. destruct Hr as (b & w' & Hr & Ht' & ->).
  rewrite int64_add_mod in Hr, Ht'. rewrite uint64_int64 in Hr. exists w'. split.
  - rewrite run_bind in Hr. destruct (run clock (rs_Increment quote c k n) w) as [[[a e]|msg] w1]; [|done].
    simpl in Hr. by simplify_eq.
  - intros t Hl. rewrite Ht' by done. by rewrite lookup_seen, lookup_insert_eq.
Qed.

(** [ExpireAt] never reports a missing key: it compares the reply, an [int64],
    with the [int] 0, so the answer for a key that does not exist is success. *)
Theorem redis_expire_at_missing c k epoc w m :
  0 <= epoc < 2 ^ 63 -> tracks sclock w m -> seen (sclock (cmds w + 3)) m = m -> m !! k = None ->
  exists w', run clock (ExpireAt c k epoc) w = (Done None, w') /\ tracks sclock w' m.
Proof.
  intros He Ht Hm Hk. assert (settled sclock w m) as Hw by by split.
  assert (in_uint64 epoc /\ in_int64 epoc) as [Hu Hi] by (unfold in_uint64, in_int64; lia).
  pose proof (refines_expire_at quote gob_encode gob_into sclock clock sclock_mono c k epoc w m Hu Hw) as Hr.
  unfold refined in Hr. cbn [spec_rop do_rop] in Hr. rewrite Hk, bool_decide_eq_true_2 in Hr by done.
  destruct Hr as (b & w' & Hr & Ht' & ->). exists w'. split; [|done].
  rewrite run_bind in Hr. destruct (run clock (ExpireAt c k epoc) w) as [[a|msg] w1]; [|done]. simpl in Hr. by simplify_eq.
Qed.
(** C35. [IncrementCheckSet] does not check: [WATCH] has no effect without a
    transaction, so two goroutines can both be told the same total, and one of the
    two steps is lost. *)
Theorem redis_check_set_lost c k n z d w m :
  in_int64 z -> tracks sclock w m -> seen (sclock (cmds w + 7)) m = m ->
  m !! k = Some (bytes_of_string (fmt_int z), d) ->
  let p := do_rop quote gob_encode gob_into c (RIncrementCheckSet k n) in
  exists w', reaches clock (w, [p; p])
      (w', [Ret (ANum (uint64 (z + n)) None); Ret (ANum (uint64 (z + n)) None)]) /\
    tracks sclock w' (<[k := (bytes_of_string (fmt_int (int64 (z + n))), None)]> m).
Proof.
  intros Hz Ht Hm7 Hk p.
  assert (forall i, (i <= 7)%nat -> seen (sclock (cmds w + i)) m = m) as Hm.
  { intros i Hi. apply (seen_before _ (sclock (cmds w + 7))); [apply sclock_mono; lia|done]. }
  set (sum := int64 (z + int64 n)). assert (uint64 (z + n) = uint64 sum /\ int64 (z + n) = sum) as [-> ->].
  { subst sum. by rewrite int64_add_mod, uint64_int64. }
  destruct (reaches_check_set quote gob_encode gob_into sclock clock sclock_mono c k n z d 1 w [p; p] m)
    as (conn1 & w1 & Hr1 & Ht1 & Hc1); [done|by split; [|apply Hm; lia]|done|done|].
  destruct (reaches_check_set quote gob_encode gob_into sclock clock sclock_mono c k n z d 0 w1
    [p; check_set_rest conn1 k sum] m) as (conn0 & w2 & Hr2 & Ht2 & Hc2);
    [done|split; [done|rewrite Hc1, <- Nat.add_assoc; apply Hm; lia]|done|done|].
  destruct (run_check_set_rest sclock clock sclock_mono conn0 k sum w2 m Ht2) as (w3 & Hr3 & Ht3 & Hc3).
  { rewrite Hc2, Hc1, <- Nat.add_assoc. apply Hm. lia. }
  destruct (run_check_set_rest sclock clock sclock_mono conn1 k sum w3 _ Ht3) as (w4 & Hr4 & Ht4 & _).
  { apply seen_insert; [done|]. rewrite Hc3, Hc2, Hc1, <- !Nat.add_assoc. apply Hm. lia. }
  exists w4. split; [|by rewrite insert_insert_eq in Ht4].
  unfold reaches in *. etransitivity; [exact Hr1|]. etransitivity; [exact Hr2|].
  eapply (reaches_run clock 0); [reflexivity|exact Hr3|].
  eapply (reaches_run clock 1); [reflexivity|exact Hr4|]. apply rtc_refl.
Qed.
End server.

(** ** Any client

    The client library answers each command as it likes, depending on what
    happened; the state is that history. *)
Inductive revent := EGet (c : nat) | EDo (c : nat) (cmd : string) (args : list goval) | EClose (c : nat).

Record client := mkClient {
  cl_get : list revent -> nat;
  cl_do : list revent -> nat -> string -> list goval -> goval * option error }.

Definition client_handler (L : client) : Handler redisE (list revent) := fun X e h =>
  match e in redisE X return X * list revent with
  | PoolGet _ => (cl_get L h, h ++ [EGet (cl_get L h)])
  | ConnDo c cmd args => (cl_do L h c cmd args, h ++ [EDo c cmd args])
  | ConnClose c => (tt, h ++ [EClose c])
  end.

Section any_client.
Context (quote : string -> string).
Context (gob_encode : goval -> error + list byte) (gob_into : list byte -> goval -> option error * goval).
Context (L : client) (clock : nat -> Z).
#[local] Instance the_client : Handler redisE (list revent) := client_handler L.
Implicit Types (c : RedisStore) (w : world (list revent)) (k : string) (h : list revent).

(** A method's body sends commands on its own connection and does nothing else. *)
Definition on_conn (conn : nat) (e : revent) : Prop := exists cmd args, e = EDo conn cmd args.

Definition conn_contract h (conn : nat) : contract redisE (list revent) := {|
  inv := fun h' => exists ev, h' = h ++ ev /\ Forall (on_conn conn) ev;
  pre := fun X e => match e with ConnDo c _ _ => c = conn | _ => False end;
  post := fun X e x => True |}.

Lemma conn_honoured h conn : honoured (conn_contract h conn).
Proof.
  intros X e h' (ev & -> & Hev) Hpre. destruct e as [|c cmd args|]; [done| |done]. simpl in Hpre. subst c.
  split; [|done]. exists (ev ++ [EDo conn cmd args]). simpl. rewrite app_assoc. split; [done|].
  apply Forall_app. split; [done|]. apply Forall_singleton. by exists cmd, args.
Qed.

(** Bodies built from commands, branches and results. *)
Abbreviation uses h conn := (conforms (conn_contract h conn) (fun _ => True)).

Lemma uses_Do {B} h conn cmd args (f : _ -> prog redisE B) : (forall r, uses h conn (f r)) ->
  uses h conn (Do_ conn cmd args ≫= f).
Proof. intros Hf. split; [done|]. intros r _. apply Hf. Qed.

Lemma uses_invoke {B} h c conn k v exp (f : _ -> prog redisE B) : (forall r, uses h conn (f r)) ->
  uses h conn (invoke gob_encode c conn k v exp ≫= f).
Proof. intros Hf. unfold invoke. repeat case_match; [apply Hf|apply uses_Do; intros; apply Hf..]. Qed.

Lemma uses_exists {B} h conn k (f : _ -> prog redisE B) : (forall r, uses h conn (f r)) ->
  uses h conn (exists_ quote conn k ≫= f).
Proof. intros Hf. apply uses_Do. intros r. apply Hf. Qed.

Lemma uses_ret {A} h conn (p : prog redisE A) : uses h conn (p ≫= mret) -> uses h conn p.
Proof. induction p; simpl; naive_solver. Qed.

Lemma uses_defer {A} h conn fin (p : prog redisE A) : uses h conn fin -> uses h conn p -> uses h conn (defer fin p).
Proof.
  intros Hf. induction p as [a|msg|k IH|l k IH|X e k IH]; simpl; try naive_solver.
  - intros _. apply (conforms_bind (conn_contract h conn) (fun _ => True) fin (fun _ => Ret a)).
    eapply conforms_mono; [|exact Hf]. by intros [].
  - intros _. apply (conforms_bind (conn_contract h conn) (fun _ => True) fin (fun _ => Panic msg)).
    eapply conforms_mono; [|exact Hf]. by intros [].
Qed.

Lemma uses_get_and_set h conn k n : uses h conn (get_and_set quote conn k n).
Proof.
  unfold get_and_set. apply uses_Do. intros [val err]. repeat case_match; try done.
  apply uses_Do. intros r. by case_match.
Qed.

(** Taking a connection, using it, giving it back. *)
Lemma run_with_conn_any {A} c (body : nat -> prog redisE A) w : (forall h conn, uses h conn (body conn)) ->
  exists conn ev, w_state (run clock (with_conn c body) w).2 = w_state w ++ EGet conn :: ev ++ [EClose conn] /\
    Forall (on_conn conn) ev.
Proof.
  intros Hb. unfold with_conn. rewrite run_call. unfold handle at 1, the_client, client_handler. cbn iota beta.
  set (conn := cl_get L (w_state w)). set (w1 := set_state w _). rewrite run_defer.
  destruct (run_conforms (conn_contract (w_state w1) conn) clock (conn_honoured _ _) (fun _ => True)
    (body conn) w1 (Hb _ _)) as [(ev & Hev & Hall) _]; [exists []; by rewrite app_nil_r|].
  destruct (run clock (body conn) w1) as [o w2]. simpl in *. exists conn, ev. split; [|done].
  rewrite Hev. by rewrite <- !app_assoc.
Qed.

Lemma state_of_wrapped {A B} (p : prog redisE A) (g : A -> B) w :
  w_state (run clock (r ← p; mret (g r)) w).2 = w_state (run clock p w).2.
Proof. rewrite run_bind. by destruct (run clock p w) as [[] ?]. Qed.

(** C21. Connections: whatever the client library answers, and also if the method
    panics, every method takes one connection from the pool, sends its commands on
    it and gives it back as its last action. *)
Theorem redis_connection_returned c o w :
  exists conn ev, w_state (run clock (do_rop quote gob_encode gob_into c o) w).2 =
      w_state w ++ EGet conn :: ev ++ [EClose conn] /\ Forall (on_conn conn) ev.
Proof.
  destruct o; cbn [do_rop]; rewrite state_of_wrapped; apply run_with_conn_any; intros h conn.
  - apply uses_Do. intros r. repeat case_match; done.
  - apply uses_ret, uses_invoke. done.
  - apply uses_exists. intros [|[]]; [done|done|]. apply uses_ret, uses_invoke. done.
  - apply uses_exists. intros [|[]]; [done| |done]. by apply uses_invoke.
  - apply uses_exists. intros [|[]]; [done| |done]. by apply uses_Do.
  - apply uses_get_and_set.
  - apply uses_exists. intros [|[]]; [done| |done]. apply uses_Do. intros r. repeat case_match; by apply uses_Do.
  - by apply uses_Do.
  - apply uses_Do. intros [[| |[] ?| | | | | | |] []]; done.
  - apply uses_Do. intros r. case_match; [done|]. apply uses_defer; [by apply uses_Do|apply uses_get_and_set].
  - apply uses_Do. intros [ret err]. by case_match.
  - apply uses_Do. intros [[| |[] ?| | | | | | |] []]; cbn [snd fst]; try done. rewrite bind_assert_Some. by repeat destruct (Z.eqb _ _).
Qed.

(** An unreachable server looks like an empty cache: when every command fails,
    [Get] and [Increment] answer a cache miss, while the other methods of the
    interface return the failure. *)
Theorem redis_failure_is_miss c k dest n v b exp err w :
  (forall h conn cmd args, cl_do L h conn cmd args = (VNil, Some err)) -> Serialize gob_encode v = inr b ->
  (run clock (rs_Get quote gob_into c k dest) w).1 = Done (Some ErrCacheMiss, dest) /\
  (run clock (rs_Increment quote c k n) w).1 = Done (0, Some ErrCacheMiss) /\
  (run clock (rs_Set gob_encode c k v exp) w).1 = Done (Some err) /\
  (run clock (rs_Add quote gob_encode c k v exp) w).1 = Done (Some err) /\
  (run clock (rs_Replace quote gob_encode c k v exp) w).1 = Done (Some err) /\
  (run clock (rs_Delete quote c k) w).1 = Done (Some err) /\
  (run clock (rs_Decrement quote c k n) w).1 = Done (0, Some err) /\
  (run clock (rs_Flush c) w).1 = Done (Some err).
Proof.
  intros Hdown Hb.
  assert (forall A (body : nat -> prog redisE A) w1 a, (forall conn w2, (run clock (body conn) w2).1 = Done a) ->
    (run clock (with_conn c body) w1).1 = Done a) as Hconn.
  { intros A body w1 a Hbody. unfold with_conn. rewrite run_call. unfold handle at 1, the_client, client_handler.
    cbn iota beta. rewrite run_defer. specialize (Hbody (cl_get L (w_state w1)) (set_state w1 (w_state w1 ++ [EGet (cl_get L (w_state w1))]))).
    by destruct (run clock (body _) _) as [o w2]. }
  assert (forall B conn cmd args (f : _ -> prog redisE B) w1,
    exists w2, run clock (Do_ conn cmd args ≫= f) w1 = run clock (f (VNil, Some err)) w2) as HDo.
  { intros B conn cmd args f w1. unfold Do_. rewrite run_call. unfold handle at 1, the_client, client_handler.
    cbn iota beta. rewrite Hdown. by eexists. }
  repeat split; apply Hconn; intros conn w1.
  - edestruct HDo as [w2 Hr]. etransitivity; [apply (f_equal fst Hr)|]. done.
  - edestruct HDo as [w2 Hr]. etransitivity; [apply (f_equal fst Hr)|]. done.
  - unfold invoke. rewrite Hb. case_match; edestruct HDo as [w2 Hr]; (etransitivity; [apply (f_equal fst Hr)|done]).
  - edestruct HDo as [w2 Hr]. etransitivity; [apply (f_equal fst Hr)|]. done.
  - edestruct HDo as [w2 Hr]. etransitivity; [apply (f_equal fst Hr)|]. done.
  - edestruct HDo as [w2 Hr]. etransitivity; [apply (f_equal fst Hr)|]. done.
  - edestruct HDo as [w2 Hr]. etransitivity; [apply (f_equal fst Hr)|]. done.
  - edestruct HDo as [w2 Hr]. etransitivity; [apply (f_equal fst Hr)|]. done.
Qed.
End any_client.

(** ** Instances *)
Section witnesses.
Definition quote1 (s : string) : string := "'" +:+ s +:+ "'".
Definition no_gob (v : goval) : error + list byte := inl (ErrMsg "gob").
Definition no_gob_into (b : list byte) (dest : goval) : option error * goval := (Some (ErrMsg "gob"), dest).

(** A server whose clock advances by 400 ms per command, with a counter that has a
    deadline. *)
Definition sclock1 (i : nat) : Z := 400 * Z.of_nat i.
Lemma sclock1_mono i j : (i <= j)%nat -> sclock1 i <= sclock1 j.
Proof. unfold sclock1. lia. Qed.

Definition db1 : redis_db := {[ "n" := (bytes_of_string "41", Some 60000) ]}.
Definition w_redis (m : redis_db) : world (redis_state redis_db) := World (mkRS m 0 0) 0 [].
Definition store1 : RedisStore := NewRedisCache "localhost:6379" "" (5 * Second) 0.

Lemma tracks1 m : tracks sclock1 (w_redis m) m.
Proof. by intros t _. Qed.

Lemma redis_refines_spec_witness :
  exists b w', run (H := the_server sclock1) (fun _ => 0) (do_rop quote1 no_gob no_gob_into store1 (RDecrement "n" 50))
      (w_redis db1) = (Done b, w') /\
    tracks sclock1 w' {[ "n" := (bytes_of_string "0", Some 60000) ]} /\ b = ANum 0 None.
Proof.
  exact (redis_refines_spec quote1 no_gob no_gob_into sclock1 (fun _ => 0) sclock1_mono store1 (RDecrement "n" 50)
    (w_redis db1) db1 ltac:(split; [discriminate|reflexivity]) (tracks1 db1) ltac:(reflexivity)).
Defined.

Lemma redis_set_get_witness :
  exists w1 w2, run (H := the_server sclock1) (fun _ => 0) (rs_Set no_gob store1 "k" (VInt Int8 (-5)) DEFAULT) (w_redis ∅)
      = (Done None, w1) /\
    run (H := the_server sclock1) (fun _ => 0) (rs_Get quote1 no_gob_into store1 "k" (VPtr (VInt Int8 0))) w1 =
      (Done (if decide (0 < resolve store1 DEFAULT /\
                 sclock1 (cmds (w_redis ∅)) + int32 (seconds (resolve store1 DEFAULT)) * 1000 <= sclock1 (cmds w1))
             then (Some ErrCacheMiss, VPtr (VInt Int8 0)) else (None, VPtr (VInt Int8 (-5)))), w2).
Proof.
  apply (redis_set_get quote1 no_gob no_gob_into sclock1 (fun _ => 0) sclock1_mono store1 "k" (VInt Int8 (-5)) DEFAULT
    (VPtr (VInt Int8 0)) (w_redis ∅) ∅ (tracks1 ∅)).
  - split; [discriminate|]. split; [reflexivity|]. by exists 0.
  - right. reflexivity.
Defined.

Lemma redis_subsecond_refused_witness :
  exists err w1, run (H := the_server sclock1) (fun _ => 0) (rs_Set no_gob store1 "k" (VInt Int 1) (500 * Millisecond))
      (w_redis ∅) = (Done (Some err), w1) /\ tracks sclock1 w1 (seen (sclock1 0) ∅).
Proof.
  apply (redis_subsecond_refused no_gob sclock1 (fun _ => 0) sclock1_mono store1 "k" (VInt Int 1)
    (bytes_of_string "1") (500 * Millisecond) (w_redis ∅) ∅ (tracks1 ∅)); [split; reflexivity|reflexivity].
Defined.

Lemma redis_increment_permanent_witness :
  exists w', run (H := the_server sclock1) (fun _ => 0) (rs_Increment quote1 store1 "n" 1) (w_redis db1) =
      (Done (42, None), w') /\
    forall t, sclock1 (cmds w') <= t ->
      seen t (srv_db (rs_srv (w_state w'))) !! "n" = Some (bytes_of_string (fmt_int 42), None).
Proof.
  apply (redis_increment_permanent quote1 no_gob no_gob_into sclock1 (fun _ => 0) sclock1_mono store1 "n" 1 41 60000
    (w_redis db1) db1); [split; [discriminate|reflexivity]|split; [discriminate|reflexivity]|apply tracks1|reflexivity|reflexivity].
Defined.

Lemma redis_expire_at_missing_witness :
  exists w', run (H := the_server sclock1) (fun _ => 0) (ExpireAt store1 "other" 100) (w_redis db1) = (Done None, w') /\
    tracks sclock1 w' db1.
Proof.
  apply (redis_expire_at_missing quote1 no_gob no_gob_into sclock1 (fun _ => 0) sclock1_mono store1 "other" 100
    (w_redis db1) db1); [split; [discriminate|reflexivity]|apply tracks1|reflexivity|reflexivity].
Defined.

Lemma redis_check_set_lost_witness :
  let p := do_rop quote1 no_gob no_gob_into store1 (RIncrementCheckSet "n" 1) in
  exists w', reaches (H := the_server sclock1) (fun _ => 0) (w_redis db1, [p; p])
      (w', [Ret (ANum 42 None); Ret (ANum 42 None)]) /\
    tracks sclock1 w' (<["n" := (bytes_of_string (fmt_int 42), None)]> db1).
Proof.
  apply (redis_check_set_lost quote1 no_gob no_gob_into sclock1 (fun _ => 0) sclock1_mono store1 "n" 1 41 (Some 60000)
    (w_redis db1) db1); [split; [discriminate|reflexivity]|apply tracks1|reflexivity|reflexivity].
Defined.

(** A client that reaches nothing. *)
Definition down : client := mkClient (fun _ => 0%nat) (fun _ _ _ _ => (VNil, Some (ErrMsg "connection refused"))).

Lemma redis_failure_is_miss_witness :
  (run (H := the_client down) (fun _ => 0) (rs_Get quote1 no_gob_into store1 "k" (VPtr (VInt Int 0))) (World [] 0 [])).1 =
    Done (Some ErrCacheMiss, VPtr (VInt Int 0)).
Proof.
  apply (redis_failure_is_miss quote1 no_gob no_gob_into down (fun _ => 0) store1 "k" (VPtr (VInt Int 0)) 1 (VInt Int 1)
    (bytes_of_string "1") DEFAULT (ErrMsg "connection refused") (World [] 0 [])); reflexivity.
Defined.
End witnesses.
