(* ===== verification/RedisSuite.v ===== *)
(** * [RedisStore] passes the test suites

    The suites incrDecr and emptyCache of generic_test_store.go on [RedisStore] against a
    Redis server that behaves as documented, and testRedisGetExpiresIn and
    incrRedisAtomicAndExpireAt on a [GenericCache] in front of it. *)

From stdpp Require Import gmap strings.
From S2P Require Import Prelude Interleave LruInterface GoValues GoFmt Strconv Bytes InMemory.
From S2P Require Import Generic GenericProps RedisPool RedisCommands RedisServer RedisRefine RedisStoreProps TestStore TestProps.
Local Open Scope Z_scope.

Section suites.
Context (quote : string -> string).
Context (gob_encode : goval -> error + list byte) (gob_into : list byte -> goval -> option error * goval).
Context {S : Type} `{RedisServer S} (sclock : nat -> Z) (clock : nat -> Z).
Context (sclock_mono : forall i j, (i <= j)%nat -> sclock i <= sclock j).
#[local] Instance suite_server : Handler redisE (redis_state S) := the_server sclock.
#[local] Instance suite_store : CacheStore redisE RedisStore := RedisStore_CacheStore quote gob_encode gob_into.
Implicit Types (c : RedisStore) (m : redis_db) (w : world (tstate (redis_state S))).

(** Nothing in [m] expires while the suite runs. *)
Definition stays m : Prop := forall i, seen (sclock i) m = m.

Lemma stays_insert m k b d : (forall i, alive (sclock i) (b, d)) -> stays m -> stays (<[k := (b, d)]> m).
Proof. intros Hd Hm i. by apply seen_insert. Qed.

(** The database a suite works on. *)
Definition works_on w m : Prop := tracks sclock (t_inner w) m /\ stays m.

(** A method whose specification gives the answer [a]. *)
Lemma rop_runs {A} c o (p : prog redisE A) (g : A -> answer) (w : world (redis_state S)) m a m' :
  do_rop quote gob_encode gob_into c o = (r ← p; mret (g r)) -> Inj (=) (=) g -> rop_ok o ->
  tracks sclock w m -> stays m ->
  spec_rop quote gob_encode gob_into c o (fun i => sclock (cmds w + i)) m = (Some (g a), m') ->
  exists w1 : world (redis_state S), run clock p w = (Done a, w1) /\ tracks sclock w1 m'.
Proof.
  intros Hdo Hinj Ho Ht Hm Hspec.
  pose proof (do_rop_refines quote gob_encode gob_into sclock clock sclock_mono c o w m Ho) as Href.
  unfold refined in Href. rewrite Hspec in Href.
  destruct Href as (x & w1 & Hr & Ht1 & ->); [by split|]. rewrite Hdo, run_bind in Hr.
  destruct (run clock p w) as [[r|msg] w2] eqn:Hp; [|done]. rewrite run_mret in Hr.
  injection Hr as Heq ->. apply Hinj in Heq as ->. by exists w1.
Qed.

(** A call in a suite. *)
Lemma ends_run (G : guard clock) {A B} (p : prog redisE A) (f : A -> prog (testE redisE) B) w a (w1 : world (redis_state S)) b errs Q :
  run clock p (t_inner w) = (Done a, w1) -> ends clock G (f a) (t_outer w w1) b errs Q ->
  ends clock G (tstore p ≫= f) w b errs Q.
Proof.
  intros Hrun Hf. assert (run (H := suite_server) clock p (t_inner w) = (Done a, w1)) as Hr by exact Hrun.
  eapply (ends_then _ _ _ _ _ _ (t_outer w w1)); [|exact Hf].
  split; [by rewrite run_tstore, Hr|]. simpl. rewrite app_nil_r. split; [done|].
  pose proof (run_tick (H := suite_server) clock p (t_inner w)) as Htk. by rewrite Hr in Htk.
Qed.

Lemma ends_rop (G : guard clock) {A B} c o (p : prog redisE A) (g : A -> answer) (f : A -> prog (testE redisE) B)
    w m a m' b errs Q :
  do_rop quote gob_encode gob_into c o = (r ← p; mret (g r)) -> Inj (=) (=) g -> rop_ok o -> works_on w m ->
  spec_rop quote gob_encode gob_into c o (fun i => sclock (cmds (t_inner w) + i)) m = (Some (g a), m') -> stays m' ->
  (forall w1, works_on w1 m' -> ends clock G (f a) w1 b errs Q) ->
  ends clock G (tstore p ≫= f) w b errs Q.
Proof.
  intros Hdo Hinj Ho [Ht Hm] Hspec Hstays Hf.
  destruct (rop_runs c o p g (t_inner w) m a m' Hdo Hinj Ho Ht Hm Hspec) as (w1 & Hr & Ht1).
  eapply ends_run; [exact Hr|]. by apply Hf.
Qed.


(** The database has the number [n] at [k]. *)
Definition number_at w k (n : Z) : Prop :=
  exists m d, works_on w m /\ m !! k = Some (bytes_of_string (fmt_int n), d) /\ forall i, alive (sclock i) (bytes_of_string (fmt_int n), d).

Lemma number_insert w k n d m : works_on w (<[k := (bytes_of_string (fmt_int n), d)]> m) ->
  (forall i, alive (sclock i) (bytes_of_string (fmt_int n), d)) -> number_at w k n.
Proof. intros Hw Hd. exists (<[k := (bytes_of_string (fmt_int n), d)]> m), d. by rewrite lookup_insert_eq. Qed.

(** A store that keeps what is stored for [exp] for longer than the suite runs. *)
Definition long_lived c (exp : Z) : Prop :=
  let s := int32 (seconds (resolve c exp)) in
  0 < resolve c exp /\ 0 < s /\ forall i j, sclock i < sclock j + s * 1000.

Lemma spec_set_number c k n exp ts m : long_lived c exp ->
  spec_rop quote gob_encode gob_into c (RSet k (VInt Int n) exp) ts m =
    (Some (AErr None), <[k := (bytes_of_string (fmt_int n), Some (ts 0%nat + int32 (seconds (resolve c exp)) * 1000))]> m).
Proof.
  intros (Hd & Hs & _). cbn [spec_rop]. unfold spec_store. cbn [Serialize signed].
  by rewrite (proj2 (Z.ltb_lt _ _) Hd), (proj2 (Z.ltb_lt _ _) Hs).
Qed.

Lemma ends_set_number (G : guard clock) {B} c k n exp (f : option error -> prog (testE redisE) B) w m b errs Q :
  long_lived c exp -> works_on w m -> (forall w1, number_at w1 k n -> ends clock G (f None) w1 b errs Q) ->
  ends clock G (tstore (rs_Set gob_encode c k (VInt Int n) exp) ≫= f) w b errs Q.
Proof.
  intros Hc Hw Hf. pose proof Hc as (_ & _ & Hq).
  eapply (ends_rop _ c (RSet k (VInt Int n) exp) _ AErr);
    [done|apply _|done|exact Hw|by apply spec_set_number| |].
  - apply stays_insert; [|apply Hw]. intros i. apply Hq.
  - intros w1 Hw1. apply Hf. eapply number_insert; [exact Hw1|]. intros i. apply Hq.
Qed.

Lemma ends_increment_number (G : guard clock) {B} c k z n (f : Z * option error -> prog (testE redisE) B) w b errs Q :
  in_int64 z -> in_uint64 n -> number_at w k z ->
  (forall w1, number_at w1 k (int64 (z + n)) -> ends clock G (f (uint64 (z + n), None)) w1 b errs Q) ->
  ends clock G (tstore (rs_Increment quote c k n) ≫= f) w b errs Q.
Proof.
  intros Hz Hn (m & d & Hw & Hk & Hd) Hf.
  assert (forall ts, spec_rop quote gob_encode gob_into c (RIncrement k n) ts m =
    (Some (ANum (uint64 (z + n)) None), <[k := (bytes_of_string (fmt_int (int64 (z + n))), None)]> m)) as Hspec.
  { intros ts. cbn [spec_rop]. unfold spec_get_and_set.
    rewrite Hk, string_bytes_string, ParseInt_fmt, int64_add_mod, uint64_int64 by done. done. }
  eapply (ends_rop _ c (RIncrement k n) _ (fun r => ANum (fst r) (snd r)) _ _ _ (uint64 (z + n), None));
    [done|apply _|done|exact Hw|apply Hspec| |].
  - apply stays_insert; [done|apply Hw].
  - intros w1 Hw1. apply Hf. by eapply number_insert.
Qed.

Lemma ends_decrement_number (G : guard clock) {B} c k z n (f : Z * option error -> prog (testE redisE) B) w b errs Q :
  0 <= z < 2 ^ 63 -> 0 <= n < 2 ^ 63 -> number_at w k z ->
  (forall w1, number_at w1 k (Z.max 0 (z - n)) -> ends clock G (f (Z.max 0 (z - n), None)) w1 b errs Q) ->
  ends clock G (tstore (rs_Decrement quote c k n) ≫= f) w b errs Q.
Proof.
  intros Hz Hn (m & d & Hw & Hk & Hd) Hf.
  assert (in_int64 z /\ in_uint64 n) as [Hz' Hn'] by (unfold in_int64, in_uint64; lia).
  assert (forall ts, spec_rop quote gob_encode gob_into c (RDecrement k n) ts m =
    (Some (ANum (Z.max 0 (z - n)) None), <[k := (bytes_of_string (fmt_int (Z.max 0 (z - n))), d)]> m)) as Hspec.
  { intros ts. cbn [spec_rop]. rewrite Hk, string_bytes_string, ParseInt_fmt by done.
    assert (uint64 z = z) as -> by (apply uint64_id; unfold in_uint64; lia).
    set (n' := if z <? n then z else n). assert (z + - n' = Z.max 0 (z - n)) as Hsum by (unfold n'; case_match; lia).
    rewrite bool_decide_eq_true_2 by (unfold n', in_int64; case_match; lia).
    unfold spec_incr, incr_by. rewrite Hk. cbn [default from_option id]. rewrite redis_int_fmt, Hsum by done.
    rewrite bool_decide_eq_true_2 by (unfold in_int64; lia).
    rewrite uint64_id by (unfold in_uint64; lia). done. }
  eapply (ends_rop _ c (RDecrement k n) _ (fun r => ANum (fst r) (snd r)) _ _ _ (Z.max 0 (z - n), None));
    [done|apply _|done|exact Hw|apply Hspec| |].
  - apply stays_insert; [done|apply Hw].
  - intros w1 Hw1. apply Hf. by eapply number_insert.
Qed.

Ltac check_step := apply ends_check_ok; [done|]; cbv beta.
Ltac number_step lem Hk w1 Hk1 := eapply lem; [..|exact Hk|]; [done|done|]; intros w1 Hk1; cbv beta.

(** The suite incrDecr passes on [RedisStore] when it is over before the default
    duration of the store: the counter is kept as a decimal number by the server,
    read back, raised past 2^64 and lowered to zero as on the in-memory store. *)
Theorem suite_incrDecr_redis c newCache w w0 m :
  silent clock (newCache Hour) w c w0 -> works_on w0 m -> long_lived c DEFAULT ->
  exists w', silent clock (incrDecr newCache) w tt w'.
Proof.
  intros Hnew Hw Hd. apply (ends_silent clock (always clock)); [done|]. unfold incrDecr.
  eapply ends_then; [exact Hnew|]. cbv beta.
  eapply ends_set_number; [done|exact Hw|]. intros w1 Hk1. cbv beta. check_step.
  number_step ends_increment_number Hk1 w2 Hk2. check_step. check_step.
  number_step ends_decrement_number Hk2 w3 Hk3. check_step. check_step.
  number_step ends_increment_number Hk3 w4 Hk4. check_step. check_step.
  number_step ends_decrement_number Hk4 w5 Hk5. check_step.
  by apply (ends_last_check _ _ false).
Qed.
(** The suite emptyCache passes on [RedisStore]: for a key that the server does
    not have, [Get], [Delete], [Increment] and [Decrement] all answer ErrCacheMiss. *)
Theorem suite_emptyCache_redis c newCache w w0 m :
  silent clock (newCache Hour) w c w0 -> works_on w0 m -> m !! "notexist" = None ->
  exists w', silent clock (emptyCache newCache) w tt w'.
Proof.
  intros Hnew Hw Hk. apply (ends_silent clock (always clock)); [done|]. unfold emptyCache.
  eapply ends_then; [exact Hnew|]. cbv beta.
  eapply (ends_rop _ c (RGet "notexist" (VInt Int 0)) _ (fun r => AVal (fst r) (snd r)) _ _ _ (Some ErrCacheMiss, VInt Int 0));
    [done|apply _|done|exact Hw|cbn [spec_rop]; by rewrite Hk|apply Hw|]. intros w1 Hw1. cbv beta. check_step. check_step.
  eapply (ends_rop _ c (RDelete "notexist") _ AErr);
    [done|apply _|done|exact Hw1|cbn [spec_rop]; by rewrite Hk|apply Hw|]. intros w2 Hw2. cbv beta. check_step.
  eapply (ends_rop _ c (RIncrement "notexist" 1) _ (fun r => ANum (fst r) (snd r)) _ _ _ (0, Some ErrCacheMiss));
    [done|apply _|done|exact Hw2|cbn [spec_rop]; unfold spec_get_and_set; by rewrite Hk|apply Hw|].
  intros w3 Hw3. cbv beta. check_step.
  eapply (ends_rop _ c (RDecrement "notexist" 1) _ (fun r => ANum (fst r) (snd r)) _ _ _ (0, Some ErrCacheMiss));
    [done|apply _|done|exact Hw3|cbn [spec_rop]; by rewrite Hk|apply Hw|].
  intros w4 Hw4. cbv beta. by apply (ends_last_check _ _ false).
Qed.

(** *** Times *)
Lemma cmds_Add c k v exp (w : world (redis_state S)) m : tracks sclock w m -> stays m ->
  (cmds w < cmds (run clock (rs_Add quote gob_encode c k v exp) w).2)%nat.
Proof.
  intros Ht Hm. unfold rs_Add.
  match goal with |- context [with_conn c ?body] =>
    destruct (run_with_conn sclock clock c body w) as (w1 & Hr & Hs & Hc) end.
  setoid_rewrite Hr. cbv beta.
  match goal with |- context [exists_ quote ?conn k ≫= ?f] =>
    destruct (run_exists quote sclock clock sclock_mono conn k f w1 m) as (w2 & Hr2 & _ & Hc2) end.
  { unfold tracks. by rewrite Hs, Hc. }
  { apply Hm. }
  setoid_rewrite Hr2. rewrite <- Hc, <- Nat.le_succ_l, <- Hc2. apply run_cmds.
Qed.

Context {T : Type} `{CacheStore redisE T} (time_String : Z -> string).
#[local] Instance suite_ops : RedisOps redisE RedisStore := RedisStore_RedisOps quote.

(** The facade hands the two calls to the store. *)
Lemma run_g_Add_redis (g : GenericCache T RedisStore) c k v exp (w : world (redis_state S)) :
  Cache g = CRedis c -> exp <> 0 ->
  exists w1 : world (redis_state S), w_state w1 = w_state w /\ forall w2 : world (redis_state S),
    run clock (rs_Add quote gob_encode c k v exp) w1 = (Done None, w2) -> run clock (g_Add g k v exp) w = (Done None, w2).
Proof.
  intros Hg He. unfold g_Add. rewrite Hg. cbn [is_nil].
  match goal with |- context [logDebug g ?m ≫= ?f] => destruct (run_logDebug clock g m f w) as (w1 & Hr & Hs & _) end.
  exists w1. split; [done|]. intros w2 Hadd. rewrite Hr. cbv zeta.
  destruct (Z.eqb_spec exp 0); [done|]. unfold the_store. rewrite Hg, bind_mret. cbn [st_Add cs_Add].
  setoid_rewrite (run_bind_done _ _ _ _ _ _ Hadd). done.
Qed.

Lemma run_g_ExpiresIn_redis (g : GenericCache T RedisStore) c k (w : world (redis_state S)) :
  Cache g = CRedis c ->
  exists w1 : world (redis_state S), w_state w1 = w_state w /\ forall n (w2 : world (redis_state S)),
    run clock (GetExpiresIn c k) w1 = (Done (n, None), w2) -> run clock (RedisGetExpiresIn g k) w = (Done (n, None), w2).
Proof.
  intros Hg. unfold RedisGetExpiresIn. rewrite Hg. cbn [is_nil].
  match goal with |- context [logDebug g ?m ≫= ?f] => destruct (run_logDebug clock g m f w) as (w1 & Hr & Hs & _) end.
  exists w1. split; [done|]. intros n w2 Hget. rewrite Hr. unfold the_redis. rewrite Hg, bind_mret.
  setoid_rewrite (run_bind_done _ _ _ _ _ _ Hget). done.
Qed.

Lemma run_g_Set_redis gob_enc (g : GenericCache T RedisStore) c k n (w : world (redis_state S)) :
  Cache g = CRedis c ->
  exists w1 : world (redis_state S), w_state w1 = w_state w /\ forall w2 : world (redis_state S),
    run clock (rs_Set gob_encode c k (VInt Int n) (gDefaultExp g)) w1 = (Done None, w2) ->
    run clock (g_Set gob_enc g k (VInt Int n) DEFAULT) w = (Done None, w2).
Proof.
  intros Hg. unfold g_Set. rewrite Hg. cbn [is_nil].
  match goal with |- context [logDebug g ?m ≫= ?f] => destruct (run_logDebug clock g m f w) as (w1 & Hr & Hs & _) end.
  assert (forall w3 w2 : world (redis_state S), run clock (rs_Set gob_encode c k (VInt Int n) (gDefaultExp g)) w3 = (Done None, w2) ->
    run clock (set_store g k (VInt Int n) (gDefaultExp g)) w3 = (Done None, w2)) as Hset.
  { intros w3 w2 Hw. unfold set_store, the_store. rewrite Hg, bind_mret. cbn [st_Set cs_Set].
    setoid_rewrite (run_bind_done _ _ _ _ _ _ Hw). done. }
  setoid_rewrite Hr. cbn [Z.eqb DEFAULT negb]. destruct (EncryptData g); [|exists w1; auto].
  match goal with |- context [run clock (logDebug g ?m ≫= ?f) w1] =>
    destruct (run_logDebug clock g m f w1) as (w2 & Hr2 & Hs2 & _) end.
  exists w2. split; [congruence|]. intros w3 Hw. rewrite Hr2. by apply Hset.
Qed.

Lemma run_g_Get_redis gob_decode (g : GenericCache T RedisStore) c k n (w : world (redis_state S)) :
  Cache g = CRedis c ->
  exists w1 : world (redis_state S), w_state w1 = w_state w /\ forall v (w2 : world (redis_state S)),
    run clock (rs_Get quote gob_into c k (VPtr (VInt Uint64 n))) w1 = (Done (Some ErrCacheMiss, v), w2) ->
    run clock (g_Get gob_decode g k (VPtr (VInt Uint64 n))) w = (Done (Some ErrCacheMiss, v), w2).
Proof.
  intros Hg. unfold g_Get. rewrite Hg. cbn [is_nil].
  match goal with |- context [logDebug g ?m ≫= ?f] => destruct (run_logDebug clock g m f w) as (w1 & Hr & Hs & _) end.
  exists w1. split; [done|]. intros v w2 Hget. setoid_rewrite Hr. change (typeof (VPtr (VInt Uint64 n))) with "*uint64".
  cbn [String.eqb Ascii.eqb Bool.eqb orb]. rewrite bool_decide_eq_true_2 by (compute_done).
  unfold the_store. rewrite Hg, bind_mret. cbn [st_Get cs_Get]. setoid_rewrite (run_bind_done _ _ _ _ _ _ Hget). done.
Qed.

(** The suite testRedisGetExpiresIn passes on a [GenericCache] in front of Redis
    when it runs within half a second: a value added for a second has between 500
    and 1000 milliseconds left. *)
Theorem suite_GetExpiresIn_redis (g : GenericCache T RedisStore) c newCache w w0 m :
  Cache g = CRedis c -> silent clock (newCache Minute) (tick w) g w0 -> works_on w0 m ->
  m !! ("get-expires-in-" +:+ time_String (clock (w_tick w))) = None ->
  (forall i j, sclock i <= sclock j + 500) ->
  exists w', silent clock (testRedisGetExpiresIn time_String newCache) w tt w'.
Proof.
  intros Hg Hnew [Ht Hm] Hk Hquick. apply (ends_silent clock (always clock)); [done|]. unfold testRedisGetExpiresIn.
  eapply (ends_then _ _ _ _ _ _ (tick w)); [by split; [|simpl; rewrite app_nil_r; auto]|]. cbv beta zeta.
  set (key := "get-expires-in-" +:+ _) in *.
  eapply ends_then; [exact Hnew|]. cbv beta.
  destruct (run_g_Add_redis g c key (VInt Int 1) Second (t_inner w0) Hg ltac:(done)) as (w1 & Hs1 & Hadd).
  apply (tracks_state sclock _ w1) in Ht; [|done].
  set (at0 := sclock (cmds w1 + 1)). set (m' := <[key := (bytes_of_string (fmt_int 1), Some (at0 + 1000))]> m).
  assert (stays m') as Hm'.
  { apply stays_insert; [|done]. intros i. unfold alive. simpl. specialize (Hquick i (cmds w1 + 1)%nat). fold at0 in Hquick. lia. }
  destruct (rop_runs c (RAdd key (VInt Int 1) Second) (rs_Add quote gob_encode c key (VInt Int 1) Second) AErr w1 m None m') as (w2 & Hr2 & Ht2);
    [done|apply _|done|done|done|cbn [spec_rop]; by rewrite Hk|].
  pose proof (cmds_Add c key (VInt Int 1) Second w1 m Ht Hm) as Hlater. rewrite Hr2 in Hlater.
  eapply ends_run; [exact (Hadd _ Hr2)|]. cbv beta. check_step.
  destruct (run_g_ExpiresIn_redis g c key (t_inner (t_outer w0 w2)) Hg) as (w3 & Hs3 & Hget).
  apply (tracks_state sclock _ w3) in Ht2; [|done]. assert (cmds w3 = cmds w2) as Hc3 by (unfold cmds; by rewrite Hs3).
  destruct (rop_runs c (RGetExpiresIn key) (GetExpiresIn c key) (fun r => ANum (fst r) (snd r)) w3 m' (at0 + 1000 - sclock (cmds w3 + 0), None) m')
    as (w4 & Hr4 & Ht4); [done|apply _|done|done|done|cbn [spec_rop]; unfold m'; by rewrite lookup_insert_eq|].
  eapply ends_run; [exact (Hget _ _ Hr4)|]. cbv beta. cbn [snd fst]. rewrite Nat.add_0_r, Hc3.
  assert (500 <= at0 + 1000 - sclock (cmds w2) <= 1000) as Hn.
  { pose proof (Hquick (cmds w2) (cmds w1 + 1)%nat). pose proof (sclock_mono (cmds w1 + 1) (cmds w2) ltac:(simpl in Hlater; lia)). unfold at0. lia. }
  eapply ends_then; [by split; [|rewrite app_nil_r; auto]|]. cbv beta.
  apply ends_check_ok; [apply orb_false_iff; split; apply Z.ltb_ge; simpl; lia|]. cbv beta.
  intros _. eexists. split; [|done]. split; [reflexivity|]. simpl. by rewrite app_nil_r.
Qed.

(** *** Counters that expire at a given time *)
Lemma div_Second t : 0 <= t -> 0 <= t / Second <= t /\ t / Second * Second <= t < (t / Second + 1) * Second.
Proof.
  intros Ht. pose proof (Z.div_mod t Second ltac:(done)). pose proof (Z.mod_pos_bound t Second ltac:(done)).
  split; [|lia]. split; [apply Z.div_pos; [lia|done]|]. apply Z.div_le_upper_bound; [done|]. unfold Second. lia.
Qed.

Lemma ends_unix (G : guard clock) {B} s (f : Z -> prog (testE redisE) B) w b errs Q :
  0 <= clock (w_tick w) < 2 ^ 62 -> 0 <= s < 2 ^ 62 ->
  ends clock G (f (clock (w_tick w) / Second + s)) (tick w) b errs Q -> ends clock G (unix_in s ≫= f) w b errs Q.
Proof.
  intros Hr Hs Hf. destruct (div_Second (clock (w_tick w))) as [Hd _]; [lia|].
  eapply (ends_then _ _ _ _ _ _ (tick w)); [split; [|by simpl; rewrite app_nil_r; auto]|exact Hf].
  unfold unix_in. rewrite run_time_Now. unfold Unix.
  rewrite (int64_id (clock (w_tick w) / Second)), int64_id, uint64_id; [done|unfold in_uint64, in_int64; lia..].
Qed.

Lemma ends_the_redis (G : guard clock) {B} (g : GenericCache T RedisStore) c (f : RedisStore -> prog (testE redisE) B) w m b errs Q :
  Cache g = CRedis c -> works_on w m -> (forall w1, works_on w1 m -> w_tick w1 = w_tick w -> ends clock G (f c) w1 b errs Q) ->
  ends clock G (tstore (the_redis g) ≫= f) w b errs Q.
Proof.
  intros Hg Hw Hf. eapply (ends_run _ _ _ _ c (t_inner w)); [unfold the_redis; by rewrite Hg|]. by apply Hf.
Qed.

Lemma ends_redis_method (G : guard clock) {A B} (g : GenericCache T RedisStore) c (p : RedisStore -> prog redisE A)
    (f : A -> prog (testE redisE) B) w b errs Q :
  Cache g = CRedis c -> ends clock G (tstore (p c) ≫= f) w b errs Q -> ends clock G (tstore (s ← the_redis g; p s) ≫= f) w b errs Q.
Proof. intros Hg Hp. unfold the_redis. by rewrite Hg. Qed.

Lemma spec_incr_number k z n d m : in_int64 z -> in_int64 (z + n) ->
  m !! k = Some (bytes_of_string (fmt_int z), d) \/ m !! k = None /\ z = 0 /\ d = None ->
  spec_incr k n m = (Some (ANum (uint64 (z + n)) None), <[k := (bytes_of_string (fmt_int (z + n)), d)]> m).
Proof.
  intros Hz Hn Hk. unfold spec_incr, incr_by.
  assert (default (bytes_of_string "0", None) (m !! k) = (bytes_of_string (fmt_int z), d)) as ->.
  { by destruct Hk as [-> | (-> & -> & ->)]. }
  by rewrite redis_int_fmt, bool_decide_eq_true_2.
Qed.

Lemma ends_increment_atomic (G : guard clock) {B} c k z n d (f : Z * option error -> prog (testE redisE) B) w m b errs Q :
  in_int64 z -> 0 <= n < 2 ^ 63 -> in_int64 (z + n) -> works_on w m ->
  m !! k = Some (bytes_of_string (fmt_int z), d) \/ m !! k = None /\ z = 0 /\ d = None ->
  (forall i, alive (sclock i) (bytes_of_string (fmt_int (z + n)), d)) ->
  (forall w1, works_on w1 (<[k := (bytes_of_string (fmt_int (z + n)), d)]> m) -> ends clock G (f (uint64 (z + n), None)) w1 b errs Q) ->
  ends clock G (tstore (IncrementAtomic c k n) ≫= f) w b errs Q.
Proof.
  intros Hz Hn Hsum Hw Hk Hd Hf.
  eapply (ends_rop _ c (RIncrementAtomic k n) _ (fun r => ANum (fst r) (snd r)) _ _ _ (uint64 (z + n), None));
    [done|apply _|unfold rop_ok, in_uint64; lia|exact Hw| |apply stays_insert; [exact Hd|apply Hw]|exact Hf].
  cbn [spec_rop]. rewrite bool_decide_eq_true_2 by (unfold in_int64; lia). by apply spec_incr_number.
Qed.

Lemma ends_check_set (G : guard clock) {B} c k z n d (f : Z * option error -> prog (testE redisE) B) w m b errs Q :
  in_int64 z -> in_uint64 n -> works_on w m -> m !! k = Some (bytes_of_string (fmt_int z), d) ->
  (forall w1, works_on w1 (<[k := (bytes_of_string (fmt_int (int64 (z + n))), None)]> m) ->
     ends clock G (f (uint64 (z + n), None)) w1 b errs Q) ->
  ends clock G (tstore (IncrementCheckSet quote c k n) ≫= f) w b errs Q.
Proof.
  intros Hz Hn Hw Hk Hf.
  eapply (ends_rop _ c (RIncrementCheckSet k n) _ (fun r => ANum (fst r) (snd r)) _ _ _ (uint64 (z + n), None)
    (<[k := (bytes_of_string (fmt_int (int64 (z + n))), None)]> m));
    [done|apply _|done|exact Hw| |apply stays_insert; [done|apply Hw]|exact Hf].
  cbn [spec_rop]. unfold spec_get_and_set. by rewrite Hk, string_bytes_string, ParseInt_fmt, int64_add_mod, uint64_int64 by done.
Qed.

Lemma ends_check_set_miss (G : guard clock) {B} c k n (f : Z * option error -> prog (testE redisE) B) w m b errs Q :
  in_uint64 n -> works_on w m -> m !! k = None ->
  (forall w1, works_on w1 m -> ends clock G (f (0, Some ErrCacheMiss)) w1 b errs Q) ->
  ends clock G (tstore (IncrementCheckSet quote c k n) ≫= f) w b errs Q.
Proof.
  intros Hn Hw Hk Hf.
  eapply (ends_rop _ c (RIncrementCheckSet k n) _ (fun r => ANum (fst r) (snd r)) _ _ _ (0, Some ErrCacheMiss));
    [done|apply _|done|exact Hw|cbn [spec_rop]; unfold spec_get_and_set; by rewrite Hk|apply Hw|exact Hf].
Qed.

(** [ExpireAt], before and after the given time. *)
Lemma run_ExpireAt c k epoc b d (w : world (redis_state S)) m :
  0 <= epoc < 2 ^ 63 -> tracks sclock w m -> stays m -> m !! k = Some (b, d) ->
  exists w1 : world (redis_state S), run clock (ExpireAt c k epoc) w = (Done None, w1) /\
    tracks sclock w1 (if decide (sclock (cmds w) < epoc * 1000) then <[k := (b, Some (epoc * 1000))]> m else delete k m).
Proof.
  intros He Ht Hm Hk. eapply (rop_runs c (RExpireAt k epoc) _ AErr);
    [done|apply _|unfold rop_ok, in_uint64; lia|done|done|].
  cbn [spec_rop]. rewrite bool_decide_eq_true_2 by (unfold in_int64; lia). rewrite Hk, Nat.add_0_r. reflexivity.
Qed.

(** **** The suite incrRedisAtomicAndExpireAt *)
Context (gob_enc : goval -> error + list byte) (gob_decode : list byte -> error + goval).
Context (others : Z -> Z -> prog (testE redisE) unit).

(** Commands after a sleep are executed after its end, on the server's clock too. *)
Definition served_after (u : Z) w : Prop := u <= sclock (cmds (t_inner w)) * Millisecond.

(** The others work on other databases. *)
Definition others_apart : Prop := forall now d w m, tracks sclock (t_inner w) m ->
  sleeps clock served_after (others now d) w ->
  exists w', silent clock (others now d) w tt w' /\ tracks sclock (t_inner w') m.

Context (Hclock : monotone clock) (Hrange : forall i, 0 <= clock i < 2 ^ 62).

(** A counter that is given 30 seconds, when the clocks agree to 20. *)
Lemma ends_still_there (G : guard clock) {B} (g : GenericCache T RedisStore) c k b d (f : option error -> prog (testE redisE) B) w m r errs Q :
  Cache g = CRedis c -> (forall i j, sclock i * Millisecond <= clock j + 20 * Second) -> works_on w m -> m !! k = Some (b, d) ->
  (forall w1 d1, works_on w1 (<[k := (b, d1)]> m) -> ends clock G (f None) w1 r errs Q) ->
  ends clock G (at30 ← unix_in 30; err ← tstore (s ← the_redis g; rs_ExpireAt s k at30); f err) w r errs Q.
Proof.
  intros Hg Hnear [Ht Hm] Hk Hf. apply ends_unix; [apply Hrange|lia|]. set (t := clock (w_tick w)).
  destruct (div_Second t) as [Hat Hsec]; [apply Hrange|]. pose proof (Hrange (w_tick w)) as Hr. fold t in Hr.
  assert (forall i, sclock i < (t / Second + 30) * 1000) as Hat30.
  { intros i. specialize (Hnear i (w_tick w)). fold t in Hnear. unfold Second, Millisecond in *. lia. }
  destruct (run_ExpireAt c k (t / Second + 30) b d (t_inner (tick w)) m) as (w1 & Hr1 & Ht1); [lia|done|done|done|].
  rewrite decide_True in Ht1 by apply Hat30.
  eapply ends_redis_method; [exact Hg|]. eapply (ends_run _ _ _ _ None w1); [exact Hr1|]. eapply Hf.
  split; [exact Ht1|]. by apply stays_insert.
Qed.

(** A counter that is given a second, and two seconds later. *)
Lemma ends_expired (g : GenericCache T RedisStore) c k n b w m :
  Cache g = CRedis c -> others_apart -> works_on w m -> m !! k = Some (b, None) ->
  ends clock (slept clock served_after) (
    at1 ← unix_in 1;
    err ← tstore (s ← the_redis g; rs_ExpireAt s k at1);
    _ ← check (failed err) "Error setting expire at for 'int': %s" [ArgErr err];
    _ ← time_Sleep others (2 * Second);
    r ← tstore (g_Get gob_decode g k (VPtr (VInt Uint64 n)));
    check (is_not (fst r) ErrCacheMiss) "Expected cache miss" []) w tt [] (fun _ => True).
Proof.
  intros Hg Hothers [Ht Hm] Hk. apply ends_unix; [apply Hrange|lia|]. set (t := clock (w_tick w)).
  destruct (div_Second t) as [Hat Hsec]; [apply Hrange|].
  destruct (run_ExpireAt c k (t / Second + 1) b None (t_inner (tick w)) m) as (w1 & Hr1 & Ht1);
    [pose proof (Hrange (w_tick w)) as Hr; fold t in Hr; lia|done|done|done|].
  eapply (ends_run _ _ _ _ None w1); [unfold the_redis; rewrite Hg; exact Hr1|]. cbv beta. check_step.
  set (w2 := t_outer (tick w) w1). set (m1 := if decide _ then _ else _) in Ht1. set (now := clock (w_tick w2)).
  assert (t <= now) as Hnow.
  { apply Hclock. pose proof (run_tick (H := suite_server) clock (ExpireAt c k (t / Second + 1)) (t_inner (tick w))) as Htk.
    assert (run (H := suite_server) clock (ExpireAt c k (t / Second + 1)) (t_inner (tick w)) = (Done None, w1)) as Hr1' by exact Hr1.
    rewrite Hr1' in Htk. simpl in *. lia. }
  apply ends_asleep. intros Hs. destruct (Hothers now (2 * Second) (tick w2) m1 Ht1 Hs) as (w3 & Hr3 & Ht3).
  exists w3. split; [done|]. unfold served_after. intros Hlate.
  destruct (run_g_Get_redis gob_decode g c k n (t_inner w3) Hg) as (w4 & Hs4 & Hget).
  apply (tracks_state sclock _ w4) in Ht3; [|done].
  destruct (run_rs_Get quote gob_into sclock clock sclock_mono c k (VPtr (VInt Uint64 n)) w4 m1 Ht3) as (w5 & Hr5 & _).
  assert (seen (sclock (cmds w4)) m1 !! k = None) as Hnone.
  { assert (cmds w4 = cmds (t_inner w3)) as -> by (unfold cmds; by rewrite Hs4). rewrite lookup_seen.
    unfold m1. destruct (decide _); [|by rewrite lookup_delete_eq]. rewrite lookup_insert_eq. apply decide_False.
    unfold alive. cbn [snd]. unfold Millisecond, Second in *. lia. }
  rewrite Hnone in Hr5. eapply (ends_run _ _ _ _ _ w5); [exact (Hget _ _ Hr5)|]. by apply (ends_last_check _ _ false).
Qed.

(** C38. The suite incrRedisAtomicAndExpireAt passes on a [GenericCache] in front of
    Redis whose clock and that of the program differ by less than 20 seconds while it
    runs, and which serves after a sleep what is asked after it: counters add up across
    IncrementAtomic and IncrementCheckSet, a missing one is a miss for the latter and 0
    for the former, the counter that is given 30 seconds is still there and the one that
    is given one second is gone after two. *)
Theorem suite_incrAtomic_redis (g : GenericCache T RedisStore) c newStore w w0 m :
  Cache g = CRedis c -> silent clock (newStore Hour) w g w0 -> works_on w0 m ->
  m !! "badkey" = None -> m !! "newInt" = None -> long_lived c (gDefaultExp g) -> others_apart ->
  (forall i j, sclock i * Millisecond <= clock j + 20 * Second) ->
  sleeps clock served_after (incrRedisAtomicAndExpireAt gob_enc gob_decode others newStore) w ->
  exists w', silent clock (incrRedisAtomicAndExpireAt gob_enc gob_decode others newStore) w tt w'.
Proof.
  intros Hg Hnew [Ht Hm] Hbad Hint Hlong Hothers Hnear Hsleeps.
  apply (ends_silent clock (slept clock served_after)); [done|]. unfold incrRedisAtomicAndExpireAt.
  eapply ends_then; [exact Hnew|]. cbv beta.
  destruct (run_g_Set_redis gob_enc g c "int" 10 (t_inner w0) Hg) as (w1 & Hs1 & Hset).
  apply (tracks_state sclock _ w1) in Ht; [|done].
  destruct (rop_runs c (RSet "int" (VInt Int 10) (gDefaultExp g)) _ AErr w1 m None _ eq_refl _ I Ht Hm (spec_set_number _ _ _ _ _ _ Hlong))
    as (w2 & Hr2 & Ht2).
  eapply ends_run; [exact (Hset _ Hr2)|]. cbv beta. check_step.
  set (d := Some _) in Ht2. assert (forall b i, alive (sclock i) (b, d)) as Hd by (intros b i; apply Hlong).
  assert (works_on (t_outer w0 w2) (<["int" := (bytes_of_string (fmt_int 10), d)]> m)) as Hw2.
  { split; [exact Ht2|]. by apply stays_insert. }
  eapply ends_redis_method; [exact Hg|]. eapply (ends_increment_atomic _ c "int" 10 50 d); [done|done|done|exact Hw2|left; apply lookup_insert_eq|apply Hd|].
  intros w3 Hw3. rewrite insert_insert_eq in Hw3. cbv beta. check_step.
  eapply (ends_the_redis _ g c); [done|exact Hw3|]. intros w4 Hw4 _.
  eapply (ends_still_there _ g c "int"); [done|done|exact Hw4|apply lookup_insert_eq|]. intros w5 d1 Hw5.
  rewrite insert_insert_eq in Hw5. cbv beta. check_step. check_step.
  eapply ends_redis_method; [exact Hg|]. eapply (ends_check_set _ c "int" 60 50); [done|done|exact Hw5|apply lookup_insert_eq|].
  intros w6 Hw6. rewrite insert_insert_eq in Hw6. cbv beta. check_step. check_step.
  eapply ends_redis_method; [exact Hg|]. eapply (ends_check_set_miss _ c "badkey" 50); [done|exact Hw6|by rewrite lookup_insert_ne|].
  intros w7 Hw7. cbv beta. check_step.
  eapply ends_redis_method; [exact Hg|].
  eapply (ends_increment_atomic _ c "newInt" 0 2 None); [done|done|done|exact Hw7|right; by rewrite lookup_insert_ne|done|].
  intros w8 Hw8. cbv beta. check_step. check_step.
  eapply (ends_the_redis _ g c); [done|exact Hw8|]. intros w9 Hw9 _.
  eapply (ends_expired g c); [done|done|exact Hw9|apply lookup_insert_eq].
Qed.
End suites.

(** ** Instances *)
Section redis_witnesses.
(** A server on which the suites take at most 400 ms, and stores for it. *)
Definition sclock2 (i : nat) : Z := Z.min (100 * Z.of_nat i) 400.
Lemma sclock2_mono i j : (i <= j)%nat -> sclock2 i <= sclock2 j.
Proof. unfold sclock2. lia. Qed.

Definition w_redis_suite : world (tstate (redis_state redis_db)) := World (mkT (mkRS ∅ 0 0) [] []) 0 [].
Definition redis2 (d : Z) : RedisStore := NewRedisCache "localhost:6379" EmptyString d 0.
Definition new_redis (d : Z) : prog (testE redisE) RedisStore := mret (redis2 d).
Definition redis_facade : GenericCache RedisStore RedisStore :=
  NewCacheWithPool (CRedis (redis2 Minute)) Writable L2 "seekrit" 30 (Some (bytes_of_string "test")) false.

Lemma works_on_empty : works_on (S := redis_db) sclock2 w_redis_suite ∅.
Proof. by split; [intros t _|intros i]. Qed.

Lemma suite_incrDecr_redis_witness : exists w',
  silent (H := the_server sclock2) (fun _ => 0)
    (incrDecr (H := RedisStore_CacheStore quote1 no_gob no_gob_into) new_redis) w_redis_suite tt w'.
Proof.
  apply (suite_incrDecr_redis quote1 no_gob no_gob_into sclock2 (fun _ => 0) sclock2_mono (redis2 Hour) new_redis
    w_redis_suite w_redis_suite ∅).
  - by split.
  - exact works_on_empty.
  - split; [reflexivity|]. split; [reflexivity|]. intros i j.
    assert (int32 (seconds (resolve (redis2 Hour) DEFAULT)) = 3600) as -> by reflexivity. unfold sclock2. lia.
Defined.

Lemma suite_emptyCache_redis_witness : exists w',
  silent (H := the_server sclock2) (fun _ => 0)
    (emptyCache (H := RedisStore_CacheStore quote1 no_gob no_gob_into) new_redis) w_redis_suite tt w'.
Proof.
  apply (suite_emptyCache_redis quote1 no_gob no_gob_into sclock2 (fun _ => 0) sclock2_mono (redis2 Hour) new_redis
    w_redis_suite w_redis_suite ∅).
  - by split.
  - exact works_on_empty.
  - reflexivity.
Defined.

Lemma suite_GetExpiresIn_redis_witness : exists w',
  silent (H := the_server sclock2) (fun _ => 0)
    (testRedisGetExpiresIn (H := RedisStore_CacheStore quote1 no_gob no_gob_into)
      (H0 := RedisStore_CacheStore quote1 no_gob no_gob_into) (RedisOps0 := RedisStore_RedisOps quote1)
      fmt_int (fun _ => mret redis_facade)) w_redis_suite tt w'.
Proof.
  apply (suite_GetExpiresIn_redis quote1 no_gob no_gob_into sclock2 (fun _ => 0) sclock2_mono
    (H0 := RedisStore_CacheStore quote1 no_gob no_gob_into) fmt_int redis_facade (redis2 Minute)
    (fun _ => mret redis_facade) w_redis_suite (tick w_redis_suite) ∅).
  - reflexivity.
  - by split.
  - exact works_on_empty.
  - reflexivity.
  - intros i j. unfold sclock2. lia.
Defined.

(** Clocks that agree: the suite reads 1000, 1001 and 1002 seconds, and its thirteenth
    command, after the sleep, is executed at 1004 seconds. *)
Definition pclock (i : nat) : Z := (1000 + Z.of_nat i) * Second.
Definition sclock4 (i : nat) : Z := if (i <? 12)%nat then 1000000 else 1004000.
Lemma sclock4_mono i j : (i <= j)%nat -> sclock4 i <= sclock4 j.
Proof. intros Hij. unfold sclock4. destruct (Nat.ltb_spec i 12), (Nat.ltb_spec j 12); lia. Qed.
Lemma sclock4_range i : 1000000 <= sclock4 i <= 1004000.
Proof. unfold sclock4. by destruct (i <? 12)%nat. Qed.

(** [pclock] for the few readings a suite takes, within range. *)
Definition pclock3 (i : nat) : Z := pclock (Nat.min i 3).

Lemma suite_incrAtomic_redis_witness : exists w',
  silent (H := the_server sclock4) pclock3
    (incrRedisAtomicAndExpireAt (H := RedisStore_CacheStore quote1 no_gob no_gob_into) (H0 := RedisStore_CacheStore quote1 no_gob no_gob_into)
      (RedisOps0 := RedisStore_RedisOps quote1)
      no_gob (fun _ => inl (ErrMsg "gob")) (fun _ _ => mret tt) (fun _ => mret redis_facade)) w_redis_suite tt w'.
Proof.
  apply (suite_incrAtomic_redis quote1 no_gob no_gob_into sclock4 pclock3 sclock4_mono
    (H0 := RedisStore_CacheStore quote1 no_gob no_gob_into) no_gob (fun _ => inl (ErrMsg "gob")) (fun _ _ => mret tt)) with
    (g := redis_facade) (c := redis2 Minute) (w0 := w_redis_suite) (m := ∅).
  - intros i j Hij. unfold pclock3, pclock, Second. lia.
  - intros i. unfold pclock3, pclock, Second. lia.
  - reflexivity.
  - by split.
  - split; [by intros t _|by intros i].
  - reflexivity.
  - reflexivity.
  - split; [reflexivity|]. split; [reflexivity|]. intros i j.
    assert (int32 (seconds (resolve (redis2 Minute) (gDefaultExp redis_facade))) = 30) as -> by reflexivity.
    pose proof (sclock4_range i). pose proof (sclock4_range j). lia.
  - intros now d w m Ht _. exists w. split; [split; [done|]; by rewrite app_nil_r|done].
  - intros i j. pose proof (sclock4_range i). unfold pclock3, pclock, Second, Millisecond. lia.
  - vm_compute. repeat split; discriminate.
Defined.
End redis_witnesses.
