(* ===== verification/ExampleInit.v ===== *)
(** * example/example.go: the Redis part of [init]

    The environment is prepared, then the write pool (through the sentinels) and the
    read pool are made and put behind one [GenericCache].  [logger.Fatalf] ends the
    process: the answer is then [inl] and the message. *)

From stdpp Require Import gmap strings.
From S2P Require Import Prelude LruInterface GoValues GoFmt Bytes InMemory Generic RedisPool RedisProps Example.
Local Open Scope Z_scope.

Definition redisTestServer : string := "redis://localhost:6379".
Definition sentinelTestServer : string := "redis://localhost:26379".
Definition redisMasterIdentifier : string := "mymaster".
Definition useSentinel : bool := true.
Definition defTimeoutMilliseconds : Z := 500.
Definition maxConnectionsAllowed : Z := 50.

(** A value returned as [interface{}]. *)
Definition iface {T} (c : option RedisStore) : cache_iface T RedisStore :=
  match c with Some r => CRedis r | None => CNil end.

Section init.
Context (url_parse : string -> error + string) {T : Type} `{CacheStore netE RedisStore} (logger : string).

Definition init_genericRedisCache : prog netE (string + GenericCache T RedisStore) :=
  let selectDatabase := 2 in
  addr ← call (Getenv "REDIS_SENTINEL_ADDRESS");
  _ ← (if Nat.eqb (String.length addr) 0 then call (Setenv "REDIS_SENTINEL_ADDRESS" sentinelTestServer) else mret tt);
  _ ← call (Setenv "REDIS_MASTER_IDENTIFIER" redisMasterIdentifier);
  write ← InitRedisCache url_parse logger useSentinel defExpSeconds None defTimeoutMilliseconds defTimeoutMilliseconds
            selectDatabase;
  match snd write with
  | Some _ =>
      addr ← call (Getenv "REDIS_SENTINEL_ADDRESS");
      mret (inl ("couldn't connect to redis on " +:+ addr))
  | None =>
      _ ← Infof logger "cacheWritePool initialized";
      redisAddr ← call (Getenv "REDIS_ADDRESS");
      let redisAddr := if Nat.eqb (String.length redisAddr) 0 then redisTestServer else redisAddr in
      readonly ← InitReadOnlyRedisCache url_parse logger redisTestServer EmptyString 0 0 defExpSeconds
                   maxConnectionsAllowed selectDatabase;
      match snd readonly with
      | Some _ => mret (inl ("couldn't connect to redis on " +:+ redisTestServer))
      | None =>
          _ ← Infof logger "cacheReadPool initialized";
          let c := NewCacheWithMultiPools (iface (fst write)) (iface (fst readonly)) L2 sharedSecret_ defExpSeconds
                     (Some (bytes_of_string "test")) true in
          mret (inr (set_Logger c (Some logger)))
      end
  end.

Context (N : network) (clock : nat -> Z).
Abbreviation nrun := (run (H := the_network' N) clock).
Implicit Types (w : world (list netevent)) (h : list netevent).

(** *** The environment *)
Lemma env_snoc h ev k : env_now N (h ++ [ev]) k =
  match ev with EvSetenv k' v => if String.eqb k' k then Some v else env_now N h k | _ => env_now N h k end.
Proof. unfold env_now. rewrite fold_left_app. by destruct ev. Qed.

(** What the modelled part of [init] finds there. *)
Definition sentinel_address h : string :=
  let addr := default EmptyString (env_now N h "REDIS_SENTINEL_ADDRESS") in
  if Nat.eqb (String.length addr) 0 then sentinelTestServer else addr.
Definition redis_password h : option string :=
  let p := default EmptyString (env_now N h "REDIS_PASSWORD") in
  if Nat.eqb (String.length p) 0 then None else Some p.

Definition write_pool (host : string) (password : option string) : RedisStore :=
  NewRedisCacheWithPool (NewSentinelPool [host] (Some "mymaster") password 500 500 2) (30 * Second).

Definition read_pool (host : string) : RedisStore :=
  NewRedisCacheWithPool
    (mkPool 50 50 false (240 * Second) (readonly_dial logger host EmptyString (500 * Millisecond) (50 * Millisecond) 2)
       (idle_test (fun c => call (Do c "PING" []))))
    (1800 * Second).

Lemma run_LookupEnv {B} k (f : option string -> prog netE B) w :
  nrun (call (LookupEnv k) ≫= f) w = nrun (f (env_now N (w_state w) k)) (set_state w (w_state w ++ [EvEnv k])).
Proof. done. Qed.

(** [InitRedisCache] as [init] calls it, up to the write test. *)
Lemma run_InitRedisCache w addr host :
  env_now N (w_state w) "REDIS_MASTER_IDENTIFIER" = Some "mymaster" ->
  env_now N (w_state w) "REDIS_SENTINEL_ADDRESS" = Some addr -> url_parse addr = inr host ->
  let cache := write_pool host (redis_password (w_state w)) in
  exists w1, nrun (InitRedisCache url_parse logger true 30 None 500 500 2) w =
    nrun (first_set logger "initCache" cache (30 * Second)
      (test_write_read logger "initCache" cache (Some cache) (30 * Second))) w1.
Proof.
  intros Hm Ha Hu cache. unfold InitRedisCache. rewrite run_Getenv, Hm. cbn [default from_option id String.length Nat.eqb].
  rewrite bind_mret, run_Infof.
  match goal with |- context [nrun (?p ≫= ?f) ?w0] =>
    assert (exists w1, nrun p w0 = (Done (redis_password (w_state w)), w1) /\
      env_now N (w_state w1) "REDIS_SENTINEL_ADDRESS" = Some addr) as (w1 & Hr & He) end.
  { rewrite run_Getenv. cbn [w_state set_state add_log]. rewrite env_snoc. unfold redis_password.
    destruct (Nat.eqb _ 0); eexists; (split; [reflexivity|]); simpl; by rewrite !env_snoc. }
  rewrite (run_bind_done _ _ _ _ _ _ Hr), run_Infof, run_LookupEnv. cbn [w_state add_log]. rewrite He.
  set (w2 := set_state _ _). rewrite (run_bind_done _ _ _ w2 (add_log w2 (LogLine (SinkLogger logger) LInfo
    ("Env REDIS_SENTINEL_ADDRESS: " +:+ addr))) (inr host)) by (rewrite run_Infof, Hu; done).
  rewrite run_Infof. cbn zeta. rewrite run_Infof. cbn [negb]. by eexists.
Qed.

Lemma run_InitReadOnly w host : url_parse redisTestServer = inr host -> host <> EmptyString ->
  exists w1, nrun (InitReadOnlyRedisCache url_parse logger redisTestServer EmptyString 0 0 30 50 2) w =
    (Done (Some (read_pool host), None), w1).
Proof.
  intros Hu Hh. unfold InitReadOnlyRedisCache. rewrite run_Debugf. cbn zeta.
  rewrite Hu, nonempty_length by done. by eexists.
Qed.

(** The write test, by a store that answers every write with [serr] and every read
    with [gerr]. *)
Lemma run_write_test (cache : RedisStore) exp serr gerr s w :
  (forall k v w, exists w', nrun (cs_Set cache k v exp) w = (Done serr, w')) ->
  (forall k w, exists w', nrun (cs_Get cache k (VPtr (VString EmptyString))) w = (Done (gerr, VPtr (VString s)), w')) ->
  exists w' kept, nrun (first_set logger "initCache" cache exp
      (test_write_read logger "initCache" cache (Some cache) exp)) w =
    (Done match serr, gerr with
          | None, None => (Some cache, None)
          | Some err, _ | None, Some err => (kept, Some err)
          end, w').
Proof.
  intros Hset Hget. unfold first_set, test_write_read, testCache.
  destruct (Hset "test" (VString "this") w) as (w1 & H1). rewrite (run_bind_done _ _ _ _ _ _ H1).
  destruct serr as [err|]; [by eexists _, _; rewrite run_Errorf|]. rewrite run_bind.
  destruct (Hset "testing" (VString "1,2,3..") w1) as (w2 & H2). rewrite (run_bind_done _ _ _ _ _ _ H2).
  destruct (Hget "testing" w2) as (w3 & H3). rewrite (run_bind_done _ _ _ _ _ _ H3). cbn [fst snd].
  destruct gerr as [err|]; eexists _, (Some cache); reflexivity.
Qed.

(** What the Redis part of [init] makes, in any environment: if the write store
    answers, a cache with two pools; otherwise the process exits.  The write pool asks
    the sentinels at REDIS_SENTINEL_ADDRESS (or the default) for "mymaster" and keeps
    entries for 30 seconds by default; the read pool connects to the host of the
    constant redisTestServer, whatever REDIS_ADDRESS says, and its default is 30
    minutes, because seconds are passed as minutes. *)
Theorem example_init_redis w host rhost serr gerr s :
  url_parse (sentinel_address (w_state w)) = inr host ->
  url_parse redisTestServer = inr rhost -> rhost <> EmptyString ->
  let write := write_pool host (redis_password (w_state w)) in
  (forall k v w, exists w', nrun (cs_Set write k v (30 * Second)) w = (Done serr, w')) ->
  (forall k w, exists w', nrun (cs_Get write k (VPtr (VString EmptyString))) w = (Done (gerr, VPtr (VString s)), w')) ->
  exists r w', nrun init_genericRedisCache w = (Done r, w') /\
    match serr, gerr with
    | None, None => exists g, r = inr g /\ Generic.Cache g = CRedis write /\ defaultExpiration write = 30 * Second /\
        (Generic.Cache <$> ReadCache g) = Some (CRedis (read_pool rhost)) /\ defaultExpiration (read_pool rhost) = 30 * Minute
    | _, _ => exists addr, r = inl ("couldn't connect to redis on " +:+ addr)
    end.
Proof.
  intros Hu Hr Hne write Hset Hget. unfold init_genericRedisCache. cbn zeta. rewrite run_Getenv.
  match goal with |- context [nrun (?p ≫= ?f) ?w0] =>
    assert (exists w1, nrun p w0 = (Done tt, w1) /\
      env_now N (w_state w1) "REDIS_SENTINEL_ADDRESS" = Some (sentinel_address (w_state w)) /\
      redis_password (w_state w1) = redis_password (w_state w)) as (w1 & Hw1 & Ha & Hp) end.
  { unfold sentinel_address, redis_password. destruct (env_now N (w_state w) "REDIS_SENTINEL_ADDRESS") as [a|] eqn:Ha;
      cbn [default from_option id].
    - destruct (Nat.eqb (String.length a) 0); eexists; (split; [reflexivity|]); simpl; rewrite !env_snoc; by rewrite ?Ha.
    - eexists. split; [reflexivity|]. simpl. by rewrite !env_snoc. }
  rewrite (run_bind_done _ _ _ _ _ _ Hw1), run_call. unfold handle at 1, the_network', net_handler. cbn iota beta.
  set (w2 := set_state w1 _).
  destruct (run_InitRedisCache w2 (sentinel_address (w_state w)) host) as (w3 & Hinit);
    [simpl; by rewrite env_snoc|simpl; by rewrite env_snoc|done|].
  assert (redis_password (w_state w2) = redis_password (w_state w)) as Hp2.
  { rewrite <- Hp. unfold redis_password. simpl. by rewrite env_snoc. }
  rewrite Hp2 in Hinit. destruct (run_write_test write _ serr gerr s w3 Hset Hget) as (w4 & kept & Htest).
  rewrite (run_bind_done _ _ _ _ _ _ (eq_trans Hinit Htest)).
  destruct serr as [err|], gerr as [err'|]; cbn [snd fst]; [by rewrite run_Getenv; eauto..|].
  rewrite run_Infof, run_Getenv. cbn zeta.
  match goal with |- context [nrun (InitReadOnlyRedisCache _ _ _ _ _ _ _ _ _ ≫= _) ?w5] =>
    destruct (run_InitReadOnly w5 rhost Hr Hne) as (w6 & Hro) end.
  rewrite (run_bind_done _ _ _ _ _ _ Hro). cbn [snd fst]. rewrite run_Infof.
  eexists _, _. split; [reflexivity|]. by eexists.
Qed.
End init.

(** ** Instances *)
Section init_witnesses.
Definition hosts (u : string) : error + string := inr (if String.eqb u redisTestServer then "localhost:6379" else "localhost:26379").

(** A store that works, for every test. *)
#[local] Instance obliging : CacheStore netE RedisStore := {|
  cs_Get t k v := mret (None, VPtr (VString "1,2,3..")); cs_Set t k v exp := mret None;
  cs_Add t k v exp := mret None; cs_Replace t k v exp := mret None; cs_Delete t k := mret None;
  cs_Increment t k n := mret (0, None); cs_Decrement t k n := mret (0, None); cs_Flush t := mret None |}.

Lemma example_init_redis_witness :
  exists r w', run (H := the_network' net1) (fun _ => 0) (init_genericRedisCache (T := InMemoryStore) hosts "main") (World [] 0 []) = (Done r, w') /\
    exists g, r = inr g /\ Generic.Cache g = CRedis (write_pool "localhost:26379" None) /\
      defaultExpiration (write_pool "localhost:26379" None) = 30 * Second /\
      (Generic.Cache <$> ReadCache g) = Some (CRedis (read_pool "main" "localhost:6379")) /\
      defaultExpiration (read_pool "main" "localhost:6379") = 30 * Minute.
Proof.
  exact (example_init_redis hosts "main" net1 (fun _ => 0) (World [] 0 []) "localhost:26379" "localhost:6379" None None "1,2,3.."
    eq_refl eq_refl ltac:(discriminate) (fun k v w => ex_intro _ w eq_refl) (fun k w => ex_intro _ w eq_refl)).
Defined.
End init_witnesses.
