(* ===== verification/PageRedis.v ===== *)
(** * Pages kept in Redis

    A store in memory keeps a [ResponseCache] as it is, with references to the header map
    and to the buffer of the handler.  Redis keeps bytes: to encode a page gob reads the
    map and the slice it refers to, and to decode one it makes new ones.  So a store here
    makes, besides its commands, the calls [HHdr] to [HNewBuf] on the heap of the page
    cache. *)

From stdpp Require Import gmap strings.
From Stdlib Require Import Strings.Byte.
From S2P Require Import Prelude LruInterface GoValues GoFmt Strconv Bytes InMemory InMemoryProps Generic GenericProps MapStore.
From S2P Require Import GinCache GinProps PageFacade GinRender Example.
From S2P Require Import RedisPool RedisCommands RedisServer RedisRefine RedisStoreProps.
Local Open Scope Z_scope.

(** ** Calls on the store and on the heap *)
Inductive heapE (E : Type -> Type) : Type -> Type :=
  | HCall X (e : E X) : heapE E X
  | HHdr (l : nat) : heapE E http_Header
  | HBuf (l : nat) : heapE E (list byte)
  | HNewHdr (h : http_Header) : heapE E nat
  | HNewBuf (b : list byte) : heapE E nat.
Arguments HCall {E X} e.
Arguments HHdr {E} l.
Arguments HBuf {E} l.
Arguments HNewHdr {E} h.
Arguments HNewBuf {E} b.

Definition heap_handle {E S} `{Handler E S} X (e : heapE E X) (s : hstate S) : X * hstate S :=
  match e in heapE _ X return X * hstate S with
  | HCall e => let '(x, t) := handle e (hs_store s) in (x, put_store s t)
  | HHdr l => (the_hdr s l, s)
  | HBuf l => (the_buf s l, s)
  | HNewHdr h => let l := fresh (dom (hdrs s)) in (l, put_hdr s l h)
  | HNewBuf b => let l := fresh (dom (bufs s)) in (l, put_buf s l b)
  end.

#[global] Instance heap_part {E S} `{Handler E S} : StoreHandler (heapE E) S.
Proof.
  refine {| store_handle := heap_handle |}. intros X e s. destruct e; try done. simpl. by destruct (handle e (hs_store s)).
Defined.

(** What gob sees of a value: contents, not references. *)
Inductive flat := FPage (status : Z) (header : option http_Header) (data : option (list byte)) | FValue (v : goval).

Section store.
Context (quote : string -> string).
Context (gob_enc : flat -> error + list byte) (gob_dec : list byte -> flat -> option error * flat).
Implicit Types (c : RedisStore) (key : string).

Abbreviation hprog := (prog (heapE redisE)).
Definition hcall {A} (p : prog redisE A) : hprog A := embed (fun X e => HCall e) p.

Definition flatten (v : goval) : hprog flat :=
  match v with
  | VResponse r =>
      h ← match Header r with Some l => h ← call (HHdr l); mret (Some h) | None => mret None end;
      d ← match RData r with Some l => b ← call (HBuf l); mret (Some b) | None => mret None end;
      mret (FPage (Status r) h d)
  | _ => mret (FValue v)
  end.

Definition rebuild (dest : goval) (f : flat) : hprog goval :=
  match f with
  | FPage st h d =>
      l ← match h with Some h => l ← call (HNewHdr h); mret (Some l) | None => mret None end;
      lb ← match d with Some b => lb ← call (HNewBuf b); mret (Some lb) | None => mret None end;
      mret (VPtr (VResponse (mkResponse st l lb)))
  | FValue v => mret v
  end.

(** *** The methods that encode or decode a value *)
Definition hr_Set c key (value : goval) (expires : Z) : hprog (option error) :=
  f ← flatten value;
  hcall (rs_Set (fun _ => gob_enc f) c key value expires).

Definition hr_Add c key (value : goval) (expires : Z) : hprog (option error) :=
  f ← flatten value;
  hcall (rs_Add quote (fun _ => gob_enc f) c key value expires).

Definition hr_Replace c key (value : goval) (expires : Z) : hprog (option error) :=
  f ← flatten value;
  hcall (rs_Replace quote (fun _ => gob_enc f) c key value expires).

(** The bytes a page is decoded from are read first. *)
Definition raw (b : list byte) (dest : goval) : option error * goval := (None, VPtr (VBytes b)).
Definition into_value (b : list byte) (dest : goval) : option error * goval :=
  match gob_dec b (FValue dest) with
  | (err, FValue v) => (err, v)
  | (err, FPage _ _ _) => (err, dest)
  end.

Definition hr_Get c key (ptrValue : goval) : hprog (option error * goval) :=
  match ptrValue with
  | VPtr (VResponse r) =>
      f ← flatten (VResponse r);
      got ← hcall (rs_Get quote raw c key ptrValue);
      match got with
      | (None, VPtr (VBytes b)) =>
          v ← rebuild ptrValue (snd (gob_dec b f));
          mret (fst (gob_dec b f), v)
      | (err, _) => mret (err, ptrValue)
      end
  | _ => hcall (rs_Get quote into_value c key ptrValue)
  end.

#[local] Instance paged_RedisStore : CacheStore (heapE redisE) RedisStore := {|
  cs_Get := hr_Get; cs_Set := hr_Set; cs_Add := hr_Add; cs_Replace := hr_Replace;
  cs_Delete c k := hcall (rs_Delete quote c k);
  cs_Increment c k n := hcall (rs_Increment quote c k n); cs_Decrement c k n := hcall (rs_Decrement quote c k n);
  cs_Flush c := hcall (rs_Flush c) |}.

#[local] Instance paged_RedisOps : RedisOps (heapE redisE) RedisStore := {|
  rs_ExpireAt c k n := hcall (ExpireAt c k n); rs_GetExpiresIn c k := hcall (GetExpiresIn c k);
  rs_IncrementAtomic c k n := hcall (IncrementAtomic c k n);
  rs_IncrementCheckSet c k n := hcall (IncrementCheckSet quote c k n) |}.

(** ** Over a server *)
Context {S : Type} `{RedisServer S} (sclock : nat -> Z) (clock : nat -> Z).
Context (sclock_mono : forall i j, (i <= j)%nat -> sclock i <= sclock j).
#[local] Instance page_server : Handler redisE (redis_state S) := the_server sclock.
Implicit Types (w : world (hstate (redis_state S))) (m : redis_db).

(** The calls of a store, run on the state of the page cache. *)
#[local] Instance direct : Handler (heapE redisE) (hstate (redis_state S)) := fun X e s => heap_handle X e s.

Lemma run_direct {A} (p : hprog A) w : run clock (store_call p) w = run clock p w.
Proof.
  unfold store_call. rewrite (run_embed clock (fun X e => PStore e) (fun s => s) (fun _ s => s)); try done.
  - destruct w as [s t l]. cbn [w_state w_tick w_log]. by destruct (run clock p (World s t l)) as [o []].
  - intros X e s. unfold handle, pageE_handler, direct. cbn [store_handle heap_part]. by destruct (heap_handle X e s).
Qed.

Lemma run_hcall {A} (p : prog redisE A) w :
  run clock (hcall p) w = let '(o, w1) := run clock p (inner w) in (o, outer w w1).
Proof.
  unfold hcall, inner, outer. apply (run_embed clock (fun X e => HCall e) hs_store put_store); try done.
  by destruct w as [[]].
Qed.

Lemma run_hcall_done {A B} (p : prog redisE A) (f : A -> hprog B) a w (w1 : world (redis_state S)) :
  run clock p (inner w) = (Done a, w1) -> run clock (hcall p ≫= f) w = run clock (f a) (outer w w1).
Proof. intros Hp. apply run_bind_done. by rewrite run_hcall, Hp. Qed.

Lemma run_flatten {B} st l lb (f : flat -> hprog B) w :
  run clock (flatten (VResponse (mkResponse st (Some l) (Some lb))) ≫= f) w =
    run clock (f (FPage st (Some (the_hdr (w_state w) l)) (Some (the_buf (w_state w) lb)))) w.
Proof. by destruct w. Qed.

(** *** A page set, and read *)
Definition deadline c (exp t : Z) : option Z :=
  if 0 <? resolve c exp then Some (t + int32 (seconds (resolve c exp)) * 1000) else None.

Lemma run_hr_Set_page c key st l lb exp w m b :
  tracks sclock (inner w) m -> resolve c exp <= 0 \/ 0 < int32 (seconds (resolve c exp)) ->
  gob_enc (FPage st (Some (the_hdr (w_state w) l)) (Some (the_buf (w_state w) lb))) = inr b ->
  exists w1 : world (redis_state S), run clock (hr_Set c key (VResponse (mkResponse st (Some l) (Some lb))) exp) w = (Done None, outer w w1) /\
    tracks sclock w1 (<[key := (b, deadline c exp (sclock (cmds (inner w))))]> (seen (sclock (cmds (inner w))) m)).
Proof.
  intros Ht Hexp Hb. unfold hr_Set. rewrite run_flatten, run_hcall.
  set (enc := fun _ : goval => gob_enc _). set (v := VResponse _).
  pose proof (run_rs_Set enc sclock clock sclock_mono c key v exp (inner w) m Ht) as Hset.
  unfold spec_store in Hset. assert (Serialize enc v = inr b) as He by exact Hb. rewrite He in Hset. cbn zeta in Hset.
  assert (forall w1 : world (redis_state S), run (H := the_server sclock) clock (rs_Set enc c key v exp) (inner w) = (Done None, w1) ->
    run clock (rs_Set enc c key v exp) (inner w) = (Done None, w1)) as Hdone by by intros.
  unfold deadline. destruct (Z.ltb_spec 0 (resolve c exp)).
  - destruct (Z.ltb_spec 0 (int32 (seconds (resolve c exp)))); [|lia].
    destruct Hset as (err & w1 & Hr & Ht1 & [= ->]). exists w1. split; [by rewrite (Hdone w1 Hr)|done].
  - destruct Hset as (err & w1 & Hr & Ht1 & [= ->]). exists w1. split; [by rewrite (Hdone w1 Hr)|done].
Qed.

Lemma run_hr_Get_miss c key w m : tracks sclock (inner w) m -> seen (sclock (cmds (inner w))) m !! key = None ->
  exists w1 : world (redis_state S), run clock (hr_Get c key (VPtr (VResponse zero_response))) w =
      (Done (Some ErrCacheMiss, VPtr (VResponse zero_response)), outer w w1) /\
    tracks sclock w1 (seen (sclock (cmds (inner w))) m) /\ (cmds (inner w) <= cmds w1)%nat.
Proof.
  intros Ht Hk. destruct (run_rs_Get quote raw sclock clock sclock_mono c key (VPtr (VResponse zero_response)) (inner w) m Ht)
    as (w1 & Hr & Ht1). rewrite Hk in Hr.
  assert (cmds (inner w) <= cmds (Done (Some ErrCacheMiss, VPtr (VResponse zero_response)), w1).2)%nat as Hc
    by (rewrite <- Hr; apply (run_cmds sclock clock)).
  exists w1. split; [|done].
  unfold hr_Get. transitivity (run clock (hcall (rs_Get quote raw c key (VPtr (VResponse zero_response))) ≫= fun got =>
    match got with
    | (None, VPtr (VBytes b)) => v ← rebuild (VPtr (VResponse zero_response)) (snd (gob_dec b (FPage 0 None None)));
        mret (fst (gob_dec b (FPage 0 None None)), v)
    | (err, _) => mret (err, VPtr (VResponse zero_response)) end) w); [done|].
  by rewrite (run_hcall_done _ _ _ _ _ Hr).
Qed.

(** The page comes back in a map and a slice of its own. *)
Lemma run_hr_Get_page c key w m b d st h body :
  tracks sclock (inner w) m -> seen (sclock (cmds (inner w))) m !! key = Some (b, d) ->
  gob_dec b (FPage 0 None None) = (None, FPage st (Some h) (Some body)) ->
  exists w' l lb, run clock (hr_Get c key (VPtr (VResponse zero_response))) w =
      (Done (None, VPtr (VResponse (mkResponse st (Some l) (Some lb)))), w') /\
    hdrs (w_state w) !! l = None /\ hdrs (w_state w') = <[l := h]> (hdrs (w_state w)) /\
    the_buf (w_state w') lb = body /\ resp (w_state w') = resp (w_state w).
Proof.
  intros Ht Hk Hdec. destruct (run_rs_Get quote raw sclock clock sclock_mono c key (VPtr (VResponse zero_response)) (inner w) m Ht)
    as (w1 & Hr & _). rewrite Hk in Hr. change (Deserialize quote raw b _) with (@None error, VPtr (VBytes b)) in Hr.
  set (l := fresh (dom (hdrs (w_state w)))). set (s1 := put_hdr (w_state (outer w w1)) l h).
  set (lb := fresh (dom (bufs s1))). exists (set_state (outer w w1) (put_buf s1 lb body)), l, lb.
  split; [|split; [apply not_elem_of_dom, is_fresh|split; [done|split; [unfold the_buf; simpl; by rewrite lookup_insert_eq|done]]]].
  unfold hr_Get. transitivity (run clock (hcall (rs_Get quote raw c key (VPtr (VResponse zero_response))) ≫= fun got =>
    match got with
    | (None, VPtr (VBytes b)) => v ← rebuild (VPtr (VResponse zero_response)) (snd (gob_dec b (FPage 0 None None)));
        mret (fst (gob_dec b (FPage 0 None None)), v)
    | (err, _) => mret (err, VPtr (VResponse zero_response)) end) w); [done|].
  rewrite (run_hcall_done _ _ _ _ _ Hr). cbv iota. by rewrite Hdec.
Qed.

(** ** The page cache in front of a [GenericCache] in front of Redis *)
Context {T : Type} `{CacheStore (heapE redisE) T} (gob_decode : list byte -> error + goval).
Context (range_hdr : http_Header -> list (string * list string)).
Context (range_perm : forall h, range_hdr h ≡ₚ map_to_list h).
#[local] Instance paged_cache : CacheStore (heapE redisE) (GenericCache T RedisStore) :=
  GenericCache_CacheStore (fun v => gob_enc (FValue v)) gob_decode.

(** gob gives back a page with a header and a body.  (What is empty it leaves out.) *)
Definition gob_pages : Prop := forall st h body, h <> ∅ -> body <> [] ->
  exists b, gob_enc (FPage st (Some h) (Some body)) = inr b /\
    gob_dec b (FPage 0 None None) = (None, FPage st (Some h) (Some body)).

Section cache.
Context (g : GenericCache T RedisStore) (c : RedisStore) (Hg : Generic.Cache g = CRedis c).

Lemma redis_store_eq : the_store (E := heapE redisE) g = mret (inr c).
Proof. unfold the_store. by rewrite Hg. Qed.

Lemma redis_not_nil : is_nil (Generic.Cache g) = false.
Proof. by rewrite Hg. Qed.

(** The same state, other log lines. *)
Lemma same_server w w1 m : w_state w1 = w_state w -> tracks sclock (inner w) m ->
  tracks sclock (inner w1) m /\ cmds (inner w1) = cmds (inner w).
Proof. intros Hs Ht. unfold tracks, cmds, inner in *. simpl in *. by rewrite Hs. Qed.

Lemma page_get_miss key w m : tracks sclock (inner w) m -> seen (sclock (cmds (inner w))) m !! key = None ->
  exists w', run clock (store_call (cs_Get g key (VPtr (VResponse zero_response)))) w =
      (Done (Some ErrCacheMiss, VPtr (VResponse zero_response)), w') /\
    tracks sclock (inner w') (seen (sclock (cmds (inner w))) m) /\ (cmds (inner w) <= cmds (inner w'))%nat /\
    hdrs (w_state w') = hdrs (w_state w) /\ resp (w_state w') = resp (w_state w).
Proof.
  intros Ht Hk.
  destruct (run_g_Get_response gob_decode clock g (inr c) redis_not_nil redis_store_eq key zero_response w) as (w1 & Hs1 & _ & Hget).
  destruct (same_server w w1 m Hs1 Ht) as [Ht1 Hc1].
  destruct (run_hr_Get_miss c key w1 m Ht1) as (w2 & Hr & Ht2 & Hc2); [by rewrite Hc1|]. rewrite Hc1 in Ht2, Hc2.
  exists (outer w1 w2). split; [|split; [by apply (tracks_state sclock w2)|]].
  - rewrite run_direct. apply Hget; [exact Hr|by right].
  - split; [done|]. simpl. by rewrite Hs1.
Qed.

Lemma page_get_hit key w m b d st h body : tracks sclock (inner w) m -> seen (sclock (cmds (inner w))) m !! key = Some (b, d) ->
  gob_dec b (FPage 0 None None) = (None, FPage st (Some h) (Some body)) ->
  exists w' l lb, run clock (store_call (cs_Get g key (VPtr (VResponse zero_response)))) w =
      (Done (None, VPtr (VResponse (mkResponse st (Some l) (Some lb)))), w') /\
    hdrs (w_state w) !! l = None /\ hdrs (w_state w') = <[l := h]> (hdrs (w_state w)) /\
    the_buf (w_state w') lb = body /\ resp (w_state w') = resp (w_state w).
Proof.
  intros Ht Hk Hdec.
  destruct (run_g_Get_response gob_decode clock g (inr c) redis_not_nil redis_store_eq key zero_response w) as (w1 & Hs1 & _ & Hget).
  destruct (same_server w w1 m Hs1 Ht) as [Ht1 Hc1].
  destruct (run_hr_Get_page c key w1 m b d st h body) as (w2 & l & lb & Hr & Hl & Hh & Hb & Hrs);
    [done|by rewrite Hc1|done|].
  exists w2, l, lb. rewrite Hs1 in Hl, Hh, Hrs. split; [|done]. rewrite run_direct. apply Hget; [exact Hr|by left].
Qed.

Lemma page_set key st l lb exp w m b : tracks sclock (inner w) m ->
  resolve c (g_resolve g exp) <= 0 \/ 0 < int32 (seconds (resolve c (g_resolve g exp))) ->
  gob_enc (FPage st (Some (the_hdr (w_state w) l)) (Some (the_buf (w_state w) lb))) = inr b ->
  exists w', run clock (store_call (cs_Set g key (VResponse (mkResponse st (Some l) (Some lb))) exp)) w = (Done None, w') /\
    tracks sclock (inner w') (<[key := (b, deadline c (g_resolve g exp) (sclock (cmds (inner w))))]> (seen (sclock (cmds (inner w))) m)) /\
    resp (w_state w') = resp (w_state w).
Proof.
  intros Ht Hexp Hb.
  destruct (run_g_Set_response (fun v => gob_enc (FValue v)) clock g (inr c) redis_not_nil redis_store_eq key (mkResponse st (Some l) (Some lb)) exp w)
    as (w1 & Hs1 & _ & Hset).
  destruct (same_server w w1 m Hs1 Ht) as [Ht1 Hc1].
  destruct (run_hr_Set_page c key st l lb (g_resolve g exp) w1 m b) as (w2 & Hr & Ht2);
    [done|done|by rewrite Hs1|].
  rewrite Hc1 in Ht2. exists (outer w1 w2). split; [rewrite run_direct; by apply Hset|].
  split; [by apply (tracks_state sclock w2)|]. simpl. by rewrite Hs1.
Qed.

(** A rendered page that Redis does not have: what the client gets, and what Redis then
    has. *)
Lemma page_to_redis expire hs code text req l w m :
  gob_pages -> resolve c (g_resolve g expire) <= 0 \/ 0 < int32 (seconds (resolve c (g_resolve g expire))) ->
  bodyAllowedForStatus code = true -> text <> EmptyString ->
  span_ctx (tracing (w_state w)) = true -> resp (w_state w) = new_response l false -> the_hdr (w_state w) l = ∅ ->
  tracks sclock (inner w) m ->
  let key := urlEscape PageCachePrefix (RequestURI req) in
  let h := hdr_Default (headers_of hs ∅) "Content-Type" plainContentType in
  seen (sclock (cmds (inner w))) m !! key = None ->
  exists w1 b n, run clock (CachePage range_hdr g expire (_ ← set_headers hs; ctx_String code text) req) w = (Done tt, w1) /\
    wire_head (resp (w_state w1)) = Some (status_of code, h) /\ wire_body (resp (w_state w1)) = bytes_of_string text /\
    gob_dec b (FPage 0 None None) = (None, FPage 0 (Some h) (Some (bytes_of_string text))) /\
    (cmds (inner w) <= n)%nat /\ exists m1, tracks sclock (inner w1) (<[key := (b, deadline c (g_resolve g expire) (sclock n))]> m1).
Proof.
  intros Hgob Hexp Hbody Htext Htr Hr Hh Ht key h Hk.
  destruct (run_CachePage_missed range_hdr clock g expire (_ ← set_headers hs; ctx_String code text) req w Htr) as (wa & Hsame & Hta & Hla & Hpage).
  pose proof (inner_same _ _ Hsame Hta Hla) as Hin. rewrite <- Hin in Ht, Hk. pose proof Hsame as (_ & Hda & _ & Hra).
  destruct (page_get_miss key wa m Ht Hk) as (wb & Hget & Htb & Hcb & Hdb & Hrb).
  set (wb' := add_log wb (LogLine SinkStdLog LInfo (Error ErrCacheMiss))).
  destruct (run_set_headers clock (newCachedWriter g expire key) hs (ctx_String code text) wb')
    as (wc & Hset & Hsc & _ & Hrc & Hhc & _). change (resp (w_state wb')) with (resp (w_state wb)) in Hrc, Hhc.
  rewrite Hrb, Hra, Hr in Hrc, Hhc. cbn [rw_header new_response] in Hhc.
  assert (the_hdr (w_state wb') l = ∅) as Hhb by (unfold the_hdr; simpl; rewrite Hdb, Hda; exact Hh). rewrite Hhb in Hhc.
  destruct (run_ctx_String_store clock (newCachedWriter g expire key) code text l wc Hrc Hbody)
    as (w4 & lb & Hs4 & _ & _ & Hh4 & Hb4 & Hhead & Hwire & Hrun). rewrite Hhc in Hh4, Hhead. fold h in Hh4, Hhead.
  assert (h <> ∅) as Hhne.
  { unfold h, hdr_Default. destruct (headers_of hs ∅ !! "Content-Type") as [[|v vs]|] eqn:Hct; try apply insert_non_empty.
    intros He. by rewrite He, lookup_empty in Hct. }
  destruct (Hgob 0 h (bytes_of_string text) Hhne) as (b & Henc & Hdec); [by destruct text|].
  assert (w_state (inner w4) = w_state (inner wb)) as Hs4b by (simpl; by rewrite Hs4, Hsc).
  apply (tracks_state sclock _ (inner w4)) in Htb; [|done].
  destruct (page_set key 0 l lb expire w4 _ b Htb Hexp) as (w5 & Hput & Ht5 & Hr5); [by rewrite Hh4, Hb4|].
  destruct (Hpage ErrCacheMiss _ wb w5 Hget) as (w1 & Hdone & Hs1 & _ & _ & Hr1); [fold key wb'; rewrite Hset; by apply Hrun|].
  exists w1, b, (cmds (inner w4)). rewrite Hr1, Hr5. split; [exact Hdone|]. split; [done|]. split; [done|]. split; [done|].
  split; [rewrite <- Hin; unfold cmds at 2; rewrite Hs4b; exact Hcb|]. eexists. eapply (tracks_state sclock (inner w5)); [exact Hs1|exact Ht5].
Qed.

(** A request for a page that Redis has. *)
Lemma page_from_redis expire handler req l w m b d st h body :
  gob_dec b (FPage 0 None None) = (None, FPage st (Some h) (Some body)) ->
  hdr_Get h "x-okay-to-cache" <> EmptyString -> header_ok h ->
  span_ctx (tracing (w_state w)) = true -> resp (w_state w) = new_response l false -> hdrs (w_state w) !! l = Some ∅ ->
  tracks sclock (inner w) m -> seen (sclock (cmds (inner w))) m !! urlEscape PageCachePrefix (RequestURI req) = Some (b, d) ->
  exists w1, run clock (CachePage range_hdr g expire handler req) w = (Done tt, w1) /\
    wire_head (resp (w_state w1)) = Some (status_of st, h) /\ wire_body (resp (w_state w1)) = body.
Proof.
  intros Hdec Hokay Hhok Htr Hr Hl Ht Hk.
  destruct (run_CachePage_hit range_hdr clock range_perm g expire handler req w Htr) as (wa & Hsame & Hta & Hla & Hpage).
  pose proof (inner_same _ _ Hsame Hta Hla) as Hin. rewrite <- Hin in Ht, Hk. pose proof Hsame as (_ & Hda & _ & Hra).
  destruct (page_get_hit _ wa m b d st h body Ht Hk Hdec) as (wb & lh & lb & Hget & Hfresh & Hdb & Hbb & Hrb).
  rewrite Hda in Hfresh, Hdb. assert (l <> lh) as Hne by congruence.
  assert (the_hdr (w_state wb) lh = h) as Hhb by (unfold the_hdr; rewrite Hdb; by rewrite lookup_insert_eq).
  rewrite <- Hhb in Hokay, Hhok |- *. rewrite <- Hbb.
  apply (Hpage st lh lb l wb Hget Hokay Hhok); [by rewrite Hrb, Hra| |done].
  unfold the_hdr. rewrite Hdb, lookup_insert_ne by done. by rewrite Hl.
Qed.
(** Or has, but not marked. *)
Lemma page_again expire handler req l w m b d st h body :
  gob_dec b (FPage 0 None None) = (None, FPage st (Some h) (Some body)) ->
  hdr_Get h "x-okay-to-cache" = EmptyString ->
  span_ctx (tracing (w_state w)) = true -> resp (w_state w) = new_response l false -> hdrs (w_state w) !! l = Some ∅ ->
  tracks sclock (inner w) m -> seen (sclock (cmds (inner w))) m !! urlEscape PageCachePrefix (RequestURI req) = Some (b, d) ->
  exists wb, resp (w_state wb) = new_response l false /\ the_hdr (w_state wb) l = ∅ /\
    let again := run clock (run_cached (newCachedWriter g expire (urlEscape PageCachePrefix (RequestURI req))) handler) wb in
    (run clock (CachePage range_hdr g expire handler req) w).1 = again.1 /\
    page_same (w_state (run clock (CachePage range_hdr g expire handler req) w).2) (w_state again.2).
Proof.
  intros Hdec Hno Htr Hr Hl Ht Hk.
  destruct (run_CachePage_unmarked range_hdr clock g expire handler req w Htr) as (wa & Hsame & Hta & Hla & Hpage).
  pose proof (inner_same _ _ Hsame Hta Hla) as Hin. rewrite <- Hin in Ht, Hk. pose proof Hsame as (_ & Hda & _ & Hra).
  destruct (page_get_hit _ wa m b d st h body Ht Hk Hdec) as (wb & lh & lb & Hget & Hfresh & Hdb & Hbb & Hrb).
  rewrite Hda in Hfresh, Hdb. assert (l <> lh) as Hne by congruence.
  assert (the_hdr (w_state wb) lh = h) as Hhb by (unfold the_hdr; rewrite Hdb; by rewrite lookup_insert_eq).
  destruct (Hpage st lh (Some lb) wb Hget) as (w1 & Hrun & Hs1); [by rewrite Hhb|].
  eexists. split; [|split; [|cbn zeta; rewrite Hrun; split; [reflexivity|exact Hs1]]].
  - cbn [add_log w_state]. by rewrite Hrb, Hra.
  - unfold the_hdr. cbn [add_log w_state]. rewrite Hdb, lookup_insert_ne by done. by rewrite Hl.
Qed.
End cache.

(** C23. A page through the page cache, a [GenericCache] (encrypting or not) and Redis:
    the first request for a page that the handler renders with [c.String], not empty, is
    answered by the handler, and Redis then has the page, unencrypted, with status 0,
    until its whole seconds of duration are over on the server's clock (for ever, if the
    resolved duration is not positive; a positive duration has at least a second).  A
    later request that finds it there is answered, if the page was marked with
    x-okay-to-cache, without its handler running, with the same headers and body and
    status 200, whatever has become of the header maps and buffers of the first one;
    otherwise its handler runs on the fresh response. *)
Theorem page_over_redis g c expire hs code text req l w m :
  let dur := g_resolve g expire in
  Generic.Cache g = CRedis c -> gob_pages ->
  resolve c dur <= 0 \/ 0 < int32 (seconds (resolve c dur)) ->
  bodyAllowedForStatus code = true -> text <> EmptyString ->
  span_ctx (tracing (w_state w)) = true -> resp (w_state w) = new_response l false -> the_hdr (w_state w) l = ∅ ->
  tracks sclock (inner w) m ->
  let key := urlEscape PageCachePrefix (RequestURI req) in
  let h := hdr_Default (headers_of hs ∅) "Content-Type" plainContentType in
  seen (sclock (cmds (inner w))) m !! key = None ->
  exists w1 b n, run clock (CachePage range_hdr g expire (_ ← set_headers hs; ctx_String code text) req) w = (Done tt, w1) /\
    wire_head (resp (w_state w1)) = Some (status_of code, h) /\ wire_body (resp (w_state w1)) = bytes_of_string text /\
    gob_dec b (FPage 0 None None) = (None, FPage 0 (Some h) (Some (bytes_of_string text))) /\
    (cmds (inner w) <= n)%nat /\ (exists m1, tracks sclock (inner w1) (<[key := (b, deadline c dur (sclock n))]> m1)) /\
    forall handler l2 w2 m2 d, span_ctx (tracing (w_state w2)) = true ->
      resp (w_state w2) = new_response l2 false -> hdrs (w_state w2) !! l2 = Some ∅ ->
      tracks sclock (inner w2) m2 -> seen (sclock (cmds (inner w2))) m2 !! key = Some (b, d) ->
      let later := run clock (CachePage range_hdr g expire handler req) w2 in
      if String.eqb (hdr_Get (headers_of hs ∅) "x-okay-to-cache") EmptyString then
        exists wb, resp (w_state wb) = new_response l2 false /\ the_hdr (w_state wb) l2 = ∅ /\
          let again := run clock (run_cached (newCachedWriter g expire key) handler) wb in
          later.1 = again.1 /\ page_same (w_state later.2) (w_state again.2)
      else later.1 = Done tt /\ wire_head (resp (w_state later.2)) = Some (200, h) /\
        wire_body (resp (w_state later.2)) = bytes_of_string text.
Proof.
  intros dur Hg Hgob Hexp Hbody Htext Htr Hr Hh Ht key h Hk.
  destruct (page_to_redis g c Hg expire hs code text req l w m Hgob Hexp Hbody Htext Htr Hr Hh Ht Hk)
    as (w1 & b & n & Hrun & Hhead & Hwire & Hdec & Hn & Hm1).
  exists w1, b, n. do 6 (split; [done|]). intros handler l2 w2 m2 d Htr2 Hr2 Hl2 Ht2 Hk2. cbn zeta.
  destruct (String.eqb_spec (hdr_Get (headers_of hs ∅) "x-okay-to-cache") EmptyString) as [Hno|Hokay].
  - apply (page_again g c Hg expire handler req l2 w2 m2 b d 0 h _ Hdec); [|done..]. unfold h. by rewrite hdr_Get_default.
  - destruct (page_from_redis g c Hg expire handler req l2 w2 m2 b d 0 h _ Hdec) as (w3 & Hr3 & Hh3 & Hb3); [| |done..|by rewrite Hr3].
    + unfold h. by rewrite hdr_Get_default.
    + apply header_ok_default; [reflexivity|]. apply headers_of_ok. intros k vs. by rewrite lookup_empty.
Qed.
End store.

(** ** An instance *)
Section page_witness.
(** An encoding of pages: a byte for each bit of stdpp's encoding of their contents. *)
Fixpoint bits_of (p : positive) : list byte :=
  match p with xH => [] | xO p => x00 :: bits_of p | xI p => x01 :: bits_of p end.
Fixpoint of_bits (b : list byte) : positive :=
  match b with [] => xH | x00 :: b => xO (of_bits b) | _ :: b => xI (of_bits b) end.

Lemma of_bits_of p : of_bits (bits_of p) = p.
Proof. induction p as [p IH|p IH|]; simpl; by rewrite ?IH. Qed.

Definition bits_enc (f : flat) : error + list byte :=
  match f with
  | FPage st (Some h) (Some body) => inr (bits_of (encode (st, h, byte_to_Z <$> body)))
  | _ => inl (ErrMsg "gob")
  end.
Definition bits_dec (b : list byte) (dest : flat) : option error * flat :=
  match decode (of_bits b) with
  | Some (st, h, body) => (None, FPage st (Some h) (Some (byte_of_Z <$> body)))
  | None => (Some (ErrMsg "gob"), dest)
  end.

Lemma bits_pages : gob_pages bits_enc bits_dec.
Proof.
  intros st h body _ _. eexists. split; [reflexivity|]. unfold bits_dec. rewrite of_bits_of, decode_encode.
  do 2 f_equal. f_equal. rewrite <- list_fmap_compose. rewrite <- (list_fmap_id body) at 2.
  apply list_fmap_ext. intros i b _. by destruct b.
Qed.

(** A server whose clock stops, an empty database, and an encrypting cache. *)
Definition sclock3 (i : nat) : Z := Z.min (100 * Z.of_nat i) 400.
Lemma sclock3_mono i j : (i <= j)%nat -> sclock3 i <= sclock3 j.
Proof. unfold sclock3. lia. Qed.

Definition paged_redis : GenericCache RedisStore RedisStore :=
  NewCacheWithPool (CRedis store1) Writable L2 "seekrit" 30 (Some (bytes_of_string "test")) true.
Definition w_paged : world (hstate (redis_state redis_db)) :=
  World (mkH (mkRS ∅ 0 0) {[7%nat := ∅]} ∅ (new_response 7 false) ∅ []) 0 [].
#[local] Instance bits_server : Handler redisE (redis_state redis_db) := the_server sclock3.
#[local] Instance bits_store : CacheStore (heapE redisE) RedisStore := paged_RedisStore quote1 bits_enc bits_dec.
#[local] Instance bits_ops : RedisOps (heapE redisE) RedisStore := paged_RedisOps quote1.
#[local] Instance bits_cache : CacheStore (heapE redisE) (GenericCache RedisStore RedisStore) :=
  paged_cache quote1 bits_enc bits_dec (fun _ => inl (ErrMsg "gob")).

(** The page of the example server, twice: the second time its handler does not run. *)
Lemma page_over_redis_witness : exists w1,
  run clk (CachePage by_key paged_redis (5 * Minute) cached_page req1) w_paged = (Done tt, w1) /\
  wire_body (resp (w_state w1)) = bytes_of_string ("Cached Hello world!" +:+ newline) /\
  let later := run clk (CachePage by_key paged_redis (5 * Minute) (Panic "not run") req1) (set_state w1 (next_request (w_state w1) 8)) in
  later.1 = Done tt /\ wire_body (resp (w_state later.2)) = bytes_of_string ("Cached Hello world!" +:+ newline).
Proof.
  pose proof (page_over_redis quote1 bits_enc bits_dec sclock3 clk sclock3_mono (fun _ => inl (ErrMsg "gob")) by_key by_key_perm
    paged_redis store1 (5 * Minute) [("x-okay-to-cache", "true")] 200 ("Cached Hello world!" +:+ newline) req1 7 w_paged ∅
    ltac:(reflexivity) bits_pages ltac:(right; reflexivity) ltac:(reflexivity) ltac:(discriminate)
    ltac:(reflexivity) ltac:(reflexivity) ltac:(reflexivity) ltac:(intros t _; reflexivity) ltac:(reflexivity)) as Hpage.
  destruct Hpage as (w1 & b & n & Hr1 & _ & Hb1 & _ & Hn & (m1 & Ht1) & Hnext).
  specialize (Hnext (Panic "not run") 8%nat (set_state w1 (next_request (w_state w1) 8))
    (<[urlEscape PageCachePrefix (RequestURI req1) := (b, deadline store1 (5 * Minute) (sclock3 n))]> m1)
    (deadline store1 (5 * Minute) (sclock3 n))).
  exists w1. split; [exact Hr1|]. split; [exact Hb1|].
  destruct Hnext as (Hr2 & _ & Hb2); [reflexivity|reflexivity|apply lookup_insert_eq|exact Ht1| |split; [exact Hr2|exact Hb2]].
  rewrite lookup_seen, lookup_insert_eq. apply decide_True.
  change (deadline store1 (5 * Minute) (sclock3 n)) with (Some (sclock3 n + 300000)). unfold alive, sclock3. simpl. lia.
Defined.
End page_witness.
